(** * tidyms / dartms: clustering, bracketing and blank subtraction

    A shallow embedding of the algorithmic core of [src/tidyms/dartms.py]
    and the properties its specification states about it.

    Conventions of the embedding.
    - A numpy [float64] array is a [list Q]: arithmetic is the exact
      arithmetic of the rationals, so the rounding of the machine is
      not modelled.  Where the source uses [NaN] as a marker for a
      missing value, the cell type [xfloat] carries it explicitly.
    - A numpy integer array (cluster ids, [used] flags) is a [list Z];
      positions are [nat].
    - A boolean mask is a [list bool]; [a[mask]] is [sel mask a].
    - [while] loops take a [fuel : nat] and return [None] when the fuel
      runs out; termination statements give a sufficient amount.
    - Python exceptions are values of [result].
    - Where the rounding of [float64] decides what the source returns
      (the window and the distances of [find_feature], [math.floor] of
      a product in [drop_lower_spectra]), the rounded values are
      parameters of the definition. *)

From Stdlib Require Import QArith Qabs Qminmax Lqa Qround.
From stdpp Require Import base list sorting strings gmap pretty.

(** ** numpy primitives *)

Module Np.

(** [a == v] for an integer array. *)
Definition eq_mask (v : Z) (a : list Z) : list bool := map (Z.eqb v) a.

(** [a[mask]]: boolean indexing. *)
Fixpoint sel {A} (mask : list bool) (a : list A) : list A :=
  match mask, a with
  | b :: mask', x :: a' => if b then x :: sel mask' a' else sel mask' a'
  | _, _ => []
  end.

(** [np.sum(mask)]. *)
Definition count_true (mask : list bool) : nat := length (List.filter (λ b : bool, b) mask).

(** [np.argwhere(mask)] (flattened). *)
Definition argwhere (mask : list bool) : list nat := sel mask (seq 0 (length mask)).

(** [a[mask] = v]. *)
Definition set_mask {A} (mask : list bool) (v : A) (a : list A) : list A :=
  zip_with (λ (b : bool) x, if b then v else x) mask a.

(** Insertion of an id into a strictly ascending list of ids. *)
Fixpoint uinsert (x : Z) (l : list Z) : list Z :=
  match l with
  | [] => [x]
  | y :: l' =>
      if (x <? y)%Z then x :: l
      else if (x =? y)%Z then l
      else y :: uinsert x l'
  end.

(** [np.unique(a)]: the distinct values of [a], ascending. *)
Definition unique (a : list Z) : list Z := foldr uinsert [] a.

(** Number of occurrences of [v], the [return_counts] of [np.unique]. *)
Definition count (v : Z) (a : list Z) : nat := count_true (eq_mask v a).

Definition unique_counts (a : list Z) : list nat := map (λ v, count v a) (unique a).

End Np.

(** ** reindex_cluster *)

Definition reindex_step (cluster : list Z) (st : list Z * Z) (clustInd : Z) : list Z * Z :=
  let '(newClust, use) := st in
  (Np.set_mask (Np.eq_mask clustInd cluster) use newClust, (use + 1)%Z).

Definition reindex_cluster (cluster : list Z) : list Z :=
  let newClust := replicate (length cluster) 0%Z in
  let clustInds := Np.unique cluster in
  fst (fold_left (reindex_step cluster) clustInds (newClust, 0%Z)).

(** ** Exceptions *)

Inductive exn : Type :=
  | IndexError
  | KeyError
  | ValueError
  | AssertionError
  | ZeroDivisionError
  | RuntimeError (msg : string).

Inductive result (A : Type) : Type :=
  | Ok (a : A)
  | Raise (e : exn).
Arguments Ok {A} a.
Arguments Raise {A} e.

#[global] Instance result_bind : MBind result := λ A B f r,
  match r with
  | Ok a => f a
  | Raise e => Raise e
  end.

#[global] Instance result_ret : MRet result := λ A a, Ok a.

(** ** Comparisons and folds on rationals *)

Definition Qltb (x y : Q) : bool := negb (Qle_bool y x).

(** [np.sum] of a float array. *)
Definition Qsum (a : list Q) : Q := fold_left Qplus a 0%Q.

(** The factor [1E6] of the PPM formulas. *)
Definition ppm_factor : Q := 1000000%Q.

Module NpSort.

(** Insertion of a keyed position in front of the first larger-or-equal
    key: positions with equal keys keep their order. *)
Fixpoint kinsert {A} (leb : A → A → bool) (x : A * nat) (l : list (A * nat)) : list (A * nat) :=
  match l with
  | [] => [x]
  | y :: l' => if leb x.1 y.1 then x :: l else y :: kinsert leb x l'
  end.

Definition ksort {A} (leb : A → A → bool) (l : list (A * nat)) : list (A * nat) :=
  foldr (kinsert leb) [] l.

(** [np.argsort(a)]: the positions of [a] in ascending order of their
    values (stable, as numpy's sort is on short arrays). *)
Definition argsort {A} (leb : A → A → bool) (a : list A) : list nat :=
  (ksort leb (zip a (seq 0 (length a)))).*2.

(** [a[idx]] for an integer index array; a position outside [a] raises. *)
Fixpoint take_idx {A} (a : list A) (idx : list nat) : result (list A) :=
  match idx with
  | [] => Ok []
  | i :: idx' =>
      match a !! i with
      | Some x => r ← take_idx a idx' ; Ok (x :: r)
      | None => Raise IndexError
      end
  end.

(** [np.cumsum], started from [acc]. *)
Fixpoint cumsum_from (acc : Z) (a : list Z) : list Z :=
  match a with
  | [] => []
  | x :: a' => (acc + x)%Z :: cumsum_from (acc + x)%Z a'
  end.

Definition cumsum (a : list Z) : list Z := cumsum_from 0%Z a.

End NpSort.

(** ** crude_cluster_mz_list *)

(** [(mz_[1:elems] - mz_[0:(elems-1)]) / mz_[0:(elems-1)] * 1E6] *)
Definition diffsPPM (mz_ : list Q) : list Q :=
  let elems := length mz_ in
  zip_with (λ hi lo, (hi - lo) / lo * ppm_factor)%Q
           (drop 1 (take elems mz_)) (take (elems - 1) mz_).

Definition crude_cluster_mz_list (sample : string) (mz intensity : list Q)
    (min_difference_ppm : Q) : result (list Z) :=
  let mzOrd := NpSort.argsort Qle_bool mz in
  mz_ ← NpSort.take_idx mz mzOrd ;
  intensity_ ← NpSort.take_idx intensity mzOrd ;
  let clust :=
    0%Z :: NpSort.cumsum (map (λ d, if Qltb min_difference_ppm d then 1%Z else 0%Z)
                              (diffsPPM mz_)) in
  NpSort.take_idx clust (NpSort.argsort Nat.leb mzOrd).

(** ** Loops and float cells *)

(** A [for] loop whose body may raise. *)
Fixpoint for_each {S X} (body : S → X → result S) (xs : list X) (s : S) : result S :=
  match xs with
  | [] => Ok s
  | x :: xs' => s' ← body s x; for_each body xs' s'
  end.

(** [enumerate(xs)]. *)
Definition enumerate {X} (xs : list X) : list (nat * X) := zip (seq 0 (length xs)) xs.

(** A [float64] where the source distinguishes the special values:
    [NaN] marks a missing cell, the infinities arise from a division by
    zero.  Signed zeros are not distinguished. *)
Inductive xfloat : Type :=
  | NaN
  | PInf
  | NInf
  | Fin (q : Q).

Module XFloat.

Definition isnan (x : xfloat) : bool :=
  match x with NaN => true | _ => false end.

Definition add (x y : xfloat) : xfloat :=
  match x, y with
  | NaN, _ | _, NaN => NaN
  | PInf, NInf | NInf, PInf => NaN
  | PInf, _ | _, PInf => PInf
  | NInf, _ | _, NInf => NInf
  | Fin a, Fin b => Fin (a + b)
  end.

Definition neg (x : xfloat) : xfloat :=
  match x with
  | NaN => NaN
  | PInf => NInf
  | NInf => PInf
  | Fin a => Fin (- a)
  end.

Definition div (x y : xfloat) : xfloat :=
  match x, y with
  | NaN, _ | _, NaN => NaN
  | (PInf | NInf), (PInf | NInf) => NaN
  | Fin _, (PInf | NInf) => Fin 0
  | PInf, Fin b => if Qltb b 0 then NInf else PInf
  | NInf, Fin b => if Qltb b 0 then PInf else NInf
  | Fin a, Fin b =>
      if Qeq_bool b 0 then
        if Qeq_bool a 0 then NaN else if Qltb 0 a then PInf else NInf
      else Fin (a / b)
  end.

(** [x <= y]; false as soon as one side is [NaN]. *)
Definition leb (x y : xfloat) : bool :=
  match x, y with
  | NaN, _ | _, NaN => false
  | NInf, _ | _, PInf => true
  | PInf, _ | _, NInf => false
  | Fin a, Fin b => Qle_bool a b
  end.

Definition sum (a : list xfloat) : xfloat := fold_left add a (Fin 0).

(** [np.mean]; [NaN] on an empty array. *)
Definition mean (a : list xfloat) : xfloat :=
  div (sum a) (Fin (inject_Z (Z.of_nat (length a)))).

(** [a[~np.isnan(a)]] *)
Definition drop_nan (a : list xfloat) : list xfloat :=
  Np.sel (map (λ x, negb (isnan x)) a) a.

(** [np.sum(~np.isnan(a))] *)
Definition count_not_nan (a : list xfloat) : nat :=
  Np.count_true (map (λ x, negb (isnan x)) a).

End XFloat.

(** ** Spectra, assay, data matrix *)

(** The consensus spectrum of a sample, as [bracket_samples] and
    [build_data_matrix] read it. *)
Record spectrum : Type := {
  spectrum_mz : list Q;
  spectrum_original_mz : list Q;
  spectrum_spint : list Q;
  spectrum_startRT : Q;
  spectrum_endRT : Q
}.

(** What the functions consume of an [Assay]: the sample names of
    [assay.manager.get_sample_names()], the spectra of
    [assay.get_ms_data(sample)], and the group of
    [assay.manager.get_sample_metadata()]. *)
Record assay : Type := {
  get_sample_names : list string;
  get_ms_data : string → list spectrum;
  get_sample_group : string → string
}.

(** A two-dimensional [float64] array with its shape. *)
Record matrix : Type := {
  shape0 : nat;
  shape1 : nat;
  rows : list (list xfloat)
}.

Module Mat.

(** [np.zeros((n, m))] *)
Definition zeros (n m : nat) : matrix :=
  {| shape0 := n; shape1 := m; rows := replicate n (replicate m (Fin 0)) |}.

(** [dat[i, j] = v]; a position outside the array raises. *)
Definition set (dat : matrix) (i j : nat) (v : xfloat) : result matrix :=
  if decide (i < shape0 dat ∧ j < shape1 dat) then
    Ok {| shape0 := shape0 dat; shape1 := shape1 dat;
          rows := alter (λ row, <[j := v]> row) i (rows dat) |}
  else Raise IndexError.

(** [dat[i, j]] *)
Definition get (dat : matrix) (i j : nat) : result xfloat :=
  match rows dat !! i with
  | Some row => match row !! j with Some v => Ok v | None => Raise IndexError end
  | None => Raise IndexError
  end.

(** [dat[inds, j]] *)
Fixpoint get_rows (dat : matrix) (inds : list nat) (j : nat) : result (list xfloat) :=
  match inds with
  | [] => Ok []
  | i :: inds' => v ← get dat i j; r ← get_rows dat inds' j; Ok (v :: r)
  end.

(** [dat[:, j]] *)
Definition get_col (dat : matrix) (j : nat) : result (list xfloat) :=
  get_rows dat (seq 0 (shape0 dat)) j.

End Mat.

(** ** build_data_matrix *)

(** [dict(((sample, i) for i, sample in enumerate(sampleNames)))]: a
    later occurrence of a name replaces an earlier one. *)
Definition sampleNamesToRowI (sampleNames : list string) : gmap string nat :=
  fold_left (λ (m : gmap string nat) '(i, sample), <[sample := i]> m)
            (enumerate sampleNames) ∅.

(** [use = np.logical_and(spectrum.mz >= mzmin, spectrum.mz <= mzmax)] *)
Definition window_mask (sp : spectrum) (mzmin mzmax : Q) : list bool :=
  zip_with andb (map (λ m, Qle_bool mzmin m) (spectrum_mz sp))
                (map (λ m, Qle_bool m mzmax) (spectrum_mz sp)).

(** The value stored for one sample and one bracket. *)
Definition window_cell (sp : spectrum) (mzmin mzmax : Q) : xfloat :=
  let use := window_mask sp mzmin mzmax in
  if 0 <? Np.count_true use then Fin (Qsum (Np.sel use (spectrum_spint sp)))
  else NaN.

Definition build_data_matrix_bracket {I} (rowI : gmap string nat) (sample : string)
    (sp : spectrum) (dataMatrix : matrix) (b : nat * (Q * Q * Q * I)) : result matrix :=
  let '(braci, (mzmin, meanmz, mzmax, _)) := b in
  match rowI !! sample with
  | Some row => Mat.set dataMatrix row braci (window_cell sp mzmin mzmax)
  | None => Raise KeyError
  end.

Definition build_data_matrix_sample {I} (a : assay) (rowI : gmap string nat)
    (bracketing_results : list (Q * Q * Q * I))
    (dataMatrix : matrix) (s : nat * string) : result matrix :=
  let '(samplei, sample) := s in
  match get_ms_data a sample !! 0 with
  | Some sp =>
      for_each (build_data_matrix_bracket rowI sample sp)
               (enumerate bracketing_results) dataMatrix
  | None => Raise IndexError
  end.

Definition build_data_matrix {I} (a : assay) (bracketing_results : list (Q * Q * Q * I))
    : result (list string * list (Q * Q * Q * I) * matrix) :=
  let sampleNames := get_sample_names a in
  let rowI := sampleNamesToRowI sampleNames in
  let dataMatrix := Mat.zeros (length sampleNames) (length bracketing_results) in
  dataMatrix ← for_each (build_data_matrix_sample a rowI bracketing_results)
                        (enumerate sampleNames) dataMatrix;
  Ok (sampleNames, bracketing_results, dataMatrix).

(** The signals of a spectrum whose mass lies in [[lo, hi]], with their
    intensities. *)
Definition signals_in_window (sp : spectrum) (lo hi : Q) : list (Q * Q) :=
  List.filter (λ p : Q * Q, Qle_bool lo p.1 && Qle_bool p.1 hi)
              (zip (spectrum_mz sp) (spectrum_spint sp)).

(** A matrix whose rows agree with its shape. *)
Definition matrix_wf (M : matrix) : Prop :=
  length (rows M) = shape0 M ∧ Forall (λ row, length row = shape1 M) (rows M).

(** The cell of one bracket for a spectrum. *)
Definition bracket_cell {I} (sp : spectrum) (br : Q * Q * Q * I) : xfloat :=
  let '(mzmin, _, mzmax, _) := br in window_cell sp mzmin mzmax.

(** The row a sample's pass leaves behind. *)
Definition sample_row {I} (sp : spectrum) (brackets : list (Q * Q * Q * I)) : list xfloat :=
  map (bracket_cell sp) brackets.

(** Two samples and one bracket window [[100, 101]]: sample A has one
    signal of intensity 0 inside the window, sample B has none. *)
Definition example_spectrum_A : spectrum :=
  {| spectrum_mz := [100.2; 150]%Q; spectrum_original_mz := [100.2; 150]%Q;
     spectrum_spint := [0; 7]%Q; spectrum_startRT := 0%Q; spectrum_endRT := 10%Q |}.

Definition example_spectrum_B : spectrum :=
  {| spectrum_mz := [99; 150.1]%Q; spectrum_original_mz := [99; 150.1]%Q;
     spectrum_spint := [3; 4]%Q; spectrum_startRT := 20%Q; spectrum_endRT := 30%Q |}.

Definition example_assay : assay :=
  {| get_sample_names := ["A"; "B"]%string;
     get_ms_data := λ s, if String.eqb s "A" then [example_spectrum_A] else [example_spectrum_B];
     get_sample_group := λ s, if String.eqb s "A" then "blank"%string else "test"%string |}.

Definition example_brackets : list (Q * Q * Q * unit) := [(100, 100.5, 101, tt)]%Q.

(** ** blank_subtraction *)

(** [[i for i, group in enumerate(groups) if group == g]] *)
Definition group_inds (groups : list string) (g : string) : list nat :=
  (List.filter (λ p : nat * string, String.eqb p.2 g) (enumerate groups)).*1.

(** [keeps[featurei] = v] on a Python list. *)
Definition keeps_set (keeps : list Z) (featurei : nat) (v : Z) : result (list Z) :=
  if decide (featurei < length keeps) then Ok (<[featurei := v]> keeps) else Raise IndexError.

(** [keeps[featurei]] *)
Definition keeps_get (keeps : list Z) (featurei : nat) : result Z :=
  match keeps !! featurei with
  | Some k => Ok k
  | None => Raise IndexError
  end.

(** [assert c] *)
Definition assert (c : bool) : result unit :=
  if c then Ok tt else Raise AssertionError.

Section blank_subtraction.

(** The p-value of [scipy.stats.ttest_ind(a, b, equal_var = False,
    alternative = 'two-sided', trim = 0)]. *)
Variable ttest_ind : list xfloat → list xfloat → xfloat.

Variables (dat : matrix) (groups : list string) (blankGroup : string).
Variables (foldCutoff pvalueCutoff : Q) (minDetected : Z).

(** One round of the loop over [toTestGroups], for a feature whose
    blank values are [valsBlanks] (without the missing ones). *)
Definition blank_subtraction_group (featurei : nat) (notInBlanks : bool)
    (valsBlanks : list xfloat) (keeps : list Z) (toTestGroup : string) : result (list Z) :=
  let toTestInds := group_inds groups toTestGroup in
  valsGroup ← Mat.get_rows dat toTestInds featurei;
  if (Z.of_nat (XFloat.count_not_nan valsGroup) <? minDetected)%Z then
    Ok keeps
  else if notInBlanks then
    k ← keeps_get keeps featurei;
    _ ← assert (k <=? 0)%Z;
    keeps_set keeps featurei (k - 1)%Z
  else
    let valsGroup := XFloat.drop_nan valsGroup in
    let pval := ttest_ind valsBlanks valsGroup in
    let fold := XFloat.div (XFloat.mean valsGroup) (XFloat.mean valsBlanks) in
    let sigInd := XFloat.leb pval (Fin pvalueCutoff) && XFloat.leb (Fin foldCutoff) fold in
    k ← keeps_get keeps featurei;
    _ ← assert (0 <=? k)%Z;
    if sigInd then keeps_set keeps featurei (k + 1)%Z else Ok keeps.

(** The body of the loop over the features. *)
Definition blank_subtraction_feature (toTestGroups : list string)
    (keeps : list Z) (featurei : nat) : result (list Z) :=
  let blankInds := group_inds groups blankGroup in
  valsBlanks ← Mat.get_rows dat blankInds featurei;
  col ← Mat.get_col dat featurei;
  if (Z.of_nat (XFloat.count_not_nan col) <? minDetected)%Z then
    Ok keeps
  else
    let notInBlanks := forallb XFloat.isnan valsBlanks in
    let valsBlanks := XFloat.drop_nan valsBlanks in
    for_each (blank_subtraction_group featurei notInBlanks valsBlanks) toTestGroups keeps.

(** The signed counters [keeps] after the loop over the features. *)
Definition blank_subtraction_keeps (toTestGroups : list string) : result (list Z) :=
  let keeps := replicate (shape1 dat) 0%Z in
  for_each (blank_subtraction_feature toTestGroups) (seq 0 (shape1 dat)) keeps.

(** [return [k != 0 for k in keeps]] *)
Definition blank_subtraction (toTestGroups : list string) : result (list bool) :=
  keeps ← blank_subtraction_keeps toTestGroups;
  Ok (map (λ k, negb (k =? 0)%Z) keeps).

End blank_subtraction.

(** The inputs under which no index of [blank_subtraction] leaves the
    matrix: one group label per row. *)
Definition blank_input_wf (dat : matrix) (groups : list string) : Prop :=
  matrix_wf dat ∧ length groups = shape0 dat.

(** The direction in which a counter may move: down when the feature
    is not in the blanks, up otherwise. *)
Definition counter_moves (notInBlanks : bool) (k k' : Z) : Prop :=
  if notInBlanks then (k' ≤ k)%Z else (k ≤ k')%Z.

(** What the pass over feature [featurei] leaves in its counter [k]:
    [0] when the feature has fewer than [minDetected] detections, and a
    value on the side of [0] that the blank values determine. *)
Definition feature_counter_ok (dat : matrix) (groups : list string) (blankGroup : string)
    (minDetected : Z) (featurei : nat) (k : Z) : Prop :=
  ∃ valsBlanks col,
    Mat.get_rows dat (group_inds groups blankGroup) featurei = Ok valsBlanks ∧
    Mat.get_col dat featurei = Ok col ∧
    ((Z.of_nat (XFloat.count_not_nan col) < minDetected)%Z → k = 0%Z) ∧
    counter_moves (forallb XFloat.isnan valsBlanks) 0 k.

(** A matrix of two blank and two test samples with three features:
    the first is missing in the blanks, the second is ten times higher
    in the test group, the third is detected once only. *)
Definition example_dat : matrix :=
  {| shape0 := 4; shape1 := 3;
     rows := [ [NaN;   Fin 10;  NaN];
               [NaN;   Fin 11;  NaN];
               [Fin 5; Fin 100; NaN];
               [Fin 6; Fin 110; Fin 5] ] |}.

Definition example_groups : list string := ["blank"; "blank"; "test"; "test"]%string.

(** A stand-in for the t-test that always reports [p = 0.001]. *)
Definition example_ttest (a b : list xfloat) : xfloat := Fin 0.001.

(** ** collapse_mz_info *)

(** [a[j] += v] *)
Definition add_at (a : list Q) (j : nat) (v : Q) : result (list Q) :=
  match a !! j with
  | Some x => Ok (<[j := (x + v)%Q]> a)
  | None => Raise IndexError
  end.

(** [a[i]] on a one-dimensional array. *)
Definition at_index {A} (a : list A) (i : nat) : result A :=
  match a !! i with
  | Some x => Ok x
  | None => Raise IndexError
  end.

(** The body of the loop over the signals. *)
Definition collapse_accumulate (mz intensity : list Q) (cluster : list Z)
    (st : list Q * list Q) (i : nat) : result (list Q * list Q) :=
  let '(mz_, intensity_) := st in
  j ← at_index cluster i;
  if (0 <=? j)%Z then
    m ← at_index mz i;
    x ← at_index intensity i;
    mz_ ← add_at mz_ (Z.to_nat j) (m * x)%Q;
    intensity_ ← add_at intensity_ (Z.to_nat j) x;
    Ok (mz_, intensity_)
  else Ok st.

Definition collapse_mz_info (mz intensity : list Q) (cluster : list Z)
    (intensity_collapse_method : string) : result (list Q * list Q) :=
  let clusts := Np.unique cluster in
  let ns := Np.unique_counts cluster in
  let '(clusts, ns) :=
    if bool_decide ((-1)%Z ∈ clusts) then (drop 1 clusts, drop 1 ns) else (clusts, ns) in
  let mz_ := replicate (length clusts) 0%Q in
  let intensity_ := replicate (length clusts) 0%Q in
  '(mz_, intensity_) ← for_each (collapse_accumulate mz intensity cluster)
                                (seq 0 (length mz)) (mz_, intensity_);
  let mz_ := zip_with Qdiv mz_ intensity_ in
  intensity_ ←
    (if String.eqb intensity_collapse_method "sum" then Ok intensity_
     else if String.eqb intensity_collapse_method "average" then
       Ok (zip_with (λ x n, x / inject_Z (Z.of_nat n))%Q intensity_ ns)
     else if String.eqb intensity_collapse_method "max" then
       (* [np.max] turns the array into a scalar, which cannot be indexed *)
       match intensity_ with [] => Raise ValueError | _ => Raise IndexError end
     else Raise (RuntimeError
       "Unknown option for parameter intensity_collapse_method, allowed are 'sum' and 'average'"));
  let ord := NpSort.argsort Qle_bool mz_ in
  mz_ ← NpSort.take_idx mz_ ord;
  intensity_ ← NpSort.take_idx intensity_ ord;
  Ok (mz_, intensity_).

(** The signals of cluster [j]: their products [mz * intensity], their
    intensities, and the two sums the collapse is made of. *)
Definition cluster_weighted_sum (mz intensity : list Q) (cluster : list Z) (j : Z) : Q :=
  Qsum (Np.sel (Np.eq_mask j cluster) (zip_with Qmult mz intensity)).

Definition cluster_total (intensity : list Q) (cluster : list Z) (j : Z) : Q :=
  Qsum (Np.sel (Np.eq_mask j cluster) intensity).

(** The non-sentinel ids are exactly [0..k-1]. *)
Definition dense_ids (cluster : list Z) (k : nat) : Prop :=
  (∀ c, c ∈ cluster → (-1 ≤ c < Z.of_nat k)%Z) ∧
  (∀ j, j < k → Z.of_nat j ∈ cluster).

(** The two accumulators of [collapse_mz_info] after the first [i]
    signals: cell [j] holds the sums over the signals of cluster [j]
    seen so far. *)
Definition collapse_state_at (mz intensity : list Q) (cluster : list Z) (k i : nat)
    (st : list Q * list Q) : Prop :=
  length st.1 = k ∧ length st.2 = k ∧
  ∀ j, j < k →
    st.1 !! j = Some (cluster_weighted_sum (take i mz) (take i intensity)
                        (take i cluster) (Z.of_nat j)) ∧
    st.2 !! j = Some (cluster_total (take i intensity) (take i cluster) (Z.of_nat j)).

(** ** Reductions over float arrays *)

#[global] Instance Q_inhabited : Inhabited Q := populate 0%Q.

Module NpRed.

Fixpoint argmax_from (best_i : nat) (best : Q) (i : nat) (a : list Q) : nat :=
  match a with
  | [] => best_i
  | x :: a' =>
      if Qltb best x then argmax_from i x (S i) a' else argmax_from best_i best (S i) a'
  end.

(** [np.argmax(a)]: the first position of the largest value. *)
Definition argmax (a : list Q) : nat :=
  match a with
  | [] => 0
  | x :: a' => argmax_from 0 x 1 a'
  end.

Fixpoint argmin_from (best_i : nat) (best : Q) (i : nat) (a : list Q) : nat :=
  match a with
  | [] => best_i
  | x :: a' =>
      if Qltb x best then argmin_from i x (S i) a' else argmin_from best_i best (S i) a'
  end.

(** [np.argmin(a)]: the first position of the smallest value. *)
Definition argmin (a : list Q) : nat :=
  match a with
  | [] => 0
  | x :: a' => argmin_from 0 x 1 a'
  end.

(** [np.max(a)] and [np.min(a)] of a non-empty array. *)
Definition max (a : list Q) : Q :=
  match a with
  | [] => 0%Q
  | x :: a' => fold_left (λ m y, if Qltb m y then y else m) a' x
  end.

Definition min (a : list Q) : Q :=
  match a with
  | [] => 0%Q
  | x :: a' => fold_left (λ m y, if Qltb y m then y else m) a' x
  end.

(** [np.mean(a)], [np.average(a)] *)
Definition mean (a : list Q) : Q := (Qsum a / inject_Z (Z.of_nat (length a)))%Q.

(** [intensity * mask]: a boolean array counts as 0.0 and 1.0. *)
Definition mul_mask (a : list Q) (mask : list bool) : list Q :=
  zip_with (λ x (b : bool), x * (if b then 1 else 0))%Q a mask.

End NpRed.

(** [(np.max(a) - np.min(a)) / np.mean(a) * 1E6]: the PPM spread. *)
Definition ppm_spread (a : list Q) : Q :=
  ((NpRed.max a - NpRed.min a) / NpRed.mean a * ppm_factor)%Q.

(** ** bracket_samples *)

(** The arrays of [temp], one entry per consensus signal of the whole
    collection.  [pool_intensity] holds [np.log10] of the intensities. *)
Record pool : Type := {
  pool_sample : list string;
  pool_sampleType : list string;
  pool_mz : list Q;
  pool_original_mz : list Q;
  pool_startRT : list Q;
  pool_endRT : list Q;
  pool_intensity : list Q
}.

(** One entry of [tempClusterInfo]. *)
Record cluster_info : Type := {
  info_cluster : Z;
  info_meanMZ : Q;
  info_minMZ : Q;
  info_maxMZ : Q;
  info_mzDevPPM : Q;
  info_assignedSamples : nat;
  info_uniqueSamples : nat
}.

(** What the [while] loop of [bracket_samples] updates. *)
Record bracket_state : Type := {
  bs_cluster : list Z;
  bs_cclust : Z;
  bs_info : list cluster_info
}.

Section bracketing.
Variable log10 : Q → Q.

(** The pooling loop over the samples and their spectra. *)
Definition pool_of_spectrum (sample sampleType : string) (sp : spectrum) : pool :=
  let n := length (spectrum_mz sp) in
  {| pool_sample := replicate n sample;
     pool_sampleType := replicate n sampleType;
     pool_mz := spectrum_mz sp;
     pool_original_mz := spectrum_original_mz sp;
     pool_startRT := replicate n (spectrum_startRT sp);
     pool_endRT := replicate n (spectrum_endRT sp);
     pool_intensity := map log10 (spectrum_spint sp) |}.

Definition pool_app (p q : pool) : pool :=
  {| pool_sample := pool_sample p ++ pool_sample q;
     pool_sampleType := pool_sampleType p ++ pool_sampleType q;
     pool_mz := pool_mz p ++ pool_mz q;
     pool_original_mz := pool_original_mz p ++ pool_original_mz q;
     pool_startRT := pool_startRT p ++ pool_startRT q;
     pool_endRT := pool_endRT p ++ pool_endRT q;
     pool_intensity := pool_intensity p ++ pool_intensity q |}.

Definition pool_empty : pool :=
  {| pool_sample := []; pool_sampleType := []; pool_mz := []; pool_original_mz := [];
     pool_startRT := []; pool_endRT := []; pool_intensity := [] |}.

Definition pool_of_assay (a : assay) : pool :=
  fold_left (λ p sample,
               fold_left (λ p sp, pool_app p (pool_of_spectrum sample (get_sample_group a sample) sp))
                         (get_ms_data a sample) p)
            (get_sample_names a) pool_empty.

End bracketing.

(** [c = np.argmax(temp["intensity"] * (temp["cluster"] == 0))] *)
Definition bracket_seed (p : pool) (cluster : list Z) : nat :=
  NpRed.argmax (NpRed.mul_mask (pool_intensity p) (Np.eq_mask 0 cluster)).

(** [np.abs(temp["mz"] - cmz) / temp["mz"] * 1E6 <= max_ppm_deviation]:
    the positions [np.where] returns, as a mask. *)
Definition bracket_assign (p : pool) (cmz max_ppm_deviation : Q) : list bool :=
  map (λ m, Qle_bool (Qabs (m - cmz) / m * ppm_factor) max_ppm_deviation) (pool_mz p).

(** [np.unique(a).shape[0]] for an array of names. *)
Definition count_unique (a : list string) : nat := length (remove_dups a).

(** One round of the [while] loop.  [np.min] of an empty selection
    raises. *)
Definition bracket_round (p : pool) (max_ppm_deviation : Q) (st : bracket_state)
    : result bracket_state :=
  let c := bracket_seed p (bs_cluster st) in
  let cmz := pool_mz p !!! c in
  let assign := bracket_assign p cmz max_ppm_deviation in
  let cluster := Np.set_mask assign (bs_cclust st) (bs_cluster st) in
  let mzs := Np.sel assign (pool_mz p) in
  match mzs with
  | [] => Raise ValueError
  | _ =>
      let info :=
        {| info_cluster := bs_cclust st;
           info_meanMZ := NpRed.mean mzs;
           info_minMZ := NpRed.min mzs;
           info_maxMZ := NpRed.max mzs;
           info_mzDevPPM := ppm_spread mzs;
           info_assignedSamples := Np.count_true assign;
           info_uniqueSamples := count_unique (Np.sel assign (pool_sample p)) |} in
      Ok {| bs_cluster := cluster;
            bs_cclust := (bs_cclust st + 1)%Z;
            bs_info := bs_info st ++ [info] |}
  end.

(** [while np.sum(temp["cluster"] == 0) > 0: ...] *)
Fixpoint bracket_loop (fuel : nat) (p : pool) (max_ppm_deviation : Q) (st : bracket_state)
    : option (result bracket_state) :=
  match fuel with
  | 0 => None
  | S fuel' =>
      if 0 <? Np.count 0 (bs_cluster st) then
        match bracket_round p max_ppm_deviation st with
        | Ok st' => bracket_loop fuel' p max_ppm_deviation st'
        | Raise e => Some (Raise e)
        end
      else Some (Ok st)
  end.

Definition bracket_init (p : pool) : bracket_state :=
  {| bs_cluster := replicate (length (pool_intensity p)) 0%Z;
     bs_cclust := 1%Z;
     bs_info := [] |}.

(** The brackets [bracket_samples] returns, as [(minMZ, meanMZ, maxMZ,
    info)]; the [sampleHulls] it attaches to each of them afterwards
    are left out. *)
Definition bracket_samples (log10 : Q → Q) (fuel : nat) (a : assay) (max_ppm_deviation : Q)
    : option (result (list (Q * Q * Q * cluster_info))) :=
  let p := pool_of_assay log10 a in
  match bracket_loop fuel p max_ppm_deviation (bracket_init p) with
  | None => None
  | Some (Raise e) => Some (Raise e)
  | Some (Ok st) =>
      Some (Ok (map (λ i, (info_minMZ i, info_meanMZ i, info_maxMZ i, i)) (bs_info st)))
  end.

(** The pool of one sample with one spectrum of masses [mz], whose
    intensities after [np.log10] are [intensity]. *)
Definition pool_of_arrays (mz intensity : list Q) : pool :=
  {| pool_sample := replicate (length mz) "s"%string;
     pool_sampleType := replicate (length mz) "g"%string;
     pool_mz := mz; pool_original_mz := mz;
     pool_startRT := replicate (length mz) 0%Q;
     pool_endRT := replicate (length mz) 1%Q;
     pool_intensity := intensity |}.

(** Three consensus signals 20 ppm apart from one to the next, the
    middle one the weakest. *)
Definition chain_pool : pool := pool_of_arrays [100; 100.002; 100.004]%Q [3; 1; 2]%Q.

(** Two consensus signals far apart, the second of intensity [0.1],
    that is [-1] after [np.log10]. *)
Definition weak_pool : pool := pool_of_arrays [100; 200]%Q [2; -1]%Q.

(** ** refine_clustering *)

(** The arrays the refinement of one crude cluster updates. *)
Record refine_state : Type := {
  rs_used : list Z;
  rs_usedMZs : list Q;
  rs_newClusts : list Z;
  rs_maxClust : Z
}.

(** [np.max(clusts)] *)
Definition Zlist_max (a : list Z) : Z :=
  match a with
  | [] => 0%Z
  | x :: a' => fold_left Z.max a' x
  end.

Section refine_cluster.

Variables (clusts : list Z).
Variables (closest_signal_max_deviation_ppm : Q) (max_mz_deviation_ppm : option Q).
(** The signals of the crude cluster under refinement ([mzs[pos]],
    [intensities[pos]]) and their positions ([np.argwhere(pos)]). *)
Variables (mzs_ intensities_ : list Q) (pos : list nat).

(** [usedMZs[used == 1]] *)
Definition refine_current (st : refine_state) : list Q :=
  Np.sel (Np.eq_mask 1 (rs_used st)) (rs_usedMZs st).

(** [np.abs(mzs_ - ext) + np.abs(used) * 1E6] *)
Definition refine_distance (ext : Q) (used : list Z) : list Q :=
  zip_with (λ m u, Qabs (m - ext) + inject_Z (Z.abs u) * ppm_factor)%Q mzs_ used.

(** [used[i] = 1; usedMZs[i] = mzs_[i]; newClusts[pos[i]] = maxClust + 1] *)
Definition refine_mark (st : refine_state) (i : nat) : refine_state :=
  {| rs_used := <[i := 1%Z]> (rs_used st);
     rs_usedMZs := <[i := mzs_ !!! i]> (rs_usedMZs st);
     rs_newClusts := <[pos !!! i := (rs_maxClust st + 1)%Z]> (rs_newClusts st);
     rs_maxClust := rs_maxClust st |}.

(** The rejection of the tentative signal and the closing of the
    sub-cluster:
    [used[closest] = 0; usedMZs[closest] = 0;
     newClusts[pos[closest]] = clusts[pos[closest]];
     used = -np.abs(used); usedMZs = usedMZs * 0.; maxClust = maxClust + 1] *)
Definition refine_close (st : refine_state) (closest : nat) : refine_state :=
  {| rs_used := map (λ u, - Z.abs u)%Z (<[closest := 0%Z]> (rs_used st));
     rs_usedMZs := map (λ m, m * 0)%Q (<[closest := 0%Q]> (rs_usedMZs st));
     rs_newClusts := <[pos !!! closest := clusts !!! (pos !!! closest)]> (rs_newClusts st);
     rs_maxClust := (rs_maxClust st + 1)%Z |}.

(** The signal the growth step tries next. *)
Definition refine_closest (st : refine_state) : nat :=
  let tTop := refine_distance (NpRed.max (refine_current st)) (rs_used st) in
  let closestTop := NpRed.argmin tTop in
  let tLow := refine_distance (NpRed.min (refine_current st)) (rs_used st) in
  let closestLow := NpRed.argmin tLow in
  if Qltb (tTop !!! closestTop) (tLow !!! closestLow) then closestTop else closestLow.

(** The test that ends the growth of a sub-cluster. *)
Definition refine_stop (st : refine_state) (newPPMDev lastPPMDev : Q) : bool :=
  (Np.count 0 (rs_used st) =? 0)
  || Qltb closest_signal_max_deviation_ppm (newPPMDev - lastPPMDev)
  || match max_mz_deviation_ppm with
     | Some bound => Qltb bound newPPMDev
     | None => false
     end.

(** [while cont: ...] *)
Fixpoint refine_grow (fuel : nat) (st : refine_state) (lastPPMDev : Q) : option refine_state :=
  match fuel with
  | 0 => None
  | S fuel' =>
      let closest := refine_closest st in
      let st := refine_mark st closest in
      let newPPMDev := ppm_spread (refine_current st) in
      if refine_stop st newPPMDev lastPPMDev then Some (refine_close st closest)
      else refine_grow fuel' st (ppm_spread (refine_current st))
  end.

(** [while sum(used == 0) > 0: ...] *)
Fixpoint refine_seed_loop (gfuel fuel : nat) (st : refine_state) : option refine_state :=
  match fuel with
  | 0 => None
  | S fuel' =>
      if 0 <? Np.count 0 (rs_used st) then
        let c := NpRed.argmax (NpRed.mul_mask intensities_ (Np.eq_mask 0 (rs_used st))) in
        let st := refine_mark st c in
        let cont := 0 <? Np.count 0 (rs_used st) in
        if cont then
          match refine_grow gfuel st 0%Q with
          | Some st => refine_seed_loop gfuel fuel' st
          | None => None
          end
        else refine_seed_loop gfuel fuel' st
      else Some st
  end.

End refine_cluster.

(** The body of [for i, clust in enumerate(clustInds)]. *)
Definition refine_crude_cluster (fuel : nat) (mzs intensities : list Q) (clusts : list Z)
    (closest_signal_max_deviation_ppm : Q) (max_mz_deviation_ppm : option Q)
    (acc : list Z * Z) (ic : nat * Z) : option (list Z * Z) :=
  let '(newClusts, maxClust) := acc in
  let '(i, clust) := ic in
  let n := Np.count (Z.of_nat i) clusts in
  if 1 <? n then
    let maxClust := (maxClust + 1)%Z in
    let pos := Np.eq_mask clust clusts in
    let mzs_ := Np.sel pos mzs in
    let intensities_ := Np.sel pos intensities in
    let pos := Np.argwhere pos in
    let used := replicate (length mzs_) 0%Z in
    let usedMZs := replicate (length mzs_) 0%Q in
    st ← refine_seed_loop clusts closest_signal_max_deviation_ppm max_mz_deviation_ppm
           mzs_ intensities_ pos fuel fuel
           {| rs_used := used; rs_usedMZs := usedMZs;
              rs_newClusts := newClusts; rs_maxClust := maxClust |};
    Some (rs_newClusts st, rs_maxClust st)
  else Some acc.

Fixpoint refine_for (fuel : nat) (mzs intensities : list Q) (clusts : list Z)
    (closest_signal_max_deviation_ppm : Q) (max_mz_deviation_ppm : option Q)
    (ics : list (nat * Z)) (acc : list Z * Z) : option (list Z * Z) :=
  match ics with
  | [] => Some acc
  | ic :: ics' =>
      acc ← refine_crude_cluster fuel mzs intensities clusts
              closest_signal_max_deviation_ppm max_mz_deviation_ppm acc ic;
      refine_for fuel mzs intensities clusts
        closest_signal_max_deviation_ppm max_mz_deviation_ppm ics' acc
  end.

(** [refine_clustering]; [sample], [spectrumID] and
    [expected_mz_deviation_ppm] are not read, and [mzdevRSTD] is
    computed but not used.  [np.max] of an empty [clusts] raises. *)
Definition refine_clustering (fuel : nat) (sample : string) (mzs intensities : list Q)
    (spectrumID : list Z) (clusts : list Z)
    (expected_mz_deviation_ppm closest_signal_max_deviation_ppm : Q)
    (max_mz_deviation_ppm : option Q) : option (result (list Z)) :=
  match clusts with
  | [] => Some (Raise ValueError)
  | _ =>
      let clustInds := Np.unique clusts in
      let maxClust := Zlist_max clusts in
      let newClusts := clusts in
      acc ← refine_for fuel mzs intensities clusts
              closest_signal_max_deviation_ppm max_mz_deviation_ppm
              (enumerate clustInds) (newClusts, maxClust);
      Some (Ok acc.1)
  end.

(** *** Invariants of the refinement *)

(** [mzs[r == c]]: the masses of the signals that carry id [c]. *)
Definition cluster_mzs (mzs : list Q) (r : list Z) (c : Z) : list Q :=
  Np.sel (Np.eq_mask c r) mzs.

(** A sub-cluster of two or more signals respects the bound, when one
    is set. *)
Definition spread_ok (max_mz_deviation_ppm : option Q) (l : list Q) : Prop :=
  match max_mz_deviation_ppm with
  | Some bound => 2 ≤ length l → (ppm_spread l <= bound)%Q
  | None => True
  end.

(** Every cluster with an id above [lo] respects the bound. *)
Definition clusters_ok (mzs : list Q) (max_mz_deviation_ppm : option Q)
    (lo : Z) (r : list Z) : Prop :=
  ∀ c, (lo < c)%Z → spread_ok max_mz_deviation_ppm (cluster_mzs mzs r c).

Section refine_invariants.

Variables (mzs : list Q) (clusts : list Z).
(** The crude cluster [clust], the largest id [base] in use when its
    refinement starts, and the assignment [nc0] at that moment. *)
Variables (clust base : Z) (nc0 : list Z).

Let posmask := Np.eq_mask clust clusts.
Let pos := Np.argwhere posmask.
Let mzs_ := Np.sel posmask mzs.

(** The state of signal [j] of the crude cluster, at position [p] of
    the input: unassigned and carrying the crude id, closed into an
    earlier sub-cluster, or member of the growing sub-cluster. *)
Definition slot_ok (growing : bool) (st : refine_state) (j p : nat) : Prop :=
  ∃ u, rs_used st !! j = Some u ∧
    ((u = 0%Z ∧ rs_newClusts st !! p = Some clust) ∨
     (u = (-1)%Z ∧ ∃ c, rs_newClusts st !! p = Some c ∧ (base < c ≤ rs_maxClust st)%Z) ∨
     (growing = true ∧ u = 1%Z ∧ rs_newClusts st !! p = Some (rs_maxClust st + 1)%Z ∧
      rs_usedMZs st !! j = mzs_ !! j)).

Record refine_inv (growing : bool) (st : refine_state) : Prop := {
  ri_used_len : length (rs_used st) = length pos;
  ri_usedMZs_len : length (rs_usedMZs st) = length pos;
  ri_new_len : length (rs_newClusts st) = length clusts;
  ri_base : (base ≤ rs_maxClust st)%Z;
  ri_slot : ∀ j p, pos !! j = Some p → slot_ok growing st j p;
  ri_frame : ∀ p, posmask !! p = Some false → rs_newClusts st !! p = nc0 !! p;
  ri_cur : growing = true → ∃ j, rs_used st !! j = Some 1%Z
}.

(** What the refinement of the crude cluster leaves: every signal of
    the crude cluster carries a new id, the others are untouched. *)
Record refine_exit (st : refine_state) : Prop := {
  re_new_len : length (rs_newClusts st) = length clusts;
  re_base : (base ≤ rs_maxClust st)%Z;
  re_slot : ∀ j p, pos !! j = Some p →
              ∃ c, rs_newClusts st !! p = Some c ∧ (base < c ≤ rs_maxClust st + 1)%Z;
  re_frame : ∀ p, posmask !! p = Some false → rs_newClusts st !! p = nc0 !! p
}.

End refine_invariants.

(** The inputs the refinement is meant for: one intensity and one id
    per mass, positive intensities, masses between 0 and 1E6. *)
Record refine_input (mzs intensities : list Q) (clusts : list Z) : Prop := {
  rin_len_int : length intensities = length mzs;
  rin_len_clusts : length clusts = length mzs;
  rin_nonempty : clusts ≠ [];
  rin_int_pos : Forall (λ x, 0 < x)%Q intensities;
  rin_mz_range : Forall (λ m, 0 < m ∧ m < 1000000)%Q mzs
}.

(** The ids are [0..k-1], as [reindex_cluster] leaves them. *)
Definition reindexed_ids (clusts : list Z) : Prop :=
  ∃ k, Np.unique clusts = Z.of_nat <$> seq 0 k.

(** What the loop over the crude clusters maintains: the assignment
    [nc] and the counter [mc] after some crude clusters, with [rest]
    still to come. *)
Record refine_for_inv (mzs : list Q) (clusts : list Z) (max_mz_deviation_ppm : option Q)
    (rest : list (nat * Z)) (acc : list Z * Z) : Prop := {
  rf_len : length acc.1 = length clusts;
  rf_le : ∀ p v, acc.1 !! p = Some v → (v ≤ acc.2 + 1)%Z;
  rf_max : (Zlist_max clusts ≤ acc.2)%Z;
  rf_rest : ∀ p c, clusts !! p = Some c → c ∈ rest.*2 → acc.1 !! p = Some c;
  rf_ok : clusters_ok mzs max_mz_deviation_ppm (Zlist_max clusts) acc.1
}.

(** How the refinement treats the crude cluster [c], the [i]-th of
    [np.unique(clusts)]: its signals receive ids above the largest
    input id when [np.sum(clusts == i) > 1], and keep [c] otherwise. *)
Definition crude_cluster_refined (clusts : list Z) (r : list Z) (i : nat) (c : Z) : Prop :=
  ∀ p, clusts !! p = Some c →
    if 1 <? Np.count (Z.of_nat i) clusts
    then ∃ v, r !! p = Some v ∧ (Zlist_max clusts < v)%Z
    else r !! p = Some c.

(** Eight signals in three crude clusters, with reindexed ids. *)
Definition example_mzs : list Q :=
  [100; 100.0001; 100.0002; 100.01; 100.0101; 200; 300; 300.001]%Q.
Definition example_intensities : list Q := [5; 9; 3; 4; 8; 1; 2; 3]%Q.
Definition example_clusts : list Z := [0; 0; 0; 0; 0; 1; 2; 2]%Z.

(** The values [dat[inds, featurei]] of the samples of group [g]. *)
Definition group_values (dat : matrix) (groups : list string) (g : string)
    (featurei : nat) : list xfloat :=
  match Mat.get_rows dat (group_inds groups g) featurei with
  | Ok v => v
  | Raise _ => []
  end.

(** The values [dat[:, featurei]] of all samples. *)
Definition column_values (dat : matrix) (featurei : nat) : list xfloat :=
  match Mat.get_col dat featurei with
  | Ok v => v
  | Raise _ => []
  end.

(** The step of the counter for a tested group that moves it. *)
Definition vote_step (notInBlanks : bool) (b : bool) : Z :=
  if b then (if notInBlanks then -1 else 1)%Z else 0%Z.

(** Whether a tested group moves the counter of a feature: it has
    [minDetected] detections, and the feature is missing in the blanks
    or significantly higher in the group.  [valsBlanks] are the blank
    values without the missing ones. *)
Definition group_votes (ttest_ind : list xfloat → list xfloat → xfloat)
    (foldCutoff pvalueCutoff : Q) (minDetected : Z) (notInBlanks : bool)
    (valsBlanks valsGroup : list xfloat) : bool :=
  negb (Z.of_nat (XFloat.count_not_nan valsGroup) <? minDetected)%Z &&
  (notInBlanks ||
   (XFloat.leb (ttest_ind valsBlanks (XFloat.drop_nan valsGroup)) (Fin pvalueCutoff) &&
    XFloat.leb (Fin foldCutoff)
      (XFloat.div (XFloat.mean (XFloat.drop_nan valsGroup)) (XFloat.mean valsBlanks)))).

(** The counter [blank_subtraction] leaves for a feature. *)
Definition feature_votes (ttest_ind : list xfloat → list xfloat → xfloat)
    (dat : matrix) (groups : list string) (blankGroup : string)
    (foldCutoff pvalueCutoff : Q) (minDetected : Z) (toTestGroups : list string)
    (featurei : nat) : Z :=
  let valsBlanks := group_values dat groups blankGroup featurei in
  let notInBlanks := forallb XFloat.isnan valsBlanks in
  let votes :=
    Z.of_nat (length (List.filter
      (λ g, group_votes ttest_ind foldCutoff pvalueCutoff minDetected notInBlanks
              (XFloat.drop_nan valsBlanks) (group_values dat groups g featurei))
      toTestGroups)) in
  if (Z.of_nat (XFloat.count_not_nan (column_values dat featurei)) <? minDetected)%Z then 0%Z
  else if notInBlanks then (- votes)%Z else votes.

(** What [bracket_samples] records of a bracket is consistent: the
    bracket holds a signal, and its mean mass lies between its smallest
    and its largest mass. *)
Definition info_ok (i : cluster_info) : Prop :=
  1 ≤ info_assignedSamples i ∧
  (info_minMZ i <= info_meanMZ i)%Q ∧ (info_meanMZ i <= info_maxMZ i)%Q.

(** ** remove_blank_groups *)

(** [dat[inds, :]] *)
Definition take_rows (dat : matrix) (inds : list nat) : result matrix :=
  rows' ← NpSort.take_idx (rows dat) inds;
  Ok {| shape0 := length inds; shape1 := shape1 dat; rows := rows' |}.

(** The four aligned tables of [remove_blank_groups], and the blank
    groups a warning was issued for. *)
Record sample_table (B : Type) : Type := {
  tb_samples : list string;
  tb_groups : list string;
  tb_batches : list B;
  tb_dat : matrix;
  tb_warned : list string
}.
Arguments tb_samples {B} _.
Arguments tb_groups {B} _.
Arguments tb_batches {B} _.
Arguments tb_dat {B} _.
Arguments tb_warned {B} _.

(** The body of [for bGrp in blankGroups]. *)
Definition remove_blank_group {B} (t : sample_table B) (bGrp : string)
    : result (sample_table B) :=
  if bool_decide (bGrp ∈ tb_groups t) then
    let inds :=
      (List.filter (λ p : nat * string, negb (String.eqb p.2 bGrp))
         (enumerate (tb_groups t))).*1 in
    dat ← take_rows (tb_dat t) inds;
    samples ← NpSort.take_idx (tb_samples t) inds;
    groups ← NpSort.take_idx (tb_groups t) inds;
    batches ← NpSort.take_idx (tb_batches t) inds;
    Ok {| tb_samples := samples; tb_groups := groups; tb_batches := batches;
          tb_dat := dat; tb_warned := tb_warned t |}
  else
    Ok {| tb_samples := tb_samples t; tb_groups := tb_groups t;
          tb_batches := tb_batches t; tb_dat := tb_dat t;
          tb_warned := tb_warned t ++ [bGrp] |}.

Definition remove_blank_groups {B} (samples groups : list string) (batches : list B)
    (dat : matrix) (blankGroups : list string) : result (sample_table B) :=
  for_each remove_blank_group blankGroups
    {| tb_samples := samples; tb_groups := groups; tb_batches := batches;
       tb_dat := dat; tb_warned := [] |}.

(** The rows that survive the removal of the groups [blankGroups]. *)
Definition kept_rows (blankGroups groups : list string) : list bool :=
  map (λ g, negb (bool_decide (g ∈ blankGroups))) groups.

(** Three samples, the second one a blank. *)
Definition example_table_dat : matrix :=
  {| shape0 := 3; shape1 := 1; rows := [[Fin 1]; [Fin 2]; [Fin 3]] |}.

(** ** find_feature *)

(** [a[:, j]] for a two-dimensional array given by its rows. *)
Fixpoint column (a : list (list Q)) (j : nat) : result (list Q) :=
  match a with
  | [] => Ok []
  | row :: a' => x ← at_index row j; r ← column a' j; Ok (x :: r)
  end.

(** [calculate_mz_deviationPPM] *)
Definition calculate_mz_deviationPPM (a b : Q) : Q := ((a - b) / b * ppm_factor)%Q.

Section find_feature.

(** The arithmetic of [find_feature] is that of [float64]; its three
    expressions are taken as they are evaluated there:
    [mz * (1. + max_deviation_ppm / 1E6)],
    [mz * (1. - max_deviation_ppm / 1E6)] and [np.abs(f - mz)]. *)
Variables window_max window_min : Q → Q → Q.
Variable abs_diff : Q → Q → Q.

(** [find_feature]: [features] is the table of the features, one row
    per feature with the mass in column 1.  [np.argmin] of an empty
    column raises. *)
Definition find_feature (features : list (list Q)) (mz max_deviation_ppm : Q)
    : result (option nat) :=
  let mzmax := window_max mz max_deviation_ppm in
  let mzmin := window_min mz max_deviation_ppm in
  col ← column features 1;
  match col with
  | [] => Raise ValueError
  | _ =>
      let ind := NpRed.argmin (map (λ f, abs_diff f mz) col) in
      row ← at_index features ind;
      f ← at_index row 1;
      if Qle_bool mzmin f && Qle_bool f mzmax then Ok (Some ind) else Ok None
  end.

End find_feature.

(** The mass of feature [j]. *)
Definition feature_mz (features : list (list Q)) (j : nat) : option Q :=
  row ← features !! j; row !! 1.

(** The three expressions in exact arithmetic, which [float64] follows
    away from the borders of the window. *)
Definition exact_window_max (mz max_deviation_ppm : Q) : Q :=
  (mz * (1 + max_deviation_ppm / ppm_factor))%Q.
Definition exact_window_min (mz max_deviation_ppm : Q) : Q :=
  (mz * (1 - max_deviation_ppm / ppm_factor))%Q.
Definition exact_abs_diff (f mz : Q) : Q := Qabs (f - mz).

(** ** get_separate_chronogram_indices: the automatic detection of spots *)

(** A spectrum of a chronogram, as the functions on raw data read it. *)
Record scan : Type := {
  scan_time : Q;
  scan_mz : list Q;
  scan_spint : list Q
}.

(** An entry [(startInd, endInd, spotName, group, class, batch)] of
    [separationInds]. *)
Record spot : Type := {
  spot_startInd : nat;
  spot_endInd : nat;
  spot_spotName : string;
  spot_group : Z;
  spot_class : Z;
  spot_batch : Z
}.

(** ["Spot_%d" % k] *)
Definition spot_name (k : nat) : string := "Spot_" +:+ pretty k.

(** [inte >= intensityThreshold and time >= startTime_seconds and
    time <= endTime_seconds], for [inte = sum(spectrum.spint)]. *)
Definition in_spot (intensityThreshold startTime_seconds endTime_seconds : Q)
    (sc : scan) : bool :=
  Qle_bool intensityThreshold (Qsum (scan_spint sc)) &&
  Qle_bool startTime_seconds (scan_time sc) &&
  Qle_bool (scan_time sc) endTime_seconds.

(** [separationInds.append((startInd, endInd, "Spot_%d" %
    len(separationInds), 0, 0, 0))], when a spot is open.  [startInd]
    and [endInd] are [None] together, so the two variables are one
    optional pair. *)
Definition close_spot (cur : option (nat * nat)) (separationInds : list spot) : list spot :=
  match cur with
  | Some (startInd, endInd) =>
      separationInds ++
      [{| spot_startInd := startInd; spot_endInd := endInd;
          spot_spotName := spot_name (length separationInds);
          spot_group := 0; spot_class := 0; spot_batch := 0 |}]
  | None => separationInds
  end.

(** The body of [for i, inte in enumerate(ticInts)]. *)
Definition spot_step (intensityThreshold startTime_seconds endTime_seconds : Q)
    (st : option (nat * nat) * list spot) (x : nat * scan)
    : option (nat * nat) * list spot :=
  let '(cur, separationInds) := st in
  let '(i, sc) := x in
  if in_spot intensityThreshold startTime_seconds endTime_seconds sc then
    (match cur with
     | None => Some (i, i)
     | Some (startInd, _) => Some (startInd, i)
     end, separationInds)
  else (None, close_spot cur separationInds).

(** [get_separate_chronogram_indices] for a chronogram the spots file
    has no entry for ([spotsCur.shape[0] == 0]): the spots are detected
    from the spectra [msData].  The table written to the spots file is
    left out. *)
Definition get_separate_chronogram_indices (msData : list scan)
    (intensityThreshold startTime_seconds endTime_seconds : Q) : list spot :=
  let '(cur, separationInds) :=
    fold_left (spot_step intensityThreshold startTime_seconds endTime_seconds)
              (enumerate msData) (None, []) in
  close_spot cur separationInds.

(** Whether spectrum [i] of the chronogram belongs to a spot. *)
Definition scan_in_spot (msData : list scan)
    (intensityThreshold startTime_seconds endTime_seconds : Q) (i : nat) : bool :=
  match msData !! i with
  | Some sc => in_spot intensityThreshold startTime_seconds endTime_seconds sc
  | None => false
  end.

(** A maximal run [[s, e]] of spectra that belong to a spot. *)
Definition maximal_run (pass : nat → bool) (s e : nat) : Prop :=
  s ≤ e ∧ (∀ i, s ≤ i ≤ e → pass i = true) ∧
  (s = 0 ∨ pass (s - 1) = false) ∧ pass (S e) = false.

(** The state of the detection after the first [n] spectra. *)
Record spots_inv (pass : nat → bool) (n : nat) (cur : option (nat * nat))
    (seps : list spot) : Prop := {
  si_closed : ∀ k sp, seps !! k = Some sp →
    spot_spotName sp = spot_name k ∧
    spot_group sp = 0%Z ∧ spot_class sp = 0%Z ∧ spot_batch sp = 0%Z ∧
    maximal_run pass (spot_startInd sp) (spot_endInd sp) ∧ S (spot_endInd sp) < n;
  si_order : ∀ k1 k2 sp1 sp2, seps !! k1 = Some sp1 → seps !! k2 = Some sp2 →
    k1 < k2 → S (spot_endInd sp1) < spot_startInd sp2;
  si_open : match cur with
            | Some (s, e) =>
                S e = n ∧ s ≤ e ∧ (∀ i, s ≤ i ≤ e → pass i = true) ∧
                (s = 0 ∨ pass (s - 1) = false)
            | None => n = 0 ∨ pass (n - 1) = false
            end;
  si_cover : ∀ i, i < n → pass i = true →
    (∃ sp, sp ∈ seps ∧ spot_startInd sp ≤ i ≤ spot_endInd sp) ∨
    (∃ s e, cur = Some (s, e) ∧ s ≤ i ≤ e)
}.

(** A chronogram with two spots. *)
Definition example_chronogram : list scan :=
  [ {| scan_time := 1; scan_mz := [100]; scan_spint := [0] |};
    {| scan_time := 2; scan_mz := [100]; scan_spint := [5000] |};
    {| scan_time := 3; scan_mz := [100]; scan_spint := [7000] |};
    {| scan_time := 4; scan_mz := [100]; scan_spint := [10] |};
    {| scan_time := 5; scan_mz := [100]; scan_spint := [2000] |} ]%Q.

(** ** normalize_samples_by_TICs, normalize_to_internal_standard *)

(** [spectrum.spint = spectrum.spint / total * multiplication_factor] *)
Definition scale_spint (total multiplication_factor : Q) (sp : spectrum) : spectrum :=
  {| spectrum_mz := spectrum_mz sp;
     spectrum_original_mz := spectrum_original_mz sp;
     spectrum_spint := map (λ x, x / total * multiplication_factor)%Q (spectrum_spint sp);
     spectrum_startRT := spectrum_startRT sp;
     spectrum_endRT := spectrum_endRT sp |}.

(** The spectra of [sample] are replaced in the assay. *)
Definition set_ms_data (a : assay) (sample : string) (spectra : list spectrum) : assay :=
  {| get_sample_names := get_sample_names a;
     get_ms_data := λ s, if String.eqb s sample then spectra else get_ms_data a s;
     get_sample_group := get_sample_group a |}.

(** [np.sum] over the spectra of [np.sum(spectrum.spint)]: the TIC of a
    sample. *)
Definition total_intensity (spectra : list spectrum) : Q :=
  Qsum (map (λ sp, Qsum (spectrum_spint sp)) spectra).

(** The body of the loop over the samples. *)
Definition normalize_sample_by_TIC (multiplication_factor : Q) (spectra : list spectrum)
    : list spectrum :=
  let totalInt := total_intensity spectra in
  if Qltb 0 totalInt then map (scale_spint totalInt multiplication_factor) spectra
  else spectra.

Definition normalize_samples_by_TICs (a : assay) (multiplication_factor : Q) : assay :=
  fold_left (λ a sample,
               set_ms_data a sample
                 (normalize_sample_by_TIC multiplication_factor (get_ms_data a sample)))
            (get_sample_names a) a.

(** [totalSTDInt]: the summed intensity of the signals inside
    [[stdMZmin, stdMZmax]], over the spectra of a sample. *)
Definition total_std_intensity (stdMZmin stdMZmax : Q) (spectra : list spectrum) : Q :=
  fold_left (λ totalSTDInt sp,
               let use := window_mask sp stdMZmin stdMZmax in
               if 0 <? Np.count_true use
               then (totalSTDInt + Qsum (Np.sel use (spectrum_spint sp)))%Q
               else totalSTDInt)
            spectra 0%Q.

Definition normalize_sample_to_internal_standard (std : Q * Q) (multiplication_factor : Q)
    (spectra : list spectrum) : list spectrum :=
  let '(stdMZmin, stdMZmax) := std in
  let totalSTDInt := total_std_intensity stdMZmin stdMZmax spectra in
  if Qltb 0 totalSTDInt then map (scale_spint totalSTDInt multiplication_factor) spectra
  else spectra.

(** [normalize_to_internal_standard] with [plot = False]. *)
Definition normalize_to_internal_standard (a : assay) (std : Q * Q)
    (multiplication_factor : Q) : assay :=
  fold_left (λ a sample,
               set_ms_data a sample
                 (normalize_sample_to_internal_standard std multiplication_factor
                    (get_ms_data a sample)))
            (get_sample_names a) a.

(** A sample of two spectra with TIC 10. *)
Definition example_raw_assay : assay :=
  {| get_sample_names := ["S"%string];
     get_ms_data := λ _,
       [ {| spectrum_mz := [100; 200]%Q; spectrum_original_mz := [100; 200]%Q;
            spectrum_spint := [1; 3]%Q; spectrum_startRT := 0%Q; spectrum_endRT := 0%Q |};
         {| spectrum_mz := [100; 300]%Q; spectrum_original_mz := [100; 300]%Q;
            spectrum_spint := [2; 4]%Q; spectrum_startRT := 0%Q; spectrum_endRT := 0%Q |} ];
     get_sample_group := λ _, "g"%string |}.

(** The assignment [r] refines the crude assignment [clusts]: two
    signals that share an id in [r] share their crude cluster. *)
Definition refines_partition (clusts r : list Z) : Prop :=
  ∀ p q cp cq v,
    clusts !! p = Some cp → clusts !! q = Some cq →
    r !! p = Some v → r !! q = Some v → cp = cq.

(** ** calculate_concensus_spectra_per_sample *)

(** [a[mask]] with the check numpy makes: the mask has the length of
    the array. *)
Definition bool_index {A} (mask : list bool) (a : list A) : result (list A) :=
  if decide (length mask = length a) then Ok (Np.sel mask a) else Raise IndexError.

(** [a[j]] for a Python integer: a negative [j] counts from the end. *)
Definition py_index {A} (a : list A) (j : Z) : result A :=
  let n := Z.of_nat (length a) in
  if (0 <=? j)%Z then at_index a (Z.to_nat j)
  else if (- n <=? j)%Z then at_index a (Z.to_nat (n + j))
  else Raise IndexError.

(** [a[idx]] for an array of integers. *)
Fixpoint py_take {A} (a : list A) (idx : list Z) : result (list A) :=
  match idx with
  | [] => Ok []
  | j :: idx' => x ← py_index a j; r ← py_take a idx'; Ok (x :: r)
  end.

(** [clustInds, ns = np.unique(cluster, return_counts = True);
     clustNs = ns[cluster];
     cluster[clustNs < min_signals_per_cluster] = -1] *)
Definition min_signals_filter (cluster : list Z) (min_signals_per_cluster : Z)
    : result (list Z) :=
  let ns := Np.unique_counts cluster in
  clustNs ← py_take ns cluster;
  Ok (Np.set_mask (map (λ n, (Z.of_nat n <? min_signals_per_cluster)%Z) clustNs)
                  (-1)%Z cluster).

(** The arrays of [temp]: one entry per signal of the sample. *)
Record signal_table : Type := {
  st_sample : list string;
  st_spectrumInd : list nat;
  st_time : list Q;
  st_mz : list Q;
  st_intensity : list Q;
  st_cluster : list Z
}.

(** The loop over the spectra of the sample and the conversion to
    arrays; [np.concatenate] of no array raises. *)
Definition table_of_spectra (sample : string) (msData : list scan) : result signal_table :=
  match msData with
  | [] => Raise ValueError
  | _ =>
      Ok {| st_sample := flat_map (λ sc, replicate (length (scan_mz sc)) sample) msData;
            st_spectrumInd :=
              flat_map (λ '(k, sc), replicate (length (scan_mz sc)) k) (enumerate msData);
            st_time := flat_map (λ sc, replicate (length (scan_mz sc)) (scan_time sc)) msData;
            st_mz := flat_map scan_mz msData;
            st_intensity := flat_map scan_spint msData;
            st_cluster := [] |}
  end.

(** [temp["cluster"] = cluster] *)
Definition with_cluster (t : signal_table) (cluster : list Z) : signal_table :=
  {| st_sample := st_sample t; st_spectrumInd := st_spectrumInd t; st_time := st_time t;
     st_mz := st_mz t; st_intensity := st_intensity t; st_cluster := cluster |}.

(** [keep = temp["cluster"] >= 0], the restriction of every array to
    [keep], and the reindexing of the ids that are left. *)
Definition keep_clustered (t : signal_table) : result signal_table :=
  let keep := map (λ c, (0 <=? c)%Z) (st_cluster t) in
  sample ← bool_index keep (st_sample t);
  spectrumInd ← bool_index keep (st_spectrumInd t);
  time ← bool_index keep (st_time t);
  mz ← bool_index keep (st_mz t);
  intensity ← bool_index keep (st_intensity t);
  Ok {| st_sample := sample; st_spectrumInd := spectrumInd; st_time := time;
        st_mz := mz; st_intensity := intensity;
        st_cluster := reindex_cluster (Np.sel keep (st_cluster t)) |}.

(** A quality check: from the spectra of the sample and the table of
    its signals to the new cluster ids. *)
Definition quality_check : Type := list scan → signal_table → result (list Z).

(** The stages up to the refinement. *)
Definition crude_stage (sample : string) (msData : list scan)
    (min_difference_ppm : Q) (min_signals_per_cluster : Z) : result signal_table :=
  t ← table_of_spectra sample msData;
  cluster ← crude_cluster_mz_list sample (st_mz t) (st_intensity t) min_difference_ppm;
  cluster ← min_signals_filter cluster min_signals_per_cluster;
  keep_clustered (with_cluster t cluster).

(** [np.min(a)] and [np.max(a)]: an empty array raises. *)
Definition np_min (a : list Q) : result Q :=
  match a with [] => Raise ValueError | _ => Ok (NpRed.min a) end.

Definition np_max (a : list Q) : result Q :=
  match a with [] => Raise ValueError | _ => Ok (NpRed.max a) end.

(** [np.average(a, weights = w)] for arrays of one length: weights that
    sum to zero raise. *)
Definition np_average_weights (a w : list Q) : result Q :=
  let total := Qsum w in
  if Qeq_bool total 0 then Raise ZeroDivisionError
  else Ok (Qsum (zip_with Qmult a w) / total)%Q.

(** What the export writes for a feature: the two positions, the
    intensity, and the sides of the hull. *)
Record featureML_feature : Type := {
  fm_position0 : Q;
  fm_position1 : Q;
  fm_intensity : Q;
  fm_minRT : Q;
  fm_maxRT : Q;
  fm_minMZ : Q;
  fm_maxMZ : Q
}.

(** The body of the loop over the clusters of the export. *)
Definition featureML_cluster (t : signal_table) (minRT maxRT : Q)
    (features : list featureML_feature) (clust : Z) : result (list featureML_feature) :=
  mzs ← bool_index (Np.eq_mask clust (st_cluster t)) (st_mz t);
  ints ← bool_index (Np.eq_mask clust (st_cluster t)) (st_intensity t);
  position1 ← np_average_weights mzs ints;
  minMZ ← np_min mzs;
  maxMZ ← np_max mzs;
  Ok (features ++ [ {| fm_position0 := (maxRT + minRT) / 2; fm_position1 := position1;
                       fm_intensity := Qsum ints;
                       fm_minRT := minRT; fm_maxRT := maxRT;
                       fm_minMZ := minMZ; fm_maxMZ := maxMZ |} ]).

(** The branch [if exportAsFeatureML:], as the numbers it writes,
    feature by feature.  The file itself and its text are left out. *)
Definition featureML_export (t : signal_table) : result (list featureML_feature) :=
  minRT ← np_min (st_time t);
  maxRT ← np_max (st_time t);
  let ns := Np.unique (st_cluster t) in
  for_each (featureML_cluster t minRT maxRT) ns [].

(** The stages after the refinement. *)
Definition collapse_stage (cluster_quality_check_functions : list quality_check)
    (msData : list scan) (t : signal_table) (cluster : list Z)
    (min_signals_per_cluster : Z) (aggregation_function : string)
    (exportAsFeatureML : bool)
    : result (list Q * list Q * Q * Q) :=
  cluster ← min_signals_filter (reindex_cluster cluster) min_signals_per_cluster;
  cluster ← for_each (λ cluster check, check msData (with_cluster t cluster))
                     cluster_quality_check_functions cluster;
  t ← keep_clustered (with_cluster t cluster);
  _ ← (if exportAsFeatureML then featureML_export t else Ok []);
  '(mzs, intensities) ← collapse_mz_info (st_mz t) (st_intensity t) (st_cluster t)
                                          aggregation_function;
  first ← at_index msData 0;
  last ← at_index msData (length msData - 1);
  Ok (mzs, intensities, scan_time first, scan_time last).

(** The body of the loop over the samples of
    [calculate_concensus_spectra_per_sample]: the masses and the
    intensities of the consensus spectrum, and its [startRT] and
    [endRT].  [refine_clustering] is called with its default
    parameters; the line printed under [verbose] is left out. *)
Definition calculate_concensus_spectrum (fuel : nat)
    (cluster_quality_check_functions : list quality_check)
    (sample : string) (msData : list scan)
    (min_difference_ppm : Q) (min_signals_per_cluster : Z) (aggregation_function : string)
    (exportAsFeatureML : bool)
    : option (result (list Q * list Q * Q * Q)) :=
  match crude_stage sample msData min_difference_ppm min_signals_per_cluster with
  | Raise e => Some (Raise e)
  | Ok t =>
      match refine_clustering fuel sample (st_mz t) (st_intensity t)
              (map Z.of_nat (st_spectrumInd t)) (st_cluster t) 15 15 None with
      | None => None
      | Some (Raise e) => Some (Raise e)
      | Some (Ok cluster) =>
          Some (collapse_stage cluster_quality_check_functions msData t cluster
                  min_signals_per_cluster aggregation_function exportAsFeatureML)
      end
  end.

(** [x > y] on floats; false as soon as one side is [NaN]. *)
Definition xfloat_gt (x y : xfloat) : bool := XFloat.leb y x && negb (XFloat.leb x y).

Section ppmDeviationCheck.

(** The weighted deviation of a cluster, from its masses and
    intensities: [mmzW = np.average(mzs, weights = ints)],
    [ppmsW = (mzs - mmzW) / mmzW * 1E6] and
    [np.sqrt(np.cov(ppmsW, aweights = ints))]. *)
Variable weighted_ppm_std : list Q → list Q → result xfloat.

(** The body of the loop over the cluster ids. *)
Definition ppmDeviationCheck_cluster (mz intensity : list Q)
    (max_weighted_ppm_deviation : Q) (cluster : list Z) (clustID : Z) : result (list Z) :=
  if (0 <=? clustID)%Z then
    mzs ← bool_index (Np.eq_mask clustID cluster) mz;
    if 0 <? length mzs then
      ints ← bool_index (Np.eq_mask clustID cluster) intensity;
      stdppmW ← weighted_ppm_std mzs ints;
      if xfloat_gt stdppmW (Fin max_weighted_ppm_deviation)
      then Ok (Np.set_mask (Np.eq_mask clustID cluster) (-1)%Z cluster)
      else Ok cluster
    else Ok cluster
  else Ok cluster.

Definition cluster_quality_check_function__ppmDeviationCheck
    (max_weighted_ppm_deviation : Q) : quality_check :=
  λ msDataObj t,
    for_each (ppmDeviationCheck_cluster (st_mz t) (st_intensity t) max_weighted_ppm_deviation)
             (Np.unique (st_cluster t)) (st_cluster t).

End ppmDeviationCheck.

(** Whether the check removes the cluster [clustID]. *)
Definition ppm_deviation_exceeded (weighted_ppm_std : list Q → list Q → result xfloat)
    (mz intensity : list Q) (max_weighted_ppm_deviation : Q) (cluster : list Z)
    (clustID : Z) : bool :=
  (0 <=? clustID)%Z &&
  match weighted_ppm_std (Np.sel (Np.eq_mask clustID cluster) mz)
                         (Np.sel (Np.eq_mask clustID cluster) intensity) with
  | Ok stdppmW => xfloat_gt stdppmW (Fin max_weighted_ppm_deviation)
  | Raise _ => false
  end.

(** The ids of [cluster] with those of [removed] replaced by the
    sentinel. *)
Definition remove_clusters (removed : list Z) (cluster : list Z) : list Z :=
  map (λ c, if bool_decide (c ∈ removed) then (-1)%Z else c) cluster.

(** The columns of a table have one length. *)
Definition table_wf (t : signal_table) : Prop :=
  length (st_sample t) = length (st_mz t) ∧
  length (st_spectrumInd t) = length (st_mz t) ∧
  length (st_time t) = length (st_mz t) ∧
  length (st_intensity t) = length (st_mz t).

(** A quality check that returns one id per signal, on the tables of
    the pipeline: columns of one length and positive intensities. *)
Definition check_total (msData : list scan) (check : quality_check) : Prop :=
  ∀ t cluster, table_wf t → Forall (λ x, 0 < x)%Q (st_intensity t) →
    length cluster = length (st_mz t) →
    ∃ out, check msData (with_cluster t cluster) = Ok out ∧ length out = length cluster.

(** The spectra the pipeline is meant for: as many intensities as
    masses, positive intensities, masses between 0 and 1E6. *)
Definition scan_wf (sc : scan) : Prop :=
  length (scan_spint sc) = length (scan_mz sc) ∧
  Forall (λ x, 0 < x)%Q (scan_spint sc) ∧
  Forall (λ m, 0 < m ∧ m < 1000000)%Q (scan_mz sc).

(** Three spectra of one spot: the signal near 100 occurs in each of
    them, the signal at 250 only once. *)
Definition example_spot : list scan :=
  [ {| scan_time := 1; scan_mz := [100; 250]; scan_spint := [10; 1] |};
    {| scan_time := 2; scan_mz := [100.0001]; scan_spint := [30] |};
    {| scan_time := 3; scan_mz := [100.0002]; scan_spint := [20] |} ]%Q.

(** Three signals in two clusters, and a stand-in for the weighted
    deviation: the unweighted PPM spread, undefined where
    [np.average] is, on weights that sum to zero. *)
Definition example_signal_table : signal_table :=
  {| st_sample := ["s"; "s"; "s"]%string; st_spectrumInd := [0; 0; 1];
     st_time := [1; 1; 2]%Q; st_mz := [100; 200; 200.1]%Q;
     st_intensity := [1; 1; 1]%Q; st_cluster := [0; 1; 1]%Z |}.

Definition example_ppm_std (mzs ints : list Q) : result xfloat :=
  if Qeq_bool (Qsum ints) 0 then Raise ZeroDivisionError else Ok (Fin (ppm_spread mzs)).

(** ** cluster_quality_check_function__peak_form *)

(** [eic[np.argwhere(t == refTimes)] += x] *)
Definition eic_add (refTimes eic : list Q) (t x : Q) : list Q :=
  zip_with (λ r e, if Qeq_bool t r then e + x else e)%Q refTimes eic.

(** The chronogram of a cluster over the times of the spectra:
    [eic = np.zeros_like(refTimes)] and the loop over its signals. *)
Definition cluster_eic (refTimes times ints : list Q) : result (list Q) :=
  for_each (λ eic i, t ← at_index times i; x ← at_index ints i;
                     Ok (eic_add refTimes eic t x))
           (seq 0 (length ints)) (replicate (length refTimes) 0%Q).

Section peak_form.

(** [scipy.stats.norm.pdf(refTimes, loc = np.mean(refTimes),
    scale = (np.max(refTimes) - np.min(refTimes)) / 6)], which raises on
    an empty array, and [np.corrcoef(refEIC, eic)[1, 0]]. *)
Variable reference_peak : list Q → result (list Q).
Variable corrcoef : list Q → list Q → xfloat.

(** The body of the loop over the cluster ids. *)
Definition peak_form_cluster (refTimes refEIC time mz intensity : list Q)
    (min_correlation_for_cutoff : Q) (cluster : list Z) (clustID : Z) : result (list Z) :=
  if (0 <=? clustID)%Z then
    mzs ← bool_index (Np.eq_mask clustID cluster) mz;
    if 0 <? length mzs then
      ints ← bool_index (Np.eq_mask clustID cluster) intensity;
      times ← bool_index (Np.eq_mask clustID cluster) time;
      eic ← cluster_eic refTimes times ints;
      let corr := corrcoef refEIC eic in
      if xfloat_gt (Fin min_correlation_for_cutoff) corr
      then Ok (Np.set_mask (Np.eq_mask clustID cluster) (-1)%Z cluster)
      else Ok cluster
    else Ok cluster
  else Ok cluster.

Definition cluster_quality_check_function__peak_form
    (min_correlation_for_cutoff : Q) : quality_check :=
  λ msDataObj t,
    let clustInds := Np.unique (st_cluster t) in
    let refTimes := map scan_time msDataObj in
    refEIC ← reference_peak refTimes;
    for_each (peak_form_cluster refTimes refEIC (st_time t) (st_mz t) (st_intensity t)
                min_correlation_for_cutoff)
             clustInds (st_cluster t).

End peak_form.

(** Whether the check removes the cluster [clustID]. *)
Definition peak_form_rejected (corrcoef : list Q → list Q → xfloat)
    (refTimes refEIC time intensity : list Q) (min_correlation_for_cutoff : Q)
    (cluster : list Z) (clustID : Z) : bool :=
  (0 <=? clustID)%Z &&
  match cluster_eic refTimes (Np.sel (Np.eq_mask clustID cluster) time)
                    (Np.sel (Np.eq_mask clustID cluster) intensity) with
  | Ok eic => xfloat_gt (Fin min_correlation_for_cutoff) (corrcoef refEIC eic)
  | Raise _ => false
  end.

(** A stand-in for the reference peak and the correlation: the
    reference is the constant 1, the correlation the number of spectra
    the cluster occurs in. *)
Definition example_reference_peak (refTimes : list Q) : result (list Q) :=
  match refTimes with [] => Raise ValueError | _ => Ok (map (λ _, 1%Q) refTimes) end.

Definition example_corrcoef (refEIC eic : list Q) : xfloat :=
  Fin (inject_Z (Z.of_nat (length (List.filter (λ x, Qltb 0 x) eic)))).

(** The window of a bracket holds a signal of the pool. *)
Definition info_holds_signal (p : pool) (i : cluster_info) : Prop :=
  ∃ m, m ∈ pool_mz p ∧ (info_minMZ i <= m)%Q ∧ (m <= info_maxMZ i)%Q.

(** ** select_top_n_spectra, drop_lower_spectra *)

(** [a[0:stop]] for a Python integer [stop]: a negative [stop] counts
    from the end, and the bounds are clipped to the array. *)
Definition py_slice_to {A} (a : list A) (stop : Z) : list A :=
  let n := Z.of_nat (length a) in
  let stop := if (stop <? 0)%Z then Z.max 0 (n + stop) else Z.min stop n in
  take (Z.to_nat stop) a.

(** [totalInt]: [np.sum(spectrum.spint)] of every spectrum of the sample. *)
Definition spectra_totals (spectra : list spectrum) : list Q :=
  map (λ sp, Qsum (spectrum_spint sp)) spectra.

(** [while c < ordInte.shape[0] and msDataObj.get_n_spectra() > 0:
       sampleObjNew.delete_spectrum(ordInte[c]); c = c + 1]:
    the positions handed to [delete_spectrum], in the order of the
    calls.  The guard reads the number of spectra of [msDataObj], the
    object the copy [sampleObjNew] was made from. *)
Fixpoint delete_loop (n_spectra : nat) (ordInte : list nat) : list nat :=
  match ordInte with
  | [] => []
  | i :: rest => if 0 <? n_spectra then i :: delete_loop n_spectra rest else []
  end.

(** The body of the loop of [select_top_n_spectra] over the samples:
    the calls of [delete_spectrum] on the copy of the sample. *)
Definition select_top_n_deleted (spectra : list spectrum) (n : option Z) : list nat :=
  let totalInt := spectra_totals spectra in
  match n with
  | None => []
  | Some n =>
      let ordInte := NpSort.argsort Qle_bool totalInt in
      let ordInte := py_slice_to ordInte (Z.of_nat (length ordInte) - n) in
      let ordInte := reverse (merge_sort le ordInte) in
      delete_loop (length spectra) ordInte
  end.

Definition select_top_n_spectra (a : assay) (n : option Z) : list (string * list nat) :=
  map (λ sample, (sample, select_top_n_deleted (get_ms_data a sample) n))
      (get_sample_names a).

Section drop_lower_spectra.

(** [math.floor(n_spectra * drop_rate)], the product taken in
    [float64]. *)
Variable math_floor_mul : nat → Q → Z.

Definition drop_lower_deleted (spectra : list spectrum) (drop_rate : option Q) : list nat :=
  let totalInt := spectra_totals spectra in
  match drop_rate with
  | None => []
  | Some drop_rate =>
      let ordInte := NpSort.argsort Qle_bool totalInt in
      let ordInte := py_slice_to ordInte (math_floor_mul (length spectra) drop_rate) in
      let ordInte := reverse (merge_sort le ordInte) in
      delete_loop (length spectra) ordInte
  end.

Definition drop_lower_spectra (a : assay) (drop_rate : option Q) : list (string * list nat) :=
  map (λ sample, (sample, drop_lower_deleted (get_ms_data a sample) drop_rate))
      (get_sample_names a).

End drop_lower_spectra.

(** The spectra that [delete_spectrum] is not called on. *)
Definition kept_spectrum (deleted : list nat) (spectra : list spectrum) (j : nat) : Prop :=
  j < length spectra ∧ j ∉ deleted.

(** The deleted spectra are the weakest: none has a larger summed
    intensity than a spectrum that is kept. *)
Definition deletes_weakest (deleted : list nat) (spectra : list spectrum) : Prop :=
  ∀ i, i ∈ deleted →
    ∃ ti, spectra_totals spectra !! i = Some ti ∧
      ∀ j tj, kept_spectrum deleted spectra j →
              spectra_totals spectra !! j = Some tj → (ti <= tj)%Q.

Definition example_chronogram_assay : assay :=
  {| get_sample_names := ["S"];
     get_ms_data := λ _,
       [ {| spectrum_mz := [100; 200]; spectrum_original_mz := [100; 200];
            spectrum_spint := [5; 5]; spectrum_startRT := 0; spectrum_endRT := 0 |};
         {| spectrum_mz := [100]; spectrum_original_mz := [100];
            spectrum_spint := [2]; spectrum_startRT := 1; spectrum_endRT := 1 |};
         {| spectrum_mz := [100; 200]; spectrum_original_mz := [100; 200];
            spectrum_spint := [30; 4]; spectrum_startRT := 2; spectrum_endRT := 2 |};
         {| spectrum_mz := [200]; spectrum_original_mz := [200];
            spectrum_spint := [7]; spectrum_startRT := 3; spectrum_endRT := 3 |} ]%Q;
     get_sample_group := λ _, "sample" |}.

(** ** describe_MZ_cluster *)

Definition xfloat_sub (x y : xfloat) : xfloat := XFloat.add x (XFloat.neg y).

(** The sign of a [float64] that is not [NaN]. *)
Definition xfloat_sign (x : xfloat) : Z :=
  match x with
  | NaN => 0
  | PInf => 1
  | NInf => -1
  | Fin a => if Qltb 0 a then 1 else if Qltb a 0 then -1 else 0
  end.

Definition xfloat_mul (x y : xfloat) : xfloat :=
  match x, y with
  | NaN, _ | _, NaN => NaN
  | Fin a, Fin b => Fin (a * b)
  | _, _ =>
      let s := (xfloat_sign x * xfloat_sign y)%Z in
      if (s =? 0)%Z then NaN else if (0 <? s)%Z then PInf else NInf
  end.

(** [np.minimum] and [np.maximum]: [NaN] as soon as one side is. *)
Definition xfloat_minimum (x y : xfloat) : xfloat :=
  if XFloat.isnan x || XFloat.isnan y then NaN
  else if XFloat.leb x y then x else y.

Definition xfloat_maximum (x y : xfloat) : xfloat :=
  if XFloat.isnan x || XFloat.isnan y then NaN
  else if XFloat.leb x y then y else x.

(** The row [mzDesc[j, _]] of an array of [n] rows for a Python
    integer [j]: a negative [j] counts from the last row. *)
Definition py_row (n : nat) (j : Z) : result nat :=
  if (0 <=? j)%Z then
    if (j <? Z.of_nat n)%Z then Ok (Z.to_nat j) else Raise IndexError
  else if (- Z.of_nat n <=? j)%Z then Ok (Z.to_nat (Z.of_nat n + j))
  else Raise IndexError.

(** The body of the loop over the signals. *)
Definition describe_MZ_cluster_signal (mz intensity : list Q) (clust : list Z)
    (mzDesc : matrix) (i : nat) : result matrix :=
  j ← at_index clust i;
  r ← py_row (shape0 mzDesc) j;
  mzDesc ← Mat.set mzDesc r 0 (Fin (inject_Z j));
  c ← Mat.get mzDesc r 1;
  mzDesc ← Mat.set mzDesc r 1 (XFloat.add c (Fin 1));
  mzi ← at_index mz i;
  c ← Mat.get mzDesc r 2;
  mzDesc ← Mat.set mzDesc r 2 (xfloat_minimum (Fin mzi) c);
  c ← Mat.get mzDesc r 3;
  mzDesc ← Mat.set mzDesc r 3 (XFloat.add c (Fin mzi));
  c ← Mat.get mzDesc r 4;
  mzDesc ← Mat.set mzDesc r 4 (xfloat_maximum (Fin mzi) c);
  c ← Mat.get mzDesc r 6;
  x ← at_index intensity i;
  Mat.set mzDesc r 6 (XFloat.add c (Fin x)).

(** A cell of a row of [mzDesc]. *)
Definition cell (row : list xfloat) (c : nat) : xfloat := default NaN (row !! c).

(** [mzDesc[:, c] = f(mzDesc)], row by row. *)
Definition set_column (c : nat) (f : list xfloat → xfloat) (mzDesc : matrix) : matrix :=
  {| shape0 := shape0 mzDesc; shape1 := shape1 mzDesc;
     rows := map (λ row, <[c := f row]> row) (rows mzDesc) |}.

(** The columns are 0: clusterID, 1: Ns, 2: Min.MZ, 3: Avg.MZ,
    4: Max.MZ, 5: MZ.Dev, 6: sum.Int.  ([mzOrd] is computed and not
    used.) *)
Definition describe_MZ_cluster (mz intensity : list Q) (clust : list Z) : result matrix :=
  let uniqClusts := Np.unique clust in
  let mzDesc := Mat.zeros (length uniqClusts) 7 in
  let mzDesc := set_column 2 (λ _, PInf) mzDesc in
  mzDesc ← for_each (describe_MZ_cluster_signal mz intensity clust)
                    (seq 0 (length mz)) mzDesc;
  let mzDesc := set_column 3 (λ row, XFloat.div (cell row 3) (cell row 1)) mzDesc in
  let mzDesc :=
    set_column 5 (λ row, xfloat_mul (XFloat.div (xfloat_sub (cell row 4) (cell row 2))
                                                (cell row 3))
                                    (Fin ppm_factor)) mzDesc in
  Ok mzDesc.

(** What one signal of cluster [j] does to the row of the cluster. *)
Definition describe_row_update (row : list xfloat) (s : Z * (Q * Q)) : list xfloat :=
  [ Fin (inject_Z s.1);
    XFloat.add (cell row 1) (Fin 1);
    xfloat_minimum (Fin s.2.1) (cell row 2);
    XFloat.add (cell row 3) (Fin s.2.1);
    xfloat_maximum (Fin s.2.1) (cell row 4);
    cell row 5;
    XFloat.add (cell row 6) (Fin s.2.2) ].

(** The row describes the cluster [j] of the masses [mzs] and
    intensities [ints]: id, size, smallest, mean and largest mass, PPM
    spread and summed intensity. *)
Definition describes_cluster (row : list xfloat) (j : Z) (mzs ints : list Q) : Prop :=
  ∃ n lo avg hi dev tot,
    row = [Fin (inject_Z j); Fin n; Fin lo; Fin avg; Fin hi; Fin dev; Fin tot] ∧
    (n == inject_Z (Z.of_nat (length mzs)))%Q ∧
    lo ∈ mzs ∧ Forall (λ m, lo <= m)%Q mzs ∧
    hi ∈ mzs ∧ Forall (λ m, m <= hi)%Q mzs ∧
    (avg == Qsum mzs / n)%Q ∧
    (dev == (hi - lo) / avg * ppm_factor)%Q ∧
    (tot == Qsum ints)%Q.

(** ** An assay of consensus spectra for the bracketing

    [np.log10] on the intensities 10, 100 and 1000, where it is exact;
    the assay below holds no other intensity. *)
Definition example_log10 (x : Q) : Q :=
  if Qeq_bool x 10 then 1%Q
  else if Qeq_bool x 100 then 2%Q
  else if Qeq_bool x 1000 then 3%Q
  else 0%Q.

(** Two samples with one consensus spectrum each: the masses 100 and
    100.001 are 10 ppm apart, 200 and 300 stand alone. *)
Definition example_consensus_assay : assay :=
  {| get_sample_names := ["A"; "B"]%string;
     get_ms_data := λ s,
       if String.eqb s "A" then
         [ {| spectrum_mz := [100; 200]%Q; spectrum_original_mz := [100; 200]%Q;
              spectrum_spint := [1000; 10]%Q;
              spectrum_startRT := 0%Q; spectrum_endRT := 10%Q |} ]
       else
         [ {| spectrum_mz := [100.001; 300]%Q; spectrum_original_mz := [100.001; 300]%Q;
              spectrum_spint := [100; 10]%Q;
              spectrum_startRT := 20%Q; spectrum_endRT := 30%Q |} ];
     get_sample_group := λ s, if String.eqb s "A" then "blank"%string else "test"%string |}.

(** Two spectra with one signal each, 1 ppm apart: the refinement
    splits the crude cluster of two into two clusters of one. *)
Definition example_two_scans : list scan :=
  [ {| scan_time := 1; scan_mz := [100]; scan_spint := [5] |};
    {| scan_time := 2; scan_mz := [100.0001]; scan_spint := [3] |} ]%Q.

(** * Properties *)

(** ** Facts about the numpy primitives *)

Section np_facts.

Lemma eq_mask_length v a : length (Np.eq_mask v a) = length a.
Proof. apply length_map. Qed.

Lemma eq_mask_lookup v a i :
  Np.eq_mask v a !! i = (λ c, (v =? c)%Z) <$> a !! i.
Proof. apply list_lookup_fmap. Qed.

Lemma set_mask_length {A} (mask : list bool) (v : A) (a : list A) :
  length mask = length a → length (Np.set_mask mask v a) = length a.
Proof. intros H. unfold Np.set_mask. rewrite length_zip_with. lia. Qed.

Lemma set_mask_lookup {A} (mask : list bool) (v : A) (a : list A) i (b : bool) x :
  mask !! i = Some b → a !! i = Some x →
  Np.set_mask mask v a !! i = Some (if b then v else x).
Proof.
  intros Hm Ha. unfold Np.set_mask.
  rewrite lookup_zip_with, Hm. simpl. by rewrite Ha.
Qed.

Lemma uinsert_elem x y l : y ∈ Np.uinsert x l ↔ y = x ∨ y ∈ l.
Proof.
  induction l as [|z l IH]; simpl.
  - rewrite list_elem_of_singleton. split; [by left|].
    intros [?|H]; [done|]. by apply elem_of_nil in H.
  - destruct (Z.ltb_spec x z); [by rewrite elem_of_cons|].
    destruct (Z.eqb_spec x z) as [->|Hne].
    + rewrite elem_of_cons. tauto.
    + rewrite !elem_of_cons, IH. tauto.
Qed.

Lemma unique_elem y a : y ∈ Np.unique a ↔ y ∈ a.
Proof.
  induction a as [|x a IH]; simpl; [done|].
  by rewrite uinsert_elem, IH, elem_of_cons.
Qed.

Lemma uinsert_sorted x l :
  StronglySorted Z.lt l → StronglySorted Z.lt (Np.uinsert x l).
Proof.
  induction 1 as [|z l Hs IH Hall]; simpl.
  - repeat constructor.
  - destruct (Z.ltb_spec x z).
    + constructor; [by constructor|].
      constructor; [done|]. eapply Forall_impl; [exact Hall|]. simpl. lia.
    + destruct (Z.eqb_spec x z); [by constructor|].
      constructor; [done|].
      apply Forall_forall. intros y Hy. apply uinsert_elem in Hy as [->|Hy]; [lia|].
      by eapply Forall_forall in Hall.
Qed.

Lemma unique_sorted a : StronglySorted Z.lt (Np.unique a).
Proof. induction a; simpl; [constructor|by apply uinsert_sorted]. Qed.

Lemma sorted_lt_lookup (l : list Z) i j x y :
  StronglySorted Z.lt l → l !! i = Some x → l !! j = Some y → i < j → (x < y)%Z.
Proof.
  intros Hs. revert i j. induction Hs as [|z l Hs IH Hall]; intros i j Hi Hj Hij.
  - done.
  - destruct j as [|j]; [lia|]. simpl in Hj.
    destruct i as [|i]; simpl in Hi.
    + injection Hi as ->. eapply Forall_forall in Hall; [exact Hall|].
      by eapply list_elem_of_lookup_2.
    + apply (IH i j); [done|done|lia].
Qed.

Lemma sorted_lt_NoDup (l : list Z) : StronglySorted Z.lt l → NoDup l.
Proof.
  induction 1 as [|z l Hs IH Hall]; constructor; [|done].
  intros Hin. eapply Forall_forall in Hall; [|exact Hin]. lia.
Qed.

Lemma unique_NoDup a : NoDup (Np.unique a).
Proof. apply sorted_lt_NoDup, unique_sorted. Qed.

End np_facts.

(** ** reindex_cluster: dense, order preserving relabelling *)

Section reindex.

Lemma reindex_fold_spec (cluster : list Z) inds nc use :
  NoDup inds → length nc = length cluster →
  let out := (fold_left (reindex_step cluster) inds (nc, use)).1 in
  length out = length cluster ∧
  ∀ i c, cluster !! i = Some c →
    (∀ r, inds !! r = Some c → out !! i = Some (use + Z.of_nat r)%Z) ∧
    (c ∉ inds → out !! i = nc !! i).
Proof.
  intros Hnd. revert nc use.
  induction Hnd as [|x inds Hx Hnd IH]; intros nc use Hlen; simpl.
  - split; [done|]. intros i c Hc. split; [intros r Hr; done | done].
  - set (nc' := Np.set_mask (Np.eq_mask x cluster) use nc).
    assert (Hlen' : length nc' = length cluster).
    { unfold nc'. rewrite set_mask_length; [done|]. by rewrite eq_mask_length. }
    destruct (IH nc' (use + 1)%Z Hlen') as [HL HI].
    split; [done|]. intros i c Hc.
    destruct (HI i c Hc) as [H1 H2].
    assert (Hnc' : nc' !! i = if (x =? c)%Z then Some use else nc !! i).
    { destruct (lookup_lt_is_Some_2 nc i) as [v Hv].
      { rewrite Hlen. by eapply lookup_lt_Some. }
      unfold nc'. erewrite set_mask_lookup; [|by rewrite eq_mask_lookup, Hc|done].
      simpl. rewrite Hv. by destruct (x =? c)%Z. }
    split.
    + intros [|r] Hr; simpl in Hr.
      * injection Hr as ->. rewrite H2; [|done].
        rewrite Hnc', Z.eqb_refl. f_equal. lia.
      * rewrite (H1 r Hr). f_equal. lia.
    + intros Hnotin. apply not_elem_of_cons in Hnotin as [Hne Hnotin].
      rewrite H2; [|done]. rewrite Hnc'. destruct (Z.eqb_spec x c); congruence.
Qed.

(** Every position receives the rank of its id among the distinct ids. *)
Lemma reindex_lookup (cluster : list Z) i c :
  cluster !! i = Some c →
  ∃ r, Np.unique cluster !! r = Some c ∧
       reindex_cluster cluster !! i = Some (Z.of_nat r).
Proof.
  intros Hc.
  assert (Hin : c ∈ Np.unique cluster).
  { apply unique_elem. by eapply list_elem_of_lookup_2. }
  apply list_elem_of_lookup in Hin as [r Hr]. exists r. split; [done|].
  unfold reindex_cluster.
  destruct (reindex_fold_spec cluster (Np.unique cluster)
              (replicate (length cluster) 0%Z) 0%Z) as [_ H].
  { apply unique_NoDup. }
  { apply length_replicate. }
  destruct (H i c Hc) as [H1 _]. rewrite (H1 r Hr). f_equal.
Qed.

Lemma reindex_length (cluster : list Z) :
  length (reindex_cluster cluster) = length cluster.
Proof.
  unfold reindex_cluster.
  apply (reindex_fold_spec cluster (Np.unique cluster)
              (replicate (length cluster) 0%Z) 0%Z).
  - apply unique_NoDup.
  - apply length_replicate.
Qed.

Lemma unique_rank_lt (a : list Z) r1 r2 c1 c2 :
  Np.unique a !! r1 = Some c1 → Np.unique a !! r2 = Some c2 →
  (c1 < c2)%Z ↔ r1 < r2.
Proof.
  intros H1 H2. pose proof (unique_sorted a) as Hs. split.
  - intros Hlt. destruct (decide (r1 < r2)) as [|Hge]; [done|].
    destruct (decide (r1 = r2)) as [->|Hne]; [simplify_eq; lia|].
    pose proof (sorted_lt_lookup _ r2 r1 c2 c1 Hs H2 H1). lia.
  - by apply (sorted_lt_lookup _ r1 r2 c1 c2 Hs).
Qed.

End reindex.

(** C9.  For every cluster-id array, [reindex_cluster] returns a dense
    relabelling [0..k-1], where [k] is the number of distinct input ids:
    the output has one id per position, the output ids are exactly
    [0..k-1], two positions share an output id iff they shared an input
    id, smaller input ids receive smaller output ids, the sentinel [-1]
    is relabelled like any other id and becomes [0] when it is present
    (ids being [>= -1]), and [[0,0,0,1,2,4,4,4,5,6]] is mapped to
    [[0,0,0,1,2,3,3,3,4,5]]. *)
Theorem reindex_cluster_dense_order_preserving (cluster : list Z) :
  let out := reindex_cluster cluster in
  let k := length (Np.unique cluster) in
  (NoDup (Np.unique cluster) ∧ ∀ c, c ∈ Np.unique cluster ↔ c ∈ cluster) ∧
  length out = length cluster ∧
  (∀ o, o ∈ out ↔ (0 ≤ o < Z.of_nat k)%Z) ∧
  (∀ i j ci cj oi oj,
     cluster !! i = Some ci → cluster !! j = Some cj →
     out !! i = Some oi → out !! j = Some oj →
     (ci = cj ↔ oi = oj) ∧ ((ci < cj)%Z ↔ (oi < oj)%Z)) ∧
  ((∀ c, c ∈ cluster → (-1 ≤ c)%Z) →
   ∀ i, cluster !! i = Some (-1)%Z → out !! i = Some 0%Z) ∧
  reindex_cluster [0;0;0;1;2;4;4;4;5;6]%Z = [0;0;0;1;2;3;3;3;4;5]%Z.
Proof.
  intros out k. split; [|split; [|split; [|split; [|split]]]].
  - split; [apply unique_NoDup|]. intros c. apply unique_elem.
  - apply reindex_length.
  - intros o. split.
    + intros Ho. apply list_elem_of_lookup in Ho as [i Hi].
      destruct (lookup_lt_is_Some_2 cluster i) as [c Hc].
      { rewrite <- reindex_length. by eapply lookup_lt_Some. }
      destruct (reindex_lookup cluster i c Hc) as (r & Hr & Ho).
      unfold out in Hi. rewrite Ho in Hi. injection Hi as <-.
      pose proof (lookup_lt_Some _ _ _ Hr). unfold k. lia.
    + intros Ho.
      destruct (lookup_lt_is_Some_2 (Np.unique cluster) (Z.to_nat o)) as [c Hc].
      { unfold k in Ho. lia. }
      assert (Hin : c ∈ cluster).
      { apply unique_elem. by eapply list_elem_of_lookup_2. }
      apply list_elem_of_lookup in Hin as [i Hi].
      destruct (reindex_lookup cluster i c Hi) as (r & Hr & Hout).
      assert (r = Z.to_nat o) as ->.
      { eapply NoDup_lookup; [apply unique_NoDup|exact Hr|exact Hc]. }
      apply list_elem_of_lookup. exists i. unfold out. rewrite Hout.
      f_equal. lia.
  - intros i j ci cj oi oj Hci Hcj Hoi Hoj.
    destruct (reindex_lookup cluster i ci Hci) as (ri & Hri & Hi).
    destruct (reindex_lookup cluster j cj Hcj) as (rj & Hrj & Hj).
    unfold out in Hoi, Hoj. rewrite Hi in Hoi. rewrite Hj in Hoj.
    injection Hoi as <-. injection Hoj as <-. split.
    + split.
      * intros ->. f_equal.
        eapply NoDup_lookup; [apply unique_NoDup|exact Hri|exact Hrj].
      * intros Heq. assert (ri = rj) as -> by lia. congruence.
    + rewrite (unique_rank_lt cluster ri rj ci cj Hri Hrj). lia.
  - intros Hge i Hi.
    destruct (reindex_lookup cluster i _ Hi) as (r & Hr & Hout).
    unfold out. rewrite Hout. f_equal.
    destruct r as [|r]; [done|].
    destruct (lookup_lt_is_Some_2 (Np.unique cluster) 0) as [c0 Hc0].
    { pose proof (lookup_lt_Some _ _ _ Hr). lia. }
    assert (c0 < -1)%Z.
    { apply (unique_rank_lt cluster 0 (S r) c0 (-1)%Z Hc0 Hr). lia. }
    assert (c0 ∈ cluster).
    { apply unique_elem. by eapply list_elem_of_lookup_2. }
    specialize (Hge c0 ltac:(done)). lia.
  - reflexivity.
Qed.

(** The sentinel takes part in the relabelling: [[-1,3,-1,7]] becomes
    [[0,1,0,2]]. *)
Lemma reindex_cluster_sentinel_witness :
  reindex_cluster [-1;3;-1;7]%Z !! 2 = Some 0%Z.
Proof.
  apply (reindex_cluster_dense_order_preserving [-1;3;-1;7]%Z).
  - intros c Hc. repeat (apply elem_of_cons in Hc as [->|Hc]; [lia|]).
    by apply elem_of_nil in Hc.
  - reflexivity.
Defined.

(** ** Sorting by keyed positions *)

Section argsort_facts.
Context {A : Type} (leb : A → A → bool).
Hypothesis leb_total : ∀ x y, leb x y = false → leb y x = true.

Let R : relation (A * nat) := λ x y, leb x.1 y.1 = true.

Lemma kinsert_perm x (l : list (A * nat)) : NpSort.kinsert leb x l ≡ₚ x :: l.
Proof.
  induction l as [|y l IH]; simpl; [done|].
  destruct (leb x.1 y.1); [done|]. rewrite IH. apply Permutation_swap.
Qed.

Lemma ksort_perm (l : list (A * nat)) : NpSort.ksort leb l ≡ₚ l.
Proof.
  induction l as [|x l IH]; simpl; [done|].
  unfold NpSort.ksort in *. simpl. by rewrite kinsert_perm, IH.
Qed.

Lemma kinsert_hdrel x y (l : list (A * nat)) :
  R y x → HdRel R y l → HdRel R y (NpSort.kinsert leb x l).
Proof.
  intros Hyx Hl. destruct l as [|z l]; simpl.
  - by constructor.
  - destruct (leb x.1 z.1); constructor; [done|by inversion Hl].
Qed.

Lemma kinsert_sorted x (l : list (A * nat)) :
  Sorted R l → Sorted R (NpSort.kinsert leb x l).
Proof using leb_total.
  induction 1 as [|y l Hs IH Hhd]; simpl.
  - by repeat constructor.
  - destruct (leb x.1 y.1) eqn:Hxy.
    + constructor; [by constructor|]. by constructor.
    + constructor; [done|]. apply kinsert_hdrel; [|done].
      by apply leb_total.
Qed.

Lemma ksort_sorted (l : list (A * nat)) : Sorted R (NpSort.ksort leb l).
Proof using leb_total.
  induction l as [|x l IH]; [constructor|]. by apply kinsert_sorted.
Qed.

Lemma argsort_perm (a : list A) : NpSort.argsort leb a ≡ₚ seq 0 (length a).
Proof.
  unfold NpSort.argsort. rewrite ksort_perm.
  rewrite snd_zip; [done|]. by rewrite length_seq.
Qed.

Lemma argsort_length (a : list A) : length (NpSort.argsort leb a) = length a.
Proof. by rewrite argsort_perm, length_seq. Qed.

Lemma argsort_keys (a : list A) :
  Forall (λ p, a !! p.2 = Some p.1) (NpSort.ksort leb (zip a (seq 0 (length a)))).
Proof.
  rewrite ksort_perm. apply Forall_forall. intros [k i] Hin.
  apply list_elem_of_lookup in Hin as [j Hj].
  apply lookup_zip_Some in Hj as [Hk Hi].
  apply lookup_seq in Hi as [-> _]. done.
Qed.

Lemma take_idx_pairs (a : list A) (l : list (A * nat)) :
  Forall (λ p, a !! p.2 = Some p.1) l → NpSort.take_idx a l.*2 = Ok l.*1.
Proof.
  induction 1 as [|[k i] l Hk Hl IH]; [done|].
  rewrite !fmap_cons. cbn [NpSort.take_idx fst snd] in *. by rewrite Hk, IH.
Qed.

(** [a[np.argsort(a)]] is the ascending arrangement of [a]. *)
Lemma take_idx_argsort (a : list A) :
  NpSort.take_idx a (NpSort.argsort leb a)
  = Ok (NpSort.ksort leb (zip a (seq 0 (length a)))).*1.
Proof. apply take_idx_pairs, argsort_keys. Qed.

Lemma argsort_sorted (a : list A) :
  Sorted (λ x y, leb x y = true) (NpSort.ksort leb (zip a (seq 0 (length a)))).*1.
Proof using leb_total.
  eapply Sorted_fmap; [|apply ksort_sorted]. done.
Qed.

Lemma argsort_lookup (a : list A) j i :
  NpSort.argsort leb a !! j = Some i →
  (NpSort.ksort leb (zip a (seq 0 (length a)))).*1 !! j = a !! i.
Proof.
  unfold NpSort.argsort. intros Hj.
  rewrite list_lookup_fmap in Hj. rewrite list_lookup_fmap.
  destruct (NpSort.ksort leb (zip a (seq 0 (length a))) !! j) as [[k i']|] eqn:E;
    [|done].
  simpl in *. injection Hj as ->.
  pose proof (argsort_keys a) as Hall.
  eapply Forall_lookup_1 in Hall; [|exact E]. done.
Qed.

End argsort_facts.

Section take_idx_facts.
Context {A : Type}.

Lemma take_idx_Ok (a : list A) (idx : list nat) :
  Forall (λ i, i < length a) idx →
  ∃ r, NpSort.take_idx a idx = Ok r ∧ length r = length idx ∧
       ∀ j i, idx !! j = Some i → r !! j = a !! i.
Proof.
  induction 1 as [|i idx Hi Hall (r & Hr & Hlen & Hlk)]; simpl.
  - exists []. split; [done|]. split; [done|]. intros j i Hj. done.
  - destruct (lookup_lt_is_Some_2 a i Hi) as [x Hx]. rewrite Hx, Hr. simpl.
    exists (x :: r). split; [done|]. split; [simpl; lia|].
    intros [|j] i' Hj; simpl in *; [by simplify_eq|]. by apply Hlk.
Qed.

End take_idx_facts.

Lemma Sorted_adjacent {A} (R : relation A) (l : list A) i x y :
  Sorted R l → l !! i = Some x → l !! S i = Some y → R x y.
Proof.
  intros Hs. revert i. induction Hs as [|z l Hs IH Hhd]; intros i Hx Hy; [done|].
  destruct i as [|i]; simpl in *.
  - injection Hx as ->. destruct l; [done|]. simpl in Hy. injection Hy as ->.
    by inversion Hhd.
  - by apply (IH i).
Qed.

Lemma Sorted_le_seq j n : Sorted le (seq j n).
Proof.
  revert j. induction n as [|n IH]; intros j; simpl; [constructor|].
  constructor; [apply IH|]. destruct n; simpl; constructor. lia.
Qed.

Lemma Nat_leb_total x y : Nat.leb x y = false → Nat.leb y x = true.
Proof. intros H. apply Nat.leb_gt in H. apply Nat.leb_le. lia. Qed.

Lemma Qle_bool_total x y : Qle_bool x y = false → Qle_bool y x = true.
Proof.
  intros H. apply Qle_bool_iff. destruct (Qlt_le_dec y x) as [Hlt|Hle].
  - by apply Qlt_le_weak.
  - apply Qle_bool_iff in Hle. congruence.
Qed.

Lemma Qltb_lt x y : Qltb x y = true ↔ (x < y)%Q.
Proof.
  unfold Qltb. rewrite negb_true_iff. split.
  - intros H. apply Qnot_le_lt. intros Hle. apply Qle_bool_iff in Hle. congruence.
  - intros Hlt. destruct (Qle_bool y x) eqn:E; [|done].
    apply Qle_bool_iff in E. by apply Qle_not_lt in E.
Qed.

(** [np.argsort] of a permutation of [0..n-1] is its inverse. *)
Lemma argsort_inverse (ord : list nat) i p :
  ord ≡ₚ seq 0 (length ord) → ord !! i = Some p →
  NpSort.argsort Nat.leb ord !! p = Some i.
Proof.
  intros Hperm Hi.
  set (S := NpSort.ksort Nat.leb (zip ord (seq 0 (length ord)))).
  assert (Hkeys : S.*1 = seq 0 (length ord)).
  { eapply (Sorted_unique le).
    - eapply Sorted_fmap; [|apply (ksort_sorted Nat.leb Nat_leb_total)].
      intros x y Hxy. by apply Nat.leb_le.
    - apply Sorted_le_seq.
    - unfold S. rewrite ksort_perm. rewrite fst_zip; [done|]. by rewrite length_seq. }
  assert (Hp : p < length ord).
  { assert (p ∈ seq 0 (length ord)) as Hin.
    { rewrite <- Hperm. by eapply list_elem_of_lookup_2. }
    apply elem_of_seq in Hin. lia. }
  assert (HSp : S.*1 !! p = Some p).
  { rewrite Hkeys. by rewrite lookup_seq_lt. }
  rewrite list_lookup_fmap in HSp.
  destruct (S !! p) as [[k j]|] eqn:E; [|done]. simpl in HSp. injection HSp as ->.
  pose proof (argsort_keys Nat.leb ord) as Hall.
  eapply Forall_lookup_1 in Hall; [|exact E]. simpl in Hall.
  assert (j = i) as ->.
  { eapply NoDup_lookup; [|exact Hall|exact Hi].
    rewrite Hperm. apply NoDup_seq. }
  unfold NpSort.argsort. fold S. by rewrite list_lookup_fmap, E.
Qed.

(** ** crude_cluster_mz_list *)

Section crude.

Lemma cumsum_from_length acc a : length (NpSort.cumsum_from acc a) = length a.
Proof. revert acc. induction a as [|x a IH]; intros acc; simpl; [done|]. by rewrite IH. Qed.

Lemma cumsum_from_step acc a i x c :
  a !! i = Some x → (acc :: NpSort.cumsum_from acc a) !! i = Some c →
  (acc :: NpSort.cumsum_from acc a) !! S i = Some (c + x)%Z.
Proof.
  revert acc i c. induction a as [|y a IH]; intros acc i c Hx Hc; [done|].
  destruct i as [|i]; simpl in *.
  - by simplify_eq.
  - by apply IH.
Qed.

Lemma cumsum_from_nonneg acc a :
  (0 ≤ acc)%Z → Forall (λ x, 0 ≤ x)%Z a →
  Forall (λ x, 0 ≤ x)%Z (NpSort.cumsum_from acc a).
Proof.
  intros Hacc Ha. revert acc Hacc.
  induction Ha as [|x a Hx Ha IH]; intros acc Hacc; simpl; [constructor|].
  constructor; [lia|]. apply IH. lia.
Qed.

Lemma diffsPPM_length mz_ : length (diffsPPM mz_) = length mz_ - 1.
Proof.
  unfold diffsPPM. rewrite length_zip_with, length_drop, !length_take. lia.
Qed.

Lemma diffsPPM_lookup mz_ i lo hi :
  mz_ !! i = Some lo → mz_ !! S i = Some hi →
  diffsPPM mz_ !! i = Some ((hi - lo) / lo * ppm_factor)%Q.
Proof.
  intros Hlo Hhi. unfold diffsPPM.
  pose proof (lookup_lt_Some _ _ _ Hhi) as Hlen.
  rewrite lookup_zip_with, lookup_drop, firstn_all. simpl.
  rewrite Hhi. simpl. rewrite lookup_take_lt by lia. by rewrite Hlo.
Qed.

End crude.

(** C8.  [crude_cluster_mz_list] returns one nonnegative cluster id per
    signal, at the signal's original position; [mzOrd] is the order of
    the signals by ascending mass, and two signals adjacent in that
    order, at positions [p] and [q] of the input, receive the same id
    iff their PPM gap [(mz[q] - mz[p]) / mz[p] * 1E6] does not exceed
    [min_difference_ppm].  No position is left out. *)
Theorem crude_cluster_mz_list_adjacent_gap sample (mz intensity : list Q) min_difference_ppm :
  length intensity = length mz →
  Forall (λ m, 0 < m)%Q mz →
  ∃ clust,
    crude_cluster_mz_list sample mz intensity min_difference_ppm = Ok clust ∧
    length clust = length mz ∧
    Forall (λ c, 0 ≤ c)%Z clust ∧
    let mzOrd := NpSort.argsort Qle_bool mz in
    mzOrd ≡ₚ seq 0 (length mz) ∧
    ∀ i p q lo hi clo chi,
      mzOrd !! i = Some p → mzOrd !! S i = Some q →
      mz !! p = Some lo → mz !! q = Some hi →
      clust !! p = Some clo → clust !! q = Some chi →
      (lo <= hi)%Q ∧
      (clo = chi ↔ ((hi - lo) / lo * 1000000 <= min_difference_ppm)%Q).
Proof.
  intros Hlen Hpos. unfold crude_cluster_mz_list.
  rewrite (take_idx_argsort Qle_bool mz).
  set (mzOrd := NpSort.argsort Qle_bool mz).
  set (mz_ := (NpSort.ksort Qle_bool (zip mz (seq 0 (length mz)))).*1).
  assert (Hperm : mzOrd ≡ₚ seq 0 (length mz)) by apply argsort_perm.
  assert (HlenOrd : length mzOrd = length mz) by apply argsort_length.
  assert (Hlen_ : length mz_ = length mz).
  { unfold mz_. rewrite length_fmap. rewrite (Permutation_length (ksort_perm _ _)).
    rewrite length_zip, length_seq. lia. }
  assert (Hrange : Forall (λ i, i < length mz) mzOrd).
  { rewrite Hperm. apply Forall_forall. intros i Hi. apply elem_of_seq in Hi. lia. }
  cbn [mbind result_bind].
  destruct (take_idx_Ok intensity mzOrd) as (int_ & -> & _).
  { by rewrite Hlen. }
  cbn [mbind result_bind].
  set (flags := map (λ d, if Qltb min_difference_ppm d then 1%Z else 0%Z) (diffsPPM mz_)).
  set (cs := 0%Z :: NpSort.cumsum flags).
  set (inv := NpSort.argsort Nat.leb mzOrd).
  assert (Hinv : inv ≡ₚ seq 0 (length mz)).
  { unfold inv. rewrite argsort_perm. by rewrite HlenOrd. }
  assert (Hcs_len : length mz ≤ length cs).
  { unfold cs, NpSort.cumsum. simpl. rewrite cumsum_from_length. unfold flags.
    rewrite length_map, diffsPPM_length. lia. }
  assert (Hcs_nonneg : Forall (λ x, 0 ≤ x)%Z cs).
  { constructor; [done|]. apply cumsum_from_nonneg; [done|].
    unfold flags. apply Forall_forall. intros x Hx.
    apply list_elem_of_fmap in Hx as (d & -> & _).
    destruct (Qltb min_difference_ppm d); lia. }
  destruct (take_idx_Ok cs inv) as (r & Hr & Hrlen & Hrlk).
  { rewrite Hinv. apply Forall_forall. intros i Hi. apply elem_of_seq in Hi. lia. }
  exists r. split; [done|].
  assert (Hinvlen : length inv = length mz).
  { by rewrite Hinv, length_seq. }
  split; [lia|]. split.
  { apply Forall_lookup. intros j x Hj.
    destruct (lookup_lt_is_Some_2 inv j) as [i Hi].
    { rewrite <- Hrlen. by eapply lookup_lt_Some. }
    rewrite (Hrlk j i Hi) in Hj. by eapply Forall_lookup_1 in Hcs_nonneg. }
  split; [done|].
  intros i p q lo hi clo chi Hp Hq Hlo Hhi Hclo Hchi.
  assert (Hr_at : ∀ j x, mzOrd !! j = Some x → r !! x = cs !! j).
  { intros j x Hj. apply Hrlk. apply argsort_inverse; [|done].
    by rewrite HlenOrd. }
  rewrite (Hr_at i p Hp) in Hclo. rewrite (Hr_at (S i) q Hq) in Hchi.
  assert (Hmz_lo : mz_ !! i = Some lo).
  { unfold mz_. by rewrite (argsort_lookup Qle_bool mz i p Hp). }
  assert (Hmz_hi : mz_ !! S i = Some hi).
  { unfold mz_. by rewrite (argsort_lookup Qle_bool mz (S i) q Hq). }
  split.
  { apply Qle_bool_iff.
    eapply (Sorted_adjacent (λ x y, Qle_bool x y = true)); [|exact Hmz_lo|exact Hmz_hi].
    apply (argsort_sorted Qle_bool Qle_bool_total). }
  assert (Hflag : flags !! i =
    Some (if Qltb min_difference_ppm ((hi - lo) / lo * ppm_factor)%Q then 1%Z else 0%Z)).
  { unfold flags. rewrite list_lookup_fmap.
    by rewrite (diffsPPM_lookup mz_ i lo hi Hmz_lo Hmz_hi). }
  pose proof (cumsum_from_step 0%Z flags i _ clo Hflag Hclo) as Hstep.
  unfold cs, NpSort.cumsum in Hchi. rewrite Hstep in Hchi. injection Hchi as <-.
  unfold ppm_factor.
  destruct (Qltb min_difference_ppm ((hi - lo) / lo * 1000000)) eqn:E.
  - apply Qltb_lt in E. split; [lia|]. intros Hle. by apply Qle_not_lt in Hle.
  - split; [intros _|lia]. apply Qnot_lt_le. intros Hlt.
    apply Qltb_lt in Hlt. congruence.
Qed.

(** Three signals, two of them 10 ppm apart: the heavy one is alone. *)
Lemma crude_cluster_mz_list_adjacent_gap_witness :
  ∃ clust,
    crude_cluster_mz_list "spot" [200; 100; 100.001]%Q [1; 1; 1]%Q 30%Q = Ok clust ∧
    length clust = 3.
Proof.
  destruct (crude_cluster_mz_list_adjacent_gap "spot" [200; 100; 100.001]%Q [1; 1; 1]%Q 30%Q)
    as (clust & Hrun & Hlen & _).
  - reflexivity.
  - repeat (apply Forall_cons_2; [reflexivity|]). constructor.
  - exists clust. split; assumption.
Defined.

(** ** build_data_matrix *)

Section data_matrix.
Context {I : Type}.
Implicit Types (M : matrix) (sp : spectrum) (br : Q * Q * Q * I).

Lemma zeros_wf n m : matrix_wf (Mat.zeros n m).
Proof.
  split; simpl; [apply length_replicate|].
  apply Forall_replicate. apply length_replicate.
Qed.

Lemma enumerate_lookup {X} (xs : list X) i x :
  enumerate xs !! i = Some (i, x) ↔ xs !! i = Some x.
Proof.
  unfold enumerate. rewrite lookup_zip_Some, lookup_seq. split.
  - by intros [_ ?].
  - intros H. split; [|done]. split; [done|]. by eapply lookup_lt_Some.
Qed.

Lemma elem_of_enumerate {X} (xs : list X) i x :
  (i, x) ∈ enumerate xs ↔ xs !! i = Some x.
Proof.
  rewrite list_elem_of_lookup. split.
  - intros [k Hk]. unfold enumerate in Hk.
    apply lookup_zip_Some in Hk as [Hi Hx]. apply lookup_seq in Hi as [-> _]. done.
  - intros H. exists i. by apply enumerate_lookup.
Qed.

Lemma rowI_fold_Some (l : list (nat * string)) (m : gmap string nat) s r :
  fold_left (λ (m : gmap string nat) '(i, sample), <[sample := i]> m) l m !! s = Some r →
  (r, s) ∈ l ∨ m !! s = Some r.
Proof.
  revert m. induction l as [|[i s'] l IH]; intros m H; simpl in *; [by right|].
  apply IH in H as [H|H]; [left; by right|].
  destruct (decide (s' = s)) as [->|Hne].
  - rewrite lookup_insert_eq in H. injection H as ->. left. by left.
  - rewrite lookup_insert_ne in H by done. by right.
Qed.

Lemma rowI_fold_is_Some (l : list (nat * string)) (m : gmap string nat) s :
  (s ∈ l.*2 ∨ is_Some (m !! s)) →
  is_Some (fold_left (λ (m : gmap string nat) '(i, sample), <[sample := i]> m) l m !! s).
Proof.
  revert m. induction l as [|[i s'] l IH]; intros m H; simpl in *.
  - destruct H as [H|H]; [by apply elem_of_nil in H|done].
  - apply IH. destruct H as [H|H].
    + apply elem_of_cons in H as [->|H]; [|by left].
      right. rewrite lookup_insert_eq. by eexists.
    + right. destruct (decide (s' = s)) as [->|Hne].
      * rewrite lookup_insert_eq. by eexists.
      * by rewrite lookup_insert_ne.
Qed.

(** The row of a sample is a position that carries its name. *)
Lemma sampleNamesToRowI_Some names s r :
  sampleNamesToRowI names !! s = Some r → names !! r = Some s.
Proof.
  intros H. apply rowI_fold_Some in H as [H|H]; [|done].
  by apply elem_of_enumerate.
Qed.

Lemma sampleNamesToRowI_elem names s :
  s ∈ names → is_Some (sampleNamesToRowI names !! s).
Proof.
  intros H. apply rowI_fold_is_Some. left.
  unfold enumerate. rewrite snd_zip; [done|]. by rewrite length_seq.
Qed.

Lemma mat_set_spec M i j v :
  matrix_wf M → i < shape0 M → j < shape1 M →
  ∃ M', Mat.set M i j v = Ok M' ∧ matrix_wf M' ∧
    shape0 M' = shape0 M ∧ shape1 M' = shape1 M ∧
    (∀ i', i' ≠ i → rows M' !! i' = rows M !! i') ∧
    ∃ row, rows M !! i = Some row ∧ rows M' !! i = Some (<[j := v]> row).
Proof.
  intros [Hlen Hall] Hi Hj. unfold Mat.set.
  rewrite decide_True by done. eexists. split; [done|]. simpl.
  destruct (lookup_lt_is_Some_2 (rows M) i) as [row Hrow]; [lia|].
  split; [|split; [done|split; [done|split]]].
  - split; simpl; [by rewrite length_alter|].
    apply Forall_alter; [done|]. intros x Hx. rewrite length_insert.
    by eapply Forall_lookup_1 in Hall.
  - intros i' Hne. by rewrite list_lookup_alter_ne.
  - exists row. split; [done|]. by rewrite list_lookup_alter_eq, Hrow.
Qed.

Lemma bracket_loop_spec (rowI : gmap string nat) sample sp r (bs : list (Q * Q * Q * I)) :
  rowI !! sample = Some r →
  ∀ j M, matrix_wf M → r < shape0 M → j + length bs = shape1 M →
  ∃ M', for_each (build_data_matrix_bracket rowI sample sp)
                 (zip (seq j (length bs)) bs) M = Ok M' ∧
    matrix_wf M' ∧ shape0 M' = shape0 M ∧ shape1 M' = shape1 M ∧
    (∀ i, i ≠ r → rows M' !! i = rows M !! i) ∧
    ∃ row row', rows M !! r = Some row ∧ rows M' !! r = Some row' ∧
      (∀ b, b < j → row' !! b = row !! b) ∧
      (∀ k br, bs !! k = Some br → row' !! (j + k) = Some (bracket_cell sp br)).
Proof.
  intros Hr. induction bs as [|br bs IH]; intros j M Hwf Hrow Hj; simpl.
  - exists M. split; [done|]. split; [done|]. split; [done|]. split; [done|].
    split; [done|].
    destruct (lookup_lt_is_Some_2 (rows M) r) as [row Hrw]; [destruct Hwf; lia|].
    exists row, row. split; [done|]. split; [done|]. split; [done|].
    intros k br Hk. done.
  - destruct br as [[[mzmin meanmz] mzmax] info]. rewrite Hr.
    simpl in Hj.
    destruct (mat_set_spec M r j (window_cell sp mzmin mzmax) Hwf Hrow ltac:(lia))
      as (M1 & -> & Hwf1 & Hs0 & Hs1 & Hframe1 & row & Hrow0 & Hrow1).
    cbn [mbind result_bind].
    destruct (IH (S j) M1 Hwf1 ltac:(lia) ltac:(lia))
      as (M' & HM' & Hwf' & Hs0' & Hs1' & Hframe' & row1 & row' & Hr1 & Hr' & Hlow & Hhigh).
    exists M'. split; [done|]. split; [done|]. split; [lia|]. split; [lia|].
    split. { intros i Hi. rewrite Hframe', Hframe1; done. }
    rewrite Hrow1 in Hr1. injection Hr1 as <-.
    exists row, row'. split; [done|]. split; [done|]. split.
    + intros b Hb. rewrite Hlow by lia. by rewrite list_lookup_insert_ne by lia.
    + intros [|k] br Hk; simpl in Hk.
      * injection Hk as <-. rewrite Nat.add_0_r, Hlow by lia.
        apply list_lookup_insert_eq.
        destruct Hwf as [_ Hall]. eapply Forall_lookup_1 in Hall; [|exact Hrow0].
        simpl in Hall. lia.
      * replace (j + S k) with (S j + k) by lia. by apply Hhigh.
Qed.

Lemma sample_pass_spec (a : assay) (rowI : gmap string nat)
    (brackets : list (Q * Q * Q * I)) samplei sample sp r M :
  rowI !! sample = Some r → get_ms_data a sample !! 0 = Some sp →
  matrix_wf M → r < shape0 M → shape1 M = length brackets →
  ∃ M', build_data_matrix_sample a rowI brackets M (samplei, sample) = Ok M' ∧
    matrix_wf M' ∧ shape0 M' = shape0 M ∧ shape1 M' = shape1 M ∧
    (∀ i, i ≠ r → rows M' !! i = rows M !! i) ∧
    rows M' !! r = Some (sample_row sp brackets).
Proof.
  intros Hr Hsp Hwf Hrow Hshape. unfold build_data_matrix_sample. rewrite Hsp.
  destruct (bracket_loop_spec rowI sample sp r brackets Hr 0 M Hwf Hrow ltac:(lia))
    as (M' & HM' & Hwf' & Hs0 & Hs1 & Hframe & row & row' & Hr0 & Hr' & _ & Hhigh).
  exists M'. split; [done|]. split; [done|]. split; [done|]. split; [done|].
  split; [done|]. rewrite Hr'. f_equal.
  apply list_eq. intros k. unfold sample_row. rewrite list_lookup_fmap.
  destruct (brackets !! k) as [br|] eqn:E; simpl.
  - by apply (Hhigh k br).
  - apply lookup_ge_None. apply lookup_ge_None in E.
    destruct Hwf' as [_ Hall]. eapply Forall_lookup_1 in Hall; [|exact Hr']. lia.
Qed.

Lemma sample_loop_spec (a : assay) (rowI : gmap string nat)
    (brackets : list (Q * Q * Q * I)) ss :
  (∀ s s' r, rowI !! s = Some r → rowI !! s' = Some r → s = s') →
  ∀ M, matrix_wf M → shape1 M = length brackets →
  (∀ s, s ∈ ss.*2 → ∃ r sp, rowI !! s = Some r ∧ r < shape0 M ∧
                             get_ms_data a s !! 0 = Some sp) →
  ∃ M', for_each (build_data_matrix_sample a rowI brackets) ss M = Ok M' ∧
    matrix_wf M' ∧ shape0 M' = shape0 M ∧ shape1 M' = shape1 M ∧
    (∀ r, (∀ s, s ∈ ss.*2 → rowI !! s ≠ Some r) → rows M' !! r = rows M !! r) ∧
    (∀ s r sp, s ∈ ss.*2 → rowI !! s = Some r → get_ms_data a s !! 0 = Some sp →
       rows M' !! r = Some (sample_row sp brackets)).
Proof.
  intros Hinj. induction ss as [|[samplei sample] ss IH]; intros M Hwf Hshape Hall.
  - exists M. simpl. split; [done|]. split; [done|]. split; [done|]. split; [done|].
    split; [done|]. intros s r sp Hs. by apply elem_of_nil in Hs.
  - destruct (Hall sample) as (r & sp & Hr & Hrow & Hsp); [by left|].
    destruct (sample_pass_spec a rowI brackets samplei sample sp r M Hr Hsp Hwf Hrow Hshape)
      as (M1 & HM1 & Hwf1 & Hs0 & Hs1 & Hframe1 & Hrow1).
    destruct (IH M1 Hwf1 ltac:(lia)) as (M' & HM' & Hwf' & Hs0' & Hs1' & Hframe' & Hrows').
    { intros s Hs. destruct (Hall s) as (r' & sp' & ? & ? & ?); [by right|].
      exists r', sp'. split; [done|]. split; [lia|done]. }
    exists M'. cbn [for_each]. rewrite HM1. cbn [mbind result_bind].
    split; [done|]. split; [done|]. split; [lia|]. split; [lia|]. split.
    + intros r' Hnone. rewrite Hframe'.
      * apply Hframe1. intros ->. by apply (Hnone sample); [left|].
      * intros s Hs. apply Hnone. by right.
    + intros s r' sp' Hs Hr' Hsp'.
      destruct (decide (s ∈ ss.*2)) as [Hin|Hnin]; [by eapply Hrows'|].
      apply elem_of_cons in Hs as [->|Hs]; [|done]. simpl in *.
      rewrite Hr in Hr'. injection Hr' as <-. rewrite Hsp in Hsp'. injection Hsp' as <-.
      rewrite Hframe'; [done|].
      intros s' Hs' Heq. assert (s' = sample) as -> by by eapply Hinj. done.
Qed.

Lemma sel_window sp lo hi :
  length (spectrum_mz sp) = length (spectrum_spint sp) →
  Np.sel (window_mask sp lo hi) (spectrum_spint sp) = (signals_in_window sp lo hi).*2 ∧
  Np.count_true (window_mask sp lo hi) = length (signals_in_window sp lo hi).
Proof.
  unfold window_mask, signals_in_window, Np.count_true.
  generalize (spectrum_mz sp) (spectrum_spint sp). intros mz.
  induction mz as [|m mz IH]; intros [|x ints] Hlen; simpl in *; try done.
  destruct (IH ints ltac:(lia)) as [IH1 IH2].
  destruct (Qle_bool lo m && Qle_bool m hi) eqn:E; simpl.
  - by rewrite IH1, IH2.
  - done.
Qed.

End data_matrix.

(** C6.  [build_data_matrix] fills, for every sample [s] and bracket
    [b], the cell in the row of [s] and the column of [b] with the sum
    of the intensities of the signals of [s] whose mass lies in
    [[b.min, b.max]] when there is such a signal, and with [NaN] exactly
    when there is none: a sum that happens to be zero stays a number. *)
Theorem build_data_matrix_cell_sum_or_nan {I} (a : assay) (brackets : list (Q * Q * Q * I)) :
  (∀ s, s ∈ get_sample_names a →
     ∃ sp, get_ms_data a s !! 0 = Some sp ∧
           length (spectrum_mz sp) = length (spectrum_spint sp)) →
  ∃ dataMatrix,
    build_data_matrix a brackets = Ok (get_sample_names a, brackets, dataMatrix) ∧
    shape0 dataMatrix = length (get_sample_names a) ∧
    shape1 dataMatrix = length brackets ∧
    ∀ s sp braci mzmin meanmz mzmax info,
      s ∈ get_sample_names a → get_ms_data a s !! 0 = Some sp →
      brackets !! braci = Some (mzmin, meanmz, mzmax, info) →
      ∃ row cell,
        sampleNamesToRowI (get_sample_names a) !! s = Some row ∧
        get_sample_names a !! row = Some s ∧
        Mat.get dataMatrix row braci = Ok cell ∧
        let inside := signals_in_window sp mzmin mzmax in
        (inside ≠ [] → cell = Fin (Qsum inside.*2)) ∧
        (cell = NaN ↔ inside = []).
Proof.
  intros Hsamples. unfold build_data_matrix.
  set (names := get_sample_names a). set (rowI := sampleNamesToRowI names).
  destruct (sample_loop_spec a rowI brackets (enumerate names)) with
    (M := Mat.zeros (length names) (length brackets))
    as (M' & HM' & Hwf' & Hs0 & Hs1 & _ & Hrows).
  - intros s s' r Hs Hs'. apply sampleNamesToRowI_Some in Hs, Hs'. congruence.
  - apply zeros_wf.
  - done.
  - intros s Hs. unfold enumerate in Hs. rewrite snd_zip in Hs by (rewrite length_seq; lia).
    destruct (sampleNamesToRowI_elem names s Hs) as [r Hr].
    destruct (Hsamples s Hs) as (sp & Hsp & _).
    exists r, sp. split; [done|]. split; [|done]. simpl.
    apply sampleNamesToRowI_Some in Hr. by eapply lookup_lt_Some.
  - exists M'. rewrite HM'. cbn [mbind result_bind]. split; [done|].
    split; [done|]. split; [done|].
    intros s sp braci mzmin meanmz mzmax info Hs Hsp Hbr.
    destruct (sampleNamesToRowI_elem names s Hs) as [r Hr].
    exists r, (window_cell sp mzmin mzmax). split; [done|].
    split; [by apply sampleNamesToRowI_Some|]. split.
    + unfold Mat.get. rewrite (Hrows s r sp); [| |done|done].
      * unfold sample_row. rewrite list_lookup_fmap, Hbr. done.
      * unfold enumerate. rewrite snd_zip; [done|]. by rewrite length_seq.
    + destruct (Hsamples s Hs) as (sp' & Hsp' & Hlen).
      rewrite Hsp in Hsp'. injection Hsp' as <-.
      destruct (sel_window sp mzmin mzmax Hlen) as [Hsel Hcount].
      unfold window_cell. rewrite Hsel, Hcount.
      destruct (signals_in_window sp mzmin mzmax) as [|p l]; simpl.
      * split; [done|]. done.
      * split; [done|]. split; [done|]. intros; done.
Qed.

(** A data matrix of the example assay: the row of sample A holds the
    number 0, the row of sample B holds [NaN]. *)
Lemma build_data_matrix_cell_sum_or_nan_witness :
  ∃ dataMatrix,
    build_data_matrix example_assay example_brackets
      = Ok (get_sample_names example_assay, example_brackets, dataMatrix) ∧
    shape0 dataMatrix = 2 ∧ shape1 dataMatrix = 1.
Proof.
  destruct (build_data_matrix_cell_sum_or_nan example_assay example_brackets)
    as (dataMatrix & Hrun & Hs0 & Hs1 & _).
  - intros s Hs. simpl in Hs.
    apply elem_of_cons in Hs as [->|Hs]; [by exists example_spectrum_A|].
    apply elem_of_cons in Hs as [->|Hs]; [by exists example_spectrum_B|].
    by apply elem_of_nil in Hs.
  - exists dataMatrix. split; [exact Hrun|]. split; [exact Hs0|exact Hs1].
Defined.

Example build_data_matrix_zero_is_not_nan :
  build_data_matrix example_assay example_brackets
  = Ok (["A"; "B"]%string, example_brackets,
        {| shape0 := 2; shape1 := 1; rows := [[Fin (0 + 0)]; [NaN]] |}).
Proof. reflexivity. Qed.

(** ** blank_subtraction *)

Section blank_subtraction_facts.
Variable ttest_ind : list xfloat → list xfloat → xfloat.
Variables (dat : matrix) (groups : list string) (blankGroup : string).
Variables (foldCutoff pvalueCutoff : Q) (minDetected : Z).

Let group_step := blank_subtraction_group ttest_ind dat groups foldCutoff pvalueCutoff minDetected.
Let feature_step := blank_subtraction_feature ttest_ind dat groups blankGroup
                      foldCutoff pvalueCutoff minDetected.
Let counter_ok := feature_counter_ok dat groups blankGroup minDetected.

Lemma group_inds_range g : Forall (λ i, i < length groups) (group_inds groups g).
Proof.
  unfold group_inds. apply Forall_forall. intros i Hi.
  apply list_elem_of_fmap in Hi as ([i' s] & -> & Hin).
  apply list_elem_of_In, filter_In in Hin as [Hin _].
  apply list_elem_of_In, elem_of_enumerate in Hin. simpl. by eapply lookup_lt_Some.
Qed.

Lemma get_rows_cases inds j :
  match Mat.get_rows dat inds j with
  | Ok v => length v = length inds
  | Raise e =>
      e = IndexError ∧
      ¬ (matrix_wf dat ∧ Forall (λ i, i < shape0 dat) inds ∧ j < shape1 dat)
  end.
Proof.
  induction inds as [|i inds IH]; simpl; [done|].
  unfold Mat.get at 1.
  destruct (rows dat !! i) as [row|] eqn:Hrow.
  - destruct (row !! j) as [v|] eqn:Hv; simpl.
    + destruct (Mat.get_rows dat inds j) as [r|e]; simpl.
      * by rewrite IH.
      * destruct IH as [-> IH]. split; [done|]. intros (Hwf & Hall & Hj).
        apply IH. split; [done|]. split; [by inversion Hall|done].
    + split; [done|]. intros ([_ Hwf] & _ & Hj).
      eapply Forall_lookup_1 in Hwf; [|exact Hrow]. simpl in Hwf.
      apply lookup_ge_None in Hv. lia.
  - simpl. split; [done|]. intros ([Hlen _] & Hall & _).
    apply lookup_ge_None in Hrow. inversion Hall; subst. lia.
Qed.

Lemma group_step_spec featurei notInBlanks valsBlanks keeps g k :
  keeps !! featurei = Some k → featurei < shape1 dat →
  counter_moves notInBlanks 0 k →
  match group_step featurei notInBlanks valsBlanks keeps g with
  | Ok keeps' =>
      length keeps' = length keeps ∧
      (∀ j, j ≠ featurei → keeps' !! j = keeps !! j) ∧
      ∃ k', keeps' !! featurei = Some k' ∧ counter_moves notInBlanks k k'
  | Raise e => e = IndexError ∧ ¬ blank_input_wf dat groups
  end.
Proof.
  intros Hk Hf Hsign. unfold group_step, blank_subtraction_group.
  pose proof (get_rows_cases (group_inds groups g) featurei) as Hrows.
  destruct (Mat.get_rows dat (group_inds groups g) featurei) as [valsGroup|e];
    cbn [mbind result_bind].
  2: { destruct Hrows as [-> Hrows]. split; [done|]. intros [Hwf Hlen].
       apply Hrows. split; [done|]. split; [|done].
       rewrite <- Hlen. apply group_inds_range. }
  assert (Hself : ∃ k', keeps !! featurei = Some k' ∧ counter_moves notInBlanks k k').
  { exists k. split; [done|]. unfold counter_moves. destruct notInBlanks; lia. }
  pose proof (lookup_lt_Some _ _ _ Hk) as Hlt.
  destruct (Z.of_nat (XFloat.count_not_nan valsGroup) <? minDetected)%Z; [done|].
  unfold keeps_get, keeps_set. rewrite Hk.
  destruct notInBlanks; cbn [mbind result_bind]; unfold counter_moves in *.
  - destruct (Z.leb_spec k 0); [|lia]. cbn [assert mbind result_bind].
    rewrite decide_True by done.
    split; [by rewrite length_insert|]. split.
    + intros j Hj. by rewrite list_lookup_insert_ne.
    + exists (k - 1)%Z. split; [|lia]. by apply list_lookup_insert_eq.
  - destruct (Z.leb_spec 0 k); [|lia]. cbn [assert mbind result_bind].
    match goal with |- context [if ?b then _ else _] => destruct b end; [|done].
    rewrite decide_True by done.
    split; [by rewrite length_insert|]. split.
    + intros j Hj. by rewrite list_lookup_insert_ne.
    + exists (k + 1)%Z. split; [|lia]. by apply list_lookup_insert_eq.
Qed.

Lemma group_loop_spec featurei notInBlanks valsBlanks gs :
  featurei < shape1 dat →
  ∀ keeps k, keeps !! featurei = Some k → counter_moves notInBlanks 0 k →
  match for_each (group_step featurei notInBlanks valsBlanks) gs keeps with
  | Ok keeps' =>
      length keeps' = length keeps ∧
      (∀ j, j ≠ featurei → keeps' !! j = keeps !! j) ∧
      ∃ k', keeps' !! featurei = Some k' ∧ counter_moves notInBlanks k k'
  | Raise e => e = IndexError ∧ ¬ blank_input_wf dat groups
  end.
Proof.
  intros Hf. induction gs as [|g gs IH]; intros keeps k Hk Hsign; cbn [for_each].
  - split; [done|]. split; [done|]. exists k. split; [done|].
    unfold counter_moves. destruct notInBlanks; lia.
  - pose proof (group_step_spec featurei notInBlanks valsBlanks keeps g k Hk Hf Hsign) as Hs.
    destruct (group_step featurei notInBlanks valsBlanks keeps g) as [keeps1|e];
      cbn [mbind result_bind]; [|done].
    destruct Hs as (Hlen1 & Hframe1 & k1 & Hk1 & Hmove1).
    assert (Hsign1 : counter_moves notInBlanks 0 k1).
    { unfold counter_moves in *. destruct notInBlanks; lia. }
    specialize (IH keeps1 k1 Hk1 Hsign1).
    destruct (for_each _ gs keeps1) as [keeps'|e]; [|done].
    destruct IH as (Hlen' & Hframe' & k' & Hk' & Hmove').
    split; [lia|]. split.
    + intros j Hj. by rewrite Hframe', Hframe1.
    + exists k'. split; [done|]. unfold counter_moves in *. destruct notInBlanks; lia.
Qed.

Lemma feature_step_spec gs keeps featurei :
  keeps !! featurei = Some 0%Z → featurei < shape1 dat →
  match feature_step gs keeps featurei with
  | Ok keeps' =>
      length keeps' = length keeps ∧
      (∀ j, j ≠ featurei → keeps' !! j = keeps !! j) ∧
      ∃ k, keeps' !! featurei = Some k ∧ counter_ok featurei k
  | Raise e => e = IndexError ∧ ¬ blank_input_wf dat groups
  end.
Proof.
  intros Hk Hf. unfold feature_step, blank_subtraction_feature, counter_ok, feature_counter_ok.
  pose proof (get_rows_cases (group_inds groups blankGroup) featurei) as Hrows.
  destruct (Mat.get_rows dat (group_inds groups blankGroup) featurei) as [valsBlanks|e];
    cbn [mbind result_bind].
  2: { destruct Hrows as [-> Hrows]. split; [done|]. intros [Hwf Hlen].
       apply Hrows. split; [done|]. split; [|done].
       rewrite <- Hlen. apply group_inds_range. }
  unfold Mat.get_col.
  pose proof (get_rows_cases (seq 0 (shape0 dat)) featurei) as Hcol.
  destruct (Mat.get_rows dat (seq 0 (shape0 dat)) featurei) as [col|e];
    cbn [mbind result_bind].
  2: { destruct Hcol as [-> Hcol]. split; [done|]. intros [Hwf Hlen].
       apply Hcol. split; [done|]. split; [|done].
       apply Forall_forall. intros i Hi. apply elem_of_seq in Hi. lia. }
  destruct (Z.ltb_spec (Z.of_nat (XFloat.count_not_nan col)) minDetected) as [Hlt|Hge].
  - split; [done|]. split; [done|]. exists 0%Z. split; [done|].
    exists valsBlanks, col. split; [done|]. split; [done|]. split; [done|].
    unfold counter_moves. by destruct (forallb _ _).
  - pose proof (group_loop_spec featurei (forallb XFloat.isnan valsBlanks)
                  (XFloat.drop_nan valsBlanks) gs Hf keeps 0%Z Hk) as Hloop.
    fold group_step.
    destruct (for_each _ gs keeps) as [keeps'|e].
    + destruct Hloop as (Hlen & Hframe & k & Hk' & Hmove).
      { unfold counter_moves. by destruct (forallb _ _). }
      split; [done|]. split; [done|]. exists k. split; [done|].
      exists valsBlanks, col. split; [done|]. split; [done|]. split; [lia|done].
    + apply Hloop. unfold counter_moves. by destruct (forallb _ _).
Qed.

Lemma feature_loop_spec gs n :
  ∀ j keeps, length keeps = shape1 dat → j + n = shape1 dat →
  (∀ i, j ≤ i → i < shape1 dat → keeps !! i = Some 0%Z) →
  match for_each (feature_step gs) (seq j n) keeps with
  | Ok keeps' =>
      length keeps' = shape1 dat ∧
      (∀ i, i < j → keeps' !! i = keeps !! i) ∧
      (∀ i, j ≤ i → i < shape1 dat →
         ∃ k, keeps' !! i = Some k ∧ counter_ok i k)
  | Raise e => e = IndexError ∧ ¬ blank_input_wf dat groups
  end.
Proof.
  induction n as [|n IH]; intros j keeps Hlen Hj Hzero; cbn [seq for_each].
  - split; [done|]. split; [done|]. intros i ? ?. lia.
  - pose proof (feature_step_spec gs keeps j (Hzero j ltac:(lia) ltac:(lia)) ltac:(lia)) as Hs.
    destruct (feature_step gs keeps j) as [keeps1|e]; cbn [mbind result_bind]; [|done].
    destruct Hs as (Hlen1 & Hframe1 & k & Hk & Hok).
    specialize (IH (S j) keeps1 ltac:(lia) ltac:(lia)).
    destruct (for_each _ (seq (S j) n) keeps1) as [keeps'|e].
    + destruct IH as (Hlen' & Hlow & Hhigh).
      { intros i ? ?. rewrite Hframe1 by lia. apply Hzero; lia. }
      split; [done|]. split.
      * intros i Hi. rewrite Hlow by lia. apply Hframe1. lia.
      * intros i Hi1 Hi2. destruct (decide (i = j)) as [->|Hne].
        -- exists k. split; [|done]. by rewrite Hlow by lia.
        -- apply Hhigh; lia.
    + apply IH. intros i ? ?. rewrite Hframe1 by lia. apply Hzero; lia.
Qed.

(** The counters of a whole run. *)
Lemma blank_subtraction_keeps_spec gs :
  match blank_subtraction_keeps ttest_ind dat groups blankGroup
          foldCutoff pvalueCutoff minDetected gs with
  | Ok keeps =>
      length keeps = shape1 dat ∧
      ∀ i, i < shape1 dat → ∃ k, keeps !! i = Some k ∧ counter_ok i k
  | Raise e => e = IndexError ∧ ¬ blank_input_wf dat groups
  end.
Proof.
  unfold blank_subtraction_keeps.
  pose proof (feature_loop_spec gs (shape1 dat) 0 (replicate (shape1 dat) 0%Z)) as H.
  fold feature_step.
  destruct (for_each _ _ _) as [keeps|e].
  - destruct H as (Hlen & _ & Hhigh).
    + apply length_replicate.
    + done.
    + intros i _ Hi. by apply lookup_replicate_2.
    + split; [done|]. intros i Hi. apply Hhigh; lia.
  - apply H.
    + apply length_replicate.
    + done.
    + intros i _ Hi. by apply lookup_replicate_2.
Qed.

End blank_subtraction_facts.

(** C7.  On a matrix with one group label per row, [blank_subtraction]
    returns a boolean mask with one entry per column; the entry of a
    feature is [True] iff its signed counter is nonzero after the loop
    over the tested groups, and a feature with fewer than [minDetected]
    non-missing values over all samples keeps the counter [0] and is
    dropped. *)
Theorem blank_subtraction_keep_mask ttest_ind dat groups blankGroup
    foldCutoff pvalueCutoff minDetected toTestGroups :
  blank_input_wf dat groups →
  ∃ keeps mask,
    blank_subtraction_keeps ttest_ind dat groups blankGroup
      foldCutoff pvalueCutoff minDetected toTestGroups = Ok keeps ∧
    blank_subtraction ttest_ind dat groups blankGroup
      foldCutoff pvalueCutoff minDetected toTestGroups = Ok mask ∧
    length keeps = shape1 dat ∧
    length mask = shape1 dat ∧
    (∀ j k, keeps !! j = Some k →
       (mask !! j = Some true ↔ k ≠ 0%Z) ∧ (mask !! j = Some false ↔ k = 0%Z)) ∧
    (∀ j col, j < shape1 dat → Mat.get_col dat j = Ok col →
       (Z.of_nat (XFloat.count_not_nan col) < minDetected)%Z →
       keeps !! j = Some 0%Z ∧ mask !! j = Some false).
Proof.
  intros Hwf.
  pose proof (blank_subtraction_keeps_spec ttest_ind dat groups blankGroup
                foldCutoff pvalueCutoff minDetected toTestGroups) as H.
  unfold blank_subtraction.
  destruct (blank_subtraction_keeps _ _ _ _ _ _ _ _) as [keeps|e].
  2: { by destruct H as [_ H]. }
  destruct H as [Hlen Hok].
  exists keeps, (map (λ k, negb (k =? 0)%Z) keeps).
  split; [done|]. split; [done|]. split; [done|]. split; [by rewrite length_map|].
  assert (Hmask : ∀ j k, keeps !! j = Some k →
            map (λ k, negb (k =? 0)%Z) keeps !! j = Some (negb (k =? 0)%Z)).
  { intros j k Hk. change (map ?f ?l) with (f <$> l). by rewrite list_lookup_fmap, Hk. }
  split.
  - intros j k Hk. rewrite (Hmask j k Hk).
    destruct (Z.eqb_spec k 0); simpl; split; split; intros; try done; congruence.
  - intros j col Hj Hcol Hlt.
    destruct (Hok j Hj) as (k & Hk & vb & col' & _ & Hcol' & Hzero & _).
    rewrite Hcol in Hcol'. injection Hcol' as <-.
    rewrite (Hzero Hlt) in Hk. split; [done|]. by rewrite (Hmask j 0%Z Hk).
Qed.

Lemma example_input_wf : blank_input_wf example_dat example_groups.
Proof.
  split; [|reflexivity]. split; [reflexivity|].
  repeat (apply Forall_cons_2; [reflexivity|]). constructor.
Qed.

(** On the example the counters are [-1], [1] and [0]. *)
Lemma blank_subtraction_keep_mask_witness :
  ∃ keeps mask,
    blank_subtraction_keeps example_ttest example_dat example_groups "blank"
      2 0.05 2 ["test"%string] = Ok keeps ∧
    blank_subtraction example_ttest example_dat example_groups "blank"
      2 0.05 2 ["test"%string] = Ok mask ∧
    length mask = 3.
Proof.
  destruct (blank_subtraction_keep_mask example_ttest example_dat example_groups
              "blank" 2 0.05 2 ["test"%string] example_input_wf)
    as (keeps & mask & Hk & Hm & _ & Hlen & _).
  exists keeps, mask. split; [exact Hk|]. split; [exact Hm|exact Hlen].
Defined.

Example blank_subtraction_example :
  blank_subtraction_keeps example_ttest example_dat example_groups "blank"
    2 0.05 2 ["test"%string] = Ok [-1; 1; 0]%Z ∧
  blank_subtraction example_ttest example_dat example_groups "blank"
    2 0.05 2 ["test"%string] = Ok [true; true; false].
Proof. split; reflexivity. Qed.

(** C10.  For every matrix and grouping the counter of a feature never
    mixes sign.  A round of the loop over the tested groups moves the
    counter down (by one or not at all) when the feature has no
    non-missing blank value and up otherwise, and it passes its
    assertion; so a whole run never raises [AssertionError], and the
    counter it leaves for a feature is [<= 0] in the first case and
    [>= 0] in the second. *)
Theorem blank_subtraction_counter_never_mixes_sign ttest_ind dat groups blankGroup
    foldCutoff pvalueCutoff minDetected toTestGroups :
  (∀ featurei notInBlanks valsBlanks keeps toTestGroup k,
     keeps !! featurei = Some k → featurei < shape1 dat →
     counter_moves notInBlanks 0 k →
     match blank_subtraction_group ttest_ind dat groups foldCutoff pvalueCutoff
             minDetected featurei notInBlanks valsBlanks keeps toTestGroup with
     | Ok keeps' => ∃ k', keeps' !! featurei = Some k' ∧ counter_moves notInBlanks k k'
     | Raise e => e ≠ AssertionError
     end) ∧
  match blank_subtraction_keeps ttest_ind dat groups blankGroup
          foldCutoff pvalueCutoff minDetected toTestGroups with
  | Ok keeps =>
      ∀ featurei, featurei < shape1 dat →
        ∃ k valsBlanks,
          keeps !! featurei = Some k ∧
          Mat.get_rows dat (group_inds groups blankGroup) featurei = Ok valsBlanks ∧
          (forallb XFloat.isnan valsBlanks = true → (k ≤ 0)%Z) ∧
          (forallb XFloat.isnan valsBlanks = false → (0 ≤ k)%Z)
  | Raise e => e ≠ AssertionError
  end.
Proof.
  split.
  - intros featurei notInBlanks valsBlanks keeps g k Hk Hf Hsign.
    pose proof (group_step_spec ttest_ind dat groups foldCutoff pvalueCutoff minDetected
                  featurei notInBlanks valsBlanks keeps g k Hk Hf Hsign) as H.
    destruct (blank_subtraction_group _ _ _ _ _ _ _ _ _ _ _) as [keeps'|e].
    + by destruct H as (_ & _ & H).
    + destruct H as [-> _]. done.
  - pose proof (blank_subtraction_keeps_spec ttest_ind dat groups blankGroup
                  foldCutoff pvalueCutoff minDetected toTestGroups) as H.
    destruct (blank_subtraction_keeps _ _ _ _ _ _ _ _) as [keeps|e].
    + destruct H as [_ H]. intros featurei Hf.
      destruct (H featurei Hf) as (k & Hk & vb & col & Hvb & _ & _ & Hmove).
      exists k, vb. split; [done|]. split; [done|].
      unfold counter_moves in Hmove.
      split; intros Hb; rewrite Hb in Hmove; done.
    + destruct H as [-> _]. done.
Qed.

(** On the example, the round of the test group takes the counter of
    the feature missing in the blanks from [0] to [-1], where the run
    leaves it. *)
Lemma blank_subtraction_counter_never_mixes_sign_witness :
  (∃ k', [-1; 0; 0]%Z !! 0 = Some k' ∧ counter_moves true 0 k') ∧
  (∃ k valsBlanks,
     [-1; 1; 0]%Z !! 0 = Some k ∧
     Mat.get_rows example_dat (group_inds example_groups "blank") 0 = Ok valsBlanks ∧
     (forallb XFloat.isnan valsBlanks = true → (k ≤ 0)%Z) ∧
     (forallb XFloat.isnan valsBlanks = false → (0 ≤ k)%Z)).
Proof.
  split.
  - assert (Hmove : counter_moves true 0 0) by (unfold counter_moves; lia).
    assert (Hcol : 0 < shape1 example_dat) by (simpl; lia).
    exact (proj1 (blank_subtraction_counter_never_mixes_sign example_ttest
             example_dat example_groups "blank" 2 0.05 2 ["test"%string])
             0 true [] [0; 0; 0]%Z "test"%string 0%Z eq_refl Hcol Hmove).
  - assert (Hcol : 0 < shape1 example_dat) by (simpl; lia).
    exact (proj2 (blank_subtraction_counter_never_mixes_sign example_ttest
             example_dat example_groups "blank" 2 0.05 2 ["test"%string]) 0 Hcol).
Defined.

(** ** collapse_mz_info *)

Section collapse.

Lemma sel_snoc {A} (mask : list bool) (xs : list A) (b : bool) x :
  length mask = length xs →
  Np.sel (mask ++ [b]) (xs ++ [x]) = Np.sel mask xs ++ (if b then [x] else []).
Proof.
  revert xs. induction mask as [|c mask IH]; intros [|y xs] Hlen; simpl in *; try done.
  rewrite IH by lia. by destruct c.
Qed.

Lemma Qsum_snoc l x : Qsum (l ++ [x]) = (Qsum l + x)%Q.
Proof. unfold Qsum. by rewrite fold_left_app. Qed.

Lemma fold_Qplus_pos l acc :
  (0 <= acc)%Q → Forall (λ x, 0 < x)%Q l → l ≠ [] → (0 < fold_left Qplus l acc)%Q.
Proof.
  intros Hacc Hl. revert acc Hacc. induction Hl as [|x l Hx Hl IH]; intros acc Hacc Hne; [done|].
  simpl. assert (0 < acc + x)%Q as Hpos.
  { apply Qlt_le_trans with (0 + x)%Q; [by rewrite Qplus_0_l|].
    apply Qplus_le_l. done. }
  destruct l as [|y l]; [done|]. apply IH; [by apply Qlt_le_weak|done].
Qed.

Lemma sel_subseteq {A} (mask : list bool) (xs : list A) x :
  x ∈ Np.sel mask xs → x ∈ xs.
Proof.
  revert xs. induction mask as [|b mask IH]; intros [|y xs] H; simpl in *;
    try by apply elem_of_nil in H.
  destruct b.
  - apply elem_of_cons in H as [->|H]; [by left|]. right. by apply IH.
  - right. by apply IH.
Qed.

Lemma sel_eq_mask_nonempty {A} (cluster : list Z) (xs : list A) j :
  length cluster = length xs → j ∈ cluster → Np.sel (Np.eq_mask j cluster) xs ≠ [].
Proof.
  revert xs. induction cluster as [|c cluster IH]; intros [|x xs] Hlen Hin; simpl in *;
    try done.
  - by apply elem_of_nil in Hin.
  - destruct (Z.eqb_spec j c); [done|].
    apply elem_of_cons in Hin as [?|Hin]; [done|]. apply IH; [lia|done].
Qed.

Lemma sorted_lt_ext (l1 l2 : list Z) :
  StronglySorted Z.lt l1 → StronglySorted Z.lt l2 → (∀ x, x ∈ l1 ↔ x ∈ l2) → l1 = l2.
Proof.
  intros H1 H2 Hext.
  assert (AntiSymm eq Z.lt) as Hanti by (intros x y ? ?; lia).
  apply (StronglySorted_unique Z.lt); [done|done|].
  apply NoDup_Permutation; [by apply sorted_lt_NoDup|by apply sorted_lt_NoDup|done].
Qed.

Lemma sorted_lt_of_nat_seq j k : StronglySorted Z.lt (Z.of_nat <$> seq j k).
Proof.
  eapply (StronglySorted_fmap _ lt); [intros x y; lia|].
  apply Sorted_StronglySorted; [intros x y z; lia|].
  revert j. induction k as [|k IH]; intros j; simpl; [constructor|].
  constructor; [apply IH|]. destruct k; simpl; constructor. lia.
Qed.

(** The ids and counts [collapse_mz_info] works with, once the
    sentinel is dropped. *)
Lemma dense_ids_unique cluster k :
  dense_ids cluster k →
  let clusts := Np.unique cluster in
  let ns := Np.unique_counts cluster in
  (if bool_decide ((-1)%Z ∈ clusts) then (drop 1 clusts, drop 1 ns) else (clusts, ns))
  = (Z.of_nat <$> seq 0 k, (λ j, Np.count (Z.of_nat j) cluster) <$> seq 0 k).
Proof.
  intros [Hrange Hall] clusts ns. unfold ns, Np.unique_counts. fold clusts.
  assert (Hmem : ∀ x, x ∈ Z.of_nat <$> seq 0 k ↔ (0 ≤ x < Z.of_nat k)%Z).
  { intros x. rewrite list_elem_of_fmap. split.
    - intros (j & -> & Hj). apply elem_of_seq in Hj. lia.
    - intros Hx. exists (Z.to_nat x). split; [lia|]. apply elem_of_seq. lia. }
  assert (Hcl : ∀ x, x ∈ cluster → x = (-1)%Z ∨ (0 ≤ x < Z.of_nat k)%Z).
  { intros x Hx. specialize (Hrange x Hx). lia. }
  assert (Hin : ∀ x, (0 ≤ x < Z.of_nat k)%Z → x ∈ cluster).
  { intros x Hx. replace x with (Z.of_nat (Z.to_nat x)) by lia. apply Hall. lia. }
  change (map ?f ?l) with (f <$> l).
  case_bool_decide as Hm.
  - assert (clusts = (-1)%Z :: (Z.of_nat <$> seq 0 k)) as ->.
    { apply (sorted_lt_ext clusts ((-1)%Z :: (Z.of_nat <$> seq 0 k))).
      - apply unique_sorted.
      - constructor; [apply sorted_lt_of_nat_seq|].
        apply Forall_forall. intros x Hx. apply Hmem in Hx. lia.
      - intros x. unfold clusts. rewrite unique_elem, elem_of_cons, Hmem.
        split; [apply Hcl|]. intros [->|Hx]; [by apply unique_elem|by apply Hin]. }
    simpl. rewrite !drop_0. f_equal. rewrite <- list_fmap_compose. done.
  - assert (clusts = (Z.of_nat <$> seq 0 k)) as ->.
    { apply (sorted_lt_ext clusts (Z.of_nat <$> seq 0 k));
        [apply unique_sorted|apply sorted_lt_of_nat_seq|].
      intros x. unfold clusts. rewrite unique_elem, Hmem. split; [|by apply Hin].
      intros Hx. destruct (Hcl x Hx) as [->|?]; [|done].
      exfalso. apply Hm. by apply unique_elem. }
    f_equal. rewrite <- list_fmap_compose. done.
Qed.

Variables (mz intensity : list Q) (cluster : list Z) (k : nat).
Hypothesis Hlen_int : length intensity = length mz.
Hypothesis Hlen_cl : length cluster = length mz.
Hypothesis Hdense : dense_ids cluster k.

Let collapse_state := collapse_state_at mz intensity cluster k.

Lemma collapse_step i st :
  i < length mz → collapse_state i st →
  ∃ st', collapse_accumulate mz intensity cluster st i = Ok st' ∧ collapse_state (S i) st'.
Proof using Hlen_int Hlen_cl Hdense.
  intros Hi (HlenA & HlenB & Hst). destruct st as [A B]. simpl in *.
  destruct (lookup_lt_is_Some_2 mz i Hi) as [m Hm].
  destruct (lookup_lt_is_Some_2 intensity i ltac:(lia)) as [x Hx].
  destruct (lookup_lt_is_Some_2 cluster i ltac:(lia)) as [c Hc].
  unfold collapse_accumulate, at_index. rewrite Hc. cbn [mbind result_bind].
  assert (Hsnoc : ∀ j,
    cluster_weighted_sum (take (S i) mz) (take (S i) intensity) (take (S i) cluster) j
    = (if (j =? c)%Z
       then (cluster_weighted_sum (take i mz) (take i intensity) (take i cluster) j + m * x)%Q
       else cluster_weighted_sum (take i mz) (take i intensity) (take i cluster) j) ∧
    cluster_total (take (S i) intensity) (take (S i) cluster) j
    = (if (j =? c)%Z
       then (cluster_total (take i intensity) (take i cluster) j + x)%Q
       else cluster_total (take i intensity) (take i cluster) j)).
  { intros j. unfold cluster_weighted_sum, cluster_total.
    rewrite (take_S_r mz i m Hm), (take_S_r intensity i x Hx), (take_S_r cluster i c Hc).
    unfold Np.eq_mask. rewrite map_app. simpl.
    assert (zip_with Qmult (take i mz ++ [m]) (take i intensity ++ [x])
            = zip_with Qmult (take i mz) (take i intensity) ++ [(m * x)%Q]) as ->.
    { rewrite zip_with_app; [done|]. rewrite !length_take. lia. }
    rewrite !sel_snoc.
    - destruct (j =? c)%Z; [by rewrite !Qsum_snoc|by rewrite !app_nil_r].
    - rewrite length_map, !length_take. lia.
    - rewrite length_map, length_zip_with, !length_take. lia. }
  destruct (Z.leb_spec 0 c) as [Hc0|Hc0].
  - rewrite Hm, Hx. cbn [mbind result_bind].
    assert (Hck : Z.to_nat c < k).
    { destruct Hdense as [Hrange _].
      specialize (Hrange c ltac:(by eapply list_elem_of_lookup_2)). lia. }
    destruct (Hst _ Hck) as [HA HB]. unfold add_at. rewrite HA. cbn [mbind result_bind].
    rewrite HB. cbn [mbind result_bind].
    eexists. split; [done|]. unfold collapse_state, collapse_state_at. simpl.
    split; [by rewrite length_insert|].
    split; [by rewrite length_insert|].
    intros j Hj. destruct (Hsnoc (Z.of_nat j)) as [-> ->].
    destruct (Z.eqb_spec (Z.of_nat j) c) as [Heq|Hne].
    + assert (j = Z.to_nat c) as -> by lia.
      rewrite !list_lookup_insert_eq by lia. by rewrite Z2Nat.id by lia.
    + rewrite !list_lookup_insert_ne by lia. by apply Hst.
  - exists (A, B). split; [done|]. unfold collapse_state, collapse_state_at. simpl.
    split; [done|]. split; [done|].
    intros j Hj. destruct (Hsnoc (Z.of_nat j)) as [-> ->].
    destruct (Z.eqb_spec (Z.of_nat j) c); [lia|]. by apply Hst.
Qed.

Lemma collapse_loop n :
  ∀ i st, i + n = length mz → collapse_state i st →
  ∃ st', for_each (collapse_accumulate mz intensity cluster) (seq i n) st = Ok st' ∧
         collapse_state (length mz) st'.
Proof using Hlen_int Hlen_cl Hdense.
  induction n as [|n IH]; intros i st Hi Hst; cbn [seq for_each].
  - exists st. split; [done|]. by replace (length mz) with i by lia.
  - destruct (collapse_step i st ltac:(lia) Hst) as (st1 & -> & Hst1).
    cbn [mbind result_bind]. apply (IH (S i)); [lia|done].
Qed.

Lemma collapse_state_0 : collapse_state 0 (replicate k 0%Q, replicate k 0%Q).
Proof.
  split; [apply length_replicate|]. split; [apply length_replicate|]. simpl.
  intros j Hj. rewrite !lookup_replicate_2 by done. done.
Qed.

End collapse.

Lemma Sorted_Qle_bool (l : list Q) :
  Sorted (λ x y, Qle_bool x y = true) l → Sorted Qle l.
Proof.
  intros H. rewrite <- (list_fmap_id l).
  eapply Sorted_fmap; [|exact H]. intros x y Hxy. by apply Qle_bool_iff.
Qed.

(** C5.  Under the rules ['sum'] and ['average'], for an assignment
    whose non-sentinel ids are exactly [0..k-1] and positive
    intensities, [collapse_mz_info] returns [k] pairs, one per
    surviving cluster: [ord] lists the clusters in the order of the
    output, the mass of cluster [j] is the intensity-weighted mean
    [Σ(mz·intensity) / Σ(intensity)] over its signals, its intensity is
    the total (['sum']) or the total divided by the number of its
    signals (['average']), and the masses ascend.  The cluster with
    masses [[100.0, 100.0002]] and intensities [[1, 3]] collapses to
    the mass [100.00015]. *)
Theorem collapse_mz_info_weighted_mean :
  (∀ (mz intensity : list Q) (cluster : list Z) (k : nat) (method : string),
     length intensity = length mz → length cluster = length mz →
     dense_ids cluster k →
     Forall (λ x, 0 < x)%Q intensity →
     method = "sum"%string ∨ method = "average"%string →
     ∃ mzs ints ord,
       collapse_mz_info mz intensity cluster method = Ok (mzs, ints) ∧
       length mzs = k ∧ length ints = k ∧
       ord ≡ₚ seq 0 k ∧
       Sorted Qle mzs ∧
       ∀ p j, ord !! p = Some j →
         let total := cluster_total intensity cluster (Z.of_nat j) in
         (0 < total)%Q ∧
         mzs !! p = Some (cluster_weighted_sum mz intensity cluster (Z.of_nat j) / total)%Q ∧
         ints !! p = Some (if String.eqb method "sum" then total
                           else (total / inject_Z (Z.of_nat (Np.count (Z.of_nat j) cluster)))%Q)) ∧
  (∃ m i, collapse_mz_info [100.0; 100.0002]%Q [1; 3]%Q [0; 0]%Z "sum" = Ok ([m], [i]) ∧
          (m == 100.00015)%Q ∧ (i == 4)%Q).
Proof.
  split.
  2: { eexists _, _. split; [reflexivity|]. split; reflexivity. }
  intros mz intensity cluster k method Hlen_int Hlen_cl Hdense Hpos Hmethod.
  unfold collapse_mz_info.
  pose proof (dense_ids_unique cluster k Hdense) as Hu. simpl in Hu. rewrite Hu. clear Hu.
  rewrite !length_fmap, !length_seq.
  destruct (collapse_loop mz intensity cluster k Hlen_int Hlen_cl Hdense (length mz) 0
              (replicate k 0%Q, replicate k 0%Q) eq_refl (collapse_state_0 _ _ _ _))
    as ([A B] & -> & HlenA & HlenB & Hst).
  cbn [mbind result_bind]. simpl in HlenA, HlenB, Hst.
  assert (take (length mz) intensity = intensity) as Ei by (apply take_ge; lia).
  assert (take (length mz) cluster = cluster) as Ec by (apply take_ge; lia).
  rewrite Ei, Ec, firstn_all in Hst.
  set (mz_ := zip_with Qdiv A B).
  set (ns := (λ j, Np.count (Z.of_nat j) cluster) <$> seq 0 k).
  set (ints_ := if String.eqb method "sum" then B
                else zip_with (λ x n, x / inject_Z (Z.of_nat n))%Q B ns).
  assert (Hints : (if String.eqb method "sum" then Ok B
     else if String.eqb method "average"
          then Ok (zip_with (λ x n, x / inject_Z (Z.of_nat n))%Q B ns)
          else if String.eqb method "max"
               then match B with [] => Raise ValueError | _ :: _ => Raise IndexError end
               else Raise (RuntimeError
       "Unknown option for parameter intensity_collapse_method, allowed are 'sum' and 'average'"))
     = Ok ints_).
  { unfold ints_. by destruct Hmethod as [-> | ->]. }
  rewrite Hints. cbn [mbind result_bind].
  assert (Hlen_mz_ : length mz_ = k).
  { unfold mz_. rewrite length_zip_with. lia. }
  assert (Hlen_ints : length ints_ = k).
  { unfold ints_. destruct (String.eqb method "sum"); [done|].
    rewrite length_zip_with. unfold ns. rewrite length_fmap, length_seq. lia. }
  set (ord := NpSort.argsort Qle_bool mz_).
  assert (Hperm : ord ≡ₚ seq 0 k).
  { unfold ord. rewrite argsort_perm. by rewrite Hlen_mz_. }
  pose proof (take_idx_argsort Qle_bool mz_) as Htake. fold ord in Htake.
  rewrite Htake. cbn [mbind result_bind].
  destruct (take_idx_Ok ints_ ord) as (ints & -> & Hlen_out & Hlk).
  { rewrite Hperm, Hlen_ints. apply Forall_forall. intros i Hi. apply elem_of_seq in Hi. lia. }
  cbn [mbind result_bind].
  eexists _, ints, ord. split; [done|].
  split.
  { rewrite length_fmap. rewrite (Permutation_length (ksort_perm _ _)).
    rewrite length_zip, length_seq. lia. }
  split. { rewrite Hlen_out. unfold ord. by rewrite argsort_length. }
  split; [done|].
  split. { apply Sorted_Qle_bool. apply (argsort_sorted Qle_bool Qle_bool_total). }
  intros p j Hp.
  assert (Hj : j < k).
  { assert (j ∈ seq 0 k) as Hin by (rewrite <- Hperm; by eapply list_elem_of_lookup_2).
    apply elem_of_seq in Hin. lia. }
  destruct (Hst j Hj) as [HA HB].
  split.
  { unfold cluster_total, Qsum. apply fold_Qplus_pos.
    - apply Qle_refl.
    - apply Forall_forall. intros x Hx. apply sel_subseteq in Hx.
      by eapply Forall_forall in Hpos.
    - apply sel_eq_mask_nonempty; [lia|]. by apply Hdense. }
  split.
  - rewrite (argsort_lookup Qle_bool mz_ p j Hp). unfold mz_.
    rewrite lookup_zip_with, HA. simpl. by rewrite HB.
  - rewrite (Hlk p j Hp). unfold ints_.
    destruct (String.eqb method "sum"); [done|].
    rewrite lookup_zip_with, HB. simpl. unfold ns.
    rewrite list_lookup_fmap, lookup_seq_lt by done. done.
Qed.

(** Two clusters and an excluded signal, collapsed under ['average']. *)
Lemma collapse_mz_info_weighted_mean_witness :
  ∃ mzs ints,
    collapse_mz_info [100.0; 100.0002; 50; 70; 51]%Q [1; 3; 2; 2; 4]%Q
      [1; 1; 0; -1; 0]%Z "average" = Ok (mzs, ints) ∧
    length mzs = 2 ∧ Sorted Qle mzs.
Proof.
  destruct (proj1 collapse_mz_info_weighted_mean
              [100.0; 100.0002; 50; 70; 51]%Q [1; 3; 2; 2; 4]%Q
              [1; 1; 0; -1; 0]%Z 2 "average"%string)
    as (mzs & ints & ord & Hrun & Hlen & _ & _ & Hsorted & _).
  - reflexivity.
  - reflexivity.
  - split.
    + intros c Hc. repeat (apply elem_of_cons in Hc as [->|Hc]; [lia|]).
      by apply elem_of_nil in Hc.
    + intros j Hj. destruct j as [|[|j]]; [| |lia].
      * do 2 right. by left.
      * by left.
  - repeat (apply Forall_cons_2; [reflexivity|]). constructor.
  - by right.
  - exists mzs, ints. split; [exact Hrun|]. split; [exact Hlen|exact Hsorted].
Defined.

(** ** bracket_samples *)

(** C1.  The round of the bracketing loop writes the new bracket id to
    every signal inside the PPM window of the seed, assigned or not.  In
    [chain_pool] the first round puts signals 0 and 1 into bracket 1;
    the second round, seeded by signal 2, moves signal 1 from bracket 1
    to bracket 2.  The loop ends with two brackets that both record two
    assigned signals, for a pool of three. *)
Theorem bracket_round_reassigns_assigned_signal :
  ∃ st1 st2,
    bracket_round chain_pool 25 (bracket_init chain_pool) = Ok st1 ∧
    bs_cluster st1 = [1; 1; 0]%Z ∧
    bracket_seed chain_pool (bs_cluster st1) = 2 ∧
    bracket_round chain_pool 25 st1 = Ok st2 ∧
    bs_cluster st2 = [1; 2; 2]%Z ∧
    bracket_loop 3 chain_pool 25 (bracket_init chain_pool) = Some (Ok st2) ∧
    map info_assignedSamples (bs_info st2) = [2; 2] ∧
    Np.count 1 (bs_cluster st2) = 1.
Proof.
  eexists _, _. split; [reflexivity|]. split; [reflexivity|]. split; [reflexivity|].
  split; [reflexivity|]. split; [reflexivity|]. split; [reflexivity|].
  split; reflexivity.
Qed.

Section bracket_divergence.

(** After the first round of [weak_pool], every round picks the
    assigned signal 0 again and leaves signal 1 unassigned. *)
Lemma weak_pool_round c cc info :
  (0 < c)%Z → (0 < cc)%Z →
  ∃ info', bracket_round weak_pool 25
             {| bs_cluster := [c; 0%Z]; bs_cclust := cc; bs_info := info |}
           = Ok {| bs_cluster := [cc; 0%Z]; bs_cclust := (cc + 1)%Z; bs_info := info' |}.
Proof.
  intros Hc Hcc. unfold bracket_round, bracket_seed. cbn [bs_cluster bs_cclust bs_info].
  assert (Np.eq_mask 0 [c; 0%Z] = [false; true]) as ->.
  { unfold Np.eq_mask. simpl. destruct c; [lia|done|done]. }
  eexists. reflexivity.
Qed.

Lemma weak_pool_stuck fuel :
  ∀ c cc info, (0 < c)%Z → (0 < cc)%Z →
  bracket_loop fuel weak_pool 25
    {| bs_cluster := [c; 0%Z]; bs_cclust := cc; bs_info := info |} = None.
Proof.
  induction fuel as [|fuel IH]; intros c cc info Hc Hcc; [done|].
  cbn [bracket_loop bs_cluster].
  assert (Np.count 0 [c; 0%Z] = 1) as ->.
  { unfold Np.count, Np.eq_mask. simpl. destruct c; [lia|done|done]. }
  cbn [Nat.ltb Nat.leb].
  destruct (weak_pool_round c cc info Hc Hcc) as [info' ->].
  apply IH; lia.
Qed.

End bracket_divergence.

(** C3.  On [weak_pool] the bracketing loop does not terminate: the
    first round assigns signal 0, and from then on the seed is signal 0
    again, an assigned signal, because the product of the intensity
    [-1] of the unassigned signal 1 with its mask is below the [0] of
    the assigned one.  Signal 1 stays unassigned whatever the number of
    rounds. *)
Theorem bracket_loop_diverges_on_weak_pool :
  (∀ fuel, bracket_loop fuel weak_pool 25 (bracket_init weak_pool) = None) ∧
  ∃ st1,
    bracket_round weak_pool 25 (bracket_init weak_pool) = Ok st1 ∧
    bs_cluster st1 = [1; 0]%Z ∧
    bracket_seed weak_pool (bs_cluster st1) = 0.
Proof.
  split.
  - intros [|fuel]; [done|].
    change (bracket_loop (S fuel) weak_pool 25 (bracket_init weak_pool))
      with (bracket_loop fuel weak_pool 25
              {| bs_cluster := [1; 0]%Z; bs_cclust := 2;
                 bs_info := [ {| info_cluster := 1; info_meanMZ := NpRed.mean [100%Q];
                                 info_minMZ := 100; info_maxMZ := 100;
                                 info_mzDevPPM := ppm_spread [100%Q];
                                 info_assignedSamples := 1; info_uniqueSamples := 1 |} ] |}).
    apply weak_pool_stuck; lia.
  - eexists. split; [reflexivity|]. split; reflexivity.
Qed.

(** ** Reductions *)

Section reductions.

Lemma argmax_from_spec a : ∀ bi b i,
  ∃ v, (NpRed.argmax_from bi b i a = bi ∧ v = b ∨
        i ≤ NpRed.argmax_from bi b i a ∧ a !! (NpRed.argmax_from bi b i a - i) = Some v) ∧
       (b <= v)%Q ∧ Forall (λ x, x <= v)%Q a.
Proof.
  induction a as [|x a IH]; intros bi b i; simpl.
  - exists b. split; [by left|]. split; [apply Qle_refl|constructor].
  - destruct (Qltb b x) eqn:E.
    + destruct (IH i x (S i)) as (v & Hv & Hxv & Hall). exists v. split.
      * right. destruct Hv as [[-> ->]|[Hge Hlk]].
        -- split; [done|]. by rewrite Nat.sub_diag.
        -- split; [lia|].
           replace (NpRed.argmax_from i x (S i) a - i)
             with (S (NpRed.argmax_from i x (S i) a - S i)) by lia. done.
      * apply Qltb_lt in E. split; [|by constructor].
        apply Qle_trans with x; [by apply Qlt_le_weak|done].
    + destruct (IH bi b (S i)) as (v & Hv & Hbv & Hall). exists v. split.
      * destruct Hv as [[-> ->]|[Hge Hlk]]; [by left|]. right. split; [lia|].
        replace (NpRed.argmax_from bi b (S i) a - i)
          with (S (NpRed.argmax_from bi b (S i) a - S i)) by lia. done.
      * split; [done|]. constructor; [|done].
        apply Qle_trans with b; [|done]. apply Qnot_lt_le. intros Hlt.
        apply Qltb_lt in Hlt. congruence.
Qed.

(** [np.argmax] points at a largest value. *)
Lemma argmax_spec a :
  a ≠ [] → ∃ v, a !! NpRed.argmax a = Some v ∧ Forall (λ x, x <= v)%Q a.
Proof.
  destruct a as [|x a]; [done|]. intros _. unfold NpRed.argmax.
  destruct (argmax_from_spec a 0 x 1) as (v & Hv & Hxv & Hall).
  exists v. split; [|by constructor].
  destruct Hv as [[-> ->]|[Hge Hlk]]; [done|].
  destruct (NpRed.argmax_from 0 x 1 a) as [|r]; [lia|].
  simpl in *. by rewrite Nat.sub_0_r in Hlk.
Qed.

Lemma argmin_from_spec a : ∀ bi b i,
  ∃ v, (NpRed.argmin_from bi b i a = bi ∧ v = b ∨
        i ≤ NpRed.argmin_from bi b i a ∧ a !! (NpRed.argmin_from bi b i a - i) = Some v) ∧
       (v <= b)%Q ∧ Forall (λ x, v <= x)%Q a.
Proof.
  induction a as [|x a IH]; intros bi b i; simpl.
  - exists b. split; [by left|]. split; [apply Qle_refl|constructor].
  - destruct (Qltb x b) eqn:E.
    + destruct (IH i x (S i)) as (v & Hv & Hxv & Hall). exists v. split.
      * right. destruct Hv as [[-> ->]|[Hge Hlk]].
        -- split; [done|]. by rewrite Nat.sub_diag.
        -- split; [lia|].
           replace (NpRed.argmin_from i x (S i) a - i)
             with (S (NpRed.argmin_from i x (S i) a - S i)) by lia. done.
      * apply Qltb_lt in E. split; [|by constructor].
        apply Qle_trans with x; [done|by apply Qlt_le_weak].
    + destruct (IH bi b (S i)) as (v & Hv & Hbv & Hall). exists v. split.
      * destruct Hv as [[-> ->]|[Hge Hlk]]; [by left|]. right. split; [lia|].
        replace (NpRed.argmin_from bi b (S i) a - i)
          with (S (NpRed.argmin_from bi b (S i) a - S i)) by lia. done.
      * split; [done|]. constructor; [|done].
        apply Qle_trans with b; [done|]. apply Qnot_lt_le. intros Hlt.
        apply Qltb_lt in Hlt. congruence.
Qed.

(** [np.argmin] points at a smallest value. *)
Lemma argmin_spec a :
  a ≠ [] → ∃ v, a !! NpRed.argmin a = Some v ∧ Forall (λ x, v <= x)%Q a.
Proof.
  destruct a as [|x a]; [done|]. intros _. unfold NpRed.argmin.
  destruct (argmin_from_spec a 0 x 1) as (v & Hv & Hxv & Hall).
  exists v. split; [|by constructor].
  destruct Hv as [[-> ->]|[Hge Hlk]]; [done|].
  destruct (NpRed.argmin_from 0 x 1 a) as [|r]; [lia|].
  simpl in *. by rewrite Nat.sub_0_r in Hlk.
Qed.

Lemma fold_pick_elem (f : Q → Q → Q) a x :
  (∀ m y, f m y = m ∨ f m y = y) → fold_left f a x ∈ x :: a.
Proof.
  intros Hf. revert x. induction a as [|y a IH]; intros x; simpl; [by left|].
  specialize (IH (f x y)). apply elem_of_cons in IH as [IH|IH].
  - rewrite IH. destruct (Hf x y) as [-> | ->]; [by left|right; by left].
  - right. by right.
Qed.

(** [np.max] and [np.min] return an entry of the array. *)
Lemma max_elem a : a ≠ [] → NpRed.max a ∈ a.
Proof.
  destruct a as [|x a]; [done|]. intros _. apply fold_pick_elem.
  intros m y. destruct (Qltb m y); auto.
Qed.

Lemma min_elem a : a ≠ [] → NpRed.min a ∈ a.
Proof.
  destruct a as [|x a]; [done|]. intros _. apply fold_pick_elem.
  intros m y. destruct (Qltb y m); auto.
Qed.

Lemma max_upper a : Forall (λ x, x <= NpRed.max a)%Q a.
Proof.
  destruct a as [|x a]; [constructor|]. unfold NpRed.max.
  assert (∀ a x, (x <= fold_left (λ m y, if Qltb m y then y else m) a x)%Q ∧
                 Forall (λ y, y <= fold_left (λ m y, if Qltb m y then y else m) a x)%Q a) as H.
  { clear. induction a as [|y a IH]; intros x; simpl.
    - split; [apply Qle_refl|constructor].
    - destruct (IH (if Qltb x y then y else x)) as [H1 H2].
      destruct (Qltb x y) eqn:E.
      + apply Qltb_lt in E. split; [|by constructor].
        apply Qle_trans with y; [by apply Qlt_le_weak|done].
      + split; [done|]. constructor; [|done].
        apply Qle_trans with x; [|done]. apply Qnot_lt_le. intros Hlt.
        apply Qltb_lt in Hlt. congruence. }
  destruct (H a x). by constructor.
Qed.

Lemma min_lower a : Forall (λ x, NpRed.min a <= x)%Q a.
Proof.
  destruct a as [|x a]; [constructor|]. unfold NpRed.min.
  assert (∀ a x, (fold_left (λ m y, if Qltb y m then y else m) a x <= x)%Q ∧
                 Forall (λ y, fold_left (λ m y, if Qltb y m then y else m) a x <= y)%Q a) as H.
  { clear. induction a as [|y a IH]; intros x; simpl.
    - split; [apply Qle_refl|constructor].
    - destruct (IH (if Qltb y x then y else x)) as [H1 H2].
      destruct (Qltb y x) eqn:E.
      + apply Qltb_lt in E. split; [|by constructor].
        apply Qle_trans with y; [done|by apply Qlt_le_weak].
      + split; [done|]. constructor; [|done].
        apply Qle_trans with x; [done|]. apply Qnot_lt_le. intros Hlt.
        apply Qltb_lt in Hlt. congruence. }
  destruct (H a x). by constructor.
Qed.

End reductions.

(** ** Boolean indexing *)

Section sel_facts.
Context {A : Type}.
Implicit Types (mask : list bool) (xs ys : list A).

Lemma sel_length mask xs :
  length mask = length xs → length (Np.sel mask xs) = Np.count_true mask.
Proof.
  unfold Np.count_true. revert xs.
  induction mask as [|b mask IH]; intros [|x xs] Hlen; simpl in *; try done.
  destruct b; simpl; rewrite IH by lia; done.
Qed.

Lemma sel_fmap {B} (f : A → B) mask xs :
  Np.sel mask (f <$> xs) = f <$> Np.sel mask xs.
Proof.
  revert xs. induction mask as [|b mask IH]; intros [|x xs]; simpl; try done.
  destruct b; simpl; by rewrite IH.
Qed.

Lemma sel_sub gmask mask xs :
  length gmask = length mask → length mask = length xs →
  (∀ p, gmask !! p = Some true → mask !! p = Some true) →
  Np.sel gmask xs = Np.sel (Np.sel mask gmask) (Np.sel mask xs).
Proof.
  revert mask xs. induction gmask as [|g gmask IH]; intros [|b mask] [|x xs] H1 H2 Hsub;
    simpl in *; try done.
  assert (Hrec : Np.sel gmask xs = Np.sel (Np.sel mask gmask) (Np.sel mask xs)).
  { apply IH; [lia|lia|]. intros p Hp. apply (Hsub (S p)). done. }
  destruct g, b; simpl; try by rewrite Hrec.
  specialize (Hsub 0 eq_refl). done.
Qed.

Lemma sel_ext mask xs ys :
  length xs = length ys →
  (∀ j, mask !! j = Some true → xs !! j = ys !! j) →
  Np.sel mask xs = Np.sel mask ys.
Proof.
  revert xs ys. induction mask as [|b mask IH]; intros [|x xs] [|y ys] Hlen Hext;
    simpl in *; try done.
  assert (Hrec : Np.sel mask xs = Np.sel mask ys).
  { apply IH; [lia|]. intros j Hj. apply (Hext (S j)). done. }
  destruct b; [|done]. specialize (Hext 0 eq_refl). simpl in Hext.
  injection Hext as ->. by rewrite Hrec.
Qed.

Lemma sel_seq_lookup mask xs s j p :
  length mask = length xs →
  Np.sel mask (seq s (length mask)) !! j = Some p →
  s ≤ p ∧ mask !! (p - s) = Some true ∧ Np.sel mask xs !! j = xs !! (p - s).
Proof.
  revert xs s j. induction mask as [|b mask IH]; intros [|x xs] s j Hlen Hj;
    simpl in *; try done.
  assert (Hstep : ∀ j, Np.sel mask (seq (S s) (length mask)) !! j = Some p →
    s ≤ p ∧ (b :: mask) !! (p - s) = Some true ∧ Np.sel mask xs !! j = (x :: xs) !! (p - s)).
  { intros j' Hj'. destruct (IH xs (S s) j' ltac:(lia) Hj') as (Hle & Hm & Hx).
    replace (p - s) with (S (p - S s)) by lia. split; [lia|]. done. }
  destruct b.
  - destruct j as [|j]; simpl in *.
    + injection Hj as <-. rewrite Nat.sub_diag. done.
    + by apply Hstep.
  - by apply Hstep.
Qed.

Lemma sel_seq_surj mask s p :
  mask !! p = Some true → ∃ j, Np.sel mask (seq s (length mask)) !! j = Some (s + p).
Proof.
  revert s p. induction mask as [|b mask IH]; intros s p Hp; [done|].
  destruct p as [|p]; simpl in *.
  - injection Hp as ->. exists 0. simpl. f_equal. lia.
  - destruct (IH (S s) p Hp) as [j Hj].
    replace (s + S p) with (S s + p) by lia.
    destruct b; [by exists (S j)|by exists j].
Qed.

Lemma sel_NoDup mask xs : NoDup xs → NoDup (Np.sel mask xs).
Proof.
  intros Hnd. revert mask. induction Hnd as [|x xs Hx Hnd IH]; intros [|b mask];
    simpl; try constructor.
  destruct b; [|apply IH]. constructor; [|apply IH].
  intros Hin. apply Hx. by eapply sel_subseteq.
Qed.

End sel_facts.

Section argwhere_facts.
Implicit Types (mask : list bool).

Lemma argwhere_length mask : length (Np.argwhere mask) = Np.count_true mask.
Proof. unfold Np.argwhere. apply sel_length. by rewrite length_seq. Qed.

Lemma argwhere_lookup {A} mask (xs : list A) j p :
  length mask = length xs → Np.argwhere mask !! j = Some p →
  mask !! p = Some true ∧ Np.sel mask xs !! j = xs !! p.
Proof.
  intros Hlen Hj. destruct (sel_seq_lookup mask xs 0 j p Hlen Hj) as (_ & Hm & Hx).
  by rewrite Nat.sub_0_r in Hm, Hx.
Qed.

Lemma argwhere_surj mask p :
  mask !! p = Some true → ∃ j, Np.argwhere mask !! j = Some p.
Proof. intros Hp. destruct (sel_seq_surj mask 0 p Hp) as [j Hj]. by exists j. Qed.

Lemma argwhere_NoDup mask : NoDup (Np.argwhere mask).
Proof. apply sel_NoDup, NoDup_seq. Qed.

Lemma count_true_insert mask p (old b : bool) :
  mask !! p = Some old →
  Np.count_true (<[p := b]> mask) + (if old then 1 else 0)
  = Np.count_true mask + (if b then 1 else 0).
Proof.
  unfold Np.count_true. revert p. induction mask as [|c mask IH]; intros p Hp; [done|].
  destruct p as [|p]; simpl in *.
  - injection Hp as ->. destruct old, b; simpl; lia.
  - specialize (IH p Hp). destruct c; simpl; lia.
Qed.

Lemma count_true_pos mask :
  0 < Np.count_true mask ↔ ∃ p, mask !! p = Some true.
Proof.
  unfold Np.count_true. induction mask as [|b mask IH]; simpl.
  - split; [lia|]. by intros [p ?].
  - destruct b; simpl.
    + split; [|lia]. intros _. by exists 0.
    + rewrite IH. split.
      * intros [p Hp]. by exists (S p).
      * intros [[|p] Hp]; [done|]. by exists p.
Qed.

Lemma eq_mask_insert c (r : list Z) p v :
  Np.eq_mask c (<[p := v]> r) = <[p := (c =? v)%Z]> (Np.eq_mask c r).
Proof. unfold Np.eq_mask. apply list_fmap_insert. Qed.

Lemma eq_mask_insert_same c (r : list Z) p v old :
  r !! p = Some old → (c =? v)%Z = (c =? old)%Z →
  Np.eq_mask c (<[p := v]> r) = Np.eq_mask c r.
Proof.
  intros Hold Heq. rewrite eq_mask_insert, Heq. apply list_insert_id.
  by rewrite eq_mask_lookup, Hold.
Qed.

Lemma eq_mask_true c (r : list Z) p :
  Np.eq_mask c r !! p = Some true ↔ r !! p = Some c.
Proof.
  rewrite eq_mask_lookup. destruct (r !! p) as [v|]; simpl; [|done].
  destruct (Z.eqb_spec c v); split; intros; simplify_eq; done.
Qed.

Lemma eq_mask_false c (r : list Z) p :
  Np.eq_mask c r !! p = Some false ↔ ∃ v, r !! p = Some v ∧ v ≠ c.
Proof.
  rewrite eq_mask_lookup. destruct (r !! p) as [v|]; simpl.
  - destruct (Z.eqb_spec c v); split.
    + done.
    + intros (v' & ? & ?). simplify_eq.
    + intros _. exists v. split; [done|]. congruence.
    + done.
  - split; [done|]. by intros (v & ? & ?).
Qed.

End argwhere_facts.

(** ** refine_clustering: one crude cluster *)

Lemma Zlist_max_upper (a : list Z) : Forall (λ x, x ≤ Zlist_max a)%Z a.
Proof.
  destruct a as [|x a]; [constructor|]. unfold Zlist_max.
  assert (∀ a x, (x ≤ fold_left Z.max a x)%Z ∧
                 Forall (λ y, y ≤ fold_left Z.max a x)%Z a) as H.
  { clear. induction a as [|y a IH]; intros x; simpl; [split; [lia|constructor]|].
    destruct (IH (Z.max x y)) as [H1 H2]. split; [lia|]. constructor; [lia|done]. }
  destruct (H a x). by constructor.
Qed.

Section refine_cluster_facts.

Variables (mzs intensities : list Q) (clusts : list Z).
Variables (closest_max : Q) (maxdev : option Q).
Variables (clust lo base : Z) (nc0 : list Z).

Hypothesis Hin : refine_input mzs intensities clusts.
Hypothesis Hnc0_len : length nc0 = length clusts.
Hypothesis Hnc0_le : ∀ p v, nc0 !! p = Some v → (v ≤ base)%Z.
Hypothesis Hnc0_pos : ∀ p, clusts !! p = Some clust → nc0 !! p = Some clust.
Hypothesis Hclust_lo : (clust ≤ lo)%Z.
Hypothesis Hlo_base : (lo ≤ base)%Z.

Let posmask := Np.eq_mask clust clusts.
Let pos := Np.argwhere posmask.
Let mzs_ := Np.sel posmask mzs.
Let intensities_ := Np.sel posmask intensities.
Let inv := refine_inv mzs clusts clust base nc0.
Let mark := refine_mark mzs_ pos.
Let close := refine_close clusts pos.

Ltac fold_pos :=
  repeat match goal with
  | H : _ |- _ => progress (fold posmask in H; fold pos in H; fold mzs_ in H)
  end;
  fold posmask; fold pos; fold mzs_.

Lemma posmask_length : length posmask = length clusts.
Proof. apply eq_mask_length. Qed.

Lemma pos_length : length pos = length mzs_.
Proof.
  unfold pos, mzs_. rewrite argwhere_length, sel_length; [done|].
  rewrite posmask_length. by destruct Hin.
Qed.

Lemma pos_lookup j p :
  pos !! j = Some p →
  clusts !! p = Some clust ∧ mzs_ !! j = mzs !! p ∧ intensities_ !! j = intensities !! p ∧
  p < length clusts.
Proof.
  intros Hj. destruct Hin as [Hl1 Hl2 _ _ _].
  destruct (argwhere_lookup posmask mzs j p) as [Hm Hmz]; [rewrite posmask_length; lia|done|].
  destruct (argwhere_lookup posmask intensities j p) as [_ Hint];
    [rewrite posmask_length; lia|done|].
  apply eq_mask_true in Hm. split; [done|]. split; [done|]. split; [done|].
  by eapply lookup_lt_Some.
Qed.

Lemma pos_inj j1 j2 p : pos !! j1 = Some p → pos !! j2 = Some p → j1 = j2.
Proof. intros H1 H2. eapply NoDup_lookup; [apply argwhere_NoDup|exact H1|exact H2]. Qed.

Lemma pos_total j p : pos !! j = Some p → pos !!! j = p.
Proof. apply list_lookup_total_correct. Qed.

Lemma mzs__range j x : mzs_ !! j = Some x → (0 < x ∧ x < 1000000)%Q.
Proof.
  intros Hx. destruct Hin as [_ _ _ _ Hr].
  assert (x ∈ mzs) as Hel.
  { eapply sel_subseteq. by eapply list_elem_of_lookup_2. }
  by eapply Forall_forall in Hr.
Qed.

Lemma posmask_false_le (st : refine_state) p v :
  inv true st ∨ inv false st →
  posmask !! p = Some false → rs_newClusts st !! p = Some v → (v ≤ base)%Z.
Proof.
  intros Hinv Hp Hv. apply (Hnc0_le p).
  destruct Hinv as [Hinv|Hinv]; by rewrite <- (ri_frame _ _ _ _ _ _ _ Hinv p Hp).
Qed.

(** The masses of the growing sub-cluster are those of the signals
    that carry its id. *)
Lemma current_cluster_mzs st :
  inv true st →
  cluster_mzs mzs (rs_newClusts st) (rs_maxClust st + 1) = refine_current st.
Proof.
  intros Hinv. pose proof Hinv as [Hl1 Hl2 Hl3 Hb Hslot Hframe _]. fold_pos.
  destruct Hin as [Hlen1 Hlen2 _ _ _].
  unfold cluster_mzs, refine_current.
  rewrite (sel_sub _ posmask mzs).
  2: { by rewrite eq_mask_length, posmask_length. }
  2: { rewrite posmask_length. lia. }
  2: { intros p Hp. apply eq_mask_true in Hp.
       destruct (posmask !! p) as [[|]|] eqn:E; [done| |].
       - pose proof (posmask_false_le st p _ (or_introl Hinv) E Hp). lia.
       - apply lookup_ge_None in E. apply lookup_lt_Some in Hp.
         rewrite posmask_length in E. lia. }
  fold mzs_.
  assert (Np.sel posmask (Np.eq_mask (rs_maxClust st + 1) (rs_newClusts st))
          = Np.eq_mask 1 (rs_used st)) as ->.
  { apply list_eq. intros j.
    destruct (pos !! j) as [p|] eqn:Ej.
    - destruct (argwhere_lookup posmask (Np.eq_mask (rs_maxClust st + 1) (rs_newClusts st)) j p)
        as [_ ->]; [by rewrite eq_mask_length, posmask_length|done|].
      destruct (Hslot j p Ej) as (u & Hu & Hcase).
      rewrite !eq_mask_lookup, Hu.
      destruct Hcase as [[-> Hn]|[[-> (c & Hn & Hc)]|(_ & -> & Hn & _)]];
        rewrite Hn; simpl; f_equal.
      + destruct (Z.eqb_spec (rs_maxClust st + 1) clust); [lia|done].
      + destruct (Z.eqb_spec (rs_maxClust st + 1) c); [lia|done].
      + by rewrite Z.eqb_refl.
    - apply lookup_ge_None in Ej.
      rewrite (proj2 (lookup_ge_None _ _)), (proj2 (lookup_ge_None _ _)); [done| |].
      + rewrite eq_mask_length. lia.
      + rewrite sel_length by (by rewrite eq_mask_length, posmask_length).
        unfold pos in Ej. by rewrite argwhere_length in Ej. }
  symmetry. apply sel_ext.
  - rewrite Hl2. apply pos_length.
  - intros j Hj. apply eq_mask_true in Hj.
    destruct (lookup_lt_is_Some_2 pos j) as [p Hp].
    { rewrite <- Hl1. by eapply lookup_lt_Some. }
    destruct (Hslot j p Hp) as (u & Hu & Hcase). rewrite Hj in Hu. injection Hu as <-.
    destruct Hcase as [[? _]|[[? _]|(_ & _ & _ & Hmz)]]; [done|done|done].
Qed.

Lemma mark_inv g st i p :
  inv g st → pos !! i = Some p → rs_used st !! i = Some 0%Z → inv true (mark st i).
Proof.
  intros [Hl1 Hl2 Hl3 Hb Hslot Hframe _] Hp Hu. fold_pos.
  destruct (pos_lookup i p Hp) as (Hcl & Hmz & _ & HpN).
  assert (Hi : i < length pos) by by eapply lookup_lt_Some.
  unfold mark, refine_mark. rewrite (pos_total i p Hp).
  split; simpl.
  - by rewrite length_insert.
  - by rewrite length_insert.
  - by rewrite length_insert.
  - done.
  - intros j pj Hj. fold_pos. destruct (decide (j = i)) as [->|Hne].
    + rewrite Hp in Hj. injection Hj as <-.
      exists 1%Z. simpl. split; [apply list_lookup_insert_eq; lia|].
      right. right. split; [done|]. split; [done|].
      split; [apply list_lookup_insert_eq; lia|].
      simpl. fold_pos. rewrite list_lookup_insert_eq by lia.
      symmetry. apply list_lookup_lookup_total_lt. rewrite <- pos_length. lia.
    + assert (pj ≠ p) as Hpne.
      { intros ->. apply Hne. by eapply pos_inj. }
      destruct (Hslot j pj Hj) as (u & Hu' & Hcase). exists u. simpl.
      rewrite !list_lookup_insert_ne by done. split; [done|].
      destruct Hcase as [?|[?|(_ & ? & ? & ?)]]; [by left|right; by left|].
      right. right. done.
  - intros q Hq. rewrite list_lookup_insert_ne; [by apply Hframe|].
    intros <-. unfold posmask in Hq. apply eq_mask_false in Hq as (v & Hv & Hne).
    congruence.
  - intros _. exists i. apply list_lookup_insert_eq. lia.
Qed.

Lemma mark_other_clusters st i p c :
  inv false st ∨ inv true st → pos !! i = Some p → rs_used st !! i = Some 0%Z →
  c ≠ (rs_maxClust st + 1)%Z → c ≠ clust →
  cluster_mzs mzs (rs_newClusts (mark st i)) c = cluster_mzs mzs (rs_newClusts st) c.
Proof.
  intros Hinv Hp Hu Hc1 Hc2. unfold cluster_mzs, mark, refine_mark. simpl.
  rewrite (pos_total i p Hp).
  assert (rs_newClusts st !! p = Some clust) as Hn.
  { destruct Hinv as [Hinv|Hinv];
      destruct (ri_slot _ _ _ _ _ _ _ Hinv i p Hp) as (u & Hu' & Hcase);
      rewrite Hu in Hu'; injection Hu' as <-;
      destruct Hcase as [[_ ?]|[[? _]|(_ & ? & _)]]; done. }
  rewrite (eq_mask_insert_same c _ p _ clust Hn); [done|].
  destruct (Z.eqb_spec c (rs_maxClust st + 1)), (Z.eqb_spec c clust); done.
Qed.

Lemma eq_mask_0_neg_abs (used : list Z) :
  Np.eq_mask 0 (map (λ u, - Z.abs u)%Z used) = Np.eq_mask 0 used.
Proof.
  unfold Np.eq_mask. rewrite map_map. apply map_ext. intros u.
  destruct (Z.eqb_spec 0 (- Z.abs u)), (Z.eqb_spec 0 u); lia.
Qed.

(** Rejecting the tentative signal restores the assignment and closes
    the sub-cluster under the id it was grown with. *)
Lemma close_inv st i p :
  inv true st → pos !! i = Some p → rs_used st !! i = Some 0%Z →
  inv false (close (mark st i) i) ∧
  rs_newClusts (close (mark st i) i) = rs_newClusts st ∧
  rs_maxClust (close (mark st i) i) = (rs_maxClust st + 1)%Z ∧
  Np.count 0 (rs_used (close (mark st i) i)) = Np.count 0 (rs_used st).
Proof.
  intros [Hl1 Hl2 Hl3 Hb Hslot Hframe _] Hp Hu. fold_pos.
  destruct (pos_lookup i p Hp) as (Hcl & Hmz & _ & HpN).
  assert (Hn : rs_newClusts st !! p = Some clust).
  { destruct (Hslot i p Hp) as (u & Hu' & Hcase). rewrite Hu in Hu'. injection Hu' as <-.
    destruct Hcase as [[_ ?]|[[? _]|(_ & ? & _)]]; done. }
  unfold close, refine_close, mark, refine_mark. simpl. rewrite (pos_total i p Hp).
  assert (Hnc : <[p := clusts !!! p]> (<[p := (rs_maxClust st + 1)%Z]> (rs_newClusts st))
                = rs_newClusts st).
  { rewrite list_insert_insert_eq. apply list_insert_id.
    by rewrite (list_lookup_total_correct _ _ _ Hcl). }
  assert (Hused : <[i := 0%Z]> (<[i := 1%Z]> (rs_used st)) = rs_used st).
  { rewrite list_insert_insert_eq. by apply list_insert_id. }
  rewrite Hnc, Hused. split; [|split; [done|split; [done|]]].
  - split; simpl.
    + by rewrite length_map.
    + by rewrite length_map, !length_insert.
    + done.
    + lia.
    + intros j pj Hj. destruct (Hslot j pj Hj) as (u & Hu' & Hcase).
      exists (- Z.abs u)%Z. simpl. change (map ?f ?l) with (f <$> l).
      rewrite list_lookup_fmap, Hu'. split; [done|].
      destruct Hcase as [[-> ?]|[[-> (c & ? & ?)]|(_ & -> & ? & _)]].
      * by left.
      * right. left. split; [done|]. exists c. split; [done|]. lia.
      * right. left. split; [done|]. eexists. split; [done|]. lia.
    + done.
    + done.
  - unfold Np.count. by rewrite eq_mask_0_neg_abs.
Qed.

Let grow := refine_grow clusts closest_max maxdev mzs_ pos.
Let seed_loop := refine_seed_loop clusts closest_max maxdev mzs_ intensities_ pos.

Lemma used_lookup_pos g st j u :
  inv g st → rs_used st !! j = Some u → ∃ p, pos !! j = Some p.
Proof.
  intros [Hl1 _ _ _ _ _ _] Hu. fold_pos. apply lookup_lt_is_Some_2.
  rewrite <- Hl1. by eapply lookup_lt_Some.
Qed.

Lemma used_values g st j u :
  inv g st → rs_used st !! j = Some u → u = 0%Z ∨ u = (-1)%Z ∨ (g = true ∧ u = 1%Z).
Proof.
  intros Hinv Hu. destruct (used_lookup_pos g st j u Hinv Hu) as [p Hp].
  destruct (ri_slot _ _ _ _ _ _ _ Hinv j p Hp) as (u' & Hu' & Hcase).
  rewrite Hu in Hu'. injection Hu' as <-.
  destruct Hcase as [[? _]|[[? _]|(? & ? & _)]]; auto.
Qed.

Lemma current_eq st :
  inv true st → refine_current st = Np.sel (Np.eq_mask 1 (rs_used st)) mzs_.
Proof.
  intros Hinv. pose proof Hinv as [Hl1 Hl2 _ _ Hslot _ _]. fold_pos.
  unfold refine_current. apply sel_ext.
  - rewrite Hl2. apply pos_length.
  - intros j Hj. apply eq_mask_true in Hj.
    destruct (used_lookup_pos true st j _ Hinv Hj) as [p Hp].
    destruct (Hslot j p Hp) as (u & Hu & Hcase). rewrite Hj in Hu. injection Hu as <-.
    destruct Hcase as [[? _]|[[? _]|(_ & _ & _ & Hmz)]]; done.
Qed.

Lemma current_range st x :
  inv true st → x ∈ refine_current st → (0 < x ∧ x < 1000000)%Q.
Proof.
  intros Hinv Hx. rewrite (current_eq st Hinv) in Hx.
  apply sel_subseteq, list_elem_of_lookup in Hx as [j Hj]. by eapply mzs__range.
Qed.

Lemma current_nonempty st : inv true st → refine_current st ≠ [].
Proof.
  intros Hinv. rewrite (current_eq st Hinv).
  destruct (ri_cur _ _ _ _ _ _ _ Hinv eq_refl) as [j Hj].
  apply sel_eq_mask_nonempty.
  - rewrite (ri_used_len _ _ _ _ _ _ _ Hinv). apply pos_length.
  - by eapply list_elem_of_lookup_2.
Qed.

(** The nearest signal to a mass inside the range is an unassigned
    one, as long as one is left: the assigned ones are pushed away by
    [1E6]. *)
Lemma nearest_unassigned st ext j0 :
  inv true st → (0 < ext ∧ ext < 1000000)%Q → rs_used st !! j0 = Some 0%Z →
  rs_used st !! NpRed.argmin (refine_distance mzs_ ext (rs_used st)) = Some 0%Z.
Proof.
  intros Hinv Hext Hj0. pose proof Hinv as [Hl1 _ _ _ _ _ _]. fold_pos.
  set (d := refine_distance mzs_ ext (rs_used st)).
  destruct (lookup_lt_is_Some_2 mzs_ j0) as [x0 Hx0].
  { rewrite <- pos_length, <- Hl1. by eapply lookup_lt_Some. }
  assert (Hd0 : d !! j0 = Some (Qabs (x0 - ext) + inject_Z (Z.abs 0) * ppm_factor)%Q).
  { unfold d, refine_distance. rewrite lookup_zip_with, Hx0. simpl. by rewrite Hj0. }
  destruct (argmin_spec d) as (v & Hv & Hall).
  { intros Hnil. by rewrite Hnil in Hd0. }
  eapply Forall_lookup_1 in Hall; [|exact Hd0]. cbv beta in Hall.
  unfold d, refine_distance in Hv. apply lookup_zip_with_Some in Hv as (x & u & -> & Hx & Hu).
  change (rs_used st !! NpRed.argmin d = Some u) in Hu.
  change (mzs_ !! NpRed.argmin d = Some x) in Hx. rewrite Hu. f_equal.
  destruct (used_values true st _ u Hinv Hu) as [->|Hne]; [done|]. exfalso.
  destruct (mzs__range j0 x0 Hx0) as [Hx0a Hx0b].
  assert (Qabs (x0 - ext) < 1000000)%Q as Hnear.
  { apply Qabs_Qlt_condition. destruct Hext. split; lra. }
  pose proof (Qabs_nonneg (x - ext)) as Hnn.
  unfold ppm_factor in Hall.
  change (inject_Z (Z.abs 0)) with 0%Q in Hall.
  assert (inject_Z (Z.abs u) = 1%Q) as Hu1.
  { destruct Hne as [->|[_ ->]]; reflexivity. }
  rewrite Hu1 in Hall. lra.
Qed.

Lemma closest_unassigned st j0 :
  inv true st → rs_used st !! j0 = Some 0%Z →
  rs_used st !! refine_closest mzs_ st = Some 0%Z.
Proof.
  intros Hinv Hj0. unfold refine_closest.
  pose proof (current_nonempty st Hinv) as Hne.
  destruct (Qltb _ _); apply (nearest_unassigned st _ j0 Hinv); try done.
  - apply (current_range st _ Hinv). by apply max_elem.
  - apply (current_range st _ Hinv). by apply min_elem.
Qed.

(** With positive intensities the seed is an unassigned signal. *)
Lemma seed_unassigned st j0 :
  inv false st → rs_used st !! j0 = Some 0%Z →
  rs_used st !! NpRed.argmax (NpRed.mul_mask intensities_ (Np.eq_mask 0 (rs_used st)))
  = Some 0%Z.
Proof.
  intros Hinv Hj0. pose proof Hinv as [Hl1 _ _ _ _ _ _]. fold_pos.
  set (a := NpRed.mul_mask intensities_ (Np.eq_mask 0 (rs_used st))).
  assert (Hint_pos : ∀ j x, intensities_ !! j = Some x → (0 < x)%Q).
  { intros j x Hx. destruct Hin as [_ _ _ Hp _].
    eapply Forall_forall in Hp; [exact Hp|].
    eapply sel_subseteq. by eapply list_elem_of_lookup_2. }
  destruct (lookup_lt_is_Some_2 intensities_ j0) as [x0 Hx0].
  { unfold intensities_. rewrite sel_length.
    - rewrite <- argwhere_length. fold pos. rewrite <- Hl1. by eapply lookup_lt_Some.
    - rewrite posmask_length. destruct Hin. lia. }
  assert (Ha0 : a !! j0 = Some (x0 * 1)%Q).
  { unfold a, NpRed.mul_mask. rewrite lookup_zip_with, Hx0. simpl.
    by rewrite eq_mask_lookup, Hj0. }
  destruct (argmax_spec a) as (v & Hv & Hall).
  { intros Hnil. by rewrite Hnil in Ha0. }
  eapply Forall_lookup_1 in Hall; [|exact Ha0]. cbv beta in Hall.
  unfold a, NpRed.mul_mask in Hv. apply lookup_zip_with_Some in Hv as (x & b & -> & Hx & Hb).
  change (Np.eq_mask 0 (rs_used st) !! NpRed.argmax a = Some b) in Hb.
  change (intensities_ !! NpRed.argmax a = Some x) in Hx.
  rewrite eq_mask_lookup in Hb.
  destruct (rs_used st !! NpRed.argmax a) as [u|] eqn:Hu; [|done].
  simpl in Hb. injection Hb as <-. f_equal.
  specialize (Hint_pos j0 x0 Hx0).
  destruct u; [done| |]; exfalso; simpl in Hall; lra.
Qed.

Lemma count0_pos (used : list Z) : 0 < Np.count 0 used ↔ ∃ j, used !! j = Some 0%Z.
Proof.
  unfold Np.count. rewrite count_true_pos. split; intros [j Hj]; exists j; by apply eq_mask_true.
Qed.

Lemma count0_mark (used : list Z) i :
  used !! i = Some 0%Z → Np.count 0 (<[i := 1%Z]> used) + 1 = Np.count 0 used.
Proof.
  intros Hi. unfold Np.count. rewrite eq_mask_insert.
  change (0 =? 1)%Z with false.
  pose proof (count_true_insert (Np.eq_mask 0 used) i true false) as H.
  rewrite eq_mask_lookup, Hi in H. specialize (H eq_refl). lia.
Qed.

Lemma count1_closed st : inv false st → Np.count 1 (rs_used st) = 0.
Proof.
  intros Hinv. destruct (Np.count 1 (rs_used st)) eqn:E; [done|]. exfalso.
  assert (0 < Np.count 1 (rs_used st)) as Hpos by lia.
  unfold Np.count in Hpos. apply count_true_pos in Hpos as [j Hj].
  apply eq_mask_true in Hj.
  destruct (used_values false st j _ Hinv Hj) as [?|[?|[? _]]]; done.
Qed.

Lemma seed_current_length st i :
  inv false st → rs_used st !! i = Some 0%Z →
  length (refine_current (mark st i)) = 1.
Proof.
  intros Hinv Hi. pose proof Hinv as [Hl1 Hl2 _ _ _ _ _]. fold_pos.
  unfold refine_current, mark, refine_mark. simpl.
  rewrite sel_length by (by rewrite eq_mask_length, !length_insert, Hl1, Hl2).
  rewrite eq_mask_insert. change (1 =? 1)%Z with true.
  pose proof (count_true_insert (Np.eq_mask 1 (rs_used st)) i false true) as H.
  rewrite eq_mask_lookup, Hi in H. specialize (H eq_refl).
  pose proof (count1_closed st Hinv) as H1. unfold Np.count in H1. lia.
Qed.

(** The growth of a sub-cluster ends, with the sub-cluster closed and
    at least one signal of the crude cluster still unassigned. *)
Lemma grow_spec fuel : ∀ st last,
  inv true st → clusters_ok mzs maxdev lo (rs_newClusts st) →
  1 ≤ Np.count 0 (rs_used st) ≤ fuel →
  ∃ st', grow fuel st last = Some st' ∧ inv false st' ∧
         clusters_ok mzs maxdev lo (rs_newClusts st') ∧
         1 ≤ Np.count 0 (rs_used st') ≤ Np.count 0 (rs_used st).
Proof.
  induction fuel as [|fuel IH]; intros st last Hinv Hok Hcount; [lia|].
  destruct (proj1 (count0_pos (rs_used st)) ltac:(lia)) as [j0 Hj0].
  pose proof (closest_unassigned st j0 Hinv Hj0) as Hc.
  set (closest := refine_closest mzs_ st) in *.
  destruct (used_lookup_pos true st closest _ Hinv Hc) as [p Hp].
  pose proof (mark_inv true st closest p Hinv Hp Hc) as Hinv1.
  assert (Hcount1 : Np.count 0 (rs_used (mark st closest)) + 1 = Np.count 0 (rs_used st)).
  { unfold mark, refine_mark. simpl. by apply count0_mark. }
  change (grow (S fuel) st last) with
    (if refine_stop closest_max maxdev (mark st closest)
          (ppm_spread (refine_current (mark st closest))) last
     then Some (close (mark st closest) closest)
     else grow fuel (mark st closest) (ppm_spread (refine_current (mark st closest)))).
  destruct (refine_stop _ _ _ _ _) eqn:Hstop.
  - destruct (close_inv st closest p Hinv Hp Hc) as (Hinv2 & Hnc & _ & Hcnt).
    eexists. split; [done|]. split; [done|]. rewrite Hnc, Hcnt. split; [done|lia].
  - unfold refine_stop in Hstop. apply orb_false_elim in Hstop as [Hstop Hdev].
    apply orb_false_elim in Hstop as [Hzero _]. apply Nat.eqb_neq in Hzero.
    destruct (IH (mark st closest) (ppm_spread (refine_current (mark st closest))) Hinv1)
      as (st' & Hrun & Hinv' & Hok' & Hcount'); [|lia|].
    + intros c Hc'. destruct (decide (c = rs_maxClust st + 1)%Z) as [->|Hne].
      * pose proof (current_cluster_mzs (mark st closest) Hinv1) as Hcur.
        change (rs_maxClust (mark st closest)) with (rs_maxClust st) in Hcur.
        rewrite Hcur. unfold spread_ok. destruct maxdev as [bound|]; [|done].
        intros _. apply Qnot_lt_le. intros Hlt. apply Qltb_lt in Hlt. congruence.
      * rewrite (mark_other_clusters st closest p c (or_intror Hinv) Hp Hc Hne ltac:(lia)).
        by apply Hok.
    + exists st'. split; [done|]. split; [done|]. split; [done|]. lia.
Qed.

(** The refinement of a crude cluster ends with every one of its
    signals in a sub-cluster. *)
Lemma seed_loop_spec gfuel fuel : ∀ st,
  inv false st → clusters_ok mzs maxdev lo (rs_newClusts st) →
  Np.count 0 (rs_used st) < fuel → Np.count 0 (rs_used st) ≤ gfuel →
  ∃ st', seed_loop gfuel fuel st = Some st' ∧
         refine_exit clusts clust base nc0 st' ∧
         clusters_ok mzs maxdev lo (rs_newClusts st').
Proof.
  induction fuel as [|fuel IH]; intros st Hinv Hok Hfuel Hgfuel; [lia|].
  cbn [seed_loop refine_seed_loop].
  destruct (Nat.ltb_spec 0 (Np.count 0 (rs_used st))) as [Hpos|Hzero].
  2: { exists st. split; [done|]. split; [|done].
       pose proof Hinv as [_ _ Hl3 Hb Hslot Hframe _].
       split; [exact Hl3|exact Hb| |exact Hframe].
       intros j p Hj. destruct (Hslot j p Hj) as (u & Hu & Hcase).
       destruct Hcase as [[-> _]|[[_ (c & Hn & Hc)]|(? & _)]]; [| |done].
       - assert (0 < Np.count 0 (rs_used st)) by (apply count0_pos; eauto). lia.
       - exists c. split; [done|]. lia. }
  destruct (proj1 (count0_pos (rs_used st)) Hpos) as [j0 Hj0].
  pose proof (seed_unassigned st j0 Hinv Hj0) as Hc.
  set (c := NpRed.argmax (NpRed.mul_mask intensities_ (Np.eq_mask 0 (rs_used st)))) in *.
  destruct (used_lookup_pos false st c _ Hinv Hc) as [p Hp].
  pose proof (mark_inv false st c p Hinv Hp Hc) as Hinv1.
  assert (Hcount1 : Np.count 0 (rs_used (mark st c)) + 1 = Np.count 0 (rs_used st)).
  { unfold mark, refine_mark. simpl. by apply count0_mark. }
  assert (Hok1 : clusters_ok mzs maxdev lo (rs_newClusts (mark st c))).
  { intros c' Hc'. destruct (decide (c' = rs_maxClust st + 1)%Z) as [->|Hne].
    - pose proof (current_cluster_mzs (mark st c) Hinv1) as Hcur.
      change (rs_maxClust (mark st c)) with (rs_maxClust st) in Hcur.
      rewrite Hcur. unfold spread_ok. destruct maxdev as [bound|]; [|done].
      rewrite (seed_current_length st c Hinv Hc). lia.
    - rewrite (mark_other_clusters st c p c' (or_introl Hinv) Hp Hc Hne ltac:(lia)).
      by apply Hok. }
  fold (mark st c).
  destruct (Nat.ltb_spec 0 (Np.count 0 (rs_used (mark st c)))) as [Hcont|Hdone].
  - destruct (grow_spec gfuel (mark st c) 0%Q Hinv1 Hok1 ltac:(lia))
      as (st2 & Hrun & Hinv2 & Hok2 & Hcount2).
    fold grow. rewrite Hrun. apply IH; [done|done|lia|lia].
  - destruct fuel as [|fuel]; [lia|]. cbn [seed_loop refine_seed_loop].
    destruct (Nat.ltb_spec 0 (Np.count 0 (rs_used (mark st c)))) as [?|_]; [lia|].
    exists (mark st c). split; [done|]. split; [|done].
    pose proof Hinv1 as [_ _ Hl3 Hb Hslot Hframe _].
    split; [exact Hl3|exact Hb| |exact Hframe].
    intros j pj Hj. destruct (Hslot j pj Hj) as (u & Hu & Hcase).
    destruct Hcase as [[-> _]|[[_ (c' & Hn & Hc')]|(_ & _ & Hn & _)]].
    + assert (0 < Np.count 0 (rs_used (mark st c))) by (apply count0_pos; eauto). lia.
    + exists c'. split; [done|]. lia.
    + eexists. split; [done|]. lia.
Qed.

End refine_cluster_facts.

(** ** refine_clustering: the loop over the crude clusters *)

Lemma cluster_mzs_empty (mzs : list Q) (r : list Z) c :
  (∀ p, r !! p ≠ Some c) → cluster_mzs mzs r c = [].
Proof.
  unfold cluster_mzs. revert mzs.
  induction r as [|v r IH]; intros mzs Hne; [done|]. destruct mzs as [|m mzs]; [done|].
  simpl. destruct (Z.eqb_spec c v) as [->|_].
  - by specialize (Hne 0).
  - apply IH. intros p. apply (Hne (S p)).
Qed.

Lemma refine_clustering_nonempty fuel sample mzs intensities spectrumID clusts
    expected closest_max maxdev :
  clusts ≠ [] →
  refine_clustering fuel sample mzs intensities spectrumID clusts expected closest_max maxdev
  = (acc ← refine_for fuel mzs intensities clusts closest_max maxdev
             (enumerate (Np.unique clusts)) (clusts, Zlist_max clusts);
     Some (Ok acc.1)).
Proof. intros Hne. unfold refine_clustering. by destruct clusts. Qed.

Lemma spread_ok_short maxdev (l : list Q) : length l < 2 → spread_ok maxdev l.
Proof. intros Hl. destruct maxdev; simpl; [lia|done]. Qed.

Section refine_for_facts.

Variables (mzs intensities : list Q) (clusts : list Z).
Variables (closest_max : Q) (maxdev : option Q).
Hypothesis Hin : refine_input mzs intensities clusts.

Let M0 := Zlist_max clusts.
Let Finv := refine_for_inv mzs clusts maxdev.

Lemma count_true_le_length (mask : list bool) : Np.count_true mask ≤ length mask.
Proof.
  unfold Np.count_true. induction mask as [|[|] mask IH]; simpl; lia.
Qed.

Lemma count0_replicate n : Np.count 0 (replicate n 0%Z) = n.
Proof.
  unfold Np.count, Np.count_true. induction n as [|n IH]; simpl; [done|]. by rewrite IH.
Qed.

Lemma crude_step_fresh fuel rest i clust acc :
  length clusts < fuel → clust ∈ clusts → clust ∉ rest.*2 →
  Finv ((i, clust) :: rest) acc →
  ∃ acc', refine_crude_cluster fuel mzs intensities clusts closest_max maxdev acc (i, clust)
          = Some acc' ∧
    Finv rest acc' ∧
    (∀ p c, clusts !! p = Some c → c ≠ clust → acc'.1 !! p = acc.1 !! p) ∧
    crude_cluster_refined clusts acc'.1 i clust ∧
    (if 1 <? Np.count (Z.of_nat i) clusts
     then ∀ p, clusts !! p = Some clust → ∃ v, acc'.1 !! p = Some v ∧ (acc.2 + 1 < v)%Z
     else acc' = acc).
Proof.
  intros Hfuel Hclust Hnotin [Hlen Hle Hmax Hrest Hok].
  destruct acc as [nc mc]. simpl in *. unfold refine_crude_cluster.
  assert (Hnc_clust : ∀ p, clusts !! p = Some clust → nc !! p = Some clust).
  { intros p Hp. apply Hrest; [done|]. by left. }
  destruct (Nat.ltb_spec 1 (Np.count (Z.of_nat i) clusts)) as [Hn|Hn].
  2: { exists (nc, mc). split; [done|]. split.
       - split; simpl; try done. intros p c Hp Hc. apply Hrest; [done|]. by right.
       - split; [done|]. split.
         + intros p Hp. simpl.
           destruct (Nat.ltb_spec 1 (Np.count (Z.of_nat i) clusts)); [lia|]. by apply Hnc_clust.
         + by destruct (Nat.ltb_spec 1 (Np.count (Z.of_nat i) clusts)); [lia|]. }
  set (posmask := Np.eq_mask clust clusts).
  set (st0 := {| rs_used := replicate (length (Np.sel posmask mzs)) 0%Z;
                 rs_usedMZs := replicate (length (Np.sel posmask mzs)) 0%Q;
                 rs_newClusts := nc; rs_maxClust := (mc + 1)%Z |}).
  assert (Hclust_le : (clust ≤ M0)%Z).
  { pose proof (Zlist_max_upper clusts) as Hup.
    by eapply Forall_forall in Hup. }
  assert (Hposlen : length (Np.argwhere posmask) = length (Np.sel posmask mzs)).
  { by apply (pos_length mzs intensities clusts clust). }
  assert (Hinv0 : refine_inv mzs clusts clust (mc + 1) nc false st0).
  { split; simpl.
    - by rewrite length_replicate.
    - by rewrite length_replicate.
    - done.
    - lia.
    - intros j p Hj. exists 0%Z. simpl. split.
      + apply lookup_replicate_2. fold posmask in Hj. rewrite <- Hposlen.
        by eapply lookup_lt_Some.
      + left. split; [done|]. apply Hnc_clust.
        by apply (pos_lookup mzs intensities clusts clust nc Hin Hlen j p).
    - done.
    - done. }
  assert (Hcount0 : Np.count 0 (rs_used st0) ≤ length clusts).
  { unfold st0. simpl. rewrite count0_replicate.
    unfold posmask. rewrite sel_length.
    - pose proof (count_true_le_length (Np.eq_mask clust clusts)) as H.
      by rewrite eq_mask_length in H.
    - rewrite eq_mask_length. by destruct Hin. }
  assert (Hlo : (M0 ≤ mc + 1)%Z) by (fold M0 in Hmax; lia).
  destruct (seed_loop_spec mzs intensities clusts closest_max maxdev clust M0 (mc + 1) nc
              Hin Hlen Hle Hclust_le Hlo fuel fuel st0 Hinv0 Hok ltac:(lia) ltac:(lia))
    as (st' & Hrun & [Hl' Hb' Hslot' Hframe'] & Hok').
  fold posmask in Hrun. fold st0. rewrite Hrun. cbn [mbind option_bind].
  exists (rs_newClusts st', rs_maxClust st'). split; [done|]. simpl in *.
  assert (Hfresh : ∀ p, clusts !! p = Some clust →
            ∃ v, rs_newClusts st' !! p = Some v ∧ (mc + 1 < v ≤ rs_maxClust st' + 1)%Z).
  { intros p Hp.
    destruct (argwhere_surj posmask p) as [j Hj]; [by apply eq_mask_true|].
    by apply (Hslot' j p). }
  assert (Hother : ∀ p c, clusts !! p = Some c → c ≠ clust →
            rs_newClusts st' !! p = nc !! p).
  { intros p c Hp Hc. apply Hframe'. apply eq_mask_false. eauto. }
  split; [|split; [done|]].
  - split; simpl.
    + done.
    + intros p v Hv.
      destruct (lookup_lt_is_Some_2 clusts p) as [c Hc].
      { rewrite <- Hl'. by eapply lookup_lt_Some. }
      destruct (decide (c = clust)) as [->|Hne].
      * destruct (Hfresh p Hc) as (v' & Hv' & ?). rewrite Hv in Hv'. injection Hv' as <-. lia.
      * rewrite (Hother p c Hc Hne) in Hv. specialize (Hle p v Hv). lia.
    + lia.
    + intros p c Hp Hc. rewrite (Hother p c Hp).
      * apply Hrest; [done|]. by right.
      * intros ->. done.
    + done.
  - split.
    + intros p Hp. destruct (Nat.ltb_spec 1 (Np.count (Z.of_nat i) clusts)); [|lia].
      destruct (Hfresh p Hp) as (v & Hv & ?). exists v. split; [done|]. fold M0. lia.
    + destruct (Nat.ltb_spec 1 (Np.count (Z.of_nat i) clusts)); [|lia].
      intros p Hp. destruct (Hfresh p Hp) as (v & Hv & ?). exists v. split; [done|]. lia.
Qed.

Lemma crude_step fuel rest i clust acc :
  length clusts < fuel → clust ∈ clusts → clust ∉ rest.*2 →
  Finv ((i, clust) :: rest) acc →
  ∃ acc', refine_crude_cluster fuel mzs intensities clusts closest_max maxdev acc (i, clust)
          = Some acc' ∧
    Finv rest acc' ∧
    (∀ p c, clusts !! p = Some c → c ≠ clust → acc'.1 !! p = acc.1 !! p) ∧
    crude_cluster_refined clusts acc'.1 i clust.
Proof.
  intros Hfuel Hclust Hnotin Hinv.
  destruct (crude_step_fresh fuel rest i clust acc Hfuel Hclust Hnotin Hinv)
    as (acc' & Hrun & Hinv' & Hframe & Href & _).
  exists acc'. done.
Qed.

Lemma refine_for_spec fuel rest : ∀ acc,
  length clusts < fuel → NoDup rest.*2 → (∀ c, c ∈ rest.*2 → c ∈ clusts) →
  Finv rest acc →
  ∃ acc', refine_for fuel mzs intensities clusts closest_max maxdev rest acc = Some acc' ∧
    Finv [] acc' ∧
    (∀ p c, clusts !! p = Some c → c ∉ rest.*2 → acc'.1 !! p = acc.1 !! p) ∧
    (∀ i c, (i, c) ∈ rest → crude_cluster_refined clusts acc'.1 i c).
Proof.
  induction rest as [|[i clust] rest IH]; intros acc Hfuel Hnd Hsub Hinv.
  - exists acc. split; [done|]. split; [done|]. split; [done|].
    intros i c Hic. by apply elem_of_nil in Hic.
  - simpl in Hnd. apply NoDup_cons in Hnd as [Hnotin Hnd].
    destruct (crude_step fuel rest i clust acc Hfuel) as (acc1 & Hrun1 & Hinv1 & Hframe1 & Href1).
    { apply Hsub. by left. }
    { done. }
    { done. }
    destruct (IH acc1 Hfuel Hnd) as (acc' & Hrun & Hinv' & Hframe' & Href').
    { intros c Hc. apply Hsub. by right. }
    { done. }
    exists acc'. cbn [refine_for]. rewrite Hrun1. cbn [mbind option_bind].
    split; [done|]. split; [done|]. split.
    + intros p c Hp Hc. apply not_elem_of_cons in Hc as [Hne Hc].
      rewrite (Hframe' p c Hp Hc). by apply (Hframe1 p c).
    + intros i' c Hic. apply elem_of_cons in Hic as [Heq|Hic]; [|by apply Href'].
      injection Heq as -> ->. intros p Hp. specialize (Href1 p Hp).
      rewrite (Hframe' p clust Hp Hnotin). done.
Qed.

(** What [refine_clustering] returns on the inputs it is meant for. *)
Lemma refine_clustering_spec fuel sample spectrumID expected :
  length clusts < fuel →
  ∃ r, refine_clustering fuel sample mzs intensities spectrumID clusts
         expected closest_max maxdev = Some (Ok r) ∧
    length r = length clusts ∧
    (∀ p c v, clusts !! p = Some c → r !! p = Some v → v = c ∨ (M0 < v)%Z) ∧
    clusters_ok mzs maxdev M0 r ∧
    (∀ i c, Np.unique clusts !! i = Some c → crude_cluster_refined clusts r i c).
Proof.
  intros Hfuel. rewrite refine_clustering_nonempty by (by destruct Hin).
  destruct (refine_for_spec fuel (enumerate (Np.unique clusts)) (clusts, M0) Hfuel)
    as (acc' & Hrun & Hinv' & _ & Href).
  { unfold enumerate. rewrite snd_zip by (rewrite length_seq; lia). apply unique_NoDup. }
  { intros c Hc. unfold enumerate in Hc. rewrite snd_zip in Hc by (rewrite length_seq; lia).
    by apply unique_elem. }
  { split; simpl.
    - done.
    - intros p v Hv. pose proof (Zlist_max_upper clusts) as Hup.
      eapply Forall_lookup_1 in Hup; [|exact Hv]. fold M0 in Hup. lia.
    - done.
    - done.
    - intros c Hc. rewrite cluster_mzs_empty; [apply spread_ok_short; simpl; lia|].
      intros p Hp. pose proof (Zlist_max_upper clusts) as Hup.
      eapply Forall_lookup_1 in Hup; [|exact Hp]. simpl in Hup. lia. }
  fold M0. rewrite Hrun. cbn [mbind option_bind]. exists acc'.1. split; [done|].
  destruct Hinv' as [Hlen Hle Hmax _ Hok]. split; [done|].
  split; [|split; [done|]].
  - intros p c v Hc Hv.
    assert (c ∈ Np.unique clusts) as Hin_u.
    { apply unique_elem. by eapply list_elem_of_lookup_2. }
    apply list_elem_of_lookup in Hin_u as [i Hi].
    specialize (Href i c ltac:(by apply elem_of_enumerate) p Hc).
    destruct (1 <? Np.count (Z.of_nat i) clusts).
    + destruct Href as (v' & Hv' & ?). rewrite Hv in Hv'. injection Hv' as <-. by right.
    + rewrite Hv in Href. injection Href as ->. by left.
  - intros i c Hi. apply Href. by apply elem_of_enumerate.
Qed.

End refine_for_facts.

(** ** refine_clustering: the properties of its result *)

Lemma count_true_mono (m1 m2 : list bool) :
  (∀ p, m1 !! p = Some true → m2 !! p = Some true) →
  Np.count_true m1 ≤ Np.count_true m2.
Proof.
  unfold Np.count_true. revert m2.
  induction m1 as [|b m1 IH]; intros m2 Hsub; simpl; [lia|].
  destruct m2 as [|b2 m2].
  - destruct b; simpl; [by specialize (Hsub 0 eq_refl)|].
    specialize (IH [] (λ p Hp, Hsub (S p) Hp)). simpl in IH. lia.
  - specialize (IH m2 (λ p Hp, Hsub (S p) Hp)).
    destruct b; simpl.
    + specialize (Hsub 0 eq_refl). simpl in Hsub. injection Hsub as ->. simpl. lia.
    + destruct b2; simpl; lia.
Qed.

Lemma cluster_mzs_length (mzs : list Q) (r : list Z) c :
  length r = length mzs → length (cluster_mzs mzs r c) = Np.count c r.
Proof. intros Hlen. unfold cluster_mzs, Np.count. apply sel_length. by rewrite eq_mask_length. Qed.

Lemma count_cons v x (r : list Z) :
  Np.count v (x :: r) = (if (v =? x)%Z then 1 else 0) + Np.count v r.
Proof. unfold Np.count, Np.count_true. simpl. by destruct (v =? x)%Z. Qed.

Lemma sum_indicator (l : list Z) x :
  NoDup l → x ∈ l → sum_list ((λ v, if (v =? x)%Z then 1 else 0) <$> l) = 1.
Proof.
  induction 1 as [|y l Hy Hnd IH]; intros Hx; [by apply elem_of_nil in Hx|].
  rewrite fmap_cons. simpl. destruct (Z.eqb_spec y x) as [->|Hne].
  - assert (sum_list ((λ v, if (v =? x)%Z then 1 else 0) <$> l) = 0) as ->; [|done].
    clear IH Hnd Hx. induction l as [|z l IH]; [done|].
    rewrite fmap_cons. simpl. apply not_elem_of_cons in Hy as [Hzx Hy].
    destruct (Z.eqb_spec z x); [congruence|]. by apply IH.
  - apply elem_of_cons in Hx as [->|Hx]; [done|]. by apply IH.
Qed.

Lemma sum_list_fmap_add {A} (f g : A → nat) (l : list A) :
  sum_list ((λ v, f v + g v) <$> l) = sum_list (f <$> l) + sum_list (g <$> l).
Proof. induction l as [|x l IH]; [done|]. rewrite !fmap_cons. simpl. lia. Qed.

Lemma counts_sum (l r : list Z) :
  NoDup l → (∀ x, x ∈ r → x ∈ l) → sum_list ((λ v, Np.count v r) <$> l) = length r.
Proof.
  intros Hnd. induction r as [|x r IH]; intros Hsub.
  - rewrite (sum_list_fmap_same 0); [simpl; lia|]. by apply Forall_forall.
  - rewrite (list_fmap_ext (λ v, Np.count v (x :: r))
               (λ v, (if (v =? x)%Z then 1 else 0) + Np.count v r) l);
      [|intros i v _; apply count_cons].
    rewrite (sum_list_fmap_add (λ v, if (v =? x)%Z then 1 else 0) (λ v, Np.count v r)), sum_indicator; [|done|apply Hsub; by left].
    rewrite IH; [done|]. intros y Hy. apply Hsub. by right.
Qed.

(** The sizes of the clusters of an assignment add up to the number of
    signals. *)
Lemma unique_counts_sum (r : list Z) : sum_list (Np.unique_counts r) = length r.
Proof.
  unfold Np.unique_counts. apply counts_sum; [apply unique_NoDup|].
  intros x Hx. by apply unique_elem.
Qed.

Lemma reindexed_lookup clusts i c :
  reindexed_ids clusts → Np.unique clusts !! i = Some c → c = Z.of_nat i.
Proof.
  intros [k Hk] Hi. rewrite Hk, list_lookup_fmap in Hi.
  destruct (seq 0 k !! i) as [j|] eqn:E; [|done]. apply lookup_seq in E as [-> _].
  simpl in Hi. by injection Hi as <-.
Qed.

(** With reindexed ids, an output cluster of two or more signals is
    one the refinement has made. *)
Lemma refined_cluster_fresh (clusts r : list Z) c :
  reindexed_ids clusts → length r = length clusts →
  (∀ p c v, clusts !! p = Some c → r !! p = Some v → v = c ∨ (Zlist_max clusts < v)%Z) →
  (∀ i c, Np.unique clusts !! i = Some c → crude_cluster_refined clusts r i c) →
  2 ≤ Np.count c r → (Zlist_max clusts < c)%Z.
Proof.
  intros Hdense Hlen Hcase Href Hcount.
  destruct (decide (Zlist_max clusts < c)%Z) as [|Hle]; [done|]. exfalso.
  assert (Hsame : ∀ p, r !! p = Some c → clusts !! p = Some c).
  { intros p Hp. destruct (lookup_lt_is_Some_2 clusts p) as [cp Hcp].
    { rewrite <- Hlen. by eapply lookup_lt_Some. }
    destruct (Hcase p cp c Hcp Hp) as [->|?]; [done|lia]. }
  assert (Hcount' : 2 ≤ Np.count c clusts).
  { etrans; [exact Hcount|]. apply count_true_mono.
    intros p Hp. apply eq_mask_true. apply eq_mask_true in Hp. by apply Hsame. }
  destruct (proj1 (count_true_pos (Np.eq_mask c r)) ltac:(unfold Np.count in Hcount; lia))
    as [p Hp].
  apply eq_mask_true in Hp. pose proof (Hsame p Hp) as Hcp.
  assert (c ∈ Np.unique clusts) as Hin.
  { apply unique_elem. by eapply list_elem_of_lookup_2. }
  apply list_elem_of_lookup in Hin as [i Hi].
  pose proof (reindexed_lookup clusts i c Hdense Hi) as ->.
  specialize (Href i _ Hi p Hcp).
  destruct (Nat.ltb_spec 1 (Np.count (Z.of_nat i) clusts)); [|lia].
  destruct Href as (v & Hv & ?). rewrite Hp in Hv. injection Hv as <-. lia.
Qed.


Lemma example_refine_input : refine_input example_mzs example_intensities example_clusts.
Proof.
  split; [reflexivity|reflexivity|done| |].
  - repeat (apply Forall_cons_2; [reflexivity|]). constructor.
  - repeat (apply Forall_cons_2; [split; reflexivity|]). constructor.
Qed.

Lemma example_reindexed : reindexed_ids example_clusts.
Proof. by exists 3. Qed.


(** X27.  On reindexed ids, positive intensities and masses between
    0 and 1E6, where the loops end within [length clusts + 1] rounds,
    [refine_clustering] returns an assignment with one id per signal,
    none of them negative (so never the sentinel [-1]), and the sizes
    of its clusters add up to the number of signals. *)
Theorem refine_clustering_partition fuel sample mzs intensities spectrumID clusts
    expected closest_max maxdev :
  refine_input mzs intensities clusts → reindexed_ids clusts → length clusts < fuel →
  ∃ r, refine_clustering fuel sample mzs intensities spectrumID clusts
         expected closest_max maxdev = Some (Ok r) ∧
    length r = length clusts ∧
    Forall (λ v, 0 ≤ v)%Z r ∧
    ¬ ((-1)%Z ∈ r) ∧
    sum_list (Np.unique_counts r) = length clusts.
Proof.
  intros Hin Hdense Hfuel.
  destruct (refine_clustering_spec mzs intensities clusts closest_max maxdev Hin
              fuel sample spectrumID expected Hfuel)
    as (r & Hrun & Hlen & Hcase & _ & _).
  exists r. split; [done|]. split; [done|].
  assert (Hnonneg : Forall (λ v, 0 ≤ v)%Z r).
  { apply Forall_lookup. intros p v Hv.
    destruct (lookup_lt_is_Some_2 clusts p) as [c Hc].
    { rewrite <- Hlen. by eapply lookup_lt_Some. }
    assert (0 ≤ c)%Z as Hc0.
    { assert (c ∈ Np.unique clusts) as Hu.
      { apply unique_elem. by eapply list_elem_of_lookup_2. }
      apply list_elem_of_lookup in Hu as [i Hi].
      rewrite (reindexed_lookup clusts i c Hdense Hi). lia. }
    pose proof (Zlist_max_upper clusts) as Hup.
    eapply Forall_lookup_1 in Hup; [|exact Hc]. simpl in Hup.
    destruct (Hcase p c v Hc Hv) as [->|?]; lia. }
  split; [done|]. split.
  - intros Hm. eapply Forall_forall in Hnonneg; [|exact Hm]. simpl in Hnonneg. lia.
  - by rewrite unique_counts_sum.
Qed.

Lemma refine_clustering_partition_witness :
  ∃ r, refine_clustering 9 "spot" example_mzs example_intensities [] example_clusts
         15 15 None = Some (Ok r) ∧
    length r = 8 ∧ ¬ ((-1)%Z ∈ r).
Proof.
  destruct (refine_clustering_partition 9 "spot" example_mzs example_intensities []
              example_clusts 15 15 None example_refine_input example_reindexed)
    as (r & Hrun & Hlen & _ & Hsent & _).
  - simpl. lia.
  - exists r. split; [exact Hrun|]. split; [exact Hlen|exact Hsent].
Defined.

Example refine_clustering_example :
  refine_clustering 9 "spot" example_mzs example_intensities [] example_clusts 15 15 None
  = Some (Ok [4; 4; 4; 6; 5; 1; 8; 7]%Z).
Proof. reflexivity. Qed.

(** A round of the seed loop on the crude cluster [[100; 100.0001]]
    with the intensities [[5; 0]], once signal 0 is closed: the product
    [intensities_ * (used == 0)] is [[0; 0]], its [argmax] is the closed
    signal 0, the growth step adds signal 1 and rejects it, because no
    unassigned signal is left, and the state is the one before the
    round but for the counter. *)
Lemma zero_intensity_round fuel : ∀ gfuel a m,
  refine_seed_loop [0; 0]%Z 15 None [100; 100.0001]%Q [5; 0]%Q [0; 1] gfuel fuel
    {| rs_used := [-1; 0]%Z; rs_usedMZs := [0; 0]%Q;
       rs_newClusts := [a; 0]%Z; rs_maxClust := m |} = None.
Proof.
  induction fuel as [|fuel IH]; intros gfuel a m; [reflexivity|].
  destruct gfuel as [|gfuel]; [reflexivity|].
  cbn [refine_seed_loop]. 
  change (0 <? Np.count 0 (rs_used {| rs_used := [-1; 0]%Z; rs_usedMZs := [0; 0]%Q;
       rs_newClusts := [a; 0]%Z; rs_maxClust := m |})) with true.
  cbv iota.
  exact (IH (S gfuel) (m + 1)%Z (m + 1)%Z).
Qed.

(** C4.  A crude cluster of the reindexed ids [[0; 0]] whose second
    signal has the intensity 0: [refine_clustering] returns for no
    amount of fuel.  After the first sub-cluster is closed, the seed
    search [np.argmax(intensities_ * (used == 0))] finds the closed
    signal 0 again, and every later round ends as the one before. *)
Theorem refine_clustering_diverges_on_zero_intensity (fuel : nat) :
  refine_clustering fuel "spot" [100; 100.0001]%Q [5; 0]%Q [] [0; 0]%Z 15 15 None = None.
Proof.
  destruct fuel as [|fuel]; [reflexivity|].
  assert (refine_seed_loop [0; 0]%Z 15 None [100; 100.0001]%Q [5; 0]%Q [0; 1]
            (S fuel) (S fuel)
            {| rs_used := [0; 0]%Z; rs_usedMZs := [0; 0]%Q;
               rs_newClusts := [0; 0]%Z; rs_maxClust := 1 |} = None) as Hloop.
  { exact (zero_intensity_round fuel (S fuel) 2%Z 2%Z). }
  unfold refine_clustering.
  change (enumerate (Np.unique [0; 0]%Z)) with [(0, 0%Z)].
  cbn [refine_for]. unfold refine_crude_cluster.
  change (1 <? Np.count (Z.of_nat 0) [0; 0]%Z) with true. cbv iota.
  change (refine_seed_loop _ _ _ _ _ _ _ _ _) with
    (refine_seed_loop [0; 0]%Z 15 None [100; 100.0001]%Q [5; 0]%Q [0; 1]
            (S fuel) (S fuel)
            {| rs_used := [0; 0]%Z; rs_usedMZs := [0; 0]%Q;
               rs_newClusts := [0; 0]%Z; rs_maxClust := 1 |}).
  by rewrite Hloop.
Qed.

(** Ids that are not reindexed.  The crude cluster [1] of
    [clusts = [1; 1]] is the entry [i = 0] of [np.unique(clusts)], and
    the count [n = np.sum(clusts == i)] is taken for the id 0, which
    no signal carries: the cluster is not refined, whatever the fuel. *)
Lemma refine_clustering_unreindexed_ids (fuel : nat) :
  refine_clustering fuel "spot" [100; 101]%Q [5; 1]%Q [] [1; 1]%Z 15 15 (Some 10%Q)
  = Some (Ok [1; 1]%Z).
Proof. reflexivity. Qed.


(** ** bracket_samples on pools of intensities above 1

    When every [np.log10] intensity is positive the product with the
    mask orders the unassigned signals as their intensities do, and the
    loop behaves as intended: the seed is the strongest unassigned
    signal, the first one among equals, and the loop ends with every
    signal assigned. *)

Lemma argmax_from_first a : ∀ bi b i v,
  bi < i → i ≤ NpRed.argmax_from bi b i a →
  a !! (NpRed.argmax_from bi b i a - i) = Some v →
  (b < v)%Q ∧ ∀ j y, j < NpRed.argmax_from bi b i a - i → a !! j = Some y → (y < v)%Q.
Proof.
  induction a as [|x a IH]; intros bi b i v Hbi Hge Hv; simpl in *; [lia|].
  destruct (Qltb b x) eqn:E.
  - apply Qltb_lt in E.
    destruct (decide (NpRed.argmax_from i x (S i) a = i)) as [Heq|Hne].
    + rewrite Heq, Nat.sub_diag in Hv |- *. simpl in Hv. injection Hv as <-.
      split; [done|]. intros j y Hj. lia.
    + destruct (argmax_from_spec a i x (S i)) as (v' & [[? _]|[Hge' Hlk]] & _); [done|].
      replace (NpRed.argmax_from i x (S i) a - i)
        with (S (NpRed.argmax_from i x (S i) a - S i)) in Hv |- * by lia.
      simpl in Hv. destruct (IH i x (S i) v ltac:(lia) Hge' Hv) as [Hxv Hall].
      split; [by apply Qlt_trans with x|].
      intros [|j] y Hj Hy; simpl in Hy.
      * by injection Hy as <-.
      * apply (Hall j); [lia|done].
  - assert (x <= b)%Q as Hxb.
    { apply Qnot_lt_le. intros Hlt. apply Qltb_lt in Hlt. congruence. }
    destruct (argmax_from_spec a bi b (S i)) as (v' & [[Heq _]|[Hge' Hlk]] & _); [lia|].
    replace (NpRed.argmax_from bi b (S i) a - i)
      with (S (NpRed.argmax_from bi b (S i) a - S i)) in Hv |- * by lia.
    simpl in Hv. destruct (IH bi b (S i) v ltac:(lia) Hge' Hv) as [Hbv Hall].
    split; [done|]. intros [|j] y Hj Hy; simpl in Hy.
    + injection Hy as <-. by apply Qle_lt_trans with b.
    + apply (Hall j); [lia|done].
Qed.

(** [np.argmax] returns the first position of the largest value. *)
Lemma argmax_first a j y v :
  a !! NpRed.argmax a = Some v → j < NpRed.argmax a → a !! j = Some y → (y < v)%Q.
Proof.
  destruct a as [|x a]; [done|]. unfold NpRed.argmax. intros Hv Hj Hy.
  destruct (NpRed.argmax_from 0 x 1 a) as [|r] eqn:Er; [lia|]. simpl in Hv.
  destruct (argmax_from_first a 0 x 1 v) as [Hxv Hall]; [lia|lia| |].
  { by rewrite Er; simpl; rewrite Nat.sub_0_r. }
  destruct j as [|j]; simpl in Hy.
  - by injection Hy as <-.
  - apply (Hall j); [|done]. rewrite Er. simpl. lia.
Qed.

Lemma sel_lookup_nonempty {A} (mask : list bool) (xs : list A) i x :
  mask !! i = Some true → xs !! i = Some x → Np.sel mask xs ≠ [].
Proof.
  revert xs i. induction mask as [|b mask IH]; intros [|y xs] [|i] Hm Hx; simpl in *;
    try done.
  - by injection Hm as ->.
  - destruct b; [done|]. by eapply IH.
Qed.

Section bracket_positive.

Variables (p : pool) (max_ppm_deviation : Q).
Hypothesis Hlen : length (pool_mz p) = length (pool_intensity p).
Hypothesis Hint : Forall (λ x, 0 < x)%Q (pool_intensity p).
Hypothesis Hmz : Forall (λ m, 0 < m)%Q (pool_mz p).
Hypothesis Hmax : (0 <= max_ppm_deviation)%Q.

(** The seed is unassigned, no unassigned signal is stronger, and the
    unassigned signals before it are strictly weaker.  (The masses are
    taken positive so that the division by [temp["mz"]] is one the
    rationals and the floats agree on.) *)
Lemma bracket_seed_spec (cluster : list Z) :
  length cluster = length (pool_intensity p) → 0 < Np.count 0 cluster →
  ∃ x, cluster !! bracket_seed p cluster = Some 0%Z ∧
       pool_intensity p !! bracket_seed p cluster = Some x ∧
       ∀ j y, cluster !! j = Some 0%Z → pool_intensity p !! j = Some y →
              (y <= x)%Q ∧ (j < bracket_seed p cluster → (y < x)%Q).
Proof.
  intros Hcl Hcount. unfold bracket_seed.
  set (a := NpRed.mul_mask (pool_intensity p) (Np.eq_mask 0 cluster)).
  assert (Ha : ∀ j y c, pool_intensity p !! j = Some y → cluster !! j = Some c →
            a !! j = Some (y * (if (0 =? c)%Z then 1 else 0))%Q).
  { intros j y c Hy Hc. unfold a, NpRed.mul_mask. rewrite lookup_zip_with, Hy. simpl.
    by rewrite eq_mask_lookup, Hc. }
  apply count0_pos in Hcount as [j0 Hj0].
  destruct (lookup_lt_is_Some_2 (pool_intensity p) j0) as [y0 Hy0].
  { rewrite <- Hcl. by eapply lookup_lt_Some. }
  pose proof (Ha j0 y0 0%Z Hy0 Hj0) as Ha0. simpl in Ha0.
  destruct (argmax_spec a) as (v & Hv & Hall).
  { intros Hnil. by rewrite Hnil in Ha0. }
  pose proof Hv as Hv'.
  unfold a, NpRed.mul_mask in Hv'. apply lookup_zip_with_Some in Hv' as (x & b & -> & Hx & Hb).
  change (pool_intensity p !! NpRed.argmax a = Some x) in Hx.
  change (Np.eq_mask 0 cluster !! NpRed.argmax a = Some b) in Hb.
  rewrite eq_mask_lookup in Hb.
  destruct (cluster !! NpRed.argmax a) as [c|] eqn:Hc; [|done].
  simpl in Hb. injection Hb as <-.
  assert (Hpos : ∀ j y, pool_intensity p !! j = Some y → (0 < y)%Q).
  { intros j y Hy. eapply Forall_lookup_1 in Hint; [exact Hint|exact Hy]. }
  assert (c = 0%Z) as ->.
  { pose proof (Hpos j0 y0 Hy0). eapply Forall_lookup_1 in Hall; [|exact Ha0].
    cbv beta in Hall. destruct c; [done| |]; simpl in Hall; lra. }
  exists x. split; [done|]. split; [done|]. intros j y Hj Hy.
  pose proof (Ha j y 0%Z Hy Hj) as Haj. simpl in Haj, Hv. split.
  - eapply Forall_lookup_1 in Hall; [|exact Haj]. cbv beta in Hall. lra.
  - intros Hlt. pose proof (argmax_first a j _ _ Hv Hlt Haj). lra.
Qed.

Lemma bracket_assign_seed c m :
  pool_mz p !! c = Some m → bracket_assign p m max_ppm_deviation !! c = Some true.
Proof using Hmz Hmax.
  intros Hm. unfold bracket_assign. change (map ?f ?l) with (f <$> l).
  rewrite list_lookup_fmap, Hm. simpl. f_equal. apply Qle_bool_iff.
  assert (Qabs (m - m) / m * ppm_factor == 0)%Q as ->; [|done].
  assert (m - m == 0)%Q as Hz by ring. rewrite Hz.
  change (Qabs 0) with 0%Q. unfold Qdiv. ring.
Qed.

Lemma bracket_round_spec st :
  length (bs_cluster st) = length (pool_intensity p) →
  0 < Np.count 0 (bs_cluster st) → (0 < bs_cclust st)%Z →
  ∃ st', bracket_round p max_ppm_deviation st = Ok st' ∧
    bs_cluster st' =
      Np.set_mask (bracket_assign p (pool_mz p !!! bracket_seed p (bs_cluster st))
                     max_ppm_deviation) (bs_cclust st) (bs_cluster st) ∧
    length (bs_cluster st') = length (pool_intensity p) ∧
    bs_cclust st' = (bs_cclust st + 1)%Z ∧
    Np.count 0 (bs_cluster st') < Np.count 0 (bs_cluster st).
Proof.
  intros Hcl Hcount Hcc.
  destruct (bracket_seed_spec (bs_cluster st) Hcl Hcount) as (x & Hseed & Hx & _).
  set (c := bracket_seed p (bs_cluster st)) in *.
  destruct (lookup_lt_is_Some_2 (pool_mz p) c) as [m Hm].
  { rewrite Hlen. by eapply lookup_lt_Some. }
  unfold bracket_round. fold c. rewrite (list_lookup_total_correct _ _ _ Hm).
  set (assign := bracket_assign p m max_ppm_deviation).
  pose proof (bracket_assign_seed c m Hm) as Hassign. fold assign in Hassign.
  pose proof (sel_lookup_nonempty assign (pool_mz p) c m Hassign Hm) as Hne.
  destruct (Np.sel assign (pool_mz p)) as [|m0 ms] eqn:Esel; [done|].
  eexists. split; [done|]. simpl. split; [done|].
  assert (Hlen_assign : length assign = length (bs_cluster st)).
  { unfold assign, bracket_assign. rewrite length_map. lia. }
  split; [by rewrite set_mask_length; lia|]. split; [done|].
  assert (Hmono : Np.count_true (Np.eq_mask 0 (Np.set_mask assign (bs_cclust st) (bs_cluster st)))
                  ≤ Np.count_true (<[c := false]> (Np.eq_mask 0 (bs_cluster st)))).
  { apply count_true_mono. intros j Hj. apply eq_mask_true in Hj.
    destruct (lookup_lt_is_Some_2 (bs_cluster st) j) as [v Hv].
    { rewrite <- (set_mask_length assign (bs_cclust st)) by done. by eapply lookup_lt_Some. }
    destruct (lookup_lt_is_Some_2 assign j) as [b Hb].
    { rewrite Hlen_assign. by eapply lookup_lt_Some. }
    rewrite (set_mask_lookup assign _ _ j b v Hb Hv) in Hj.
    destruct b; [injection Hj as ?; lia|]. injection Hj as ->.
    rewrite list_lookup_insert_ne; [by apply eq_mask_true|].
    intros <-. rewrite Hassign in Hb. done. }
  pose proof (count_true_insert (Np.eq_mask 0 (bs_cluster st)) c true false) as Hins.
  rewrite eq_mask_lookup, Hseed in Hins. specialize (Hins eq_refl).
  unfold Np.count. lia.
Qed.

(** The loop ends after at most one round per signal, with no signal
    left unassigned. *)
Lemma bracket_loop_terminates fuel : ∀ st,
  length (bs_cluster st) = length (pool_intensity p) → (0 < bs_cclust st)%Z →
  Np.count 0 (bs_cluster st) < fuel →
  ∃ st', bracket_loop fuel p max_ppm_deviation st = Some (Ok st') ∧
         Np.count 0 (bs_cluster st') = 0.
Proof.
  induction fuel as [|fuel IH]; intros st Hcl Hcc Hfuel; [lia|].
  cbn [bracket_loop].
  destruct (Nat.ltb_spec 0 (Np.count 0 (bs_cluster st))) as [Hpos|Hzero].
  - destruct (bracket_round_spec st Hcl Hpos Hcc) as (st1 & -> & _ & Hl1 & Hcc1 & Hlt).
    apply IH; [done|lia|lia].
  - exists st. split; [done|lia].
Qed.

Lemma bracket_samples_loop_terminates :
  ∃ st, bracket_loop (S (length (pool_intensity p))) p max_ppm_deviation (bracket_init p)
        = Some (Ok st) ∧
        Np.count 0 (bs_cluster st) = 0.
Proof.
  apply bracket_loop_terminates; unfold bracket_init; simpl.
  - apply length_replicate.
  - lia.
  - rewrite count0_replicate. lia.
Qed.

End bracket_positive.

(** * Further properties of the code *)

(** ** reindex_cluster: idempotence *)

Lemma reindex_unique (cluster : list Z) :
  Np.unique (reindex_cluster cluster) = Z.of_nat <$> seq 0 (length (Np.unique cluster)).
Proof.
  apply sorted_lt_ext.
  - apply unique_sorted.
  - apply sorted_lt_of_nat_seq.
  - intros x. rewrite unique_elem. split.
    + intros [i Hi]%list_elem_of_lookup.
      assert (is_Some (cluster !! i)) as [c Hc].
      { apply lookup_lt_is_Some_2. rewrite <- reindex_length. by eapply lookup_lt_Some. }
      destruct (reindex_lookup _ _ _ Hc) as (r & Hr & Ho).
      rewrite Ho in Hi. injection Hi as <-.
      apply list_elem_of_fmap. exists r. split; [done|].
      apply elem_of_seq. pose proof (lookup_lt_Some _ _ _ Hr). lia.
    + intros (r & -> & Hr%elem_of_seq)%list_elem_of_fmap.
      assert (is_Some (Np.unique cluster !! r)) as [c Hc].
      { apply lookup_lt_is_Some_2. lia. }
      assert (c ∈ cluster) as [i Hi]%list_elem_of_lookup.
      { apply unique_elem. by eapply list_elem_of_lookup_2. }
      destruct (reindex_lookup _ _ _ Hi) as (r' & Hr' & Ho).
      assert (r' = r) as ->.
      { eapply NoDup_lookup; [apply unique_NoDup|done..]. }
      by eapply list_elem_of_lookup_2.
Qed.

Lemma reindex_fixed (cluster : list Z) :
  reindexed_ids cluster → reindex_cluster cluster = cluster.
Proof.
  intros Hre. apply list_eq. intros i.
  destruct (cluster !! i) as [c|] eqn:Hc.
  - destruct (reindex_lookup _ _ _ Hc) as (r & Hr & Ho).
    rewrite Ho. f_equal. symmetry. by eapply reindexed_lookup.
  - apply lookup_ge_None. rewrite reindex_length. by apply lookup_ge_None.
Qed.

(** X1.  reindexing is idempotent: its result carries the ids [0..k-1],
    [k] the number of distinct input ids, and an array that already
    carries such ids is returned unchanged. *)
Theorem reindex_cluster_idempotent (cluster : list Z) :
  Np.unique (reindex_cluster cluster) = Z.of_nat <$> seq 0 (length (Np.unique cluster)) ∧
  reindex_cluster (reindex_cluster cluster) = reindex_cluster cluster ∧
  (reindexed_ids cluster → reindex_cluster cluster = cluster).
Proof.
  split; [apply reindex_unique|]. split; [|apply reindex_fixed].
  apply reindex_fixed. eexists. apply reindex_unique.
Qed.

Lemma reindex_cluster_idempotent_witness :
  reindex_cluster [0; 1; 1; 2]%Z = [0; 1; 1; 2]%Z.
Proof.
  apply (reindex_cluster_idempotent [0; 1; 1; 2]%Z).
  exists 3. reflexivity.
Defined.

(** ** crude_cluster_mz_list: dense ids that ascend with the mass *)

Lemma ssorted_lookup {A} (R : relation A) (l : list A) i j x y :
  StronglySorted R l → l !! i = Some x → l !! j = Some y → i < j → R x y.
Proof.
  intros Hs. revert i j. induction Hs as [|z l Hs IH Hall]; intros i j Hi Hj Hij.
  - done.
  - destruct j as [|j]; [lia|]. simpl in Hj.
    destruct i as [|i]; simpl in Hi.
    + injection Hi as ->. eapply Forall_forall in Hall; [exact Hall|].
      by eapply list_elem_of_lookup_2.
    + apply (IH i j); [done|done|lia].
Qed.

(** An array that starts at [0] and grows by steps of [0] or [1]. *)
Lemma steps_monotone (cs : list Z) :
  (∀ j c c', cs !! j = Some c → cs !! S j = Some c' → c' = c ∨ c' = (c + 1)%Z) →
  ∀ j i c c', i ≤ j → cs !! i = Some c → cs !! j = Some c' → (c ≤ c')%Z.
Proof.
  intros Hstep j. induction j as [|j IH]; intros i c c' Hij Hi Hj.
  - assert (i = 0) as -> by lia. rewrite Hi in Hj. injection Hj as ->. lia.
  - destruct (decide (i = S j)) as [->|Hne].
    { rewrite Hi in Hj. injection Hj as ->. lia. }
    destruct (lookup_lt_is_Some_2 cs j) as [d Hd].
    { pose proof (lookup_lt_Some _ _ _ Hj). lia. }
    pose proof (IH i c d ltac:(lia) Hi Hd).
    destruct (Hstep j d c' Hd Hj); lia.
Qed.

Lemma steps_dense (cs : list Z) :
  cs !! 0 = Some 0%Z →
  (∀ j c c', cs !! j = Some c → cs !! S j = Some c' → c' = c ∨ c' = (c + 1)%Z) →
  ∀ j c v, cs !! j = Some c → (0 ≤ v ≤ c)%Z → ∃ i, i ≤ j ∧ cs !! i = Some v.
Proof.
  intros H0 Hstep j. induction j as [|j IH]; intros c v Hj Hv.
  - rewrite H0 in Hj. injection Hj as <-. exists 0. split; [done|].
    rewrite H0. f_equal. lia.
  - destruct (lookup_lt_is_Some_2 cs j) as [d Hd].
    { pose proof (lookup_lt_Some _ _ _ Hj). lia. }
    destruct (decide (v = c)) as [->|Hne]; [by exists (S j)|].
    destruct (IH d v Hd) as (i & Hi & Hiv).
    { destruct (Hstep j d c Hd Hj); lia. }
    exists i. split; [lia|done].
Qed.

(** The ids of [crude_cluster_mz_list] read along the ascending masses:
    position [j] of the sorted order carries [cs !! j], and [cs] starts
    at [0] and grows by steps of [0] or [1]. *)
Lemma crude_sorted_view sample (mz intensity : list Q) min_difference_ppm :
  length intensity = length mz →
  ∃ clust cs,
    crude_cluster_mz_list sample mz intensity min_difference_ppm = Ok clust ∧
    length clust = length mz ∧
    length mz ≤ length cs ∧
    cs !! 0 = Some 0%Z ∧
    (∀ j c c', cs !! j = Some c → cs !! S j = Some c' → c' = c ∨ c' = (c + 1)%Z) ∧
    (∀ j p, NpSort.argsort Qle_bool mz !! j = Some p → clust !! p = cs !! j).
Proof.
  intros Hlen. unfold crude_cluster_mz_list.
  rewrite (take_idx_argsort Qle_bool mz).
  set (mzOrd := NpSort.argsort Qle_bool mz).
  set (mz_ := (NpSort.ksort Qle_bool (zip mz (seq 0 (length mz)))).*1).
  assert (Hperm : mzOrd ≡ₚ seq 0 (length mz)) by apply argsort_perm.
  assert (HlenOrd : length mzOrd = length mz) by apply argsort_length.
  assert (Hlen_ : length mz_ = length mz).
  { unfold mz_. rewrite length_fmap. rewrite (Permutation_length (ksort_perm _ _)).
    rewrite length_zip, length_seq. lia. }
  assert (Hrange : Forall (λ i, i < length mz) mzOrd).
  { rewrite Hperm. apply Forall_forall. intros i Hi. apply elem_of_seq in Hi. lia. }
  cbn [mbind result_bind].
  destruct (take_idx_Ok intensity mzOrd) as (int_ & -> & _).
  { by rewrite Hlen. }
  cbn [mbind result_bind].
  set (flags := map (λ d, if Qltb min_difference_ppm d then 1%Z else 0%Z) (diffsPPM mz_)).
  set (cs := 0%Z :: NpSort.cumsum flags).
  set (inv := NpSort.argsort Nat.leb mzOrd).
  assert (Hinv : inv ≡ₚ seq 0 (length mz)).
  { unfold inv. rewrite argsort_perm. by rewrite HlenOrd. }
  assert (Hcs_len : length mz ≤ length cs).
  { unfold cs, NpSort.cumsum. simpl. rewrite cumsum_from_length. unfold flags.
    rewrite length_map, diffsPPM_length. lia. }
  destruct (take_idx_Ok cs inv) as (r & Hr & Hrlen & Hrlk).
  { rewrite Hinv. apply Forall_forall. intros i Hi. apply elem_of_seq in Hi. lia. }
  exists r, cs. split; [done|].
  assert (Hinvlen : length inv = length mz).
  { by rewrite Hinv, length_seq. }
  split; [lia|]. split; [done|]. split; [done|]. split.
  - intros j c c' Hc Hc'.
    assert (is_Some (flags !! j)) as [x Hx].
    { apply lookup_lt_is_Some_2. pose proof (lookup_lt_Some _ _ _ Hc') as Hl.
      unfold cs, NpSort.cumsum in Hl. simpl in Hl. rewrite cumsum_from_length in Hl. lia. }
    pose proof (cumsum_from_step 0%Z flags j x c Hx Hc) as Hstep.
    unfold cs, NpSort.cumsum in Hc'. rewrite Hstep in Hc'. injection Hc' as <-.
    unfold flags in Hx. rewrite list_lookup_fmap in Hx.
    destruct (diffsPPM mz_ !! j) as [d|]; [|done]. simpl in Hx. injection Hx as <-.
    destruct (Qltb min_difference_ppm d); [right|left]; lia.
  - intros j x Hj. apply Hrlk. apply argsort_inverse; [|done]. by rewrite HlenOrd.
Qed.

(** The crude ids are exactly [0..k-1]. *)
Lemma crude_cluster_reindexed sample (mz intensity : list Q) min_difference_ppm :
  length intensity = length mz →
  ∃ clust,
    crude_cluster_mz_list sample mz intensity min_difference_ppm = Ok clust ∧
    length clust = length mz ∧
    reindexed_ids clust.
Proof.
  intros Hlen.
  destruct (crude_sorted_view sample mz intensity min_difference_ppm Hlen)
    as (clust & cs & Hrun & Hclen & Hcslen & H0 & Hstep & Hview).
  exists clust. split; [done|]. split; [done|].
  set (mzOrd := NpSort.argsort Qle_bool mz) in *.
  assert (Hperm : mzOrd ≡ₚ seq 0 (length mz)) by apply argsort_perm.
  assert (HlenOrd : length mzOrd = length mz) by apply argsort_length.
  assert (Hsurj : ∀ p, p < length mz → ∃ j, mzOrd !! j = Some p).
  { intros p Hp. apply list_elem_of_lookup. rewrite Hperm. apply elem_of_seq. lia. }
  assert (Helem : ∀ v, v ∈ clust ↔ ∃ j, j < length mz ∧ cs !! j = Some v).
  { intros v. split.
    - intros [p Hp]%list_elem_of_lookup.
      destruct (Hsurj p) as [j Hj].
      { rewrite <- Hclen. by eapply lookup_lt_Some. }
      exists j. split.
      + rewrite <- HlenOrd. by eapply lookup_lt_Some.
      + by rewrite <- (Hview j p Hj).
    - intros (j & Hj & Hv).
      destruct (lookup_lt_is_Some_2 mzOrd j) as [p Hp]; [lia|].
      apply (list_elem_of_lookup_2 _ p). by rewrite (Hview j p Hp). }
  destruct (length mz) as [|n] eqn:En.
  { exists 0. apply length_zero_iff_nil in Hclen. by rewrite Hclen. }
  destruct (lookup_lt_is_Some_2 cs n) as [top Htop]; [lia|].
  assert (0 ≤ top)%Z as Htop0.
  { eapply (steps_monotone cs Hstep n 0); [lia|exact H0|exact Htop]. }
  exists (S (Z.to_nat top)). apply sorted_lt_ext.
  - apply unique_sorted.
  - apply sorted_lt_of_nat_seq.
  - intros v. rewrite unique_elem, Helem. split.
    + intros (j & Hj & Hv). apply list_elem_of_fmap. exists (Z.to_nat v).
      assert (0 ≤ v)%Z.
      { eapply (steps_monotone cs Hstep j 0); [lia|exact H0|exact Hv]. }
      assert (v ≤ top)%Z.
      { eapply (steps_monotone cs Hstep n j); [lia|exact Hv|exact Htop]. }
      split; [lia|]. apply elem_of_seq. lia.
    + intros (r & -> & Hr%elem_of_seq)%list_elem_of_fmap.
      destruct (steps_dense cs H0 Hstep n top (Z.of_nat r) Htop) as (i & Hi & Hv); [lia|].
      exists i. split; [lia|done].
Qed.

(** X2.  The ids of the crude clustering are dense and ascend with the
    mass: they are exactly [0..k-1], and a signal of smaller mass never
    carries a larger id than a signal of larger mass. *)
Theorem crude_cluster_mz_list_dense_monotone sample (mz intensity : list Q)
    min_difference_ppm :
  length intensity = length mz →
  ∃ clust,
    crude_cluster_mz_list sample mz intensity min_difference_ppm = Ok clust ∧
    length clust = length mz ∧
    reindexed_ids clust ∧
    ∀ p q lo hi cp cq,
      mz !! p = Some lo → mz !! q = Some hi →
      clust !! p = Some cp → clust !! q = Some cq →
      (lo < hi)%Q → (cp ≤ cq)%Z.
Proof.
  intros Hlen.
  destruct (crude_sorted_view sample mz intensity min_difference_ppm Hlen)
    as (clust & cs & Hrun & Hclen & Hcslen & H0 & Hstep & Hview).
  exists clust. split; [done|]. split; [done|]. split.
  { destruct (crude_cluster_reindexed sample mz intensity min_difference_ppm Hlen)
      as (clust' & Hrun' & _ & Hre).
    rewrite Hrun in Hrun'. by injection Hrun' as <-. }
  set (mzOrd := NpSort.argsort Qle_bool mz) in *.
  assert (Hperm : mzOrd ≡ₚ seq 0 (length mz)) by apply argsort_perm.
  assert (Hsurj : ∀ p, p < length mz → ∃ j, mzOrd !! j = Some p).
  { intros p Hp. apply list_elem_of_lookup. rewrite Hperm. apply elem_of_seq. lia. }
  intros p q lo hi cp cq Hlo Hhi Hcp Hcq Hlt.
  destruct (Hsurj p) as [i Hi]; [by eapply lookup_lt_Some|].
  destruct (Hsurj q) as [j Hj]; [by eapply lookup_lt_Some|].
  rewrite (Hview i p Hi) in Hcp. rewrite (Hview j q Hj) in Hcq.
  assert (i ≤ j) as Hij.
  { destruct (decide (i ≤ j)) as [|Hgt]; [done|]. exfalso.
    set (mz_ := (NpSort.ksort Qle_bool (zip mz (seq 0 (length mz)))).*1).
    assert (mz_ !! i = Some lo) as Hmi.
    { unfold mz_. by rewrite (argsort_lookup Qle_bool mz i p Hi). }
    assert (mz_ !! j = Some hi) as Hmj.
    { unfold mz_. by rewrite (argsort_lookup Qle_bool mz j q Hj). }
    assert (StronglySorted Qle mz_) as Hss.
    { apply Sorted_StronglySorted; [intros x y z; apply Qle_trans|].
      apply Sorted_Qle_bool. apply (argsort_sorted Qle_bool Qle_bool_total). }
    pose proof (ssorted_lookup Qle mz_ j i hi lo Hss Hmj Hmi ltac:(lia)) as Hle.
    by apply Qle_not_lt in Hle. }
  by eapply (steps_monotone cs Hstep j i).
Qed.

Lemma crude_cluster_mz_list_dense_monotone_witness :
  ∃ clust,
    crude_cluster_mz_list "spot" [200; 100; 100.001]%Q [1; 1; 1]%Q 30%Q = Ok clust ∧
    reindexed_ids clust.
Proof.
  destruct (crude_cluster_mz_list_dense_monotone "spot" [200; 100; 100.001]%Q [1; 1; 1]%Q 30%Q)
    as (clust & Hrun & _ & Hre & _).
  - reflexivity.
  - exists clust. split; assumption.
Defined.

(** ** collapse_mz_info: ids outside the accumulators, the rule 'max' *)

Lemma add_at_cases (a : list Q) j v :
  match add_at a j v with
  | Ok a' => length a' = length a ∧ j < length a
  | Raise e => e = IndexError
  end.
Proof.
  unfold add_at. destruct (a !! j) eqn:E; [|done].
  split; [by rewrite length_insert|by eapply lookup_lt_Some].
Qed.

Lemma collapse_accumulate_cases (mz intensity : list Q) (cluster : list Z) st i :
  match collapse_accumulate mz intensity cluster st i with
  | Ok st' =>
      length st'.1 = length st.1 ∧
      ∀ j, cluster !! i = Some j → (0 ≤ j)%Z → Z.to_nat j < length st.1
  | Raise e => e = IndexError
  end.
Proof.
  destruct st as [mz_ intensity_]. unfold collapse_accumulate, at_index.
  destruct (cluster !! i) as [j|]; [|done]. cbn [mbind result_bind].
  destruct (Z.leb_spec 0 j) as [Hj|Hj]; [|split; [done|intros ? [= <-]; lia]].
  destruct (mz !! i) as [m|]; [|done]. cbn [mbind result_bind].
  destruct (intensity !! i) as [x|]; [|done]. cbn [mbind result_bind].
  pose proof (add_at_cases mz_ (Z.to_nat j) (m * x)%Q) as H1.
  destruct (add_at mz_ (Z.to_nat j) (m * x)%Q) as [mz_'|e]; [|done].
  cbn [mbind result_bind].
  pose proof (add_at_cases intensity_ (Z.to_nat j) x) as H2.
  destruct (add_at intensity_ (Z.to_nat j) x) as [intensity_'|e]; [|done].
  cbn [mbind result_bind]. simpl. split; [tauto|]. intros ? [= <-] _. tauto.
Qed.

Lemma collapse_loop_out_of_range (mz intensity : list Q) (cluster : list Z) i j :
  cluster !! i = Some j →
  ∀ inds st, i ∈ inds → (Z.of_nat (length st.1) ≤ j)%Z →
  for_each (collapse_accumulate mz intensity cluster) inds st = Raise IndexError.
Proof.
  intros Hj inds. induction inds as [|i' inds IH]; intros st Hin Hk.
  - by apply elem_of_nil in Hin.
  - simpl. pose proof (collapse_accumulate_cases mz intensity cluster st i') as Hc.
    destruct (collapse_accumulate mz intensity cluster st i') as [st'|e].
    + cbn [mbind result_bind]. destruct Hc as [Hlen Hin'].
      apply elem_of_cons in Hin as [->|Hin].
      * specialize (Hin' j Hj). lia.
      * apply IH; [done|]. by rewrite Hlen.
    + by subst e.
Qed.

(** X3.  [collapse_mz_info] indexes its accumulators by the cluster id:
    when a signal carries an id that is not below the number of
    distinct ids, the call raises [IndexError], whatever the rule. *)
Theorem collapse_mz_info_id_out_of_range (mz intensity : list Q) (cluster : list Z)
    (method : string) i j :
  i < length mz → cluster !! i = Some j →
  (Z.of_nat (length (Np.unique cluster)) ≤ j)%Z →
  collapse_mz_info mz intensity cluster method = Raise IndexError.
Proof.
  intros Hi Hj Hk. unfold collapse_mz_info.
  set (cn := if bool_decide ((-1)%Z ∈ Np.unique cluster)
             then (drop 1 (Np.unique cluster), drop 1 (Np.unique_counts cluster))
             else (Np.unique cluster, Np.unique_counts cluster)).
  assert (length cn.1 ≤ length (Np.unique cluster)) as Hle.
  { unfold cn. destruct (bool_decide _); simpl; [rewrite length_drop|]; lia. }
  destruct cn as [clusts ns]. simpl in Hle.
  rewrite (collapse_loop_out_of_range mz intensity cluster i j Hj); [done|..].
  - apply elem_of_seq. lia.
  - simpl. rewrite length_replicate. lia.
Qed.

Lemma collapse_mz_info_id_out_of_range_witness :
  collapse_mz_info [100; 200]%Q [1; 1]%Q [0; 2]%Z "sum" = Raise IndexError.
Proof.
  apply (collapse_mz_info_id_out_of_range [100; 200]%Q [1; 1]%Q [0; 2]%Z "sum" 1 2%Z).
  - simpl. lia.
  - reflexivity.
  - vm_compute. discriminate.
Defined.

(** ** blank_subtraction: the value of the counters *)

Section blank_subtraction_votes.
Variable ttest_ind : list xfloat → list xfloat → xfloat.
Variables (dat : matrix) (groups : list string) (blankGroup : string).
Variables (foldCutoff pvalueCutoff : Q) (minDetected : Z).
Hypothesis Hwf : blank_input_wf dat groups.

Let group_step := blank_subtraction_group ttest_ind dat groups foldCutoff pvalueCutoff minDetected.
Let feature_step := blank_subtraction_feature ttest_ind dat groups blankGroup
                      foldCutoff pvalueCutoff minDetected.
Let votes := group_votes ttest_ind foldCutoff pvalueCutoff minDetected.

Lemma group_values_Ok g featurei :
  featurei < shape1 dat →
  Mat.get_rows dat (group_inds groups g) featurei = Ok (group_values dat groups g featurei).
Proof.
  intros Hf. unfold group_values.
  pose proof (get_rows_cases dat (group_inds groups g) featurei) as Hrows.
  destruct (Mat.get_rows dat (group_inds groups g) featurei) as [v|e]; [done|].
  destruct Hrows as [_ Hrows]. exfalso. apply Hrows. destruct Hwf as [Hm Hlen].
  split; [done|]. split; [|done]. rewrite <- Hlen. apply group_inds_range.
Qed.

Lemma get_col_Ok featurei :
  featurei < shape1 dat → ∃ col, Mat.get_col dat featurei = Ok col ∧ length col = shape0 dat.
Proof.
  intros Hf. unfold Mat.get_col.
  pose proof (get_rows_cases dat (seq 0 (shape0 dat)) featurei) as Hcol.
  destruct (Mat.get_rows dat (seq 0 (shape0 dat)) featurei) as [col|e].
  - exists col. split; [done|]. by rewrite Hcol, length_seq.
  - destruct Hcol as [_ Hcol]. exfalso. apply Hcol. destruct Hwf as [Hm Hlen].
    split; [done|]. split; [|done].
    apply Forall_forall. intros i Hi. apply elem_of_seq in Hi. lia.
Qed.

Lemma group_step_exact featurei notInBlanks valsBlanks keeps g k :
  keeps !! featurei = Some k → featurei < shape1 dat →
  counter_moves notInBlanks 0 k →
  group_step featurei notInBlanks valsBlanks keeps g
  = Ok (<[featurei :=
           (k + vote_step notInBlanks
                  (votes notInBlanks valsBlanks (group_values dat groups g featurei)))%Z]> keeps).
Proof.
  intros Hk Hf Hsign. unfold group_step, blank_subtraction_group.
  rewrite (group_values_Ok g featurei Hf). cbn [mbind result_bind].
  set (valsGroup := group_values dat groups g featurei).
  unfold votes, group_votes, vote_step.
  pose proof (lookup_lt_Some _ _ _ Hk) as Hlt.
  destruct (Z.of_nat (XFloat.count_not_nan valsGroup) <? minDetected)%Z; simpl.
  { rewrite Z.add_0_r. by rewrite list_insert_id. }
  unfold keeps_get, keeps_set. rewrite Hk.
  destruct notInBlanks; cbn [mbind result_bind orb]; unfold counter_moves in *.
  - destruct (Z.leb_spec k 0); [|lia]. cbn [assert mbind result_bind].
    rewrite decide_True by done. f_equal.
  - destruct (Z.leb_spec 0 k); [|lia]. cbn [assert mbind result_bind].
    match goal with |- context [if ?b then _ else _] => destruct b end.
    + rewrite decide_True by done. done.
    + rewrite Z.add_0_r. by rewrite list_insert_id.
Qed.

Lemma group_loop_exact featurei notInBlanks valsBlanks gs :
  featurei < shape1 dat →
  ∀ keeps k, keeps !! featurei = Some k → counter_moves notInBlanks 0 k →
  for_each (group_step featurei notInBlanks valsBlanks) gs keeps
  = Ok (<[featurei :=
           (k + (if notInBlanks then -1 else 1) *
                Z.of_nat (length (List.filter
                  (λ g, votes notInBlanks valsBlanks (group_values dat groups g featurei))
                  gs)))%Z]> keeps).
Proof.
  intros Hf. induction gs as [|g gs IH]; intros keeps k Hk Hsign; cbn [for_each].
  - simpl. rewrite Z.mul_0_r, Z.add_0_r. by rewrite list_insert_id.
  - rewrite (group_step_exact featurei notInBlanks valsBlanks keeps g k Hk Hf Hsign).
    cbn [mbind result_bind].
    pose proof (lookup_lt_Some _ _ _ Hk) as Hlt.
    set (b := votes notInBlanks valsBlanks (group_values dat groups g featurei)).
    rewrite (IH _ (k + vote_step notInBlanks b)%Z).
    + rewrite list_insert_insert_eq. f_equal. f_equal. cbn [List.filter]. fold b.
      unfold vote_step. destruct b, notInBlanks; simpl length; lia.
    + by apply list_lookup_insert_eq.
    + unfold counter_moves, vote_step in *. destruct b, notInBlanks; lia.
Qed.

Lemma column_values_Ok featurei :
  featurei < shape1 dat → Mat.get_col dat featurei = Ok (column_values dat featurei).
Proof.
  intros Hf. unfold column_values.
  destruct (get_col_Ok featurei Hf) as (col & Hcol & _). by rewrite Hcol.
Qed.

Lemma feature_step_exact gs keeps featurei :
  keeps !! featurei = Some 0%Z → featurei < shape1 dat →
  feature_step gs keeps featurei
  = Ok (<[featurei := feature_votes ttest_ind dat groups blankGroup
                        foldCutoff pvalueCutoff minDetected gs featurei]> keeps).
Proof.
  intros Hk Hf. unfold feature_step, blank_subtraction_feature, feature_votes.
  rewrite (group_values_Ok blankGroup featurei Hf). cbn [mbind result_bind].
  rewrite (column_values_Ok featurei Hf). cbn [mbind result_bind].
  destruct (_ <? minDetected)%Z; [by rewrite list_insert_id|].
  fold group_step.
  rewrite (group_loop_exact featurei _ _ gs Hf keeps 0%Z Hk).
  2: { unfold counter_moves. by destruct (forallb _ _). }
  f_equal. f_equal. fold votes. destruct (forallb _ _); lia.
Qed.

Lemma feature_loop_exact gs n :
  ∀ j keeps, j + n = shape1 dat →
  (∀ i, j ≤ i → i < shape1 dat → keeps !! i = Some 0%Z) →
  ∃ keeps', for_each (feature_step gs) (seq j n) keeps = Ok keeps' ∧
    length keeps' = length keeps ∧
    (∀ i, i < j → keeps' !! i = keeps !! i) ∧
    (∀ i, j ≤ i → i < shape1 dat →
       keeps' !! i = Some (feature_votes ttest_ind dat groups blankGroup
                             foldCutoff pvalueCutoff minDetected gs i)).
Proof.
  induction n as [|n IH]; intros j keeps Hj Hzero; cbn [seq for_each].
  - exists keeps. split; [done|]. split; [done|]. split; [done|]. intros i ? ?. lia.
  - rewrite (feature_step_exact gs keeps j (Hzero j ltac:(lia) ltac:(lia)) ltac:(lia)).
    cbn [mbind result_bind].
    pose proof (lookup_lt_Some _ _ _ (Hzero j ltac:(lia) ltac:(lia))) as Hlt.
    destruct (IH (S j) (<[j := feature_votes ttest_ind dat groups blankGroup
                               foldCutoff pvalueCutoff minDetected gs j]> keeps))
      as (keeps' & -> & Hlen & Hlow & Hhigh); [lia|..].
    { intros i ? ?. rewrite list_lookup_insert_ne by lia. apply Hzero; lia. }
    exists keeps'. split; [done|]. split; [by rewrite Hlen, length_insert|]. split.
    + intros i Hi. rewrite Hlow by lia. apply list_lookup_insert_ne. lia.
    + intros i Hi1 Hi2. destruct (decide (i = j)) as [->|Hne].
      * rewrite Hlow by lia. by apply list_lookup_insert_eq.
      * apply Hhigh; lia.
Qed.

Lemma blank_subtraction_keeps_exact gs :
  ∃ keeps, blank_subtraction_keeps ttest_ind dat groups blankGroup
             foldCutoff pvalueCutoff minDetected gs = Ok keeps ∧
    length keeps = shape1 dat ∧
    ∀ i, i < shape1 dat →
      keeps !! i = Some (feature_votes ttest_ind dat groups blankGroup
                           foldCutoff pvalueCutoff minDetected gs i).
Proof.
  unfold blank_subtraction_keeps. fold feature_step.
  destruct (feature_loop_exact gs (shape1 dat) 0 (replicate (shape1 dat) 0%Z))
    as (keeps & Hrun & Hlen & _ & Hhigh); [done|..].
  { intros i _ Hi. by apply lookup_replicate_2. }
  exists keeps. split; [done|]. split; [by rewrite Hlen, length_replicate|].
  intros i Hi. apply Hhigh; lia.
Qed.

End blank_subtraction_votes.

Lemma filter_nonempty_exists {A} (f : A → bool) (l : list A) :
  0 < length (List.filter f l) ↔ ∃ x, x ∈ l ∧ f x = true.
Proof.
  split.
  - destruct (List.filter f l) as [|x l'] eqn:E; simpl; [lia|]. intros _.
    assert (In x (List.filter f l)) as Hin by (rewrite E; by left).
    apply filter_In in Hin as [Hin Hf]. exists x. split; [by apply list_elem_of_In|done].
  - intros (x & Hin & Hf).
    assert (In x (List.filter f l)) as Hin'.
    { apply filter_In. split; [by apply list_elem_of_In|done]. }
    destruct (List.filter f l); [done|]. simpl. lia.
Qed.

(** X5.  The decision of [blank_subtraction], feature by feature: the
    counter is [0] when the feature has fewer than [minDetected]
    detections; otherwise its size is the number of tested groups that
    vote for the feature, counted downwards when the feature is missing
    in the blanks and upwards when not.  A feature is kept iff it has
    [minDetected] detections and some tested group votes for it. *)
Theorem blank_subtraction_decision ttest_ind dat groups blankGroup
    foldCutoff pvalueCutoff minDetected toTestGroups :
  blank_input_wf dat groups →
  ∃ keeps mask,
    blank_subtraction_keeps ttest_ind dat groups blankGroup
      foldCutoff pvalueCutoff minDetected toTestGroups = Ok keeps ∧
    blank_subtraction ttest_ind dat groups blankGroup
      foldCutoff pvalueCutoff minDetected toTestGroups = Ok mask ∧
    ∀ j, j < shape1 dat →
      keeps !! j = Some (feature_votes ttest_ind dat groups blankGroup
                           foldCutoff pvalueCutoff minDetected toTestGroups j) ∧
      let valsBlanks := group_values dat groups blankGroup j in
      (mask !! j = Some true ↔
       (minDetected ≤ Z.of_nat (XFloat.count_not_nan (column_values dat j)))%Z ∧
       ∃ g, g ∈ toTestGroups ∧
            group_votes ttest_ind foldCutoff pvalueCutoff minDetected
              (forallb XFloat.isnan valsBlanks) (XFloat.drop_nan valsBlanks)
              (group_values dat groups g j) = true).
Proof.
  intros Hwf.
  destruct (blank_subtraction_keeps_exact ttest_ind dat groups blankGroup
              foldCutoff pvalueCutoff minDetected Hwf toTestGroups)
    as (keeps & Hrun & Hlen & Hval).
  exists keeps, (map (λ k, negb (k =? 0)%Z) keeps).
  split; [done|]. split; [unfold blank_subtraction; by rewrite Hrun|].
  intros j Hj. split; [by apply Hval|]. intros valsBlanks.
  change (map ?f ?l) with (f <$> l). rewrite list_lookup_fmap, (Hval j Hj). simpl.
  rewrite <- filter_nonempty_exists.
  unfold feature_votes. fold valsBlanks.
  destruct (Z.ltb_spec (Z.of_nat (XFloat.count_not_nan (column_values dat j))) minDetected).
  - simpl. split; [done|]. lia.
  - set (n := length _).
    destruct (forallb XFloat.isnan valsBlanks).
    + destruct (Z.eqb_spec (- Z.of_nat n) 0); simpl;
        (split; [intros ?; try done; split; lia | intros [? ?]; try done; lia]).
    + destruct (Z.eqb_spec (Z.of_nat n) 0); simpl;
        (split; [intros ?; try done; split; lia | intros [? ?]; try done; lia]).
Qed.

Lemma blank_subtraction_decision_witness :
  ∃ keeps mask,
    blank_subtraction_keeps example_ttest example_dat example_groups "blank"
      2 0.05 2 ["test"%string] = Ok keeps ∧
    blank_subtraction example_ttest example_dat example_groups "blank"
      2 0.05 2 ["test"%string] = Ok mask ∧
    keeps !! 1 = Some 1%Z.
Proof.
  destruct (blank_subtraction_decision example_ttest example_dat example_groups "blank"
              2 0.05 2 ["test"%string]) as (keeps & mask & Hk & Hm & H).
  - split; [split; [reflexivity|]|reflexivity].
    repeat (apply Forall_cons_2; [reflexivity|]). constructor.
  - exists keeps, mask. split; [exact Hk|]. split; [exact Hm|].
    destruct (H 1) as [H1 _]; [simpl; lia|]. exact H1.
Defined.

(** X6.  A feature without any value in the blank samples (all of them
    missing, or no sample of the blank group at all) is kept iff it has
    [minDetected] detections over all samples and [minDetected]
    detections in one of the tested groups: the t-test and the fold
    change are not consulted. *)
Theorem blank_subtraction_not_in_blanks ttest_ind dat groups blankGroup
    foldCutoff pvalueCutoff minDetected toTestGroups j :
  blank_input_wf dat groups → j < shape1 dat →
  forallb XFloat.isnan (group_values dat groups blankGroup j) = true →
  ∃ mask,
    blank_subtraction ttest_ind dat groups blankGroup
      foldCutoff pvalueCutoff minDetected toTestGroups = Ok mask ∧
    (mask !! j = Some true ↔
     (minDetected ≤ Z.of_nat (XFloat.count_not_nan (column_values dat j)))%Z ∧
     ∃ g, g ∈ toTestGroups ∧
       (minDetected ≤ Z.of_nat (XFloat.count_not_nan (group_values dat groups g j)))%Z).
Proof.
  intros Hwf Hj Hblank.
  destruct (blank_subtraction_keeps_exact ttest_ind dat groups blankGroup
              foldCutoff pvalueCutoff minDetected Hwf toTestGroups)
    as (keeps & Hrun & Hlen & Hval).
  exists (map (λ k, negb (k =? 0)%Z) keeps).
  split; [unfold blank_subtraction; by rewrite Hrun|].
  change (map ?f ?l) with (f <$> l). rewrite list_lookup_fmap, (Hval j Hj). simpl.
  unfold feature_votes. rewrite Hblank.
  destruct (Z.ltb_spec (Z.of_nat (XFloat.count_not_nan (column_values dat j))) minDetected).
  { simpl. split; [done|]. lia. }
  set (f := λ g, group_votes _ _ _ _ _ _ _).
  assert (∀ g, f g = true ↔
            (minDetected ≤ Z.of_nat (XFloat.count_not_nan (group_values dat groups g j)))%Z)
    as Hf.
  { intros g. unfold f, group_votes. rewrite orb_true_l, andb_true_r.
    destruct (Z.ltb_spec (Z.of_nat (XFloat.count_not_nan (group_values dat groups g j)))
                minDetected); simpl; split; try done; lia. }
  pose proof (filter_nonempty_exists f toTestGroups) as Hex.
  set (n := length (List.filter f toTestGroups)) in *.
  destruct (Z.eqb_spec (- Z.of_nat n) 0); simpl; split; try done.
  - intros [_ (g & Hg & Hd)]. assert (0 < n); [|lia].
    apply Hex. exists g. split; [done|]. by apply Hf.
  - intros _. split; [lia|]. destruct Hex as [(g & Hg & Hfg) _]; [lia|].
    exists g. split; [done|]. by apply Hf.
Qed.

Lemma blank_subtraction_not_in_blanks_witness :
  ∃ mask,
    blank_subtraction example_ttest example_dat example_groups "blank"
      2 0.05 2 ["test"%string] = Ok mask ∧
    (mask !! 0 = Some true ↔
     (2 ≤ Z.of_nat (XFloat.count_not_nan (column_values example_dat 0)))%Z ∧
     ∃ g, g ∈ ["test"%string] ∧
       (2 ≤ Z.of_nat (XFloat.count_not_nan (group_values example_dat example_groups g 0)))%Z).
Proof.
  apply (blank_subtraction_not_in_blanks example_ttest example_dat example_groups "blank"
           2 0.05 2 ["test"%string] 0).
  - split; [split; [reflexivity|]|reflexivity].
    repeat (apply Forall_cons_2; [reflexivity|]). constructor.
  - simpl. lia.
  - reflexivity.
Defined.

(** ** bracket_samples: the rounds on a pool of intensities above 1 *)

Lemma Qsum_bounds (l : list Q) lo hi :
  Forall (λ x, lo <= x ∧ x <= hi)%Q l →
  (inject_Z (Z.of_nat (length l)) * lo <= Qsum l ∧
   Qsum l <= inject_Z (Z.of_nat (length l)) * hi)%Q.
Proof.
  induction l as [|x l IH] using rev_ind; intros Hall.
  - unfold Qsum. simpl. change (inject_Z (Z.of_nat 0)) with 0%Q. lra.
  - apply Forall_app in Hall as [Hl Hx]. apply Forall_inv in Hx.
    specialize (IH Hl). rewrite Qsum_snoc, length_app. simpl.
    replace (Z.of_nat (length l + 1)) with (Z.of_nat (length l) + 1)%Z by lia.
    rewrite inject_Z_plus. change (inject_Z 1) with 1%Q. lra.
Qed.

Lemma mean_bounds (l : list Q) :
  l ≠ [] → (NpRed.min l <= NpRed.mean l ∧ NpRed.mean l <= NpRed.max l)%Q.
Proof.
  intros Hne.
  assert (Forall (λ x, NpRed.min l <= x ∧ x <= NpRed.max l)%Q l) as Hall.
  { apply Forall_forall. intros x Hx. split.
    - pose proof (min_lower l) as H. eapply Forall_forall in H; [exact H|done].
    - pose proof (max_upper l) as H. eapply Forall_forall in H; [exact H|done]. }
  destruct (Qsum_bounds l _ _ Hall) as [Hlo Hhi].
  assert (0 < inject_Z (Z.of_nat (length l)))%Q as Hn.
  { change 0%Q with (inject_Z 0). rewrite <- Zlt_Qlt. destruct l; [done|simpl; lia]. }
  unfold NpRed.mean. split.
  - apply Qle_shift_div_l; [done|]. lra.
  - apply Qle_shift_div_r; [done|]. lra.
Qed.

Lemma sel_lookup_elem {A} (mask : list bool) (xs : list A) i x :
  mask !! i = Some true → xs !! i = Some x → x ∈ Np.sel mask xs.
Proof.
  revert xs i. induction mask as [|b mask IH]; intros [|y xs] [|i] Hm Hx; simpl in *;
    try done.
  - injection Hm as ->. injection Hx as ->. apply elem_of_cons. by left.
  - destruct b; [apply elem_of_cons; right|]; by eapply IH.
Qed.

Section bracket_rounds.

Variables (p : pool) (max_ppm_deviation : Q).
Hypothesis Hlen : length (pool_mz p) = length (pool_intensity p).
Hypothesis Hint : Forall (λ x, 0 < x)%Q (pool_intensity p).
Hypothesis Hmz : Forall (λ m, 0 < m)%Q (pool_mz p).
Hypothesis Hmax : (0 <= max_ppm_deviation)%Q.

(** The bracket a round records. *)
Lemma bracket_round_info st :
  length (bs_cluster st) = length (pool_intensity p) →
  0 < Np.count 0 (bs_cluster st) → (0 < bs_cclust st)%Z →
  ∃ st' m info,
    bracket_round p max_ppm_deviation st = Ok st' ∧
    pool_mz p !! bracket_seed p (bs_cluster st) = Some m ∧
    bs_cluster st' !! bracket_seed p (bs_cluster st) = Some (bs_cclust st) ∧
    length (bs_cluster st') = length (pool_intensity p) ∧
    bs_cclust st' = (bs_cclust st + 1)%Z ∧
    Np.count 0 (bs_cluster st') < Np.count 0 (bs_cluster st) ∧
    bs_info st' = bs_info st ++ [info] ∧
    info_cluster info = bs_cclust st ∧
    info_ok info ∧
    (info_minMZ info <= m)%Q ∧ (m <= info_maxMZ info)%Q.
Proof.
  intros Hcl Hcount Hcc.
  destruct (bracket_round_spec p max_ppm_deviation Hlen Hint Hmz Hmax st Hcl Hcount Hcc)
    as (st' & Hrun & Hcluster & Hlen' & Hcc' & Hdec).
  destruct (bracket_seed_spec p Hint (bs_cluster st) Hcl Hcount) as (x & Hseed & Hx & _).
  set (c := bracket_seed p (bs_cluster st)) in *.
  destruct (lookup_lt_is_Some_2 (pool_mz p) c) as [m Hm].
  { rewrite Hlen. by eapply lookup_lt_Some. }
  rewrite (list_lookup_total_correct _ _ _ Hm) in Hcluster.
  pose proof (bracket_assign_seed p max_ppm_deviation Hmz Hmax c m Hm) as Hassign.
  set (assign := bracket_assign p m max_ppm_deviation) in *.
  pose proof (sel_lookup_nonempty assign (pool_mz p) c m Hassign Hm) as Hne.
  pose proof Hrun as Hrun0.
  unfold bracket_round in Hrun. fold c in Hrun.
  rewrite (list_lookup_total_correct _ _ _ Hm) in Hrun. fold assign in Hrun.
  pose proof (sel_lookup_elem assign (pool_mz p) c m Hassign Hm) as Hin.
  destruct (Np.sel assign (pool_mz p)) as [|m0 ms] eqn:Esel; [done|].
  injection Hrun as <-. eexists _, m, _. split; [exact Hrun0|]. split; [done|].
  cbn [bs_cluster bs_cclust bs_info] in *.
  split.
  { rewrite (set_mask_lookup assign _ _ c true 0%Z); [done|done|done]. }
  split; [done|]. split; [done|]. split; [done|].
  split; [done|]. split; [done|]. split.
  - unfold info_ok. cbn [info_assignedSamples info_minMZ info_meanMZ info_maxMZ]. split.
    + apply count_true_pos. by exists c.
    + exact (mean_bounds (m0 :: ms) Hne).
  - cbn [info_minMZ info_maxMZ]. split.
    + pose proof (min_lower (m0 :: ms)) as H.
      eapply Forall_forall in H; [exact H|done].
    + pose proof (max_upper (m0 :: ms)) as H.
      eapply Forall_forall in H; [exact H|done].
Qed.

Lemma bracket_loop_info fuel : ∀ st,
  length (bs_cluster st) = length (pool_intensity p) → (0 < bs_cclust st)%Z →
  Np.count 0 (bs_cluster st) < fuel →
  Forall info_ok (bs_info st) →
  ∃ st', bracket_loop fuel p max_ppm_deviation st = Some (Ok st') ∧
    Np.count 0 (bs_cluster st') = 0 ∧
    length (bs_cluster st') = length (pool_intensity p) ∧
    Forall info_ok (bs_info st') ∧
    length (bs_info st) ≤ length (bs_info st') ∧
    length (bs_info st') ≤ length (bs_info st) + Np.count 0 (bs_cluster st) ∧
    (0 < Np.count 0 (bs_cluster st) → length (bs_info st) < length (bs_info st')).
Proof.
  induction fuel as [|fuel IH]; intros st Hcl Hcc Hfuel Hok; [lia|].
  cbn [bracket_loop].
  destruct (Nat.ltb_spec 0 (Np.count 0 (bs_cluster st))) as [Hpos|Hzero].
  - destruct (bracket_round_info st Hcl Hpos Hcc)
      as (st1 & m & info & -> & _ & _ & Hcl1 & Hcc1 & Hdec & Hinfo & _ & Hok1 & _).
    destruct (IH st1) as (st' & Hrun & Hz & Hl & Hok' & Hge & Hle & _).
    + done.
    + lia.
    + lia.
    + rewrite Hinfo. apply Forall_app. split; [done|]. by apply Forall_singleton.
    + exists st'. split; [done|]. split; [done|]. split; [done|]. split; [done|].
      rewrite Hinfo, length_app in Hge, Hle. simpl in Hge, Hle.
      split; [lia|]. split; [lia|]. intros _. lia.
  - exists st. split; [done|]. split; [lia|]. split; [done|]. split; [done|].
    split; [lia|]. split; [lia|]. intros ?. lia.
Qed.

End bracket_rounds.

(** X7.  On a pool whose intensities are all above 1 (positive after
    [np.log10]) and whose masses are positive, a round of the
    bracketing loop takes as seed the strongest unassigned signal, the
    first one among equals, assigns it to the new bracket, and records
    a bracket that holds the seed's mass between its smallest and its
    largest mass; the number of unassigned signals decreases. *)
Theorem bracket_round_takes_strongest_unassigned (p : pool) (max_ppm_deviation : Q) st :
  length (pool_mz p) = length (pool_intensity p) →
  Forall (λ x, 0 < x)%Q (pool_intensity p) →
  Forall (λ m, 0 < m)%Q (pool_mz p) →
  (0 <= max_ppm_deviation)%Q →
  length (bs_cluster st) = length (pool_intensity p) →
  0 < Np.count 0 (bs_cluster st) → (0 < bs_cclust st)%Z →
  let c := bracket_seed p (bs_cluster st) in
  ∃ st' x m info,
    bracket_round p max_ppm_deviation st = Ok st' ∧
    bs_cluster st !! c = Some 0%Z ∧
    pool_intensity p !! c = Some x ∧
    (∀ j y, bs_cluster st !! j = Some 0%Z → pool_intensity p !! j = Some y →
            (y <= x)%Q ∧ (j < c → (y < x)%Q)) ∧
    pool_mz p !! c = Some m ∧
    bs_cluster st' !! c = Some (bs_cclust st) ∧
    Np.count 0 (bs_cluster st') < Np.count 0 (bs_cluster st) ∧
    bs_info st' = bs_info st ++ [info] ∧
    info_cluster info = bs_cclust st ∧
    (info_minMZ info <= m)%Q ∧ (m <= info_maxMZ info)%Q.
Proof.
  intros Hlen Hint Hmz Hmax Hcl Hcount Hcc c.
  destruct (bracket_seed_spec p Hint (bs_cluster st) Hcl Hcount) as (x & Hseed & Hx & Hbest).
  destruct (bracket_round_info p max_ppm_deviation Hlen Hint Hmz Hmax st Hcl Hcount Hcc)
    as (st' & m & info & Hrun & Hm & Hc' & _ & _ & Hdec & Hinfo & Hid & _ & Hlo & Hhi).
  exists st', x, m, info. repeat (split; [done|]). done.
Qed.

Lemma bracket_round_takes_strongest_unassigned_witness :
  ∃ st' x m info,
    bracket_round chain_pool 25 (bracket_init chain_pool) = Ok st' ∧
    pool_intensity chain_pool !! bracket_seed chain_pool (bs_cluster (bracket_init chain_pool))
    = Some x ∧
    pool_mz chain_pool !! bracket_seed chain_pool (bs_cluster (bracket_init chain_pool))
    = Some m ∧
    bs_info st' = [info] ∧
    (info_minMZ info <= m)%Q.
Proof.
  destruct (bracket_round_takes_strongest_unassigned chain_pool 25 (bracket_init chain_pool))
    as (st' & x & m & info & Hrun & _ & Hx & _ & Hm & _ & _ & Hinfo & _ & Hlo & _).
  - reflexivity.
  - repeat (apply Forall_cons_2; [reflexivity|]). constructor.
  - repeat (apply Forall_cons_2; [reflexivity|]). constructor.
  - discriminate.
  - reflexivity.
  - vm_compute. lia.
  - reflexivity.
  - exists st', x, m, info. repeat (split; [assumption|]). assumption.
Defined.



(** ** remove_blank_groups *)

Lemma take_idx_app {A} (a : list A) (i1 i2 : list nat) :
  NpSort.take_idx a (i1 ++ i2)
  = (r1 ← NpSort.take_idx a i1; r2 ← NpSort.take_idx a i2; Ok (r1 ++ r2)).
Proof.
  induction i1 as [|i i1 IH]; simpl.
  - by destruct (NpSort.take_idx a i2).
  - destruct (a !! i); [|done]. rewrite IH.
    destruct (NpSort.take_idx a i1); [|done]. simpl.
    by destruct (NpSort.take_idx a i2).
Qed.

Lemma take_idx_weaken {A} (a : list A) (x : A) (idx : list nat) r :
  NpSort.take_idx a idx = Ok r → NpSort.take_idx (a ++ [x]) idx = Ok r.
Proof.
  revert r. induction idx as [|i idx IH]; intros r; simpl; [done|].
  destruct (a !! i) as [y|] eqn:E; [|done].
  rewrite (lookup_app_l_Some _ _ _ _ E).
  destruct (NpSort.take_idx a idx) as [r'|]; [|done]. simpl. intros [= <-].
  by rewrite (IH r').
Qed.

(** Indexing by the positions a predicate selects is boolean indexing. *)
Lemma take_idx_filter {A} (xs : list A) (gs : list string) (f : string → bool) :
  length xs = length gs →
  NpSort.take_idx xs (List.filter (λ p : nat * string, f p.2) (enumerate gs)).*1
  = Ok (Np.sel (map f gs) xs).
Proof.
  revert xs. induction gs as [|g gs IH] using rev_ind; intros xs Hlen.
  - by destruct xs.
  - destruct xs as [|x xs _] using rev_ind.
    { rewrite length_app in Hlen. simpl in Hlen. lia. }
    rewrite !length_app in Hlen. simpl in Hlen.
    assert (length xs = length gs) as Hl by lia.
    unfold enumerate. rewrite length_app. simpl.
    rewrite seq_app, zip_with_app by (by rewrite length_seq).
    rewrite List.filter_app, fmap_app, take_idx_app. simpl.
    change (zip_with pair (seq 0 (length gs)) gs) with (enumerate gs).
    rewrite (take_idx_weaken xs x _ _ (IH xs Hl)). cbn [mbind result_bind].
    rewrite map_app. simpl. rewrite sel_snoc by (by rewrite length_map).
    destruct (f g); simpl.
    + rewrite <- Hl. by rewrite lookup_app_r, Nat.sub_diag.
    + by rewrite app_nil_r.
Qed.

Lemma sel_all_true {A} (mask : list bool) (xs : list A) :
  length mask = length xs → Forall (λ b, b = true) mask → Np.sel mask xs = xs.
Proof.
  revert xs. induction mask as [|b mask IH]; intros [|x xs] Hlen Hall; simpl in *; try done.
  inversion Hall; subst. f_equal. apply IH; [lia|done].
Qed.

Lemma sel_sel {A} (m1 : list bool) (gs : list string) (f : string → bool) (xs : list A) :
  length m1 = length gs → length gs = length xs →
  Np.sel (map f (Np.sel m1 gs)) (Np.sel m1 xs)
  = Np.sel (zip_with andb m1 (map f gs)) xs.
Proof.
  revert gs xs. induction m1 as [|b m1 IH]; intros [|g gs] [|x xs] H1 H2; simpl in *;
    try done.
  destruct b; simpl.
  - destruct (f g); [f_equal|]; apply IH; lia.
  - apply IH; lia.
Qed.

Lemma kept_rows_cons b bs (groups : list string) :
  zip_with andb (map (λ g, negb (String.eqb g b)) groups) (kept_rows bs groups)
  = kept_rows (b :: bs) groups.
Proof.
  unfold kept_rows. induction groups as [|g groups IH]; simpl; [done|].
  rewrite IH. f_equal.
  destruct (String.eqb_spec g b) as [->|Hne]; simpl.
  - rewrite bool_decide_eq_true_2; [done|]. by left.
  - destruct (decide (g ∈ bs)) as [Hin|Hnin].
    + rewrite !bool_decide_eq_true_2; [done| |done]. by right.
    + rewrite !bool_decide_eq_false_2; [done| |done].
      intros [?|?]%elem_of_cons; done.
Qed.

Section remove_blank_groups_facts.
Context {B : Type}.

(** The tables are aligned: one sample name, one group, one batch and
    one row of the matrix per sample. *)
Let aligned (t : sample_table B) : Prop :=
  length (tb_samples t) = length (tb_groups t) ∧
  length (tb_batches t) = length (tb_groups t) ∧
  shape0 (tb_dat t) = length (tb_groups t) ∧
  matrix_wf (tb_dat t).

Lemma remove_blank_group_spec (t : sample_table B) (b : string) :
  aligned t →
  let keep := map (λ g, negb (String.eqb g b)) (tb_groups t) in
  ∃ t', remove_blank_group t b = Ok t' ∧ aligned t' ∧
    tb_samples t' = Np.sel keep (tb_samples t) ∧
    tb_groups t' = Np.sel keep (tb_groups t) ∧
    tb_batches t' = Np.sel keep (tb_batches t) ∧
    rows (tb_dat t') = Np.sel keep (rows (tb_dat t)) ∧
    shape1 (tb_dat t') = shape1 (tb_dat t) ∧
    tb_warned t' = tb_warned t ++ (if bool_decide (b ∈ tb_groups t) then [] else [b]).
Proof.
  intros (Hs & Hb & Hd & Hwf & Hrows) keep. unfold remove_blank_group.
  assert (length keep = length (tb_groups t)) as Hk by apply length_map.
  destruct (bool_decide (b ∈ tb_groups t)) eqn:Ein.
  - unfold take_rows.
    rewrite (take_idx_filter (rows (tb_dat t)) (tb_groups t) (λ g, negb (String.eqb g b)))
      by lia.
    cbn [mbind result_bind].
    rewrite (take_idx_filter (tb_samples t) (tb_groups t) (λ g, negb (String.eqb g b))) by lia.
    cbn [mbind result_bind].
    rewrite (take_idx_filter (tb_groups t) (tb_groups t) (λ g, negb (String.eqb g b))) by lia.
    cbn [mbind result_bind].
    rewrite (take_idx_filter (tb_batches t) (tb_groups t) (λ g, negb (String.eqb g b))) by lia.
    cbn [mbind result_bind]. fold keep.
    eexists. split; [done|]. simpl. rewrite app_nil_r.
    assert (length (List.filter (λ p : nat * string, negb (String.eqb p.2 b))
                      (enumerate (tb_groups t))).*1 = Np.count_true keep) as Hcount.
    { pose proof (take_idx_Ok (tb_groups t)
        (List.filter (λ p : nat * string, negb (String.eqb p.2 b)) (enumerate (tb_groups t))).*1)
        as (r & Hr & Hlr & _).
      - apply Forall_forall. intros i Hi.
        apply list_elem_of_fmap in Hi as ([i' s] & -> & Hin).
        apply list_elem_of_In, filter_In in Hin as [Hin _].
        apply list_elem_of_In, elem_of_enumerate in Hin. simpl. by eapply lookup_lt_Some.
      - rewrite (take_idx_filter (tb_groups t) (tb_groups t) (λ g, negb (String.eqb g b)))
          in Hr by lia.
        injection Hr as <-. rewrite <- Hlr. fold keep. apply sel_length. lia. }
    split; [|done]. unfold aligned. simpl.
    rewrite !sel_length by lia. split; [done|]. split; [done|]. split; [done|].
    split.
    + simpl. rewrite sel_length by lia. done.
    + simpl. apply Forall_forall. intros row Hrow. apply sel_subseteq in Hrow.
      eapply Forall_forall in Hrows; [exact Hrows|done].
  - apply bool_decide_eq_false in Ein.
    assert (Forall (λ x, x = true) keep) as Hall.
    { apply Forall_forall. intros x Hx. apply list_elem_of_fmap in Hx as (g & -> & Hg).
      destruct (String.eqb_spec g b) as [->|]; [done|done]. }
    eexists. split; [done|]. simpl.
    rewrite !sel_all_true by (done || lia). done.
Qed.

Lemma remove_blank_groups_loop (bs : list string) : ∀ t : sample_table B,
  aligned t →
  let keep := kept_rows bs (tb_groups t) in
  ∃ t', for_each remove_blank_group bs t = Ok t' ∧ aligned t' ∧
    tb_samples t' = Np.sel keep (tb_samples t) ∧
    tb_groups t' = Np.sel keep (tb_groups t) ∧
    tb_batches t' = Np.sel keep (tb_batches t) ∧
    rows (tb_dat t') = Np.sel keep (rows (tb_dat t)) ∧
    shape1 (tb_dat t') = shape1 (tb_dat t) ∧
    (∀ b, b ∈ tb_warned t' → b ∈ tb_warned t ∨ b ∈ bs).
Proof.
  induction bs as [|b bs IH]; intros t Hal keep; cbn [for_each].
  - exists t. split; [done|]. split; [done|].
    assert (Forall (λ x, x = true) keep) as Hall.
    { apply Forall_forall. intros x Hx. apply list_elem_of_fmap in Hx as (g & -> & Hg).
      rewrite bool_decide_eq_false_2; [done|]. apply not_elem_of_nil. }
    assert (length keep = length (tb_groups t)) as Hk by apply length_map.
    destruct Hal as (Hs & Hb & Hd & Hwf & Hrows).
    rewrite !sel_all_true by (done || lia). repeat (split; [done|]). by left.
  - destruct (remove_blank_group_spec t b Hal)
      as (t1 & -> & Hal1 & Hs1 & Hg1 & Hb1 & Hr1 & Hc1 & Hw1).
    cbn [mbind result_bind].
    destruct (IH t1 Hal1) as (t' & Hrun & Hal' & Hs' & Hg' & Hb' & Hr' & Hc' & Hw').
    exists t'. split; [done|]. split; [done|].
    destruct Hal as (Hs & Hb & Hd & Hwf & Hrows).
    unfold keep. rewrite <- kept_rows_cons.
    rewrite Hs', Hg', Hb', Hr', Hc', Hs1, Hg1, Hb1, Hr1, Hc1.
    unfold kept_rows.
    rewrite !(sel_sel _ (tb_groups t)) by (rewrite ?length_map; lia || done).
    repeat (split; [done|]).
    intros b' Hb'in. destruct (Hw' b' Hb'in) as [Hin|Hin].
    + rewrite Hw1 in Hin. apply elem_of_app in Hin as [Hin|Hin]; [by left|].
      right. destruct (bool_decide _); [by apply elem_of_nil in Hin|].
      apply list_elem_of_singleton in Hin as ->. by left.
    + right. by right.
Qed.

End remove_blank_groups_facts.

Lemma sel_map_pred {A} (f : A → bool) (xs : list A) x :
  x ∈ Np.sel (map f xs) xs → f x = true.
Proof.
  induction xs as [|y xs IH]; simpl; [by intros ?%elem_of_nil|].
  destruct (f y) eqn:E; [|done].
  intros [->|?]%elem_of_cons; [done|by apply IH].
Qed.

(** X9.  [remove_blank_groups] on aligned tables (one sample name, one
    group, one batch and one matrix row per sample) keeps exactly the
    samples whose group is not among [blankGroups], in their order and
    with their name, group, batch and matrix row still aligned; the
    columns of the matrix are untouched and no group of [blankGroups]
    is left. *)
Theorem remove_blank_groups_keeps_other_rows {B} (samples groups : list string)
    (batches : list B) (dat : matrix) (blankGroups : list string) :
  length samples = length groups → length batches = length groups →
  shape0 dat = length groups → matrix_wf dat →
  let keep := kept_rows blankGroups groups in
  ∃ t, remove_blank_groups samples groups batches dat blankGroups = Ok t ∧
    tb_samples t = Np.sel keep samples ∧
    tb_groups t = Np.sel keep groups ∧
    tb_batches t = Np.sel keep batches ∧
    rows (tb_dat t) = Np.sel keep (rows dat) ∧
    shape0 (tb_dat t) = Np.count_true keep ∧
    shape1 (tb_dat t) = shape1 dat ∧
    matrix_wf (tb_dat t) ∧
    Forall (λ g, g ∉ blankGroups) (tb_groups t) ∧
    (∀ b, b ∈ tb_warned t → b ∈ blankGroups).
Proof.
  intros Hs Hb Hd Hwf keep. unfold remove_blank_groups.
  destruct (remove_blank_groups_loop blankGroups
              {| tb_samples := samples; tb_groups := groups; tb_batches := batches;
                 tb_dat := dat; tb_warned := [] |})
    as (t & Hrun & Hal & Hs' & Hg' & Hb' & Hr' & Hc' & Hw'); [done|].
  simpl in *. fold keep in Hs', Hg', Hb', Hr'.
  exists t. repeat (split; [done|]).
  destruct Hal as (_ & _ & Hd' & Hwf').
  split.
  { rewrite Hd', Hg'. apply sel_length. unfold keep, kept_rows. by rewrite length_map. }
  split; [done|]. split; [done|]. split.
  - rewrite Hg'. apply Forall_forall. intros g Hg.
    apply (sel_map_pred (λ g, negb (bool_decide (g ∈ blankGroups)))) in Hg.
    apply negb_true_iff, bool_decide_eq_false in Hg. done.
  - intros b Hin. destruct (Hw' b Hin) as [Hnil|?]; [|done]. by apply elem_of_nil in Hnil.
Qed.

Lemma remove_blank_groups_keeps_other_rows_witness :
  ∃ t, remove_blank_groups ["a"; "b"; "c"]%string ["x"; "blank"; "y"]%string [1; 2; 3]%Z
         example_table_dat ["blank"%string] = Ok t ∧
    tb_samples t = ["a"; "c"]%string ∧
    rows (tb_dat t) = [[Fin 1]; [Fin 3]].
Proof.
  destruct (remove_blank_groups_keeps_other_rows ["a"; "b"; "c"]%string
              ["x"; "blank"; "y"]%string [1; 2; 3]%Z example_table_dat ["blank"%string])
    as (t & Hrun & Hs & _ & _ & Hr & _).
  - reflexivity.
  - reflexivity.
  - reflexivity.
  - split; [reflexivity|]. repeat (apply Forall_cons_2; [reflexivity|]). constructor.
  - exists t. split; [exact Hrun|]. split; [exact Hs|exact Hr].
Defined.

Lemma remove_blank_group_absent {B} (t : sample_table B) (b : string) :
  b ∉ tb_groups t →
  remove_blank_group t b
  = Ok {| tb_samples := tb_samples t; tb_groups := tb_groups t;
          tb_batches := tb_batches t; tb_dat := tb_dat t;
          tb_warned := tb_warned t ++ [b] |}.
Proof. intros Hb. unfold remove_blank_group. by rewrite bool_decide_eq_false_2. Qed.

(** X10.  Blank groups that do not occur among the groups leave the four
    tables as they are, whatever their shape, and each of them is
    warned about, in the order given. *)
Theorem remove_blank_groups_absent_groups {B} (samples groups : list string)
    (batches : list B) (dat : matrix) (blankGroups : list string) :
  Forall (λ b, b ∉ groups) blankGroups →
  remove_blank_groups samples groups batches dat blankGroups
  = Ok {| tb_samples := samples; tb_groups := groups; tb_batches := batches;
          tb_dat := dat; tb_warned := blankGroups |}.
Proof.
  intros Hall. unfold remove_blank_groups.
  change blankGroups with ([] ++ blankGroups) at 2. generalize (@nil string) as w.
  induction Hall as [|b bs Hb Hall IH]; intros w; cbn [for_each].
  - by rewrite app_nil_r.
  - rewrite remove_blank_group_absent by done. cbn [mbind result_bind].
    cbn [tb_samples tb_groups tb_batches tb_dat tb_warned].
    rewrite IH. by rewrite <- app_assoc.
Qed.

Lemma remove_blank_groups_absent_groups_witness :
  remove_blank_groups ["a"; "b"; "c"]%string ["x"; "blank"; "y"]%string [1; 2; 3]%Z
    example_table_dat ["QC"%string]
  = Ok {| tb_samples := ["a"; "b"; "c"]%string; tb_groups := ["x"; "blank"; "y"]%string;
          tb_batches := [1; 2; 3]%Z; tb_dat := example_table_dat;
          tb_warned := ["QC"%string] |}.
Proof.
  apply (remove_blank_groups_absent_groups ["a"; "b"; "c"]%string ["x"; "blank"; "y"]%string
           [1; 2; 3]%Z example_table_dat ["QC"%string]).
  apply Forall_cons_2; [|constructor].
  intros Hin. apply list_elem_of_In in Hin. simpl in Hin.
  destruct Hin as [H|[H|[H|[]]]]; discriminate H.
Defined.

(** ** find_feature *)

Lemma column_spec (a : list (list Q)) (j : nat) :
  Forall (λ row, j < length row) a →
  ∃ col, column a j = Ok col ∧ length col = length a ∧
    ∀ i, col !! i = (row ← a !! i; row !! j).
Proof.
  induction 1 as [|row a Hrow Hall IH]; simpl.
  - exists []. done.
  - destruct IH as (col & -> & Hlen & Hlk).
    destruct (lookup_lt_is_Some_2 row j Hrow) as [x Hx].
    unfold at_index. rewrite Hx. cbn [mbind result_bind].
    exists (x :: col). split; [done|]. split; [simpl; lia|].
    intros [|i]; simpl; [done|apply Hlk].
Qed.

(** X11.  [find_feature] tests one feature only: a feature at the
    smallest distance [np.abs(f - mz)] from [mz].  On a non-empty table
    it returns the position of that feature when its mass lies in
    [[mzmin, mzmax]], and [None] when it does not, whatever the other
    features are; it does not raise. *)
Theorem find_feature_tests_nearest_only (window_max window_min abs_diff : Q → Q → Q)
    (features : list (list Q)) (mz max_deviation_ppm : Q) :
  features ≠ [] → Forall (λ row, 1 < length row) features →
  ∃ ind f,
    feature_mz features ind = Some f ∧
    (∀ j g, feature_mz features j = Some g → (abs_diff f mz <= abs_diff g mz)%Q) ∧
    ((window_min mz max_deviation_ppm <= f ∧ f <= window_max mz max_deviation_ppm)%Q →
     find_feature window_max window_min abs_diff features mz max_deviation_ppm
     = Ok (Some ind)) ∧
    (¬ (window_min mz max_deviation_ppm <= f ∧ f <= window_max mz max_deviation_ppm)%Q →
     find_feature window_max window_min abs_diff features mz max_deviation_ppm = Ok None).
Proof.
  intros Hne Hcols. unfold find_feature.
  destruct (column_spec features 1 Hcols) as (col & -> & Hlen & Hlk).
  cbn [mbind result_bind].
  destruct col as [|c0 col'] eqn:Ecol.
  { destruct features; [done|]. simpl in Hlen. lia. }
  rewrite <- Ecol in *. clear Ecol c0 col'.
  set (d := map (λ f, abs_diff f mz) col).
  destruct (argmin_spec d) as (v & Hv & Hmin).
  { unfold d. destruct col; [|done]. destruct features; [done|]. simpl in Hlen. lia. }
  set (ind := NpRed.argmin d) in *.
  unfold d in Hv. change (map ?f ?l) with (f <$> l) in Hv. rewrite list_lookup_fmap in Hv.
  destruct (col !! ind) as [f|] eqn:Ef; [|done]. simpl in Hv. injection Hv as <-.
  rewrite Hlk in Ef. fold (feature_mz features ind) in Ef.
  exists ind, f. split; [done|].
  unfold feature_mz in Ef. unfold at_index.
  destruct (features !! ind) as [row|] eqn:Erow; [|done]. simpl in Ef.
  cbn [mbind result_bind]. rewrite Ef. cbn [mbind result_bind].
  split.
  { intros j g Hg. unfold feature_mz in Hg. rewrite <- Hlk in Hg.
    assert (d !! j = Some (abs_diff g mz)) as Hd.
    { unfold d. change (map ?f ?l) with (f <$> l). by rewrite list_lookup_fmap, Hg. }
    eapply Forall_lookup_1 in Hmin; [|exact Hd]. done. }
  destruct (Qle_bool (window_min mz max_deviation_ppm) f) eqn:E1;
    [destruct (Qle_bool f (window_max mz max_deviation_ppm)) eqn:E2|]; simpl.
  - split; [done|]. intros Hn. exfalso. apply Hn. split; by apply Qle_bool_iff.
  - split; [|done]. intros [_ H]. apply Qle_bool_iff in H. congruence.
  - split; [|done]. intros [H _]. apply Qle_bool_iff in H. congruence.
Qed.

Lemma find_feature_tests_nearest_only_witness :
  ∃ ind f,
    feature_mz [[0; 100; 0]; [0; 200.001; 0]; [0; 300; 0]]%Q ind = Some f ∧
    find_feature exact_window_max exact_window_min exact_abs_diff
      [[0; 100; 0]; [0; 200.001; 0]; [0; 300; 0]]%Q 200 20 = Ok (Some ind).
Proof.
  destruct (find_feature_tests_nearest_only exact_window_max exact_window_min exact_abs_diff
              [[0; 100; 0]; [0; 200.001; 0]; [0; 300; 0]]%Q 200 20)
    as (ind & f & Hf & Hmin & Hin & _).
  - discriminate.
  - repeat (apply Forall_cons_2; [simpl; lia|]). constructor.
  - exists ind, f. split; [exact Hf|]. apply Hin.
    specialize (Hmin 1 200.001%Q eq_refl).
    destruct ind as [|[|[|ind]]]; [| | |discriminate Hf]; injection Hf as <-.
    + exfalso. vm_compute in Hmin. apply Hmin. reflexivity.
    + vm_compute. split; discriminate.
    + exfalso. vm_compute in Hmin. apply Hmin. reflexivity.
Defined.

(** ** get_separate_chronogram_indices: the automatic detection of spots *)

Section separate_chronogram_facts.

Variables (msData : list scan) (thr t0 t1 : Q).

Let pass := scan_in_spot msData thr t0 t1.
Let step := spot_step thr t0 t1.

Lemma enumerate_take_S {X} (l : list X) n x :
  l !! n = Some x → enumerate (take (S n) l) = enumerate (take n l) ++ [(n, x)].
Proof.
  intros Hx. rewrite (take_S_r _ _ _ Hx). unfold enumerate.
  pose proof (lookup_lt_Some _ _ _ Hx) as Hlt.
  rewrite length_app, length_take. simpl.
  replace (n `min` length l) with n by lia.
  rewrite seq_app. simpl.
  rewrite zip_with_app by (rewrite length_seq, length_take; lia). done.
Qed.

Lemma pass_beyond i : length msData ≤ i → pass i = false.
Proof. intros Hi. unfold pass, scan_in_spot. by rewrite (proj2 (lookup_ge_None _ _) Hi). Qed.

Lemma spots_close n cur seps :
  spots_inv pass n cur seps → pass n = false →
  spots_inv pass (S n) None (close_spot cur seps).
Proof.
  intros [Hclosed Horder Hopen Hcover] Hpass.
  destruct cur as [[s e]|]; cbn [close_spot].
  - destruct Hopen as (He & Hse & Hall & Hlow).
    assert (Hlast : ∀ sp, sp ∈ seps → S (spot_endInd sp) < s).
    { intros sp [k Hk]%list_elem_of_lookup.
      destruct (Hclosed k sp Hk) as (_ & _ & _ & _ & (? & _ & _ & Hup) & Hlt).
      destruct (decide (S (spot_endInd sp) < s)) as [|Hge]; [done|].
      assert (pass (S (spot_endInd sp)) = true) as Hc; [apply Hall; lia|].
      congruence. }
    split.
    + intros k sp Hk. apply lookup_app_Some in Hk as [Hk|[Hlen Hk]].
      * destruct (Hclosed k sp Hk) as (? & ? & ? & ? & ? & ?).
        repeat (split; [done|]). lia.
      * destruct (k - length seps) as [|?] eqn:Ek; [|done].
        simpl in Hk. injection Hk as <-. simpl.
        replace k with (length seps) by lia.
        repeat (split; [done|]). split; [|lia].
        split; [done|]. split; [done|]. split; [done|].
        by rewrite He.
    + intros k1 k2 sp1 sp2 Hk1 Hk2 Hlt.
      apply lookup_app_Some in Hk1 as [Hk1|[Hlen1 Hk1]];
      apply lookup_app_Some in Hk2 as [Hk2|[Hlen2 Hk2]].
      * by eapply Horder.
      * destruct (k2 - length seps) as [|?]; [|done]. simpl in Hk2.
        injection Hk2 as <-. simpl. apply Hlast. by eapply list_elem_of_lookup_2.
      * pose proof (lookup_lt_Some _ _ _ Hk2). lia.
      * destruct (k1 - length seps) as [|?] eqn:E1; [|done].
        destruct (k2 - length seps) as [|?] eqn:E2; [|done]. lia.
    + right. simpl. by rewrite Nat.sub_0_r.
    + intros i Hi Hp. left. destruct (decide (i = n)) as [->|Hne]; [congruence|].
      destruct (Hcover i ltac:(lia) Hp) as [(sp & Hsp & Hin)|(s' & e' & [= <- <-] & Hin)].
      * exists sp. split; [|done]. apply elem_of_app. by left.
      * eexists. split; [apply elem_of_app; right; by apply list_elem_of_singleton|].
        simpl. lia.
  - split.
    + intros k sp Hk. destruct (Hclosed k sp Hk) as (? & ? & ? & ? & ? & ?).
      repeat (split; [done|]). lia.
    + done.
    + right. simpl. by rewrite Nat.sub_0_r.
    + intros i Hi Hp. destruct (decide (i = n)) as [->|Hne]; [congruence|].
      destruct (Hcover i ltac:(lia) Hp) as [?|(s' & e' & [=] & _)]. by left.
Qed.

Lemma detect_loop n :
  n ≤ length msData →
  ∃ cur seps,
    fold_left step (enumerate (take n msData)) (None, []) = (cur, seps) ∧
    spots_inv pass n cur seps.
Proof.
  induction n as [|n IH]; intros Hn.
  - exists None, []. split; [done|]. split.
    + intros k sp Hk. done.
    + intros k1 k2 sp1 sp2 Hk. done.
    + by left.
    + intros i Hi. lia.
  - destruct IH as (cur & seps & Hrun & Hinv); [lia|].
    destruct (lookup_lt_is_Some_2 msData n) as [sc Hsc]; [lia|].
    rewrite (enumerate_take_S msData n sc Hsc), fold_left_app, Hrun. cbn [fold_left].
    unfold step at 1, spot_step.
    assert (pass n = in_spot thr t0 t1 sc) as Hpass.
    { unfold pass, scan_in_spot. by rewrite Hsc. }
    destruct (in_spot thr t0 t1 sc) eqn:Ein.
    + (* the spectrum opens or extends a spot *)
      destruct Hinv as [Hclosed Horder Hopen Hcover].
      eexists _, seps. split; [done|]. split.
      * intros k sp Hk. destruct (Hclosed k sp Hk) as (? & ? & ? & ? & ? & ?).
        repeat (split; [done|]). lia.
      * done.
      * destruct cur as [[s e]|].
        -- destruct Hopen as (He & Hse & Hall & Hlow).
           split; [done|]. split; [lia|]. split; [|done].
           intros i Hi. destruct (decide (i = n)) as [->|]; [done|]. apply Hall. lia.
        -- split; [done|]. split; [done|]. split.
           ++ intros i Hi. by assert (i = n) as -> by lia.
           ++ destruct Hopen as [->|Hp]; [by left|right].
              by replace (n - 0) with n in Hp by lia.
      * intros i Hi Hp. destruct (decide (i = n)) as [->|Hne].
        -- right. destruct cur as [[s e]|].
           ++ destruct Hopen as (He & Hse & _). exists s, n. split; [done|]. lia.
           ++ exists n, n. split; [done|]. lia.
        -- destruct (Hcover i ltac:(lia) Hp) as [?|(s & e & -> & Hse)]; [by left|].
           right. exists s, n. split; [done|]. lia.
    + (* the spectrum closes the open spot, if any *)
      eexists None, _. split; [done|]. by apply spots_close.
Qed.

Lemma separate_chronogram_inv :
  spots_inv pass (S (length msData)) None (get_separate_chronogram_indices msData thr t0 t1).
Proof.
  destruct (detect_loop (length msData)) as (cur & seps & Hrun & Hinv); [done|].
  rewrite firstn_all in Hrun. unfold get_separate_chronogram_indices. fold step. rewrite Hrun.
  apply spots_close; [done|]. by apply pass_beyond.
Qed.

End separate_chronogram_facts.

(** X12.  The automatic detection cuts the chronogram into the maximal
    runs of consecutive spectra that pass the test (total intensity at
    least [intensityThreshold], time within the bounds): every spot is
    such a run, lies inside the chronogram and is named ["Spot_k"] after
    its rank [k], with group, class and batch [0]; the spots are listed
    in ascending order with a spectrum that fails the test between two
    of them; and every spectrum that passes the test lies in a spot. *)
Theorem get_separate_chronogram_indices_maximal_runs (msData : list scan)
    (intensityThreshold startTime_seconds endTime_seconds : Q) :
  let pass := scan_in_spot msData intensityThreshold startTime_seconds endTime_seconds in
  let spots := get_separate_chronogram_indices msData intensityThreshold startTime_seconds endTime_seconds in
  (∀ k sp, spots !! k = Some sp →
     spot_spotName sp = spot_name k ∧
     spot_group sp = 0%Z ∧ spot_class sp = 0%Z ∧ spot_batch sp = 0%Z ∧
     maximal_run pass (spot_startInd sp) (spot_endInd sp) ∧
     spot_endInd sp < length msData) ∧
  (∀ k1 k2 sp1 sp2, spots !! k1 = Some sp1 → spots !! k2 = Some sp2 →
     k1 < k2 → S (spot_endInd sp1) < spot_startInd sp2) ∧
  (∀ i, pass i = true →
     ∃ sp, sp ∈ spots ∧ spot_startInd sp ≤ i ≤ spot_endInd sp) ∧
  NoDup (spot_spotName <$> spots).
Proof.
  intros pass spots.
  destruct (separate_chronogram_inv msData intensityThreshold startTime_seconds endTime_seconds)
    as [Hclosed Horder _ Hcover].
  fold spots in Hclosed, Horder, Hcover. fold pass in Hclosed, Hcover.
  split.
  { intros k sp Hk. destruct (Hclosed k sp Hk) as (? & ? & ? & ? & ? & ?).
    repeat (split; [done|]). lia. }
  split; [done|]. split.
  - intros i Hp.
    assert (i < length msData) as Hi.
    { destruct (decide (i < length msData)) as [|Hge]; [done|].
      unfold pass in Hp. rewrite pass_beyond in Hp by lia. done. }
    destruct (Hcover i ltac:(lia) Hp) as [?|(? & ? & [=] & _)]. done.
  - apply NoDup_alt. intros k1 k2 nm H1 H2.
    rewrite list_lookup_fmap in H1, H2.
    destruct (spots !! k1) as [sp1|] eqn:E1; [|done].
    destruct (spots !! k2) as [sp2|] eqn:E2; [|done].
    simpl in H1, H2. injection H1 as <-. injection H2 as H2.
    destruct (Hclosed k1 sp1 E1) as (Hn1 & _). destruct (Hclosed k2 sp2 E2) as (Hn2 & _).
    rewrite Hn1, Hn2 in H2. unfold spot_name in H2.
    apply (inj (String.append "Spot_")) in H2. by apply (inj pretty) in H2.
Qed.

Example get_separate_chronogram_indices_example :
  map (λ sp, (spot_startInd sp, spot_endInd sp, spot_spotName sp))
      (get_separate_chronogram_indices example_chronogram 1000 0 1000000)
  = [(1, 2, "Spot_0"%string); (4, 4, "Spot_1"%string)].
Proof. reflexivity. Qed.

(** ** normalize_samples_by_TICs, normalize_to_internal_standard *)

Section per_sample_passes.

(** A loop over the samples that replaces the spectra of each sample by
    a function of them. *)
Variable pass : list spectrum → list spectrum.

Let loop (names : list string) (a : assay) : assay :=
  fold_left (λ a sample, set_ms_data a sample (pass (get_ms_data a sample))) names a.

Lemma per_sample_loop names : ∀ a,
  NoDup names →
  get_sample_names (loop names a) = get_sample_names a ∧
  get_sample_group (loop names a) = get_sample_group a ∧
  ∀ s, get_ms_data (loop names a) s
       = if bool_decide (s ∈ names) then pass (get_ms_data a s) else get_ms_data a s.
Proof.
  induction names as [|n names IH]; intros a Hnd; unfold loop; cbn [fold_left].
  - split; [done|]. split; [done|]. intros s.
    rewrite bool_decide_eq_false_2; [done|]. apply not_elem_of_nil.
  - apply NoDup_cons in Hnd as [Hn Hnd].
    destruct (IH (set_ms_data a n (pass (get_ms_data a n))) Hnd) as (Hnames & Hgroup & Hdata).
    fold (loop names (set_ms_data a n (pass (get_ms_data a n)))).
    split; [done|]. split; [done|]. intros s. rewrite Hdata.
    cbn [set_ms_data get_ms_data].
    destruct (String.eqb_spec s n) as [->|Hne].
    + rewrite bool_decide_eq_false_2 by done. rewrite bool_decide_eq_true_2; [done|]. by left.
    + destruct (decide (s ∈ names)) as [Hin|Hnin].
      * rewrite !bool_decide_eq_true_2; [done| |done]. by right.
      * rewrite !bool_decide_eq_false_2; [done| |done].
        intros [?|?]%elem_of_cons; done.
Qed.

End per_sample_passes.

(** X13.  [normalize_samples_by_TICs] on an assay with distinct sample
    names treats every sample once and by its own TIC (the sum of all
    its intensities before the call), whatever the other samples hold:
    when this TIC is positive every intensity [x] of the sample becomes
    [x / TIC * multiplication_factor]; a sample whose TIC is not
    positive is left as it is; the masses and the sample names are
    never touched. *)
Theorem normalize_samples_by_TICs_total (a : assay) (multiplication_factor : Q) (s : string) :
  NoDup (get_sample_names a) → s ∈ get_sample_names a →
  let a' := normalize_samples_by_TICs a multiplication_factor in
  let totalInt := total_intensity (get_ms_data a s) in
  get_sample_names a' = get_sample_names a ∧
  map spectrum_mz (get_ms_data a' s) = map spectrum_mz (get_ms_data a s) ∧
  ((0 < totalInt)%Q →
     get_ms_data a' s = map (scale_spint totalInt multiplication_factor) (get_ms_data a s)) ∧
  (¬ (0 < totalInt)%Q → get_ms_data a' s = get_ms_data a s).
Proof.
  intros Hnd Hs a' totalInt.
  destruct (per_sample_loop (normalize_sample_by_TIC multiplication_factor)
              (get_sample_names a) a Hnd) as (Hnames & _ & Hdata).
  fold (normalize_samples_by_TICs a multiplication_factor) in Hnames, Hdata.
  fold a' in Hnames, Hdata. split; [done|].
  rewrite Hdata, bool_decide_eq_true_2 by done.
  unfold normalize_sample_by_TIC. fold totalInt.
  destruct (Qltb 0 totalInt) eqn:E.
  - apply Qltb_lt in E. split.
    { rewrite <- !list_fmap_compose. done. }
    split; [|done]. intros _. done.
  - split; [done|]. split; [|done]. intros Hpos. apply Qltb_lt in Hpos. congruence.
Qed.

Lemma normalize_samples_by_TICs_total_witness :
  get_ms_data (normalize_samples_by_TICs example_raw_assay 1) "S"
  = map (scale_spint 10 1) (get_ms_data example_raw_assay "S").
Proof.
  destruct (normalize_samples_by_TICs_total example_raw_assay 1 "S") as (_ & _ & H & _).
  - apply NoDup_singleton.
  - apply list_elem_of_singleton. reflexivity.
  - apply H. reflexivity.
Defined.

Lemma Qsum_nonneg_elem (l : list Q) x :
  Forall (λ y, 0 <= y)%Q l → (0 <= Qsum l)%Q ∧ (x ∈ l → (x <= Qsum l)%Q).
Proof.
  induction l as [|y l IH] using rev_ind; intros Hall.
  - split; [unfold Qsum; simpl; lra|]. by intros ?%elem_of_nil.
  - apply Forall_app in Hall as [Hl Hy]. apply Forall_inv in Hy.
    destruct (IH Hl) as [H0 Hx]. rewrite Qsum_snoc. split; [lra|].
    intros [Hin|Hin]%elem_of_app.
    + specialize (Hx Hin). lra.
    + apply list_elem_of_singleton in Hin as ->. lra.
Qed.

(** X14.  After [normalize_samples_by_TICs], the intensities of a sample
    with non-negative intensities and a positive TIC are shares of the
    TIC: each of them lies between [0] and [multiplication_factor]
    (between 0 and 1 with the default factor). *)
Theorem normalize_samples_by_TICs_shares (a : assay) (multiplication_factor : Q) (s : string) :
  NoDup (get_sample_names a) → s ∈ get_sample_names a →
  Forall (λ sp, Forall (λ x, 0 <= x)%Q (spectrum_spint sp)) (get_ms_data a s) →
  (0 < total_intensity (get_ms_data a s))%Q →
  (0 <= multiplication_factor)%Q →
  Forall (λ sp, Forall (λ x, 0 <= x ∧ x <= multiplication_factor)%Q (spectrum_spint sp))
         (get_ms_data (normalize_samples_by_TICs a multiplication_factor) s).
Proof.
  intros Hnd Hs Hnonneg Hpos Hf.
  destruct (per_sample_loop (normalize_sample_by_TIC multiplication_factor)
              (get_sample_names a) a Hnd) as (_ & _ & Hdata).
  fold (normalize_samples_by_TICs a multiplication_factor) in Hdata.
  rewrite Hdata, bool_decide_eq_true_2 by done.
  unfold normalize_sample_by_TIC.
  set (totalInt := total_intensity (get_ms_data a s)) in *.
  rewrite (proj2 (Qltb_lt 0 totalInt) Hpos).
  apply Forall_forall. intros sp' (sp & -> & Hsp)%list_elem_of_fmap.
  apply Forall_forall. intros x' (x & -> & Hx)%list_elem_of_fmap.
  assert (0 <= x)%Q as Hx0.
  { eapply Forall_forall in Hnonneg; [|exact Hsp].
    eapply Forall_forall in Hnonneg; [exact Hnonneg|exact Hx]. }
  assert (x <= totalInt)%Q as Hxt.
  { apply Qle_trans with (Qsum (spectrum_spint sp)).
    - eapply Forall_forall in Hnonneg; [|exact Hsp].
      by apply (proj2 (Qsum_nonneg_elem (spectrum_spint sp) x Hnonneg)).
    - unfold totalInt, total_intensity.
      assert (Forall (λ y, 0 <= y)%Q
                (map (λ sp, Qsum (spectrum_spint sp)) (get_ms_data a s))) as Hsums.
      { apply Forall_forall. intros y (sp0 & -> & Hsp0)%list_elem_of_fmap.
        eapply Forall_forall in Hnonneg; [|exact Hsp0].
        apply (proj1 (Qsum_nonneg_elem (spectrum_spint sp0) 0 Hnonneg)). }
      apply (proj2 (Qsum_nonneg_elem _ (Qsum (spectrum_spint sp)) Hsums)).
      apply list_elem_of_fmap. by exists sp. }
  assert (0 <= x / totalInt ∧ x / totalInt <= 1)%Q as [Hr0 Hr1].
  { split.
    - apply Qle_shift_div_l; [done|]. lra.
    - apply Qle_shift_div_r; [done|]. lra. }
  split; nra.
Qed.

Lemma normalize_samples_by_TICs_shares_witness :
  Forall (λ sp, Forall (λ x, 0 <= x ∧ x <= 1)%Q (spectrum_spint sp))
         (get_ms_data (normalize_samples_by_TICs example_raw_assay 1) "S").
Proof.
  apply (normalize_samples_by_TICs_shares example_raw_assay 1 "S").
  - apply NoDup_singleton.
  - apply list_elem_of_singleton. reflexivity.
  - repeat (apply Forall_cons_2; [repeat (apply Forall_cons_2; [discriminate|]); constructor|]).
    constructor.
  - reflexivity.
  - discriminate.
Defined.

(** X15.  [normalize_to_internal_standard] on an assay with distinct
    sample names treats every sample once and by its own standard,
    whatever the other samples hold: when the summed intensity
    [totalSTDInt] of the signals of the sample inside the window of the
    standard (before the call) is positive, every intensity [x] of the
    sample, inside the window or not, becomes
    [x / totalSTDInt * multiplication_factor]; otherwise the sample is
    left as it is.  The masses are never touched. *)
Theorem normalize_to_internal_standard_total (a : assay) (stdMZmin stdMZmax : Q)
    (multiplication_factor : Q) (s : string) :
  NoDup (get_sample_names a) → s ∈ get_sample_names a →
  let a' := normalize_to_internal_standard a (stdMZmin, stdMZmax) multiplication_factor in
  let totalSTDInt := total_std_intensity stdMZmin stdMZmax (get_ms_data a s) in
  map spectrum_mz (get_ms_data a' s) = map spectrum_mz (get_ms_data a s) ∧
  ((0 < totalSTDInt)%Q →
     get_ms_data a' s = map (scale_spint totalSTDInt multiplication_factor) (get_ms_data a s)) ∧
  (¬ (0 < totalSTDInt)%Q → get_ms_data a' s = get_ms_data a s).
Proof.
  intros Hnd Hs a' totalSTDInt.
  destruct (per_sample_loop
              (normalize_sample_to_internal_standard (stdMZmin, stdMZmax) multiplication_factor)
              (get_sample_names a) a Hnd) as (_ & _ & Hdata).
  fold (normalize_to_internal_standard a (stdMZmin, stdMZmax) multiplication_factor) in Hdata.
  fold a' in Hdata.
  rewrite Hdata, bool_decide_eq_true_2 by done.
  unfold normalize_sample_to_internal_standard. fold totalSTDInt.
  destruct (Qltb 0 totalSTDInt) eqn:E.
  - apply Qltb_lt in E. split.
    { rewrite <- !list_fmap_compose. done. }
    split; [|done]. intros _. done.
  - split; [done|]. split; [|done]. intros Hpos. apply Qltb_lt in Hpos. congruence.
Qed.

Lemma normalize_to_internal_standard_total_witness :
  get_ms_data (normalize_to_internal_standard example_raw_assay (90, 110)%Q 1) "S"
  = map (scale_spint 3 1) (get_ms_data example_raw_assay "S").
Proof.
  destruct (normalize_to_internal_standard_total example_raw_assay 90 110 1 "S") as (_ & H & _).
  - apply NoDup_singleton.
  - apply list_elem_of_singleton. reflexivity.
  - apply H. reflexivity.
Defined.

(** ** refine_clustering: crude clusters are split, never merged *)

Section refine_split_facts.

Variables (mzs intensities : list Q) (clusts : list Z).
Variables (closest_max : Q) (maxdev : option Q).
Hypothesis Hin : refine_input mzs intensities clusts.

Lemma crude_step_split fuel rest i clust acc :
  length clusts < fuel → clust ∈ clusts → clust ∉ rest.*2 →
  refine_for_inv mzs clusts maxdev ((i, clust) :: rest) acc →
  refines_partition clusts acc.1 →
  ∃ acc', refine_crude_cluster fuel mzs intensities clusts closest_max maxdev acc (i, clust)
          = Some acc' ∧
    refine_for_inv mzs clusts maxdev rest acc' ∧
    refines_partition clusts acc'.1.
Proof.
  intros Hfuel Hclust Hnotin Hinv Hsplit.
  destruct (crude_step_fresh mzs intensities clusts closest_max maxdev Hin
              fuel rest i clust acc Hfuel Hclust Hnotin Hinv)
    as (acc' & Hrun & Hinv' & Hframe & _ & Hfresh).
  exists acc'. split; [done|]. split; [done|].
  destruct (1 <? Np.count (Z.of_nat i) clusts); [|by subst acc'].
  pose proof (rf_le _ _ _ _ _ Hinv) as Hle.
  intros p q cp cq v Hcp Hcq Hp Hq.
  destruct (decide (cp = clust)) as [->|Hnp], (decide (cq = clust)) as [->|Hnq]; [done|..].
  - destruct (Hfresh p Hcp) as (v' & Hv' & Hgt). rewrite Hp in Hv'. injection Hv' as <-.
    rewrite (Hframe q cq Hcq Hnq) in Hq. specialize (Hle q v Hq). lia.
  - destruct (Hfresh q Hcq) as (v' & Hv' & Hgt). rewrite Hq in Hv'. injection Hv' as <-.
    rewrite (Hframe p cp Hcp Hnp) in Hp. specialize (Hle p v Hp). lia.
  - rewrite (Hframe p cp Hcp Hnp) in Hp. rewrite (Hframe q cq Hcq Hnq) in Hq.
    by eapply Hsplit.
Qed.

Lemma refine_for_split fuel rest : ∀ acc,
  length clusts < fuel → NoDup rest.*2 → (∀ c, c ∈ rest.*2 → c ∈ clusts) →
  refine_for_inv mzs clusts maxdev rest acc →
  refines_partition clusts acc.1 →
  ∃ acc', refine_for fuel mzs intensities clusts closest_max maxdev rest acc = Some acc' ∧
    length acc'.1 = length clusts ∧
    refines_partition clusts acc'.1.
Proof.
  induction rest as [|[i clust] rest IH]; intros acc Hfuel Hnd Hsub Hinv Hsplit.
  - exists acc. split; [done|]. split; [|done]. by destruct Hinv.
  - simpl in Hnd. apply NoDup_cons in Hnd as [Hnotin Hnd].
    destruct (crude_step_split fuel rest i clust acc Hfuel) as (acc1 & Hrun1 & Hinv1 & Hsplit1).
    { apply Hsub. by left. }
    { done. }
    { done. }
    { done. }
    destruct (IH acc1 Hfuel Hnd) as (acc' & Hrun & Hlen & Hsplit').
    { intros c Hc. apply Hsub. by right. }
    { done. }
    { done. }
    exists acc'. cbn [refine_for]. rewrite Hrun1. cbn [mbind option_bind]. done.
Qed.

End refine_split_facts.

(** X16.  [refine_clustering] only splits crude clusters: on positive
    intensities and masses in (0, 1E6), with enough fuel, two signals
    that share an id in the result come from the same crude cluster,
    and the id of a signal is its crude id or an id above every crude
    id. *)
Theorem refine_clustering_only_splits fuel sample mzs intensities spectrumID clusts
    expected closest_max maxdev :
  refine_input mzs intensities clusts → length clusts < fuel →
  ∃ r, refine_clustering fuel sample mzs intensities spectrumID clusts
         expected closest_max maxdev = Some (Ok r) ∧
    length r = length clusts ∧
    refines_partition clusts r ∧
    (∀ p c v, clusts !! p = Some c → r !! p = Some v → v = c ∨ (Zlist_max clusts < v)%Z).
Proof.
  intros Hin Hfuel.
  destruct (refine_clustering_spec mzs intensities clusts closest_max maxdev Hin
              fuel sample spectrumID expected Hfuel) as (r & Hrun & Hlen & Hids & _).
  exists r. split; [done|]. split; [done|]. split; [|done].
  rewrite refine_clustering_nonempty in Hrun by (by destruct Hin).
  destruct (refine_for_split mzs intensities clusts closest_max maxdev Hin fuel
              (enumerate (Np.unique clusts)) (clusts, Zlist_max clusts) Hfuel)
    as (acc' & Hrun' & _ & Hsplit).
  { unfold enumerate. rewrite snd_zip by (rewrite length_seq; lia). apply unique_NoDup. }
  { intros c Hc. unfold enumerate in Hc. rewrite snd_zip in Hc by (rewrite length_seq; lia).
    by apply unique_elem. }
  { split; simpl.
    - done.
    - intros p v Hv. pose proof (Zlist_max_upper clusts) as Hup.
      eapply Forall_lookup_1 in Hup; [|exact Hv]. simpl in Hup. lia.
    - done.
    - done.
    - intros c Hc. rewrite cluster_mzs_empty; [apply spread_ok_short; simpl; lia|].
      intros p Hp. pose proof (Zlist_max_upper clusts) as Hup.
      eapply Forall_lookup_1 in Hup; [|exact Hp]. simpl in Hup. lia. }
  { intros p q cp cq v Hcp Hcq Hp Hq. simpl in Hp, Hq. congruence. }
  rewrite Hrun' in Hrun. cbn [mbind option_bind] in Hrun. by injection Hrun as <-.
Qed.

Lemma refine_clustering_only_splits_witness :
  ∃ r, refine_clustering 9 "spot" example_mzs example_intensities [] example_clusts
         15 15 None = Some (Ok r) ∧
    refines_partition example_clusts r.
Proof.
  destruct (refine_clustering_only_splits 9 "spot" example_mzs example_intensities []
              example_clusts 15 15 None example_refine_input)
    as (r & Hrun & _ & Hsplit & _).
  - simpl. lia.
  - exists r. split; [exact Hrun|exact Hsplit].
Defined.

(** ** calculate_concensus_spectra_per_sample *)

Lemma py_take_reindexed (ns : list nat) (idx : list Z) (f : Z → nat) :
  (∀ j, j ∈ idx → ∃ i, j = Z.of_nat i ∧ ns !! i = Some (f j)) →
  py_take ns idx = Ok (map f idx).
Proof.
  induction idx as [|j idx IH]; intros Hall; simpl; [done|].
  destruct (Hall j) as (i & -> & Hi); [by left|].
  unfold py_index. destruct (Z.leb_spec 0 (Z.of_nat i)); [|lia].
  unfold at_index. rewrite Nat2Z.id, Hi. cbn [mbind result_bind].
  rewrite IH; [done|]. intros j' Hj'. apply Hall. by right.
Qed.

Lemma set_mask_map {A} (g : A → bool) (v : A) (l : list A) :
  Np.set_mask (map g l) v l = map (λ x, if g x then v else x) l.
Proof. unfold Np.set_mask. induction l as [|x l IH]; simpl; [done|]. by rewrite IH. Qed.

(** On reindexed ids the filter marks exactly the signals of the
    clusters with fewer than [min_signals_per_cluster] signals. *)
Lemma min_signals_filter_spec (cluster : list Z) (min_signals_per_cluster : Z) :
  reindexed_ids cluster →
  min_signals_filter cluster min_signals_per_cluster
  = Ok (map (λ c, if (Z.of_nat (Np.count c cluster) <? min_signals_per_cluster)%Z
                  then (-1)%Z else c) cluster).
Proof.
  intros [k Hk]. unfold min_signals_filter.
  rewrite (py_take_reindexed _ cluster (λ c, Np.count c cluster)).
  - cbn [mbind result_bind]. f_equal. rewrite map_map. apply set_mask_map.
  - intros j Hj. apply unique_elem in Hj. rewrite Hk in Hj.
    apply list_elem_of_fmap in Hj as (i & -> & Hi%elem_of_seq).
    exists i. split; [done|]. unfold Np.unique_counts.
    change (map ?g ?l) with (g <$> l). rewrite list_lookup_fmap, Hk, list_lookup_fmap.
    by rewrite lookup_seq_lt by lia.
Qed.

Lemma flat_map_length_eq {A B C} (f : A → list B) (g : A → list C) (l : list A) :
  Forall (λ x, length (f x) = length (g x)) l →
  length (flat_map f l) = length (flat_map g l).
Proof.
  induction 1 as [|x l Hx Hl IH]; simpl; [done|]. rewrite !length_app. lia.
Qed.

Lemma flat_map_enumerate_length (msData : list scan) :
  length (flat_map (λ '(k, sc), replicate (length (scan_mz sc)) k) (enumerate msData))
  = length (flat_map scan_mz msData).
Proof.
  unfold enumerate. generalize 0.
  induction msData as [|sc msData IH]; intros j; simpl; [done|].
  rewrite !length_app, length_replicate. by rewrite IH.
Qed.

Lemma Forall_flat_map_2 {A B} (P : B → Prop) (f : A → list B) (l : list A) :
  Forall (λ x, Forall P (f x)) l → Forall P (flat_map f l).
Proof.
  induction 1 as [|x l Hx Hl IH]; simpl; [constructor|]. apply Forall_app. done.
Qed.

Lemma table_of_spectra_spec sample (msData : list scan) :
  msData ≠ [] → Forall scan_wf msData →
  ∃ t, table_of_spectra sample msData = Ok t ∧ table_wf t ∧
    st_mz t = flat_map scan_mz msData ∧
    Forall (λ x, 0 < x)%Q (st_intensity t) ∧
    Forall (λ m, 0 < m ∧ m < 1000000)%Q (st_mz t).
Proof.
  intros Hne Hwf. unfold table_of_spectra. destruct msData as [|sc msData']; [done|].
  set (msData := sc :: msData') in *. eexists. split; [done|].
  unfold table_wf. cbn [st_sample st_spectrumInd st_time st_mz st_intensity st_cluster].
  split; [|split; [done|split]].
  - split; [|split; [|split]].
    + apply flat_map_length_eq. apply Forall_forall. intros x _. apply length_replicate.
    + apply flat_map_enumerate_length.
    + apply flat_map_length_eq. apply Forall_forall. intros x _. apply length_replicate.
    + apply flat_map_length_eq. eapply Forall_impl; [exact Hwf|]. by intros x (? & _).
  - apply Forall_flat_map_2. eapply Forall_impl; [exact Hwf|]. by intros x (_ & ? & _).
  - apply Forall_flat_map_2. eapply Forall_impl; [exact Hwf|]. by intros x (_ & _ & ?).
Qed.

Lemma sel_Forall {A} (P : A → Prop) (mask : list bool) (xs : list A) :
  Forall P xs → Forall P (Np.sel mask xs).
Proof.
  intros H. apply Forall_forall. intros x Hx. apply sel_subseteq in Hx.
  by eapply Forall_forall in H.
Qed.

Lemma reindexed_dense (cluster : list Z) :
  reindexed_ids cluster → Forall (λ c, 0 ≤ c)%Z cluster ∧
  ∃ k, dense_ids cluster k ∧ (cluster ≠ [] → 0 < k).
Proof.
  intros [k Hk].
  assert (∀ c, c ∈ cluster ↔ ∃ i, i < k ∧ c = Z.of_nat i) as Helem.
  { intros c. rewrite <- unique_elem, Hk, list_elem_of_fmap. split.
    - intros (i & -> & Hi%elem_of_seq). exists i. split; [lia|done].
    - intros (i & Hi & ->). exists i. split; [done|]. apply elem_of_seq. lia. }
  split.
  - apply Forall_forall. intros c (i & _ & ->)%Helem. lia.
  - exists k. split; [split|].
    + intros c (i & Hi & ->)%Helem. lia.
    + intros j Hj. apply Helem. by exists j.
    + intros Hne. destruct cluster as [|c cl]; [done|].
      destruct (proj1 (Helem c)) as (i & Hi & _); [by left|]. lia.
Qed.

Lemma keep_clustered_spec (t : signal_table) :
  table_wf t → length (st_cluster t) = length (st_mz t) →
  let keep := map (λ c, (0 <=? c)%Z) (st_cluster t) in
  ∃ t', keep_clustered t = Ok t' ∧ table_wf t' ∧
    st_mz t' = Np.sel keep (st_mz t) ∧
    st_intensity t' = Np.sel keep (st_intensity t) ∧
    st_cluster t' = reindex_cluster (Np.sel keep (st_cluster t)) ∧
    length (st_cluster t') = length (st_mz t') ∧
    length (st_mz t') = Np.count_true keep ∧
    reindexed_ids (st_cluster t').
Proof.
  intros (H1 & H2 & H3 & H4) Hc keep. unfold keep_clustered. fold keep.
  assert (length keep = length (st_mz t)) as Hk by (unfold keep; by rewrite length_map).
  unfold bool_index. rewrite !decide_True by lia. cbn [mbind result_bind].
  eexists. split; [done|]. simpl.
  split; [unfold table_wf; simpl; rewrite !sel_length by lia; done|].
  split; [done|]. split; [done|]. split; [done|].
  split; [by rewrite reindex_length, !sel_length by lia|].
  split; [by rewrite sel_length by lia|].
  eexists. apply reindex_unique.
Qed.

Lemma count_true_filter_pos (cluster : list Z) (min_signals_per_cluster : Z) c :
  c ∈ cluster → (0 ≤ c)%Z → (min_signals_per_cluster ≤ Z.of_nat (Np.count c cluster))%Z →
  0 < Np.count_true
        (map (λ c, (0 <=? c)%Z)
           (map (λ c, if (Z.of_nat (Np.count c cluster) <? min_signals_per_cluster)%Z
                      then (-1)%Z else c) cluster)).
Proof.
  intros [p Hp]%list_elem_of_lookup Hc Hmin. apply count_true_pos. exists p.
  change (map ?g ?l) with (g <$> l). rewrite !list_lookup_fmap, Hp. simpl.
  destruct (Z.ltb_spec (Z.of_nat (Np.count c cluster)) min_signals_per_cluster); [lia|].
  f_equal. by apply Z.leb_le.
Qed.

(** The stages up to the refinement, on the spectra the pipeline is
    meant for: the table that reaches [refine_clustering] has reindexed
    ids, positive intensities and masses in range, and is not empty as
    soon as a crude cluster has [min_signals_per_cluster] signals. *)
Lemma crude_stage_spec sample (msData : list scan) min_difference_ppm
    min_signals_per_cluster :
  msData ≠ [] → Forall scan_wf msData →
  ∃ t crude, crude_stage sample msData min_difference_ppm min_signals_per_cluster = Ok t ∧
    crude_cluster_mz_list sample (flat_map scan_mz msData) (flat_map scan_spint msData)
      min_difference_ppm = Ok crude ∧
    table_wf t ∧ length (st_cluster t) = length (st_mz t) ∧
    reindexed_ids (st_cluster t) ∧
    Forall (λ x, 0 < x)%Q (st_intensity t) ∧
    Forall (λ m, 0 < m ∧ m < 1000000)%Q (st_mz t) ∧
    length (st_mz t) ≤ length (flat_map scan_mz msData) ∧
    ((∃ c, c ∈ crude ∧ (min_signals_per_cluster ≤ Z.of_nat (Np.count c crude))%Z) →
     st_cluster t ≠ []) ∧
    ((∀ c, c ∈ crude → (Z.of_nat (Np.count c crude) < min_signals_per_cluster)%Z) →
     st_cluster t = []).
Proof.
  intros Hne Hwf. unfold crude_stage.
  destruct (table_of_spectra_spec sample msData Hne Hwf) as (t0 & Ht0 & Hwf0 & Hmz0 & Hint0 & Hrng0).
  rewrite Ht0. cbn [mbind result_bind].
  assert (st_intensity t0 = flat_map scan_spint msData) as Hi0.
  { unfold table_of_spectra in Ht0. destruct msData; [done|]. by injection Ht0 as <-. }
  destruct (crude_cluster_reindexed sample (st_mz t0) (st_intensity t0) min_difference_ppm)
    as (crude & Hcrude & Hclen & Hre); [by destruct Hwf0 as (_ & _ & _ & ?)|].
  rewrite Hcrude. cbn [mbind result_bind].
  rewrite (min_signals_filter_spec crude min_signals_per_cluster Hre).
  cbn [mbind result_bind].
  set (filtered := map (λ c, if (Z.of_nat (Np.count c crude) <? min_signals_per_cluster)%Z
                             then (-1)%Z else c) crude).
  destruct (keep_clustered_spec (with_cluster t0 filtered))
    as (t & Ht & Hwf1 & Hmz1 & Hint1 & Hcl1 & Hlen1 & Hcount1 & Hre1).
  { done. }
  { simpl. unfold filtered. by rewrite length_map. }
  simpl in Hmz1, Hint1, Hcl1, Hcount1.
  exists t, crude. split; [done|]. split; [by rewrite <- Hmz0, <- Hi0|].
  split; [done|]. split; [done|]. split; [done|].
  split; [rewrite Hint1; by apply sel_Forall|].
  split; [rewrite Hmz1; by apply sel_Forall|].
  split.
  { rewrite Hcount1, <- Hmz0, <- Hclen.
    pose proof (count_true_le_length [] (map (λ c, (0 <=? c)%Z) filtered)) as Hle.
    unfold filtered in Hle at 2. by rewrite !length_map in Hle. }
  split.
  - intros (c & Hc & Hmin) Hnil.
    assert (0 < length (st_cluster t)) as Hpos; [|rewrite Hnil in Hpos; simpl in Hpos; lia].
    rewrite Hlen1, Hcount1. apply (count_true_filter_pos crude _ c); [done| |done].
    destruct (reindexed_dense crude Hre) as [Hnn _].
    by eapply Forall_forall in Hnn.
  - intros Hsmall. apply length_zero_iff_nil. rewrite Hlen1, Hcount1.
    destruct (Np.count_true (map (λ c, (0 <=? c)%Z) filtered)) eqn:E; [done|].
    assert (0 < Np.count_true (map (λ c, (0 <=? c)%Z) filtered)) as Hpos by lia.
    apply count_true_pos in Hpos as [p Hp].
    unfold filtered in Hp. change (map ?g ?l) with (g <$> l) in Hp.
    rewrite !list_lookup_fmap in Hp.
    destruct (crude !! p) as [c|] eqn:Ec; [|done]. simpl in Hp.
    specialize (Hsmall c ltac:(by eapply list_elem_of_lookup_2)).
    destruct (Z.ltb_spec (Z.of_nat (Np.count c crude)) min_signals_per_cluster); [|lia].
    done.
Qed.

(** [collapse_mz_info] returns on dense ids, with ascending masses. *)
Lemma collapse_mz_info_sorted (mz intensity : list Q) (cluster : list Z) (k : nat)
    (method : string) :
  length intensity = length mz → length cluster = length mz →
  dense_ids cluster k →
  method = "sum"%string ∨ method = "average"%string →
  ∃ mzs ints,
    collapse_mz_info mz intensity cluster method = Ok (mzs, ints) ∧
    length mzs = k ∧ length ints = k ∧ Sorted Qle mzs.
Proof.
  intros Hlen_int Hlen_cl Hdense Hmethod. unfold collapse_mz_info.
  pose proof (dense_ids_unique cluster k Hdense) as Hu. simpl in Hu. rewrite Hu. clear Hu.
  rewrite !length_fmap, !length_seq.
  destruct (collapse_loop mz intensity cluster k Hlen_int Hlen_cl Hdense (length mz) 0
              (replicate k 0%Q, replicate k 0%Q) eq_refl (collapse_state_0 _ _ _ _))
    as ([A B] & -> & HlenA & HlenB & _).
  cbn [mbind result_bind]. simpl in HlenA, HlenB.
  set (mz_ := zip_with Qdiv A B).
  set (ns := (λ j, Np.count (Z.of_nat j) cluster) <$> seq 0 k).
  set (ints_ := if String.eqb method "sum" then B
                else zip_with (λ x n, x / inject_Z (Z.of_nat n))%Q B ns).
  assert (Hints : (if String.eqb method "sum" then Ok B
     else if String.eqb method "average"
          then Ok (zip_with (λ x n, x / inject_Z (Z.of_nat n))%Q B ns)
          else if String.eqb method "max"
               then match B with [] => Raise ValueError | _ :: _ => Raise IndexError end
               else Raise (RuntimeError
       "Unknown option for parameter intensity_collapse_method, allowed are 'sum' and 'average'"))
     = Ok ints_).
  { unfold ints_. by destruct Hmethod as [-> | ->]. }
  rewrite Hints. cbn [mbind result_bind].
  assert (Hlen_mz_ : length mz_ = k).
  { unfold mz_. rewrite length_zip_with. lia. }
  assert (Hlen_ints : length ints_ = k).
  { unfold ints_. destruct (String.eqb method "sum"); [done|].
    rewrite length_zip_with. unfold ns. rewrite length_fmap, length_seq. lia. }
  set (ord := NpSort.argsort Qle_bool mz_).
  assert (Hperm : ord ≡ₚ seq 0 k).
  { unfold ord. rewrite argsort_perm. by rewrite Hlen_mz_. }
  pose proof (take_idx_argsort Qle_bool mz_) as Htake. fold ord in Htake.
  rewrite Htake. cbn [mbind result_bind].
  destruct (take_idx_Ok ints_ ord) as (ints & -> & Hlen_out & _).
  { rewrite Hperm, Hlen_ints. apply Forall_forall. intros i Hi. apply elem_of_seq in Hi. lia. }
  cbn [mbind result_bind].
  eexists _, ints. split; [done|]. split.
  { rewrite length_fmap. rewrite (Permutation_length (ksort_perm _ _)).
    rewrite length_zip, length_seq. lia. }
  split. { rewrite Hlen_out. unfold ord. by rewrite argsort_length. }
  apply Sorted_Qle_bool. apply (argsort_sorted Qle_bool Qle_bool_total).
Qed.

Lemma checks_loop (msData : list scan) (t : signal_table) (checks : list quality_check) :
  table_wf t → Forall (λ x, 0 < x)%Q (st_intensity t) →
  Forall (check_total msData) checks →
  ∀ cluster, length cluster = length (st_mz t) →
  ∃ out, for_each (λ cluster check, check msData (with_cluster t cluster)) checks cluster
         = Ok out ∧ length out = length (st_mz t).
Proof.
  intros Hwf Hpos Hall. induction Hall as [|check checks Hcheck Hall IH]; intros cluster Hlen.
  - by exists cluster.
  - cbn [for_each]. destruct (Hcheck t cluster Hwf Hpos Hlen) as (out1 & -> & Hlen1).
    cbn [mbind result_bind]. apply IH. lia.
Qed.

(** The export on a table without signals, and on a table of the
    pipeline with signals. *)
Lemma featureML_export_empty (t : signal_table) :
  st_time t = [] → featureML_export t = Raise ValueError.
Proof. intros H. unfold featureML_export. by rewrite H. Qed.

Lemma featureML_cluster_Ok (t : signal_table) (minRT maxRT : Q) features c :
  length (st_intensity t) = length (st_mz t) →
  length (st_cluster t) = length (st_mz t) →
  Forall (λ x, 0 < x)%Q (st_intensity t) → c ∈ st_cluster t →
  ∃ features', featureML_cluster t minRT maxRT features c = Ok features'.
Proof.
  intros Hint Hcl Hpos Hc. unfold featureML_cluster, bool_index.
  rewrite !decide_True by (rewrite eq_mask_length; lia).
  cbn [mbind result_bind].
  set (mzs := Np.sel (Np.eq_mask c (st_cluster t)) (st_mz t)).
  set (ints := Np.sel (Np.eq_mask c (st_cluster t)) (st_intensity t)).
  assert (ints ≠ []) as Hints by (apply sel_eq_mask_nonempty; [lia|done]).
  assert (mzs ≠ []) as Hmzs by (apply sel_eq_mask_nonempty; [lia|done]).
  assert (0 < Qsum ints)%Q as Hsum.
  { apply fold_Qplus_pos; [lra| |done]. unfold ints. by apply sel_Forall. }
  unfold np_average_weights.
  assert (Qeq_bool (Qsum ints) 0 = false) as ->.
  { destruct (Qeq_bool (Qsum ints) 0) eqn:E; [|done]. apply Qeq_bool_iff in E. lra. }
  cbn [mbind result_bind]. unfold np_min, np_max.
  destruct mzs as [|m0 mzs']; [done|]. cbn [mbind result_bind]. by eexists.
Qed.

Lemma featureML_export_Ok (t : signal_table) :
  table_wf t → length (st_cluster t) = length (st_mz t) →
  Forall (λ x, 0 < x)%Q (st_intensity t) → st_mz t ≠ [] →
  ∃ features, featureML_export t = Ok features.
Proof.
  intros (_ & _ & Htime & Hint) Hcl Hpos Hne. unfold featureML_export.
  destruct (st_time t) as [|t0 times] eqn:Et.
  { destruct (st_mz t); [done|]. simpl in Htime. lia. }
  cbn [np_min np_max mbind result_bind].
  assert (∀ ids acc, (∀ c, c ∈ ids → c ∈ st_cluster t) →
            ∃ features,
              for_each (featureML_cluster t (NpRed.min (t0 :: times)) (NpRed.max (t0 :: times)))
                       ids acc = Ok features) as Hloop.
  { intros ids. induction ids as [|c ids IH]; intros acc Hsub; cbn [for_each].
    - by exists acc.
    - destruct (featureML_cluster_Ok t (NpRed.min (t0 :: times)) (NpRed.max (t0 :: times))
                  acc c Hint Hcl Hpos) as [acc' ->]; [apply Hsub; by left|].
      cbn [mbind result_bind]. apply IH. intros c' Hc'. apply Hsub. by right. }
  apply Hloop. intros c Hc. by apply unique_elem.
Qed.

(** The stages after the refinement, with quality checks that return
    one id per signal: without the export they return a spectrum, and
    with it they return the same spectrum, unless no signal is left. *)
Lemma collapse_stage_spec (checks : list quality_check) (msData : list scan)
    (t : signal_table) (r : list Z) min_signals_per_cluster (method : string) :
  msData ≠ [] → table_wf t → Forall (λ x, 0 < x)%Q (st_intensity t) →
  length r = length (st_mz t) →
  Forall (check_total msData) checks →
  method = "sum"%string ∨ method = "average"%string →
  ∃ mzs ints first last,
    collapse_stage checks msData t r min_signals_per_cluster method false
    = Ok (mzs, ints, scan_time first, scan_time last) ∧
    msData !! 0 = Some first ∧ msData !! (length msData - 1) = Some last ∧
    length ints = length mzs ∧ Sorted Qle mzs ∧
    collapse_stage checks msData t r min_signals_per_cluster method true
    = match mzs with
      | [] => Raise ValueError
      | _ => Ok (mzs, ints, scan_time first, scan_time last)
      end.
Proof.
  intros Hne Hwf Hpos Hlen Hchecks Hmethod. unfold collapse_stage.
  assert (reindexed_ids (reindex_cluster r)) as Hre by (eexists; apply reindex_unique).
  rewrite (min_signals_filter_spec _ min_signals_per_cluster Hre).
  cbn [mbind result_bind].
  set (filtered := map _ (reindex_cluster r)).
  destruct (checks_loop msData t checks Hwf Hpos Hchecks filtered) as (checked & -> & Hclen).
  { unfold filtered. by rewrite length_map, reindex_length. }
  cbn [mbind result_bind].
  destruct (keep_clustered_spec (with_cluster t checked))
    as (t' & -> & Hwf' & _ & Hint' & _ & Hlen' & _ & Hre').
  { done. }
  { done. }
  cbn [mbind result_bind].
  destruct (reindexed_dense _ Hre') as [_ (k & Hdense & Hk)].
  destruct (collapse_mz_info_sorted (st_mz t') (st_intensity t') (st_cluster t') k method)
    as (mzs & ints & -> & Hl1 & Hl2 & Hsorted); [by destruct Hwf' as (_ & _ & _ & ?)|done..|].
  cbn [mbind result_bind].
  destruct (lookup_lt_is_Some_2 msData 0) as [first Hfirst].
  { destruct msData; [done|simpl; lia]. }
  destruct (lookup_lt_is_Some_2 msData (length msData - 1)) as [last Hlast].
  { destruct msData; [done|simpl; lia]. }
  unfold at_index. rewrite Hfirst, Hlast. cbn [mbind result_bind].
  exists mzs, ints, first, last. split; [done|]. split; [done|]. split; [done|].
  split; [lia|]. split; [done|].
  destruct (st_cluster t') as [|c0 cl] eqn:Ecl.
  - assert (k = 0) as ->.
    { destruct Hdense as [_ Hall]. destruct k as [|k]; [done|].
      specialize (Hall 0 ltac:(lia)). by apply elem_of_nil in Hall. }
    destruct mzs; [|done].
    rewrite featureML_export_empty; [done|].
    destruct Hwf' as (_ & _ & Htime & _). simpl in Hlen'.
    destruct (st_time t'); [done|]. simpl in Htime. lia.
  - specialize (Hk ltac:(done)).
    destruct (featureML_export_Ok t') as [features ->].
    + done.
    + by rewrite Ecl.
    + simpl in Hint'. rewrite Hint'. by apply sel_Forall.
    + intros Hnil. rewrite Hnil in Hlen'. done.
    + cbn [mbind result_bind]. destruct mzs; [simpl in Hl1; lia|done].
Qed.

(** X17.  The consensus spectrum of a sample.  For a sample with at least
    one spectrum, positive intensities, masses in (0, 1E6), and a crude
    cluster of at least [min_signals_per_cluster] signals, the stages
    of [calculate_concensus_spectra_per_sample] compose: with the rule
    ['sum'] or ['average'], quality checks that return one id per
    signal, and fuel above the number of signals, the body of the loop
    called with [exportAsFeatureML = False] returns a consensus
    spectrum with as many intensities as masses, masses in ascending
    order, and the times of the first and the last spectrum as
    [startRT] and [endRT].  With [exportAsFeatureML = True], the
    default, it returns the same spectrum when some cluster is left
    after the refinement, the size filter and the checks, and raises
    [ValueError] ([np.min] of the empty array of times) when none is,
    where the call without export returns the empty spectrum. *)
Theorem calculate_concensus_spectrum_returns (fuel : nat)
    (cluster_quality_check_functions : list quality_check) (sample : string)
    (msData : list scan) (min_difference_ppm : Q) (min_signals_per_cluster : Z)
    (aggregation_function : string) crude c :
  msData ≠ [] → Forall scan_wf msData →
  Forall (check_total msData) cluster_quality_check_functions →
  aggregation_function = "sum"%string ∨ aggregation_function = "average"%string →
  crude_cluster_mz_list sample (flat_map scan_mz msData) (flat_map scan_spint msData)
    min_difference_ppm = Ok crude →
  c ∈ crude → (min_signals_per_cluster ≤ Z.of_nat (Np.count c crude))%Z →
  length (flat_map scan_mz msData) < fuel →
  ∃ mzs ints first last,
    calculate_concensus_spectrum fuel cluster_quality_check_functions sample msData
      min_difference_ppm min_signals_per_cluster aggregation_function false
    = Some (Ok (mzs, ints, scan_time first, scan_time last)) ∧
    msData !! 0 = Some first ∧ msData !! (length msData - 1) = Some last ∧
    length ints = length mzs ∧ Sorted Qle mzs ∧
    calculate_concensus_spectrum fuel cluster_quality_check_functions sample msData
      min_difference_ppm min_signals_per_cluster aggregation_function true
    = match mzs with
      | [] => Some (Raise ValueError)
      | _ => Some (Ok (mzs, ints, scan_time first, scan_time last))
      end.
Proof.
  intros Hne Hwf Hchecks Hmethod Hcrude Hc Hmin Hfuel. unfold calculate_concensus_spectrum.
  destruct (crude_stage_spec sample msData min_difference_ppm min_signals_per_cluster Hne Hwf)
    as (t & crude' & -> & Hcrude' & Hwft & Hlen & Hre & Hint & Hrng & Hle & Hnonempty & _).
  rewrite Hcrude in Hcrude'. injection Hcrude' as <-.
  assert (refine_input (st_mz t) (st_intensity t) (st_cluster t)) as Hin.
  { split; [by destruct Hwft as (_ & _ & _ & ?)|done| |done|done].
    apply Hnonempty. by exists c. }
  destruct (refine_clustering_spec (st_mz t) (st_intensity t) (st_cluster t) 15 None Hin
              fuel sample (map Z.of_nat (st_spectrumInd t)) 15 ltac:(lia))
    as (r & -> & Hrlen & _).
  destruct (collapse_stage_spec cluster_quality_check_functions msData t r
              min_signals_per_cluster aggregation_function
              Hne Hwft Hint ltac:(lia) Hchecks Hmethod)
    as (mzs & ints & first & last & -> & ? & ? & ? & ? & ->).
  exists mzs, ints, first, last. repeat (split; [done|]). by destruct mzs.
Qed.

(** Three spectra with one signal near 100 each: the consensus
    spectrum has one signal, with or without the export. *)
Lemma calculate_concensus_spectrum_returns_witness :
  ∃ mzs ints first last,
    calculate_concensus_spectrum 5 [] "spot" example_spot 30 2 "sum" true
    = Some (Ok (mzs, ints, scan_time first, scan_time last)) ∧
    length ints = length mzs ∧ mzs ≠ [].
Proof.
  destruct (calculate_concensus_spectrum_returns 5 [] "spot" example_spot 30 2 "sum"
              [0; 1; 0; 0]%Z 0%Z)
    as (mzs & ints & first & last & Hrun & _ & _ & Hlen & _ & Hexport).
  - discriminate.
  - repeat (apply Forall_cons_2;
      [split; [reflexivity|split;
         [repeat (apply Forall_cons_2; [reflexivity|]); constructor
         |repeat (apply Forall_cons_2; [split; reflexivity|]); constructor]]|]).
    constructor.
  - constructor.
  - left. reflexivity.
  - reflexivity.
  - apply elem_of_cons. left. reflexivity.
  - vm_compute. discriminate.
  - simpl. lia.
  - assert (mzs ≠ []) as Hne.
    { vm_compute in Hrun. injection Hrun as <- _ _ _. discriminate. }
    exists mzs, ints, first, last. split; [|split; [exact Hlen|exact Hne]].
    rewrite Hexport. clear Hrun Hexport.
    destruct mzs as [|m mzs]; [exfalso; apply Hne; reflexivity|reflexivity].
Defined.

Example calculate_concensus_spectrum_no_cluster_left :
  calculate_concensus_spectrum 5 [] "spot" example_two_scans 30 2 "sum" false
  = Some (Ok ([], [], 1, 2)%Q)
  ∧ calculate_concensus_spectrum 5 [] "spot" example_two_scans 30 2 "sum" true
    = Some (Raise ValueError).
Proof. split; reflexivity. Qed.

(** X18.  A sample in which no crude cluster reaches
    [min_signals_per_cluster] signals (in particular a sample with
    fewer signals than that) makes the body of the loop raise
    [ValueError]: every signal is dropped before the refinement, and
    [refine_clustering] takes [np.max] of an empty array. *)
Theorem calculate_concensus_spectrum_too_few_signals (fuel : nat)
    (cluster_quality_check_functions : list quality_check) (sample : string)
    (msData : list scan) (min_difference_ppm : Q) (min_signals_per_cluster : Z)
    (aggregation_function : string) crude :
  msData ≠ [] → Forall scan_wf msData →
  crude_cluster_mz_list sample (flat_map scan_mz msData) (flat_map scan_spint msData)
    min_difference_ppm = Ok crude →
  (∀ c, c ∈ crude → (Z.of_nat (Np.count c crude) < min_signals_per_cluster)%Z) →
  ∀ exportAsFeatureML,
  calculate_concensus_spectrum fuel cluster_quality_check_functions sample msData
    min_difference_ppm min_signals_per_cluster aggregation_function exportAsFeatureML
  = Some (Raise ValueError).
Proof.
  intros Hne Hwf Hcrude Hsmall exportAsFeatureML. unfold calculate_concensus_spectrum.
  destruct (crude_stage_spec sample msData min_difference_ppm min_signals_per_cluster Hne Hwf)
    as (t & crude' & -> & Hcrude' & _ & _ & _ & _ & _ & _ & _ & Hempty).
  rewrite Hcrude in Hcrude'. injection Hcrude' as <-.
  by rewrite (Hempty Hsmall).
Qed.

Lemma calculate_concensus_spectrum_too_few_signals_witness :
  calculate_concensus_spectrum 5 [] "spot" example_spot 30 10 "sum" true
  = Some (Raise ValueError).
Proof.
  refine (calculate_concensus_spectrum_too_few_signals 5 [] "spot" example_spot 30 10 "sum"
            [0; 1; 0; 0]%Z _ _ _ _ true).
  - discriminate.
  - repeat (apply Forall_cons_2;
      [split; [reflexivity|split;
         [repeat (apply Forall_cons_2; [reflexivity|]); constructor
         |repeat (apply Forall_cons_2; [split; reflexivity|]); constructor]]|]).
    constructor.
  - reflexivity.
  - intros c Hc. apply list_elem_of_In in Hc. simpl in Hc.
    destruct Hc as [<-|[<-|[<-|[<-|[]]]]]; vm_compute; reflexivity.
Defined.

(** ** cluster_quality_check_function__ppmDeviationCheck *)

Lemma set_mask_remove_clusters (cluster : list Z) removed c :
  Np.set_mask (Np.eq_mask c cluster) (-1)%Z (remove_clusters removed cluster)
  = remove_clusters (removed ++ [c]) cluster.
Proof.
  unfold Np.set_mask, Np.eq_mask, remove_clusters.
  induction cluster as [|x cl IH]; simpl; [done|]. rewrite IH. f_equal.
  destruct (Z.eqb_spec c x) as [->|Hne].
  - rewrite (bool_decide_eq_true_2 (x ∈ removed ++ [x])); [done|].
    apply elem_of_app. right. by apply list_elem_of_singleton.
  - destruct (bool_decide_reflect (x ∈ removed)) as [Hx|Hx].
    + rewrite bool_decide_eq_true_2; [done|]. apply elem_of_app. by left.
    + rewrite bool_decide_eq_false_2; [done|].
      intros [?|Hin%list_elem_of_singleton]%elem_of_app; [done|]. by subst.
Qed.

Lemma eq_mask_remove_clusters (cluster : list Z) removed c :
  (0 ≤ c)%Z → c ∉ removed →
  Np.eq_mask c (remove_clusters removed cluster) = Np.eq_mask c cluster.
Proof.
  intros Hc Hnin. unfold Np.eq_mask, remove_clusters. rewrite map_map.
  apply map_ext. intros x. destruct (bool_decide_reflect (x ∈ removed)) as [Hx|Hx]; [|done].
  destruct (Z.eqb_spec c (-1)); [lia|]. destruct (Z.eqb_spec c x) as [->|]; done.
Qed.

(** A loop over the cluster ids that replaces the ids it rejects by the
    sentinel. *)
Lemma cluster_filter_loop (step : list Z → Z → result (list Z)) (bad : Z → bool)
    (cluster0 : list Z) :
  (∀ removed c, c ∈ cluster0 → c ∉ removed →
     step (remove_clusters removed cluster0) c
     = Ok (remove_clusters (removed ++ (if bad c then [c] else [])) cluster0)) →
  ∀ ids removed,
    NoDup ids → (∀ c, c ∈ ids → c ∈ cluster0) → (∀ c, c ∈ removed → c ∉ ids) →
    for_each step ids (remove_clusters removed cluster0)
    = Ok (remove_clusters (removed ++ List.filter bad ids) cluster0).
Proof.
  intros Hstep ids.
  induction ids as [|c ids IH]; intros removed Hnd Hsub Hdisj; cbn [for_each List.filter].
  - by rewrite app_nil_r.
  - apply NoDup_cons in Hnd as [Hc Hnd].
    rewrite Hstep.
    + cbn [mbind result_bind]. rewrite IH.
      * destruct (bad c); [by rewrite <- app_assoc|by rewrite app_nil_r].
      * done.
      * intros c' Hc'. apply Hsub. by right.
      * intros c' [Hin|Hin]%elem_of_app.
        -- intros Hc'. eapply Hdisj; [done|]. by right.
        -- destruct (bad c); [|by apply elem_of_nil in Hin].
           apply list_elem_of_singleton in Hin as ->. done.
    + apply Hsub. by left.
    + intros Hin. eapply Hdisj; [done|]. by left.
Qed.

Lemma ppm_step (weighted_ppm_std : list Q → list Q → result xfloat)
    (mz intensity : list Q) (max_weighted_ppm_deviation : Q) (cluster0 : list Z) removed c :
  (∀ c, c ∈ cluster0 → (0 ≤ c)%Z →
        ∃ v, weighted_ppm_std (Np.sel (Np.eq_mask c cluster0) mz)
                              (Np.sel (Np.eq_mask c cluster0) intensity) = Ok v) →
  length intensity = length mz → length cluster0 = length mz →
  c ∈ cluster0 → c ∉ removed →
  ppmDeviationCheck_cluster weighted_ppm_std mz intensity max_weighted_ppm_deviation
    (remove_clusters removed cluster0) c
  = Ok (remove_clusters
          (removed ++
           (if ppm_deviation_exceeded weighted_ppm_std mz intensity
                 max_weighted_ppm_deviation cluster0 c then [c] else []))
          cluster0).
Proof.
  intros Hstat Hlen_int Hlen_cl Hc Hnin.
  unfold ppmDeviationCheck_cluster, ppm_deviation_exceeded.
  destruct (Z.leb_spec 0 c) as [Hc0|Hc0]; simpl; [|by rewrite app_nil_r].
  rewrite (eq_mask_remove_clusters cluster0 removed c Hc0 Hnin).
  unfold bool_index. rewrite !decide_True by (rewrite eq_mask_length; lia).
  cbn [mbind result_bind].
  assert (0 < length (Np.sel (Np.eq_mask c cluster0) mz)) as Hpos.
  { destruct (Np.sel (Np.eq_mask c cluster0) mz) eqn:E; [|simpl; lia].
    by apply (sel_eq_mask_nonempty cluster0 mz c Hlen_cl) in Hc. }
  destruct (Nat.ltb_spec 0 (length (Np.sel (Np.eq_mask c cluster0) mz))); [|lia].
  destruct (Hstat c Hc Hc0) as [v ->].
  cbn [mbind result_bind].
  destruct (xfloat_gt v (Fin max_weighted_ppm_deviation)).
  - by rewrite set_mask_remove_clusters.
  - by rewrite app_nil_r.
Qed.

Lemma remove_clusters_nil (cluster : list Z) : remove_clusters [] cluster = cluster.
Proof.
  unfold remove_clusters. rewrite <- (map_id cluster) at 2. apply map_ext. intros c.
  rewrite bool_decide_eq_false_2; [done|]. apply not_elem_of_nil.
Qed.

(** X19.  The deviation check removes whole clusters and does nothing
    else: when the statistic is defined on every cluster of the input
    (on the masses and intensities of every non-negative id), the
    check returns the ids of its input with exactly the non-negative
    ids whose weighted deviation exceeds [max_weighted_ppm_deviation]
    replaced by [-1]; a comparison with [NaN] keeps the cluster. *)
Theorem ppmDeviationCheck_removes_whole_clusters
    (weighted_ppm_std : list Q → list Q → result xfloat)
    (max_weighted_ppm_deviation : Q) (msDataObj : list scan) (t : signal_table) :
  (∀ c, c ∈ st_cluster t → (0 ≤ c)%Z →
        ∃ v, weighted_ppm_std (Np.sel (Np.eq_mask c (st_cluster t)) (st_mz t))
                              (Np.sel (Np.eq_mask c (st_cluster t)) (st_intensity t))
             = Ok v) →
  length (st_intensity t) = length (st_mz t) →
  length (st_cluster t) = length (st_mz t) →
  cluster_quality_check_function__ppmDeviationCheck weighted_ppm_std
    max_weighted_ppm_deviation msDataObj t
  = Ok (remove_clusters
          (List.filter (ppm_deviation_exceeded weighted_ppm_std (st_mz t) (st_intensity t)
                          max_weighted_ppm_deviation (st_cluster t))
                       (Np.unique (st_cluster t)))
          (st_cluster t)).
Proof.
  intros Hstat Hli Hlc. unfold cluster_quality_check_function__ppmDeviationCheck.
  rewrite <- (remove_clusters_nil (st_cluster t)) at 2.
  rewrite (cluster_filter_loop _
             (ppm_deviation_exceeded weighted_ppm_std (st_mz t) (st_intensity t)
                max_weighted_ppm_deviation (st_cluster t))
             (st_cluster t)).
  - done.
  - intros removed c Hc Hnin. by apply ppm_step.
  - apply unique_NoDup.
  - intros c Hc. by apply unique_elem.
  - intros c Hc. by apply elem_of_nil in Hc.
Qed.

Lemma ppmDeviationCheck_removes_whole_clusters_witness :
  ∃ out,
    cluster_quality_check_function__ppmDeviationCheck example_ppm_std 15 []
      example_signal_table = Ok out.
Proof.
  eexists.
  apply (ppmDeviationCheck_removes_whole_clusters example_ppm_std 15 [] example_signal_table).
  - intros c Hc _. apply list_elem_of_In in Hc. simpl in Hc.
    destruct Hc as [<-|[<-|[<-|[]]]]; eexists; reflexivity.
  - reflexivity.
  - reflexivity.
Defined.

Example ppmDeviationCheck_example :
  cluster_quality_check_function__ppmDeviationCheck example_ppm_std 15 []
    example_signal_table = Ok [0; -1; -1]%Z.
Proof. reflexivity. Qed.

(** ** cluster_quality_check_function__peak_form *)

Lemma eic_add_length refTimes eic t x :
  length eic = length refTimes → length (eic_add refTimes eic t x) = length refTimes.
Proof. intros H. unfold eic_add. rewrite length_zip_with. lia. Qed.

Lemma cluster_eic_Ok (refTimes times ints : list Q) :
  length times = length ints →
  ∃ eic, cluster_eic refTimes times ints = Ok eic ∧ length eic = length refTimes.
Proof.
  intros Hlen. unfold cluster_eic.
  assert (∀ inds eic0, Forall (λ i, i < length ints) inds → length eic0 = length refTimes →
            ∃ eic, for_each (λ eic i, t ← at_index times i; x ← at_index ints i;
                                       Ok (eic_add refTimes eic t x)) inds eic0 = Ok eic ∧
                   length eic = length refTimes) as Hloop.
  { intros inds. induction inds as [|i inds IH]; intros eic0 Hall Hl; cbn [for_each].
    - by exists eic0.
    - apply Forall_cons in Hall as [Hi Hall].
      destruct (lookup_lt_is_Some_2 times i) as [t Ht]; [lia|].
      destruct (lookup_lt_is_Some_2 ints i) as [x Hx]; [lia|].
      unfold at_index. rewrite Ht, Hx. cbn [mbind result_bind].
      apply IH; [done|]. by apply eic_add_length. }
  apply Hloop.
  - apply Forall_forall. intros i Hi%elem_of_seq. lia.
  - apply length_replicate.
Qed.

(** X20.  The peak-form check removes whole clusters and does nothing
    else: on a sample with a reference peak and arrays of one length,
    it returns the ids of its input with exactly the non-negative ids
    whose chronogram correlates with the reference below
    [min_correlation_for_cutoff] replaced by [-1]; a correlation that
    is [NaN] keeps the cluster. *)
Theorem peak_form_removes_whole_clusters
    (reference_peak : list Q → result (list Q)) (corrcoef : list Q → list Q → xfloat)
    (min_correlation_for_cutoff : Q) (msDataObj : list scan) (t : signal_table) refEIC :
  reference_peak (map scan_time msDataObj) = Ok refEIC →
  table_wf t → length (st_cluster t) = length (st_mz t) →
  cluster_quality_check_function__peak_form reference_peak corrcoef
    min_correlation_for_cutoff msDataObj t
  = Ok (remove_clusters
          (List.filter (peak_form_rejected corrcoef (map scan_time msDataObj) refEIC
                          (st_time t) (st_intensity t) min_correlation_for_cutoff
                          (st_cluster t))
                       (Np.unique (st_cluster t)))
          (st_cluster t)).
Proof.
  intros Href (_ & _ & Hlt & Hli) Hlc. unfold cluster_quality_check_function__peak_form.
  rewrite Href. cbn [mbind result_bind].
  rewrite <- (remove_clusters_nil (st_cluster t)) at 2.
  rewrite (cluster_filter_loop _
             (peak_form_rejected corrcoef (map scan_time msDataObj) refEIC
                (st_time t) (st_intensity t) min_correlation_for_cutoff (st_cluster t))
             (st_cluster t)).
  - done.
  - intros removed c Hc Hnin. unfold peak_form_cluster, peak_form_rejected.
    destruct (Z.leb_spec 0 c) as [Hc0|Hc0]; simpl; [|by rewrite app_nil_r].
    rewrite (eq_mask_remove_clusters (st_cluster t) removed c Hc0 Hnin).
    unfold bool_index. rewrite !decide_True by (rewrite eq_mask_length; lia).
    cbn [mbind result_bind].
    assert (0 < length (Np.sel (Np.eq_mask c (st_cluster t)) (st_mz t))) as Hpos.
    { destruct (Np.sel (Np.eq_mask c (st_cluster t)) (st_mz t)) eqn:E; [|simpl; lia].
      by apply (sel_eq_mask_nonempty (st_cluster t) (st_mz t) c Hlc) in Hc. }
    destruct (Nat.ltb_spec 0 (length (Np.sel (Np.eq_mask c (st_cluster t)) (st_mz t))));
      [|lia].
    destruct (cluster_eic_Ok (map scan_time msDataObj)
                (Np.sel (Np.eq_mask c (st_cluster t)) (st_time t))
                (Np.sel (Np.eq_mask c (st_cluster t)) (st_intensity t))) as (eic & -> & _).
    { rewrite !sel_length by (rewrite eq_mask_length; lia). done. }
    cbn [mbind result_bind].
    destruct (xfloat_gt _ _).
    + by rewrite set_mask_remove_clusters.
    + by rewrite app_nil_r.
  - apply unique_NoDup.
  - intros c Hc. by apply unique_elem.
  - intros c Hc. by apply elem_of_nil in Hc.
Qed.

Lemma peak_form_removes_whole_clusters_witness :
  ∃ out,
    cluster_quality_check_function__peak_form example_reference_peak example_corrcoef 2
      example_spot example_signal_table = Ok out.
Proof.
  eexists.
  apply (peak_form_removes_whole_clusters example_reference_peak example_corrcoef 2
           example_spot example_signal_table [1; 1; 1]%Q).
  - reflexivity.
  - repeat split.
  - reflexivity.
Defined.

Example peak_form_example :
  cluster_quality_check_function__peak_form example_reference_peak example_corrcoef 2
    example_spot example_signal_table = Ok [-1; 1; 1]%Z.
Proof. reflexivity. Qed.

(** ** bracket_samples and build_data_matrix: no empty column *)

Section bracket_signals.

Variables (p : pool) (max_ppm_deviation : Q).
Hypothesis Hlen : length (pool_mz p) = length (pool_intensity p).
Hypothesis Hint : Forall (λ x, 0 < x)%Q (pool_intensity p).
Hypothesis Hmz : Forall (λ m, 0 < m)%Q (pool_mz p).
Hypothesis Hmax : (0 <= max_ppm_deviation)%Q.

Lemma bracket_loop_signals fuel : ∀ st,
  length (bs_cluster st) = length (pool_intensity p) → (0 < bs_cclust st)%Z →
  Np.count 0 (bs_cluster st) < fuel →
  Forall (info_holds_signal p) (bs_info st) →
  ∃ st', bracket_loop fuel p max_ppm_deviation st = Some (Ok st') ∧
    Forall (info_holds_signal p) (bs_info st').
Proof.
  induction fuel as [|fuel IH]; intros st Hcl Hcc Hfuel Hok; [lia|].
  cbn [bracket_loop].
  destruct (Nat.ltb_spec 0 (Np.count 0 (bs_cluster st))) as [Hpos|Hzero].
  - destruct (bracket_round_info p max_ppm_deviation Hlen Hint Hmz Hmax st Hcl Hpos Hcc)
      as (st1 & m & info & -> & Hm & _ & Hcl1 & Hcc1 & Hdec & Hinfo & _ & _ & Hlo & Hhi).
    apply IH; [done|lia|lia|].
    rewrite Hinfo. apply Forall_app. split; [done|]. apply Forall_singleton.
    exists m. split; [by eapply list_elem_of_lookup_2|done].
  - by exists st.
Qed.

End bracket_signals.

Lemma pool_mz_fold_spectra log10 sample sampleType (spectra : list spectrum) (p : pool) m :
  m ∈ pool_mz (fold_left (λ p sp, pool_app p (pool_of_spectrum log10 sample sampleType sp))
                         spectra p) →
  m ∈ pool_mz p ∨ ∃ sp, sp ∈ spectra ∧ m ∈ spectrum_mz sp.
Proof.
  revert p. induction spectra as [|sp spectra IH]; intros p Hm; simpl in Hm; [by left|].
  destruct (IH _ Hm) as [Hin|(sp' & Hsp' & Hin)].
  - simpl in Hin. apply elem_of_app in Hin as [Hin|Hin]; [by left|].
    right. exists sp. split; [by left|done].
  - right. exists sp'. split; [by right|done].
Qed.

Lemma pool_mz_of_assay log10 (a : assay) m :
  m ∈ pool_mz (pool_of_assay log10 a) →
  ∃ s sp, s ∈ get_sample_names a ∧ sp ∈ get_ms_data a s ∧ m ∈ spectrum_mz sp.
Proof.
  unfold pool_of_assay.
  assert (∀ names p,
    m ∈ pool_mz (fold_left (λ p sample,
                   fold_left (λ p sp, pool_app p (pool_of_spectrum log10 sample
                                                    (get_sample_group a sample) sp))
                             (get_ms_data a sample) p) names p) →
    m ∈ pool_mz p ∨ ∃ s sp, s ∈ names ∧ sp ∈ get_ms_data a s ∧ m ∈ spectrum_mz sp) as H.
  { intros names. induction names as [|s names IH]; intros p Hm; simpl in Hm; [by left|].
    destruct (IH _ Hm) as [Hin|(s' & sp & Hs' & Hsp & Hin)].
    - apply pool_mz_fold_spectra in Hin as [Hin|(sp & Hsp & Hin)]; [by left|].
      right. exists s, sp. split; [by left|done].
    - right. exists s', sp. split; [by right|done]. }
  intros Hm. destruct (H _ _ Hm) as [Hin|?]; [|done]. by apply elem_of_nil in Hin.
Qed.

Lemma window_cell_holds (sp : spectrum) (mzmin mzmax m : Q) :
  m ∈ spectrum_mz sp → (mzmin <= m)%Q → (m <= mzmax)%Q →
  ∃ x, window_cell sp mzmin mzmax = Fin x.
Proof.
  intros [i Hi]%list_elem_of_lookup Hlo Hhi. unfold window_cell.
  assert (0 < Np.count_true (window_mask sp mzmin mzmax)) as Hpos.
  { apply count_true_pos. exists i. unfold window_mask.
    rewrite lookup_zip_with. change (map ?g ?l) with (g <$> l).
    rewrite !list_lookup_fmap, Hi. simpl. f_equal.
    apply andb_true_iff. split; by apply Qle_bool_iff. }
  destruct (Nat.ltb_spec 0 (Np.count_true (window_mask sp mzmin mzmax))); [|lia].
  by eexists.
Qed.

(** The cells of the data matrix. *)
Lemma build_data_matrix_cells {I} (a : assay) (brackets : list (Q * Q * Q * I)) :
  (∀ s, s ∈ get_sample_names a → ∃ sp, get_ms_data a s !! 0 = Some sp) →
  ∃ dataMatrix,
    build_data_matrix a brackets = Ok (get_sample_names a, brackets, dataMatrix) ∧
    ∀ s sp braci mzmin meanmz mzmax info,
      s ∈ get_sample_names a → get_ms_data a s !! 0 = Some sp →
      brackets !! braci = Some (mzmin, meanmz, mzmax, info) →
      ∃ row, row < length (get_sample_names a) ∧
             Mat.get dataMatrix row braci = Ok (window_cell sp mzmin mzmax).
Proof.
  intros Hsamples. unfold build_data_matrix.
  set (names := get_sample_names a). set (rowI := sampleNamesToRowI names).
  destruct (sample_loop_spec a rowI brackets (enumerate names)) with
    (M := Mat.zeros (length names) (length brackets))
    as (M' & HM' & Hwf' & Hs0 & Hs1 & _ & Hrows).
  - intros s s' r Hs Hs'. apply sampleNamesToRowI_Some in Hs, Hs'. congruence.
  - apply zeros_wf.
  - done.
  - intros s Hs. unfold enumerate in Hs. rewrite snd_zip in Hs by (rewrite length_seq; lia).
    destruct (sampleNamesToRowI_elem names s Hs) as [r Hr].
    destruct (Hsamples s Hs) as (sp & Hsp).
    exists r, sp. split; [done|]. split; [|done]. simpl.
    apply sampleNamesToRowI_Some in Hr. by eapply lookup_lt_Some.
  - exists M'. rewrite HM'. cbn [mbind result_bind]. split; [done|].
    intros s sp braci mzmin meanmz mzmax info Hs Hsp Hbr.
    destruct (sampleNamesToRowI_elem names s Hs) as [r Hr].
    exists r. split.
    { apply sampleNamesToRowI_Some in Hr. by eapply lookup_lt_Some. }
    unfold Mat.get. rewrite (Hrows s r sp); [| |done|done].
    + unfold sample_row. rewrite list_lookup_fmap, Hbr. done.
    + unfold enumerate. rewrite snd_zip; [done|]. by rewrite length_seq.
Qed.



(** ** select_top_n_spectra, drop_lower_spectra *)

Lemma delete_loop_all n (l : list nat) : l = [] ∨ 0 < n → delete_loop n l = l.
Proof.
  intros [->|Hn]; [done|]. induction l as [|i l IH]; [done|]. simpl.
  destruct (Nat.ltb_spec 0 n); [|lia]. by rewrite IH.
Qed.

Lemma ssorted_le_NoDup_lt (l : list nat) :
  StronglySorted le l → NoDup l → StronglySorted lt l.
Proof.
  induction 1 as [|x l Hs IH Hall]; intros Hnd; [constructor|].
  apply NoDup_cons in Hnd as [Hx Hnd]. constructor; [by apply IH|].
  apply Forall_forall. intros y Hy.
  pose proof (proj1 (Forall_forall _ _) Hall y Hy) as Hle.
  assert (x ≠ y) by (intros ->; done). simpl in Hle. lia.
Qed.

(** The [k] first positions of [np.argsort], sorted and reversed. *)
Lemma lowest_positions_spec (totalInt : list Q) (k : nat) :
  k ≤ length totalInt →
  let del := reverse (merge_sort le (take k (NpSort.argsort Qle_bool totalInt))) in
  length del = k ∧ StronglySorted (flip lt) del ∧
  ∀ i, i ∈ del →
    ∃ ti, totalInt !! i = Some ti ∧
      ∀ j tj, j ∉ del → totalInt !! j = Some tj → (ti <= tj)%Q.
Proof.
  intros Hk del.
  set (ord := NpSort.argsort Qle_bool totalInt) in *.
  assert (ord ≡ₚ seq 0 (length totalInt)) as Hperm by apply argsort_perm.
  assert (length ord = length totalInt) as Hlen by apply argsort_length.
  assert (NoDup ord) as Hnd by (rewrite Hperm; apply NoDup_seq).
  assert (del ≡ₚ take k ord) as Hdel.
  { unfold del. by rewrite reverse_Permutation, merge_sort_Permutation. }
  split; [|split].
  - rewrite Hdel, length_take. lia.
  - apply Sorted_StronglySorted; [intros x y z; unfold flip; lia|].
    apply Sorted_reverse, StronglySorted_Sorted, ssorted_le_NoDup_lt.
    + apply StronglySorted_merge_sort; [intros x y z; lia|intros x y; lia].
    + rewrite merge_sort_Permutation.
      rewrite <- (take_drop k ord) in Hnd. by apply NoDup_app in Hnd as [? _].
  - intros i Hi. rewrite Hdel in Hi.
    apply list_elem_of_lookup in Hi as [pa Hpa].
    apply lookup_take_Some in Hpa as [Hpa Hpak].
    pose proof (argsort_lookup Qle_bool totalInt pa i Hpa) as Hkey.
    assert (i < length totalInt) as Hirange.
    { assert (i ∈ seq 0 (length totalInt)) as Hin
        by (rewrite <- Hperm; by eapply list_elem_of_lookup_2).
      apply elem_of_seq in Hin. lia. }
    destruct (lookup_lt_is_Some_2 totalInt i Hirange) as [ti Hti].
    exists ti. split; [done|]. intros j tj Hj Htj.
    assert (j ∈ ord) as Hjin.
    { rewrite Hperm. apply elem_of_seq. apply lookup_lt_Some in Htj. lia. }
    apply list_elem_of_lookup in Hjin as [pb Hpb].
    assert (k ≤ pb) as Hkpb.
    { destruct (decide (k ≤ pb)) as [|Hn]; [done|]. exfalso. apply Hj.
      rewrite Hdel. apply list_elem_of_lookup. exists pb.
      apply lookup_take_Some. split; [done|lia]. }
    pose proof (argsort_lookup Qle_bool totalInt pb j Hpb) as Hkeyb.
    rewrite Hti in Hkey. rewrite Htj in Hkeyb.
    pose proof (argsort_sorted Qle_bool Qle_bool_total totalInt) as Hs.
    apply Sorted_Qle_bool in Hs.
    apply Sorted_StronglySorted in Hs; [|intros x y z; apply Qle_trans].
    exact (ssorted_lookup Qle _ pa pb ti tj Hs Hkey Hkeyb ltac:(lia)).
Qed.

(** The calls of [delete_spectrum] when the slice keeps [k] positions. *)
Lemma deleted_spec (spectra : list spectrum) (k : nat) (deleted : list nat) :
  k ≤ length spectra →
  deleted = delete_loop (length spectra)
              (reverse (merge_sort le (take k (NpSort.argsort Qle_bool
                                                 (spectra_totals spectra))))) →
  length deleted = k ∧ StronglySorted (flip lt) deleted ∧ deletes_weakest deleted spectra.
Proof.
  intros Hk ->.
  assert (length (spectra_totals spectra) = length spectra) as Hlt
    by (unfold spectra_totals; by rewrite length_map).
  destruct (lowest_positions_spec (spectra_totals spectra) k) as (Hlen & Hs & Hw); [lia|].
  rewrite delete_loop_all.
  - split; [done|]. split; [done|]. intros i Hi.
    destruct (Hw i Hi) as (ti & Hti & Hle). exists ti. split; [done|].
    intros j tj [_ Hj] Htj. by eapply Hle.
  - destruct (decide (0 < length spectra)); [by right|left].
    apply length_zero_iff_nil. rewrite Hlen. lia.
Qed.

(** X22.  select_top_n_spectra keeps the [n] strongest spectra.  For a
    sample with at least [n >= 0] spectra, [delete_spectrum] is called on
    [len - n] positions, from the highest position down, each once, and
    no deleted spectrum has a larger summed intensity than a spectrum
    that is kept. *)
Theorem select_top_n_spectra_keeps_strongest (a : assay) (n : Z) (k : nat) (sample : string) :
  get_sample_names a !! k = Some sample →
  (0 <= n <= Z.of_nat (length (get_ms_data a sample)))%Z →
  ∃ deleted,
    select_top_n_spectra a (Some n) !! k = Some (sample, deleted) ∧
    Z.of_nat (length deleted) = (Z.of_nat (length (get_ms_data a sample)) - n)%Z ∧
    StronglySorted (flip lt) deleted ∧
    deletes_weakest deleted (get_ms_data a sample).
Proof.
  intros Hk Hn. eexists. split.
  { unfold select_top_n_spectra. change (map ?g ?l) with (g <$> l).
    by rewrite list_lookup_fmap, Hk. }
  set (spectra := get_ms_data a sample) in *.
  assert (length (spectra_totals spectra) = length spectra) as Hlt
    by (unfold spectra_totals; by rewrite length_map).
  destruct (deleted_spec spectra (Z.to_nat (Z.of_nat (length spectra) - n))
              (select_top_n_deleted spectra (Some n))) as (Hlen & Hs & Hw).
  - lia.
  - unfold select_top_n_deleted, py_slice_to. rewrite !argsort_length, Hlt.
    destruct (Z.ltb_spec (Z.of_nat (length spectra) - n) 0); [lia|].
    by rewrite Z.min_l by lia.
  - split; [lia|done].
Qed.

Lemma select_top_n_spectra_keeps_strongest_witness :
  ∃ deleted,
    select_top_n_spectra example_chronogram_assay (Some 2%Z) !! 0 = Some ("S", deleted) ∧
    length deleted = 2.
Proof.
  destruct (select_top_n_spectra_keeps_strongest example_chronogram_assay 2 0 "S")
    as (deleted & H & Hlen & _).
  - reflexivity.
  - simpl. lia.
  - exists deleted. split; [exact H|]. simpl in Hlen. lia.
Defined.

(** X23.  select_top_n_spectra asked for more spectra than the sample
    has.  [ordInte.shape[0] - n] is then negative and the slice counts
    from the end: for [len < n] the function calls [delete_spectrum] on
    [2 * len - n] positions (none from [n >= 2 * len] on), so that with
    [len < n < 2 * len] spectra are deleted although the sample has
    fewer than [n]; they are its weakest ones. *)
Theorem select_top_n_spectra_more_than_present (a : assay) (n : Z) (k : nat)
    (sample : string) :
  get_sample_names a !! k = Some sample →
  (Z.of_nat (length (get_ms_data a sample)) < n)%Z →
  ∃ deleted,
    select_top_n_spectra a (Some n) !! k = Some (sample, deleted) ∧
    length deleted = Z.to_nat (2 * Z.of_nat (length (get_ms_data a sample)) - n) ∧
    StronglySorted (flip lt) deleted ∧
    deletes_weakest deleted (get_ms_data a sample) ∧
    ((n < 2 * Z.of_nat (length (get_ms_data a sample)))%Z → deleted ≠ []).
Proof.
  intros Hk Hn. eexists. split.
  { unfold select_top_n_spectra. change (map ?g ?l) with (g <$> l).
    by rewrite list_lookup_fmap, Hk. }
  set (spectra := get_ms_data a sample) in *.
  assert (length (spectra_totals spectra) = length spectra) as Hlt
    by (unfold spectra_totals; by rewrite length_map).
  destruct (deleted_spec spectra (Z.to_nat (2 * Z.of_nat (length spectra) - n))
              (select_top_n_deleted spectra (Some n))) as (Hlen & Hs & Hw).
  - lia.
  - unfold select_top_n_deleted, py_slice_to. rewrite !argsort_length, Hlt.
    destruct (Z.ltb_spec (Z.of_nat (length spectra) - n) 0); [|lia].
    do 4 f_equal. lia.
  - split; [done|]. split; [done|]. split; [done|].
    intros Hlt2 Hnil. rewrite Hnil in Hlen. simpl in Hlen. lia.
Qed.

Lemma select_top_n_spectra_more_than_present_witness :
  ∃ deleted,
    select_top_n_spectra example_chronogram_assay (Some 5%Z) !! 0 = Some ("S", deleted) ∧
    length deleted = 3.
Proof.
  destruct (select_top_n_spectra_more_than_present example_chronogram_assay 5 0 "S")
    as (deleted & H & Hlen & _).
  - reflexivity.
  - simpl. lia.
  - exists deleted. split; [exact H|exact Hlen].
Defined.

(** X24.  drop_lower_spectra drops the weakest spectra.  When
    [floor(len * drop_rate)] lies between 0 and the number [len] of
    spectra of the sample, [delete_spectrum] is called on that many
    positions, from the highest position down, each once, and no
    deleted spectrum has a larger summed intensity than a spectrum
    that is kept. *)
Theorem drop_lower_spectra_drops_weakest (math_floor_mul : nat → Q → Z) (a : assay)
    (drop_rate : Q) (k : nat) (sample : string) :
  get_sample_names a !! k = Some sample →
  (0 <= math_floor_mul (length (get_ms_data a sample)) drop_rate
     <= Z.of_nat (length (get_ms_data a sample)))%Z →
  ∃ deleted,
    drop_lower_spectra math_floor_mul a (Some drop_rate) !! k = Some (sample, deleted) ∧
    Z.of_nat (length deleted) = math_floor_mul (length (get_ms_data a sample)) drop_rate ∧
    StronglySorted (flip lt) deleted ∧
    deletes_weakest deleted (get_ms_data a sample).
Proof.
  intros Hk Hn. eexists. split.
  { unfold drop_lower_spectra. change (map ?g ?l) with (g <$> l).
    by rewrite list_lookup_fmap, Hk. }
  set (spectra := get_ms_data a sample) in *.
  assert (length (spectra_totals spectra) = length spectra) as Hlt
    by (unfold spectra_totals; by rewrite length_map).
  destruct (deleted_spec spectra (Z.to_nat (math_floor_mul (length spectra) drop_rate))
              (drop_lower_deleted math_floor_mul spectra (Some drop_rate)))
    as (Hlen & Hs & Hw).
  - lia.
  - unfold drop_lower_deleted, py_slice_to. rewrite !argsort_length, Hlt.
    destruct (Z.ltb_spec (math_floor_mul (length spectra) drop_rate) 0); [lia|].
    by rewrite Z.min_l by lia.
  - split; [lia|done].
Qed.

Lemma drop_lower_spectra_drops_weakest_witness :
  ∃ deleted,
    drop_lower_spectra (λ n r, Qfloor (inject_Z (Z.of_nat n) * r)) example_chronogram_assay
      (Some (1 # 2)%Q) !! 0 = Some ("S", deleted) ∧
    length deleted = 2.
Proof.
  destruct (drop_lower_spectra_drops_weakest (λ n r, Qfloor (inject_Z (Z.of_nat n) * r))
              example_chronogram_assay (1 # 2) 0 "S") as (deleted & H & Hlen & _).
  - reflexivity.
  - vm_compute. split; discriminate.
  - exists deleted. split; [exact H|]. apply Nat2Z.inj. rewrite Hlen. reflexivity.
Defined.

Example select_top_n_spectra_example :
  select_top_n_spectra example_chronogram_assay (Some 2%Z) = [("S", [3; 1])]
  ∧ select_top_n_spectra example_chronogram_assay (Some 5%Z) = [("S", [3; 1; 0])]
  ∧ select_top_n_spectra example_chronogram_assay (Some 8%Z) = [("S", [])]
  ∧ select_top_n_spectra example_chronogram_assay (Some (-1)%Z) = [("S", [3; 2; 1; 0])]
  ∧ select_top_n_spectra example_chronogram_assay None = [("S", [])].
Proof. vm_compute. done. Qed.

(** ** describe_MZ_cluster *)

Lemma py_row_mod (k : nat) (j : Z) :
  (- Z.of_nat k <= j < Z.of_nat k)%Z →
  py_row k j = Ok (Z.to_nat (j mod Z.of_nat k)) ∧ Z.to_nat (j mod Z.of_nat k) < k.
Proof.
  intros Hj. unfold py_row.
  assert (0 <= j mod Z.of_nat k < Z.of_nat k)%Z as Hmod by (apply Z.mod_pos_bound; lia).
  split; [|lia].
  destruct (Z.leb_spec 0 j).
  - destruct (Z.ltb_spec j (Z.of_nat k)); [|lia]. by rewrite Z.mod_small by lia.
  - destruct (Z.leb_spec (- Z.of_nat k) j); [|lia]. do 2 f_equal.
    apply Z.mod_unique with (-1)%Z; [left|]; lia.
Qed.

Lemma describe_signal_spec (mz intensity : list Q) (clust : list Z) (M : matrix)
    i j m x r row :
  matrix_wf M → shape1 M = 7 →
  clust !! i = Some j → mz !! i = Some m → intensity !! i = Some x →
  py_row (shape0 M) j = Ok r → r < shape0 M → rows M !! r = Some row →
  ∃ M', describe_MZ_cluster_signal mz intensity clust M i = Ok M' ∧
        matrix_wf M' ∧ shape0 M' = shape0 M ∧ shape1 M' = 7 ∧
        rows M' !! r = Some (describe_row_update row (j, (m, x))) ∧
        ∀ r', r' ≠ r → rows M' !! r' = rows M !! r'.
Proof.
  intros [Hlen Hall] H7 Hj Hm Hx Hr Hrlt Hrow.
  destruct M as [s0 s1 rs]. simpl in *. subst s1.
  assert (length row = 7) as Hrowlen.
  { by eapply (proj1 (Forall_lookup _ _) Hall). }
  destruct row as [|c0 [|c1 [|c2 [|c3 [|c4 [|c5 [|c6 [|]]]]]]]]; try done.
  unfold describe_MZ_cluster_signal, at_index. rewrite Hj, Hm, Hx. cbn [mbind result_bind].
  simpl shape0. rewrite Hr. cbn [mbind result_bind].
  unfold Mat.set at 6. simpl shape0. simpl shape1.
  rewrite decide_True by lia. cbn [mbind result_bind].
  unfold Mat.get at 5. cbn [rows]. rewrite list_lookup_alter_eq, Hrow.
  cbn [fmap option_fmap option_map mbind result_bind]. simpl lookup.
  cbn [mbind result_bind].
  unfold Mat.set at 5. simpl shape0. simpl shape1.
  rewrite decide_True by lia. cbn [mbind result_bind].
  unfold Mat.get at 4. cbn [rows]. rewrite !list_lookup_alter_eq, Hrow.
  cbn [fmap option_fmap option_map mbind result_bind]. simpl lookup.
  cbn [mbind result_bind].
  unfold Mat.set at 4. simpl shape0. simpl shape1.
  rewrite decide_True by lia. cbn [mbind result_bind].
  unfold Mat.get at 3. cbn [rows]. rewrite !list_lookup_alter_eq, Hrow.
  cbn [fmap option_fmap option_map mbind result_bind]. simpl lookup.
  cbn [mbind result_bind].
  unfold Mat.set at 3. simpl shape0. simpl shape1.
  rewrite decide_True by lia. cbn [mbind result_bind].
  unfold Mat.get at 2. cbn [rows]. rewrite !list_lookup_alter_eq, Hrow.
  cbn [fmap option_fmap option_map mbind result_bind]. simpl lookup.
  cbn [mbind result_bind].
  unfold Mat.set at 2. simpl shape0. simpl shape1.
  rewrite decide_True by lia. cbn [mbind result_bind].
  unfold Mat.get at 1. cbn [rows]. rewrite !list_lookup_alter_eq, Hrow.
  cbn [fmap option_fmap option_map mbind result_bind]. simpl lookup.
  cbn [mbind result_bind].
  unfold Mat.set. simpl shape0. simpl shape1.
  rewrite decide_True by lia.
  eexists. split; [reflexivity|]. cbn [rows shape0 shape1].
  split; [|split; [done|split; [done|split]]].
  - split; cbn [rows shape0 shape1].
    + by rewrite !length_alter.
    + repeat (apply Forall_alter; [|intros ? _ Hl; by rewrite length_insert]). done.
  - rewrite !list_lookup_alter_eq, Hrow. reflexivity.
  - intros r' Hr'. by rewrite !list_lookup_alter_ne by done.
Qed.

Section describe_loop.

Variables (mz intensity : list Q) (clust : list Z) (k : nat).
Hypothesis Hcl : length clust = length mz.
Hypothesis Hil : length intensity = length mz.
Hypothesis Hrange : ∀ j, j ∈ clust → (- Z.of_nat k <= j < Z.of_nat k)%Z.

Let signals := zip clust (zip mz intensity).
Let init_row := [Fin 0; Fin 0; PInf; Fin 0; Fin 0; Fin 0; Fin 0].
Let row_mask (r : nat) (cl : list Z) : list bool :=
  map (λ j, bool_decide (Z.to_nat (j mod Z.of_nat k) = r)) cl.
Let Inv (i : nat) (M : matrix) : Prop :=
  matrix_wf M ∧ shape0 M = k ∧ shape1 M = 7 ∧
  ∀ r, r < k →
    rows M !! r = Some (fold_left describe_row_update
                          (Np.sel (row_mask r (take i clust)) (take i signals)) init_row).

Lemma describe_loop d : ∀ i M,
  i + d = length mz → Inv i M →
  ∃ M', for_each (describe_MZ_cluster_signal mz intensity clust) (seq i d) M = Ok M' ∧
        Inv (length mz) M'.
Proof.
  induction d as [|d IH]; intros i M Hid HInv.
  - exists M. split; [done|]. by replace (length mz) with i by lia.
  - cbn [seq for_each].
    destruct HInv as (Hwf & Hs0 & Hs1 & Hrows).
    destruct (lookup_lt_is_Some_2 clust i) as [j Hj]; [lia|].
    destruct (lookup_lt_is_Some_2 mz i) as [m Hm]; [lia|].
    destruct (lookup_lt_is_Some_2 intensity i) as [x Hx]; [lia|].
    destruct (py_row_mod k j) as [Hr Hrlt].
    { apply Hrange. by eapply list_elem_of_lookup_2. }
    set (r := Z.to_nat (j mod Z.of_nat k)) in *.
    destruct (describe_signal_spec mz intensity clust M i j m x r _
                Hwf Hs1 Hj Hm Hx ltac:(by rewrite Hs0) ltac:(lia) (Hrows r Hrlt))
      as (M' & HM' & Hwf' & Hs0' & Hs1' & Hrow' & Hother).
    rewrite HM'. cbn [mbind result_bind]. apply IH; [lia|].
    split; [done|]. split; [lia|]. split; [done|].
    intros r' Hr'.
    assert (signals !! i = Some (j, (m, x))) as Hsig.
    { unfold signals. apply lookup_zip_Some. split; [done|].
      by apply lookup_zip_Some. }
    rewrite (take_S_r clust i j Hj), (take_S_r signals i _ Hsig).
    unfold row_mask. rewrite map_app. cbn [map].
    rewrite sel_snoc.
    2:{ rewrite length_map, !length_take. unfold signals.
        rewrite !length_zip. lia. }
    rewrite fold_left_app.
    destruct (decide (r' = r)) as [->|Hne].
    + rewrite bool_decide_true by done. simpl. by rewrite Hrow'.
    + rewrite bool_decide_false by (fold r; congruence). simpl.
      rewrite Hother by done. by apply Hrows.
Qed.

Lemma describe_loop_init :
  Inv 0 (set_column 2 (λ _, PInf) (Mat.zeros k 7)).
Proof.
  split; [|split; [done|split; [done|]]].
  - split; simpl.
    + by rewrite length_map, length_replicate.
    + apply Forall_forall. intros row Hrow.
      apply list_elem_of_fmap in Hrow as (row0 & -> & Hrow0).
      apply elem_of_replicate in Hrow0 as [-> _]. done.
  - intros r Hr. simpl. change (map ?g ?l) with (g <$> l).
    rewrite list_lookup_fmap, lookup_replicate_2 by done. done.
Qed.

End describe_loop.

(** The row that the signals of one cluster leave behind. *)
Lemma describe_row_fold (j : Z) (l : list (Z * (Q * Q))) :
  Forall (λ s, s.1 = j ∧ 0 < s.2.1)%Q l → l ≠ [] →
  ∃ n lo hi,
    fold_left describe_row_update l [Fin 0; Fin 0; PInf; Fin 0; Fin 0; Fin 0; Fin 0]
    = [Fin (inject_Z j); Fin n; Fin lo; Fin (Qsum (map (λ s, s.2.1) l)); Fin hi; Fin 0;
       Fin (Qsum (map (λ s, s.2.2) l))] ∧
    (n == inject_Z (Z.of_nat (length l)))%Q ∧
    lo ∈ map (λ s, s.2.1) l ∧ Forall (λ m, lo <= m)%Q (map (λ s, s.2.1) l) ∧
    hi ∈ map (λ s, s.2.1) l ∧ Forall (λ m, m <= hi)%Q (map (λ s, s.2.1) l).
Proof.
  induction l as [|[j' [m x]] l IH] using rev_ind; intros Hall Hne; [done|].
  apply Forall_app in Hall as [Hl Hs]. apply Forall_inv in Hs as [Hj Hm].
  simpl in Hj, Hm. subst j'.
  rewrite fold_left_app, !map_app, length_app. cbn [map fold_left length].
  rewrite !Qsum_snoc.
  destruct l as [|s0 l0].
  - simpl. exists (0 + 1)%Q, m, m. change (Qle_bool m 0) with (Qle_bool m 0).
    unfold describe_row_update, cell, xfloat_minimum, xfloat_maximum. simpl.
    assert (Qle_bool m 0 = false) as ->.
    { destruct (Qle_bool m 0) eqn:E; [|done]. apply Qle_bool_iff in E. lra. }
    split; [done|]. split; [done|].
    split; [apply list_elem_of_singleton; done|].
    split; [apply Forall_singleton; lra|].
    split; [apply list_elem_of_singleton; done|]. apply Forall_singleton; lra.
  - destruct (IH Hl ltac:(done)) as (n & lo & hi & -> & Hn & Hlo & Hlo' & Hhi & Hhi').
    unfold describe_row_update, cell, xfloat_minimum, xfloat_maximum.
    cbn [lookup list_lookup default fst snd XFloat.isnan orb XFloat.leb XFloat.add].
    unfold id. cbn [XFloat.isnan orb XFloat.leb XFloat.add].
    set (ms := map (λ s : Z * (Q * Q), s.2.1) (s0 :: l0)) in *.
    exists (n + 1)%Q, (if Qle_bool m lo then m else lo), (if Qle_bool m hi then hi else m).
    split; [by destruct (Qle_bool m lo), (Qle_bool m hi)|].
    split.
    { rewrite Hn. rewrite Nat2Z.inj_add, inject_Z_plus. simpl. reflexivity. }
    destruct (Qle_bool m lo) eqn:Elo; destruct (Qle_bool m hi) eqn:Ehi;
      try apply Qle_bool_iff in Elo; try apply Qle_bool_iff in Ehi;
      try (assert (lo < m)%Q as Elo'
             by (apply Qnot_le_lt; intros Hc; apply Qle_bool_iff in Hc; congruence));
      try (assert (hi < m)%Q as Ehi'
             by (apply Qnot_le_lt; intros Hc; apply Qle_bool_iff in Hc; congruence));
      (split; [apply elem_of_app; first [by left | right; by apply list_elem_of_singleton]|]);
      (split; [apply Forall_app; split;
                 [eapply Forall_impl; [exact Hlo'|]; simpl; intros; lra
                 |apply Forall_singleton; lra]|]);
      (split; [apply elem_of_app; first [by left | right; by apply list_elem_of_singleton]|]);
      (apply Forall_app; split;
         [eapply Forall_impl; [exact Hhi'|]; simpl; intros; lra
         |apply Forall_singleton; lra]).
Qed.

Lemma sel_eq_mask_zip {B} (j : Z) (clust : list Z) (ys : list B) :
  Forall (λ s, s.1 = j) (Np.sel (Np.eq_mask j clust) (zip clust ys)).
Proof.
  revert ys. induction clust as [|c clust IH]; intros [|y ys]; simpl; try constructor.
  destruct (Z.eqb_spec j c); [constructor; [done|]|]; apply IH.
Qed.

(** X25.  describe_MZ_cluster.  Let [k] be the number of distinct ids.
    When the three arrays have one length, the masses are positive,
    every id lies in [[-k, k)] and no two ids meet in a row ([j] and
    [j - k] do): the function returns a [k x 7] array in which the row
    [j] (the row [k + j] for a negative id) describes the cluster [j]:
    id, number of signals, smallest, mean and largest mass, PPM
    spread [(max - min) / mean * 1E6] and summed intensity.  This is so
    for the ids [0 .. k-1], and for [-1] with [0 .. k-2], where the
    unassigned signals are described in the last row. *)
Theorem describe_MZ_cluster_rows (mz intensity : list Q) (clust : list Z) :
  let k := length (Np.unique clust) in
  length clust = length mz → length intensity = length mz →
  Forall (λ m, 0 < m)%Q mz →
  (∀ j, j ∈ clust → (- Z.of_nat k <= j < Z.of_nat k)%Z) →
  (∀ j j', j ∈ clust → j' ∈ clust →
           (j mod Z.of_nat k = j' mod Z.of_nat k)%Z → j = j') →
  ∃ mzDesc,
    describe_MZ_cluster mz intensity clust = Ok mzDesc ∧
    shape0 mzDesc = k ∧ shape1 mzDesc = 7 ∧ length (rows mzDesc) = k ∧
    ∀ j, j ∈ clust →
      ∃ row, rows mzDesc !! Z.to_nat (j mod Z.of_nat k) = Some row ∧
             describes_cluster row j (cluster_mzs mz clust j) (cluster_mzs intensity clust j).
Proof.
  intros k Hcl Hil Hpos Hrange Hinj.
  destruct (describe_loop mz intensity clust k Hcl Hil Hrange (length mz) 0
              (set_column 2 (λ _, PInf) (Mat.zeros k 7)))
    as (M & HM & Hwf & Hs0 & Hs1 & Hrows); [lia|apply describe_loop_init|].
  unfold describe_MZ_cluster. fold k. rewrite HM. cbn [mbind result_bind].
  eexists. split; [reflexivity|]. cbn [set_column shape0 shape1 rows].
  split; [done|]. split; [done|]. split.
  { rewrite !length_map. by destruct Hwf as [-> _]. }
  intros j Hj.
  assert (0 < k) as Hk by (specialize (Hrange j Hj); lia).
  assert (0 <= j mod Z.of_nat k < Z.of_nat k)%Z as Hmod by (apply Z.mod_pos_bound; lia).
  set (r := Z.to_nat (j mod Z.of_nat k)).
  assert (r < k) as Hr by (unfold r; lia).
  specialize (Hrows r Hr).
  set (signals := zip clust (zip mz intensity)) in *.
  assert (length signals = length clust) as Hsl.
  { unfold signals. rewrite !length_zip. lia. }
  rewrite (take_ge clust) in Hrows by lia.
  rewrite (take_ge signals) in Hrows by lia.
  assert (map (λ c, bool_decide (Z.to_nat (c mod Z.of_nat k) = r)) clust
          = Np.eq_mask j clust) as Hmask.
  { unfold Np.eq_mask. apply map_ext_in. intros c Hc. apply list_elem_of_In in Hc.
    destruct (Z.eqb_spec j c) as [->|Hne].
    - by apply bool_decide_true.
    - apply bool_decide_false. intros Heq. apply Hne. apply Hinj; [done|done|].
      assert (0 <= c mod Z.of_nat k < Z.of_nat k)%Z by (apply Z.mod_pos_bound; lia).
      unfold r in Heq. lia. }
  rewrite Hmask in Hrows.
  set (l := Np.sel (Np.eq_mask j clust) signals) in *.
  assert (map (λ s : Z * (Q * Q), s.2.1) l = cluster_mzs mz clust j) as Hms.
  { unfold l, cluster_mzs. change (map ?g ?x) with (g <$> x).
    rewrite <- sel_fmap. f_equal. unfold signals.
    trans ((zip clust (zip mz intensity)).*2.*1);
      [by rewrite <- list_fmap_compose|].
    rewrite snd_zip by (rewrite length_zip; lia). apply fst_zip. lia. }
  assert (map (λ s : Z * (Q * Q), s.2.2) l = cluster_mzs intensity clust j) as Hxs.
  { unfold l, cluster_mzs. change (map ?g ?x) with (g <$> x).
    rewrite <- sel_fmap. f_equal. unfold signals.
    trans ((zip clust (zip mz intensity)).*2.*2);
      [by rewrite <- list_fmap_compose|].
    rewrite snd_zip by (rewrite length_zip; lia). apply snd_zip. lia. }
  assert (Forall (λ s : Z * (Q * Q), s.1 = j ∧ (0 < s.2.1)%Q) l) as Hall.
  { apply Forall_and. split; [apply sel_eq_mask_zip|].
    apply sel_Forall. apply Forall_forall. intros [c [m x]] Hs.
    apply list_elem_of_lookup in Hs as [i Hi].
    apply lookup_zip_Some in Hi as [_ Hi]. apply lookup_zip_Some in Hi as [Hi _].
    simpl. eapply Forall_lookup_1 in Hpos; [|exact Hi]. done. }
  assert (l ≠ []) as Hne by (apply sel_eq_mask_nonempty; [lia|done]).
  destruct (describe_row_fold j l Hall Hne) as (n & lo & hi & Hfold & Hn & Hlo & Hlo' & Hhi & Hhi').
  rewrite Hfold in Hrows. rewrite Hms in *. rewrite Hxs in *.
  assert (0 < length (cluster_mzs mz clust j)) as Hlen.
  { rewrite <- Hms, length_map. destruct l; [done|simpl; lia]. }
  assert (0 < n)%Q as Hnpos.
  { rewrite Hn. change 0%Q with (inject_Z 0). rewrite <- Zlt_Qlt.
    rewrite <- Hms, length_map in Hlen. lia. }
  assert (0 < Qsum (cluster_mzs mz clust j))%Q as Hsum.
  { apply fold_Qplus_pos; [lra| |intros Hnil; rewrite Hnil in Hlen; simpl in Hlen; lia].
    unfold cluster_mzs. by apply sel_Forall. }
  assert (0 < Qsum (cluster_mzs mz clust j) / n)%Q as Havg.
  { apply Qlt_shift_div_l; [done|]. lra. }
  change (map ?g ?x) with (g <$> x). rewrite !list_lookup_fmap, Hrows.
  cbn [fmap option_fmap option_map].
  eexists. split; [reflexivity|].
  unfold cell. cbn [lookup list_lookup insert list_insert default from_option]. unfold id.
  cbn [XFloat.div].
  assert (Qeq_bool n 0 = false) as ->.
  { destruct (Qeq_bool n 0) eqn:E; [|done]. apply Qeq_bool_iff in E. lra. }
  cbn [lookup list_lookup insert list_insert default from_option xfloat_sub
       XFloat.neg XFloat.add XFloat.div]. unfold id.
  assert (Qeq_bool (Qsum (cluster_mzs mz clust j) / n) 0 = false) as ->.
  { destruct (Qeq_bool _ 0) eqn:E; [|done]. apply Qeq_bool_iff in E. lra. }
  cbn [xfloat_mul].
  exists n, lo, (Qsum (cluster_mzs mz clust j) / n)%Q, hi,
    ((hi + - lo) / (Qsum (cluster_mzs mz clust j) / n) * ppm_factor)%Q,
    (Qsum (cluster_mzs intensity clust j)).
  split; [reflexivity|].
  split; [by rewrite Hn, <- Hms, length_map|].
  do 4 (split; [done|]). split; [reflexivity|]. split; reflexivity.
Qed.

Lemma describe_MZ_cluster_rows_witness :
  ∃ mzDesc row,
    describe_MZ_cluster [100; 50; 200; 102; 52]%Q [10; 1; 30; 20; 3]%Q [0; -1; 1; 0; -1]%Z
    = Ok mzDesc ∧
    rows mzDesc !! 2 = Some row ∧
    describes_cluster row (-1) [50; 52]%Q [1; 3]%Q.
Proof.
  destruct (describe_MZ_cluster_rows [100; 50; 200; 102; 52]%Q [10; 1; 30; 20; 3]%Q
              [0; -1; 1; 0; -1]%Z) as (mzDesc & H & _ & _ & _ & Hrows).
  - reflexivity.
  - reflexivity.
  - repeat (apply Forall_cons_2; [reflexivity|]). constructor.
  - intros j Hj. change (length (Np.unique [0; -1; 1; 0; -1]%Z)) with 3.
    repeat (apply elem_of_cons in Hj as [->|Hj]; [lia|]). by apply elem_of_nil in Hj.
  - intros j j' Hj Hj'. change (length (Np.unique [0; -1; 1; 0; -1]%Z)) with 3.
    repeat (apply elem_of_cons in Hj as [->|Hj];
            [repeat (apply elem_of_cons in Hj' as [->|Hj']; [by (reflexivity || discriminate)|]);
             by apply elem_of_nil in Hj'|]).
    by apply elem_of_nil in Hj.
  - destruct (Hrows (-1)%Z) as (row & Hrow & Hd).
    + apply elem_of_cons. right. apply elem_of_cons. by left.
    + exists mzDesc, row. split; [exact H|]. split; [exact Hrow|exact Hd].
Defined.

Section describe_out_of_range.

Variables (mz intensity : list Q) (clust : list Z) (k : nat).
Hypothesis Hcl : length clust = length mz.
Hypothesis Hil : length intensity = length mz.

Lemma describe_loop_out_of_range d : ∀ i M,
  matrix_wf M → shape0 M = k → shape1 M = 7 → i + d = length mz →
  (∃ i' j, i ≤ i' ∧ clust !! i' = Some j ∧ ¬ (- Z.of_nat k <= j < Z.of_nat k)%Z) →
  for_each (describe_MZ_cluster_signal mz intensity clust) (seq i d) M = Raise IndexError.
Proof.
  induction d as [|d IH]; intros i M Hwf Hs0 Hs1 Hid (i' & j & Hi' & Hj & Hout).
  - apply lookup_lt_Some in Hj. lia.
  - cbn [seq for_each].
    destruct (lookup_lt_is_Some_2 clust i) as [j0 Hj0]; [lia|].
    destruct (lookup_lt_is_Some_2 mz i) as [m Hm]; [lia|].
    destruct (lookup_lt_is_Some_2 intensity i) as [x Hx]; [lia|].
    destruct (decide (- Z.of_nat k <= j0 < Z.of_nat k)%Z) as [Hin|Hnin].
    + destruct (py_row_mod k j0 Hin) as [Hr Hrlt].
      destruct (lookup_lt_is_Some_2 (rows M) (Z.to_nat (j0 mod Z.of_nat k))) as [row Hrow].
      { destruct Hwf as [-> _]. lia. }
      destruct (describe_signal_spec mz intensity clust M i j0 m x _ row
                  Hwf Hs1 Hj0 Hm Hx ltac:(by rewrite Hs0) ltac:(lia) Hrow)
        as (M' & -> & Hwf' & Hs0' & Hs1' & _).
      cbn [mbind result_bind]. apply IH; [done|lia|done|lia|].
      exists i', j. split; [|done].
      destruct (decide (i' = i)) as [->|]; [|lia]. congruence.
    + unfold describe_MZ_cluster_signal, at_index. rewrite Hj0. cbn [mbind result_bind].
      rewrite Hs0. unfold py_row.
      destruct (Z.leb_spec 0 j0).
      * destruct (Z.ltb_spec j0 (Z.of_nat k)); [lia|done].
      * destruct (Z.leb_spec (- Z.of_nat k) j0); [lia|done].
Qed.

End describe_out_of_range.

(** X26.  describe_MZ_cluster on ids that do not fit the rows.  The
    array has one row per distinct id; a signal whose id is not in
    [[-k, k)] ([k] the number of distinct ids), as after a clustering
    whose ids were not reindexed, makes the call raise [IndexError]. *)
Theorem describe_MZ_cluster_id_out_of_range (mz intensity : list Q) (clust : list Z) (j : Z) :
  let k := length (Np.unique clust) in
  length clust = length mz → length intensity = length mz →
  j ∈ clust → (j < - Z.of_nat k ∨ Z.of_nat k <= j)%Z →
  describe_MZ_cluster mz intensity clust = Raise IndexError.
Proof.
  intros k Hcl Hil Hj Hout. unfold describe_MZ_cluster. fold k.
  rewrite (describe_loop_out_of_range mz intensity clust k Hcl Hil (length mz) 0); [done| | | |lia|].
  - split; simpl.
    + by rewrite length_map, length_replicate.
    + apply Forall_forall. intros row Hrow.
      apply list_elem_of_fmap in Hrow as (row0 & -> & Hrow0).
      apply elem_of_replicate in Hrow0 as [-> _]. done.
  - done.
  - done.
  - apply list_elem_of_lookup in Hj as [i Hi]. exists i, j. split; [lia|]. split; [done|lia].
Qed.

Lemma describe_MZ_cluster_id_out_of_range_witness :
  describe_MZ_cluster [100; 200; 300]%Q [1; 1; 1]%Q [0; 0; 5]%Z = Raise IndexError.
Proof.
  apply (describe_MZ_cluster_id_out_of_range _ _ _ 5%Z).
  - reflexivity.
  - reflexivity.
  - apply elem_of_cons. right. apply elem_of_cons. right. apply elem_of_cons. by left.
  - right. vm_compute. discriminate.
Defined.

Example describe_MZ_cluster_example :
  describe_MZ_cluster [100; 50; 200; 102]%Q [10; 1; 30; 20]%Q [0; -1; 1; 0]%Z
  = Ok {| shape0 := 3; shape1 := 7;
          rows := [ [Fin 0; Fin 2; Fin 100; Fin (202 # 2); Fin 102; Fin (4000000 # 202); Fin 30];
                    [Fin 1; Fin 1; Fin 200; Fin 200; Fin 200; Fin (0 # 200); Fin 30];
                    [Fin (-1); Fin 1; Fin 50; Fin 50; Fin 50; Fin (0 # 50); Fin 1] ]%Q |}.
Proof. vm_compute. reflexivity. Qed.
